(* ===== verification/_CoqProject ===== *)
-Q . S2P
Prelude.v
Utf8.v
Clru.v
BoundedTtlCache.v
LeaseAwareCache.v
Primitives.v
WireCrates.v
ServerCrypto.v
ServerEnvelope.v
ServerFraming.v
ServerSession.v
Gateway.v
SdkCrypto.v
SdkEnvelope.v
SdkFraming.v
Tunnel.v
Registry.v
Inference.v
Reasoning.v
Catalog.v
Json.v
RequestPolicy.v
ApiErrors.v
Health.v
HealthProcess.v
StickyRoutes.v
Planning.v
Routing.v
AutoModel.v
CompletionTurn.v
Sse.v
CompletionStream.v
AttemptExecution.v
PiTypes.v
Transcript.v
Truncate.v
PiJson.v
AssistantStream.v
Validation.v
AgentTypes.v
AgentLoop.v
AgentInvariant.v
AgentRun.v
AgentDeclare.v
AgentObject.v
