(* ===== verification/Prelude.v ===== *)
(** * Maple / OpenSecret: verification of the transport, inference and agent cores

    This development models the protocol and inference core of the OpenSecret backend
    ([src/services/opensecret/src/], written [S/] below), the client half of its encrypted
    transport in the Rust SDK ([src/sdk/rust/src/transport_v2/], written [K/]), and the core of the
    Maple agent ([src/apps/maple-agent/crates/], written [A/]), all in Rust, as executable Rocq
    definitions, and proves what makes them correct.

    ** The program's parts and how they interact

    A client SDK performs a handshake with the enclave's transport gateway and then sends logical
    HTTP requests, each encrypted as one record under the session; the gateway admits every request
    identifier once, runs the inner application, and streams the response back as sealed records.
    Inside the application, a chat completion is first given a model (an alias is resolved by the Auto
    policy over the model catalog) and its body is rewritten for that model.  The request is then
    planned onto a provider route: the registry names the routes, route health says which may be used,
    sticky memory and account buckets choose among them.  A turn claims its route, an attempt sends the
    request and consumes the response, and every attempt reports back to route health exactly once;
    its failure is answered from a closed vocabulary.  Several caches with idle deadlines serve all of
    this.

    The agent is a client program.  Its loop sends the transcript to a provider, which reports its
    response through a builder as a stream of events; it executes the tool calls of the response, each
    behind a gate, appends their results and goes on until nothing is left to do.  Tools truncate what
    they return, and arguments cut off mid-stream are repaired so that they can be shown.

    ** Files

    Shared: [Prelude] (results, machine integers, bytes, time, lists, maps, tactics); [Clru] (the
    [clru] crate as a class with laws, and a list-backed instance); [Primitives] and [WireCrates]
    (cryptography, hex, JSON, http, url and base64 crates as classes of functions with the laws the
    code relies on, each with a toy instance used by the witnesses).

    - [BoundedTtlCache]: S/bounded_ttl_cache.rs.
    - [LeaseAwareCache]: S/lease_aware_cache.rs, its [Arc]s and atomics on an explicit heap.
    - [ServerCrypto], [ServerEnvelope], [ServerFraming], [ServerSession], [Gateway]:
      S/transport_v2/crypto.rs, envelope.rs, framing.rs, session.rs, gateway.rs.
    - [SdkCrypto], [SdkEnvelope], [SdkFraming]: K/mod.rs, crypto.rs, envelope.rs, framing.rs.
    - [Tunnel]: no code of its own; it relates the two independent implementations.
    - [Registry]: S/provider_registry.rs and the model identifiers of S/model_config.rs.
    - [Inference]: S/inference.rs, the decision types of S/inference/auto_model.rs, and
      S/provider_client/diagnostics.rs's record.
    - [Reasoning], [Catalog]: S/model_config.rs; reasoning efforts, then models, plans and aliases.
    - [Json]: serde_json's values, with the crate's parser, printer and numbers as parameters.
    - [RequestPolicy]: S/web/model_request_policy.rs.
    - [ApiErrors]: [ApiError] of S/main.rs, S/web/provider_error.rs, the error types of
      S/web/system_one.rs and S/web/transcription.rs, and the classification of provider failures in
      S/provider_client.rs and S/web/openai.rs.
    - [Health], [HealthProcess]: S/inference/health.rs; its operations and their effect on one
      gate, then the interleavings of concurrent attempts.
    - [StickyRoutes]: S/inference/sticky_routes.rs, a client of [BoundedTtlCache].
    - [Planning]: S/inference_planning.rs.
    - [Routing]: S/provider_routing.rs and the accessors of S/proxy_config.rs, on top of [Health],
      [StickyRoutes] and [Planning].
    - [AutoModel]: S/inference/auto_model.rs and what an alias publishes.
    - [CompletionTurn]: S/web/openai.rs from [resolve_inference_model] to [claim_completion_turn] and
      the decision loop of [proxy_openai].
    - [Sse], [CompletionStream]: S/web/openai.rs, [extract_sse_frame] and
      [process_completion_stream_with_frame_limit] with everything they call.
    - [AttemptExecution]: S/web/openai.rs, [AttemptObservationGuard], the attempt inside
      [get_chat_completion_response_with_options], and [finish_started_completion]; the body filter of
      S/maple_inference.rs.
    - [Utf8]: the operations of Rust's [str] the agent uses, over lists of bytes.
    - [PiTypes], [Transcript]: A/pi-ai/src/types.rs and transcript.rs.
    - [Truncate]: A/pi-coding-agent/src/tools/truncate.rs.
    - [PiJson]: A/pi-ai/src/json.rs.
    - [AssistantStream]: A/pi-ai/src/stream.rs, a client of [PiJson].
    - [AgentTypes]: A/pi-agent-core/src/types.rs, hooks.rs and the traits of agent_loop.rs: records of
      operations on an abstract world ([AgentHooks], [MessageQueues], [StreamFn]).
    - [Validation]: A/pi-ai/src/validation.rs: what becomes of a tool's arguments before it runs.
    - [AgentLoop]: A/pi-agent-core/src/agent_loop.rs in a state monad over that world, with the history
      of what happened; [AgentRun] is its program logic and the properties of a run, [AgentDeclare]
      those of the tool declarations, [AgentInvariant] the rule for clients whose world is more than an oracle.
    - [AgentObject]: A/pi-agent-core/src/agent.rs: the object around the loop, whose runs are [AgentLoop]'s in a world
      that pairs the agent with the outside.

    Definitions keep the source's names; where two impl blocks share one ([new], [validate]), a
    prefix tells them apart.  Structs are records, enums inductive types, HashMaps [gmap]s.  A
    [Result] is [result]; a panic, a failed [expect] or a loop that would not end is [None] of an
    outer [option], and theorems show it does not happen.  Code under a mutex is a function of the
    state it locks and of the instant read under the lock; concurrency is interleaving of such steps.

    ** What the theorems show

    - Transport, end to end ([Tunnel]): both ends derive the same session; a request arrives
      unchanged; of a response with a representable head, the status, the headers that pass the envelope's validation
      and the whole body arrive, however the network cuts it, of any other a bare 500, and every truncation is
      noticed; only a head of more than 64 KiB is answered outside the channel.
    - Records ([ServerCrypto], [SdkCrypto]): nonces and associated data never repeat; accepted
      records are canonical; session identifiers have one spelling.
    - Envelopes and framing ([ServerEnvelope], [SdkFraming]): round trip; the envelopes accepted
      are exactly those that obey every limit and filter; the decoder is independent of chunking, and accepts only
      complete responses.
    - Sessions ([ServerSession], [Gateway]): at most one admission per request identifier; an exact,
      bounded replay budget; exact reference counts; live sessions are never evicted; the handlers
      keep all of that on every branch.
    - Caches ([BoundedTtlCache], [LeaseAwareCache], [StickyRoutes]): capacity, exact expiry sweeps
      although they stop early, one-shot takes, leased values stay resident, remembered routes.
    - Route health ([HealthProcess]): half-open probes are owned by exactly one live lease; only a
      matching probe heals; claims agree with snapshots; circuits open on the third failure in a
      minute; capacity cooldowns are enforced; the memory is fixed and every call returns.
    - Planning and routing ([Planning], [Routing]): weighted selection is an exact partition of the
      buckets; plans select eligible routes of the requested model for a stated reason; production
      splits are the documented ones; selection terminates under any readiness changes and selects
      an admitted route with its own proxy, or ends in the error that says how its last round ended.
    - Models and bodies ([AutoModel], [Reasoning], [RequestPolicy]): the Auto decision is the first
      admissible candidate with the true causes of every rejection; clamping is to the nearest accepted
      effort; a rewritten body is one the model can serve, and is otherwise the body that was sent.
    - Turns and attempts ([CompletionTurn], [AttemptExecution], [ApiErrors]): claiming ends and holds
      exactly the lease it won; a chat completion is decided at most twice and never replays an
      attempt; an attempt is observed once wherever it fails or is cancelled, and its result, its billing and the memory
      of its route agree with what is observed; what a failure tells the client depends on its class alone.
    - Provider streams ([CompletionStream]): the loop refines the stream read as one byte string; a
      frame limit bounds memory and changes nothing else; what arrived decides the terminal, and usage is reported
      only on evidence that the model finished.
    - Agent runs ([AgentRun], [AgentDeclare]): whatever hooks, tools and provider do, the events of a run
      are well bracketed; every execution passed its gate; the answers of a batch are one per call, in
      the order of the calls; every message given to the run is delivered, and what it reports is what
      it announced; the calls of a truncated response never run; started arguments satisfy the schema
      ([Validation]); a declaration states the exact difference of the tools.  They are
      triples of a small Hoare logic over the history of the run.
    - The agent ([AgentObject]): one run at a time, along every interleaving of its methods; the transcript grows by
      exactly the messages whose end a run reports, with the edits others make in between.
    - Responses ([AssistantStream], [PiJson], [Transcript], [Truncate]): a reader of the events always
      holds the builder's response; a response ends once; repaired text has only legal string escapes;
      collapsing a transcript gives one leading system message that says what all of them said; truncation keeps the
      longest run of whole lines within the limits and names the limit hit first, one documented case apart.

    ** Bounds and fuel

    Integers are [Z] with the Rust width's wrap-around or saturation written out where the code has
    it (generations and lease identifiers [u64], weights [u32], lengths [usize] as 64 bits).  Fuel:
    [SdkFraming.push] runs one iteration per input byte ([decoder_chunking_independent] includes
    that it is enough); [Gateway.chunks] one per byte; [Health.next_probe_lease_id] two more than
    the number of gates ([next_probe_lease_id_total]: zero and the identifiers in use are all it can
    skip); [Routing.select_health_aware_route] one more than the routes of the model
    ([route_selection_total_and_sound]: every round excludes another); [CompletionTurn.claim_loop] one
    more than that ([claim_turn_exact]); [CompletionTurn.chat_loop] two decisions
    ([reselection_bounded]: more fuel changes nothing).  The loops over a stream's buffer run one more
    than its bytes, for every frame found shortens it ([stream_refines_frames] is an equation with the
    fuel-free specification of the whole stream).  [PiJson.repair_loop] runs at most once per byte,
    [PiJson.clean_loop] until nothing is dropped ([parse_streaming_json_total]), the loops of [Utf8] and
    [Truncate] once per character or byte.  [AgentLoop.stream_loop] takes as many events as the provider
    says it will send; [AgentLoop.run_tasks] one step per await left, which is enough for every
    interleaving ([sees_run_tasks]); the fuel of a whole run is the number of requests it may make, for
    nothing bounds an agent: [None] is a run still going, and what is proved of its history holds there
    too.

    ** What is not modelled

    Third-party crates are parameters with laws, never invented definitions.  The clock, random
    identifiers, readiness of attested transports, the inner application, the provider and the
    consumer of a stream are arguments or oracles; the agent's hooks, queues, tools and event sink are
    operations on an abstract world, through which cancellation is read; an await that never completes
    has no step.  Logging is left out: telemetry appears only where
    the code's observation mode makes it a state change.  Secret wiping is modelled only where the
    cache calls it.  The release build is modelled: code under [cfg(test)] is not.  Not modelled yet:
    cache-namespace derivation, the measurement of chat prompts, the Responses API, the SDK's HTTP
    client and its retries; of the agent, the OpenAI provider, the session tree, compaction (an edit of the
    transcript by the outside) and the other tools; left out as I/O or glue: database, key management, provider HTTP clients, the desktop
    applications and the proxy.

    ** Plan

    Next: the edit tool's matching; the session tree and compaction; then [provider_cache] and the measurement of chat prompts; the Responses API's
    context builder; the SDK client's session recovery. *)
From Stdlib Require Export ZArith Lia Sorting.Sorted.
From Stdlib Require Import Strings.Byte.
From stdpp Require Export prelude gmap strings list.

#[export] Set Default Goal Selector "!".
Declare Scope maple_scope.
Delimit Scope maple_scope with maple.
Open Scope Z_scope.

(** ** Results: Rust's [Result<A, E>], with the error type first so that it is a monad *)

Inductive result (E A : Type) : Type :=
| Ok (a : A)
| Err (e : E).
Arguments Ok {E A} a.
Arguments Err {E A} e.

#[global] Instance result_ret {E} : MRet (result E) := fun _ a => Ok a.
#[global] Instance result_bind {E} : MBind (result E) := fun _ _ f r =>
  match r with Ok a => f a | Err e => Err e end.
#[global] Instance result_fmap {E} : FMap (result E) := fun _ _ f r =>
  match r with Ok a => Ok (f a) | Err e => Err e end.

(** [Result::map_err] *)
Definition map_err {E F A} (f : E -> F) (r : result E A) : result F A :=
  match r with Ok a => Ok a | Err e => Err (f e) end.

(** [Option::ok_or] *)
Definition ok_or {E A} (o : option A) (e : E) : result E A :=
  match o with Some a => Ok a | None => Err e end.

(** [if c { return Err(e) }] followed by the rest of the function. *)
Definition ensure {E} (c : bool) (e : E) : result E unit :=
  if c then Ok tt else Err e.

#[global] Instance result_eq_dec {E A} `{EqDecision E, EqDecision A} : EqDecision (result E A).
Proof. solve_decision. Defined.

Lemma result_bind_ok {E A B} (f : A -> result E B) (r : result E A) b :
  (r ≫= f) = Ok b <-> exists a, r = Ok a /\ f a = Ok b.
Proof.
  destruct r as [a|e]; cbn; split; intros H.
  - eauto.
  - destruct H as (x & Hx & Hf). congruence.
  - congruence.
  - destruct H as (x & Hx & Hf). congruence.
Qed.

Lemma result_bind_err {E A B} (f : A -> result E B) (r : result E A) e :
  (r ≫= f) = Err e <-> r = Err e \/ exists a, r = Ok a /\ f a = Err e.
Proof.
  destruct r as [a|e']; cbn; split; intros H.
  - eauto.
  - destruct H as [H|(x & Hx & Hf)]; congruence.
  - left. congruence.
  - destruct H as [H|(x & Hx & Hf)]; congruence.
Qed.

Lemma ensure_ok {E} c (e : E) u : ensure c e = Ok u <-> c = true.
Proof. destruct c, u; cbn; naive_solver. Qed.

Lemma map_err_ok {E F A} (f : E -> F) (r : result E A) a :
  map_err f r = Ok a <-> r = Ok a.
Proof. destruct r; cbn; naive_solver. Qed.

Lemma ok_or_ok {E A} (o : option A) (e : E) a : ok_or o e = Ok a <-> o = Some a.
Proof. destruct o; cbn; naive_solver. Qed.

(** ** Machine integers, kept at their width *)

Definition U8_MAX : Z := 255.
Definition U32_MAX : Z := 4294967295.
Definition U64_MAX : Z := 18446744073709551615.

(** [usize] is 64 bits wide on the enclave targets. *)
Definition USIZE_MAX : Z := U64_MAX.

Definition wrap_u32 (z : Z) : Z := z mod 4294967296.
Definition wrap_u64 (z : Z) : Z := z mod 18446744073709551616.

(** [u64::wrapping_add] *)
Definition wrapping_add_u64 (a b : Z) : Z := wrap_u64 (a + b).

(** [u64::checked_add] and [usize::checked_add] *)
Definition checked_add_u64 (a b : Z) : option Z :=
  if a + b <=? U64_MAX then Some (a + b) else None.

(** [u32::saturating_add], [u32::saturating_sub] *)
Definition saturating_add_u32 (a b : Z) : Z := Z.min (a + b) U32_MAX.
Definition saturating_sub_u32 (a b : Z) : Z := Z.max (a - b) 0.

(** [u64::saturating_add] *)
Definition saturating_add_u64 (a b : Z) : Z := Z.min (a + b) U64_MAX.

(** Length of a slice or string as a [usize]. *)
Definition len {A} (l : list A) : Z := Z.of_nat (length l).

Lemma len_nonneg {A} (l : list A) : 0 <= len l.
Proof. unfold len. lia. Qed.

Lemma len_app {A} (l k : list A) : len (l ++ k) = len l + len k.
Proof. unfold len. rewrite length_app. lia. Qed.

Lemma len_nil {A} : len (@nil A) = 0.
Proof. reflexivity. Qed.

Lemma len_cons {A} (x : A) l : len (x :: l) = 1 + len l.
Proof. unfold len. cbn [length]. lia. Qed.

Lemma len_zero_nil {A} (l : list A) : len l = 0 <-> l = [].
Proof. unfold len. destruct l; cbn; split; try done; lia. Qed.

Create HintDb maple.
Create Rewrite HintDb maple_len.
#[export] Hint Rewrite @len_app @len_nil @len_cons : maple_len.

(** ** Bytes and big-endian encodings *)

Abbreviation byte := Byte.byte.

#[global] Instance byte_eq_dec : EqDecision byte := Byte.byte_eq_dec.
#[global] Instance byte_countable : Countable byte.
Proof. apply (inj_countable Byte.to_N Byte.of_N). apply Byte.of_to_N. Defined.

Definition byte_val (b : byte) : Z := Z.of_N (Byte.to_N b).

Definition byte_of_Z (z : Z) : byte :=
  match Byte.of_N (Z.to_N (z mod 256)) with Some b => b | None => x00 end.

Lemma byte_val_range b : 0 <= byte_val b < 256.
Proof. unfold byte_val. pose proof (Byte.to_N_bounded b). lia. Qed.

Lemma byte_val_of_Z z : byte_val (byte_of_Z z) = z mod 256.
Proof.
  unfold byte_val, byte_of_Z. pose proof (Z.mod_pos_bound z 256 ltac:(lia)).
  destruct (Byte.of_N (Z.to_N (z mod 256))) as [b|] eqn:E.
  - apply Byte.to_of_N in E. rewrite E. lia.
  - apply Byte.of_N_None_iff in E. lia.
Qed.

Lemma byte_val_inj b c : byte_val b = byte_val c -> b = c.
Proof.
  unfold byte_val. intros H%N2Z.inj.
  pose proof (Byte.of_to_N b). pose proof (Byte.of_to_N c). congruence.
Qed.

Lemma byte_of_Z_val b : byte_of_Z (byte_val b) = b.
Proof.
  apply byte_val_inj. rewrite byte_val_of_Z.
  apply Z.mod_small, byte_val_range.
Qed.

(** [uN::to_be_bytes], [n] being the number of bytes. *)
Fixpoint to_be_bytes (n : nat) (z : Z) : list byte :=
  match n with
  | O => []
  | S n => to_be_bytes n (z / 256) ++ [byte_of_Z z]
  end.

(** [uN::from_be_bytes]. *)
Definition from_be_bytes (l : list byte) : Z :=
  fold_left (fun acc b => acc * 256 + byte_val b) l 0.

Lemma length_to_be_bytes n z : length (to_be_bytes n z) = n.
Proof. revert z. induction n as [|n IH]; intros z; cbn; [done|]. rewrite length_app, IH. cbn. lia. Qed.

Lemma len_to_be_bytes n z : len (to_be_bytes n z) = Z.of_nat n.
Proof. unfold len. by rewrite length_to_be_bytes. Qed.

Lemma from_be_bytes_snoc l b : from_be_bytes (l ++ [b]) = from_be_bytes l * 256 + byte_val b.
Proof. unfold from_be_bytes. by rewrite fold_left_app. Qed.

Lemma from_to_be_bytes n z : from_be_bytes (to_be_bytes n z) = z mod 256 ^ Z.of_nat n.
Proof.
  revert z. induction n as [|n IH]; intros z.
  - cbn. by rewrite Z.mod_1_r.
  - cbn [to_be_bytes]. rewrite from_be_bytes_snoc, IH, byte_val_of_Z.
    rewrite Nat2Z.inj_succ, Z.pow_succ_r by lia.
    rewrite (Z.rem_mul_r z 256 (256 ^ Z.of_nat n)) by lia. lia.
Qed.

Lemma from_to_be_bytes_small n z :
  0 <= z < 256 ^ Z.of_nat n -> from_be_bytes (to_be_bytes n z) = z.
Proof. intros. rewrite from_to_be_bytes. by apply Z.mod_small. Qed.

Lemma to_from_be_bytes l : to_be_bytes (length l) (from_be_bytes l) = l.
Proof.
  induction l as [|b l IH] using rev_ind; [done|].
  rewrite length_app, Nat.add_comm. cbn [Nat.add length to_be_bytes].
  rewrite from_be_bytes_snoc.
  rewrite Z.div_add_l by lia. pose proof (byte_val_range b).
  rewrite (Z.div_small (byte_val b)), Z.add_0_r, IH by lia. f_equal. f_equal.
  apply byte_val_inj. rewrite byte_val_of_Z, Z.add_comm, Z.mod_add by lia.
  apply Z.mod_small. lia.
Qed.

Lemma to_be_bytes_inj n a b :
  0 <= a < 256 ^ Z.of_nat n -> 0 <= b < 256 ^ Z.of_nat n ->
  to_be_bytes n a = to_be_bytes n b -> a = b.
Proof.
  intros Ha Hb E%(f_equal from_be_bytes).
  by rewrite !from_to_be_bytes_small in E.
Qed.

(** UTF-8 bytes of a Rust string; a [string] of the model is the byte string itself. *)
Definition as_bytes (s : string) : list byte := String.list_byte_of_string s.
Definition str_len (s : string) : Z := Z.of_nat (String.length s).

(** ** Time: [std::time::Duration] and [std::time::Instant] in nanoseconds *)

Abbreviation Duration := Z (only parsing).
Abbreviation Instant := Z (only parsing).

Definition from_secs (s : Z) : Duration := s * 1000000000.

(** The last instant [Instant] represents: [i64::MAX] seconds and 999,999,999 ns. *)
Definition INSTANT_MAX : Instant := 9223372036854775807 * 1000000000 + 999999999.

(** [Instant::checked_add] *)
Definition instant_checked_add (now : Instant) (d : Duration) : option Instant :=
  if now + d <=? INSTANT_MAX then Some (now + d) else None.

(** [Instant::duration_since] (saturating) and [Instant::checked_duration_since]. *)
Definition duration_since (later earlier : Instant) : Duration := Z.max 0 (later - earlier).
Definition checked_duration_since (later earlier : Instant) : option Duration :=
  if earlier <=? later then Some (later - earlier) else None.

(** [Option::map_or], [is_some_and] and [is_none_or]. *)
Definition map_or {A B} (d : B) (f : A -> B) (o : option A) : B :=
  match o with Some a => f a | None => d end.
Definition is_some_and {A} (f : A -> bool) (o : option A) : bool := map_or false f o.
Definition is_none_or {A} (f : A -> bool) (o : option A) : bool := map_or true f o.
Definition is_some {A} (o : option A) : bool := match o with Some _ => true | None => false end.
Definition is_none {A} (o : option A) : bool := negb (is_some o).

Lemma instant_checked_add_Some now d t :
  instant_checked_add now d = Some t -> t = now + d.
Proof. unfold instant_checked_add. destruct (_ <=? _); naive_solver. Qed.

(** ** Proof automation *)

(** Splits boolean conjunctions and comparisons in hypotheses into propositions. *)
Ltac bool_to_prop :=
  repeat match goal with
  | H : (_ && _)%bool = true |- _ => apply andb_prop in H as [? ?]
  | H : (_ || _)%bool = false |- _ => apply orb_false_elim in H as [? ?]
  | H : negb _ = true |- _ => apply negb_true_iff in H
  | H : negb _ = false |- _ => apply negb_false_iff in H
  | H : (_ <? _) = true |- _ => apply Z.ltb_lt in H
  | H : (_ <? _) = false |- _ => apply Z.ltb_ge in H
  | H : (_ <=? _) = true |- _ => apply Z.leb_le in H
  | H : (_ <=? _) = false |- _ => apply Z.leb_gt in H
  | H : (_ =? _) = true |- _ => apply Z.eqb_eq in H
  | H : (_ =? _) = false |- _ => apply Z.eqb_neq in H
  | H : bool_decide _ = true |- _ => apply bool_decide_eq_true in H
  | H : bool_decide _ = false |- _ => apply bool_decide_eq_false in H
  end.

(** Inverts a successful monadic computation step by step. *)
Ltac result_inv :=
  repeat match goal with
  | H : (_ ≫= _) = Ok _ |- _ => apply result_bind_ok in H as (? & ? & ?)
  | H : ensure _ _ = Ok _ |- _ => apply ensure_ok in H
  | H : map_err _ _ = Ok _ |- _ => apply map_err_ok in H
  | H : ok_or _ _ = Ok _ |- _ => apply ok_or_ok in H
  | H : mret _ = Ok _ |- _ => change (mret ?x) with (@Ok _ _ x) in H
  | H : Ok _ = Ok _ |- _ => injection H as H
  | H : Err _ = Ok _ |- _ => discriminate H
  | H : Ok _ = Err _ |- _ => discriminate H
  end.

(** Reduces the monadic structure of a computation, and nothing else. *)
Ltac bsimpl :=
  cbn [mbind result_bind option_bind fmap result_fmap option_fmap ok_or map_err ensure fst snd].

(** ** Lists shared by the components *)

(** [Iterator::filter_map(..).collect()] over a list. *)
Definition filter_map {A B} (f : A -> option B) (l : list A) : list B := omap f l.

(** Collecting an iterator of options into an option of a list. *)
Definition collect_option {A B} (f : A -> option B) (l : list A) : option (list B) := mapM f l.

Lemma lookup_snoc_if {A} (l : list A) (x : A) (i : nat) :
  (l ++ [x]) !! i = if decide (i = length l) then Some x else l !! i.
Proof.
  destruct (decide (i = length l)) as [->|Hne]; [by rewrite list_lookup_middle|].
  destruct (decide (i < length l)%nat); [by rewrite lookup_app_l by lia|].
  rewrite !lookup_ge_None_2; [done|lia|]. rewrite length_app. simpl. lia.
Qed.

Lemma take_drop_app_len {A} (n : nat) (l k : list A) :
  n = length l -> take n (l ++ k) = l /\ drop n (l ++ k) = k.
Proof. intros ->. by rewrite take_app_length, drop_app_length. Qed.

(** [take_while(p).count()] *)
Fixpoint count_while {A} (p : A -> bool) (l : list A) : nat :=
  match l with
  | [] => 0%nat
  | x :: l => if p x then S (count_while p l) else 0%nat
  end.

Lemma filter_all {A} (P : A -> Prop) `{HP : forall x, Decision (P x)} (l : list A) :
  Forall P l -> filter P l = l.
Proof. induction 1; [done|]. rewrite filter_cons_True by done. by f_equal. Qed.

Lemma filter_none {A} (P : A -> Prop) `{HP : forall x, Decision (P x)} (l : list A) :
  Forall (fun x => ~ P x) l -> filter P l = [].
Proof. induction 1; [done|]. by rewrite filter_cons_False. Qed.

(** A test that, once true, stays true along the list splits it into two blocks. *)
Lemma sorted_split {A} (p : A -> bool) (l : list A) :
  StronglySorted (fun x y => p x = true -> p y = true) l ->
  l = filter (fun x => p x = false) l ++ filter (fun x => p x = true) l.
Proof.
  induction 1 as [|x l Hs IH Hx]; [done|].
  rewrite !filter_cons. destruct (p x) eqn:E.
  - rewrite decide_False, decide_True by done.
    rewrite filter_none, filter_all; [done| |]; eapply Forall_impl; try exact Hx; cbn; auto.
    intros y Hy. by rewrite Hy.
  - rewrite decide_True, decide_False by done. cbn. by f_equal.
Qed.

Lemma count_while_rev {A} (p : A -> bool) (l1 l2 : list A) :
  Forall (fun x => p x = false) l1 -> Forall (fun x => p x = true) l2 ->
  count_while p (rev (l1 ++ l2)) = length l2.
Proof.
  intros H1 H2. rewrite rev_app_distr, <-(length_rev l2).
  apply Forall_rev in H1, H2. induction H2 as [|x l2' Hx _ IH]; cbn.
  - destruct H1 as [|y r Hy _]; cbn; [done|]. by rewrite Hy.
  - rewrite Hx. by rewrite IH.
Qed.

Lemma StronglySorted_impl_rel {A} (R S : A -> A -> Prop) l :
  (forall x y, R x y -> S x y) -> StronglySorted R l -> StronglySorted S l.
Proof.
  intros HRS. induction 1 as [|x l _ IH Hx]; constructor; [done|].
  eapply Forall_impl; eauto.
Qed.

Lemma StronglySorted_filter_rel {A} (R : A -> A -> Prop) (P : A -> Prop)
    `{forall x, Decision (P x)} l :
  StronglySorted R l -> StronglySorted R (filter P l).
Proof.
  induction 1 as [|x l _ IH Hx]; [constructor|].
  rewrite filter_cons. case_decide; [|done]. constructor; [done|].
  apply Forall_forall. intros y [_ Hy]%list_elem_of_filter.
  by eapply Forall_forall in Hx.
Qed.

Lemma StronglySorted_app_l {A} (R : A -> A -> Prop) l1 l2 :
  StronglySorted R (l1 ++ l2) -> StronglySorted R l1.
Proof.
  induction l1 as [|x l1 IH]; [constructor|]. cbn. inversion 1 as [|? ? Hs Hx]; subst.
  constructor; [auto|]. by apply Forall_app in Hx as [? _].
Qed.

Lemma StronglySorted_rev_rel {A} (R : A -> A -> Prop) l :
  StronglySorted R l -> StronglySorted (fun x y => R y x) (rev l).
Proof.
  induction 1 as [|x l _ IH Hx]; [constructor|]. cbn. apply Forall_rev in Hx.
  induction IH as [|y m Hm IHm Hy]; cbn.
  - repeat constructor.
  - inversion Hx; subst. constructor; [by apply IHm|]. apply Forall_app. split; [done|]. by repeat constructor.
Qed.

(** Invariants by rule induction over sequences of steps. *)
Lemma rtc_invariant {A} (R : A -> A -> Prop) (P : A -> Prop) x y :
  (forall x y, R x y -> P x -> P y) -> rtc R x y -> P x -> P y.
Proof. induction 2; eauto. Qed.

(** ** Counting occurrences and summing over finite maps *)

Definition count {A} `{EqDecision A} (x : A) (l : list A) : Z := len (filter (fun y => y = x) l).

Lemma count_nil {A} `{EqDecision A} (x : A) : count x [] = 0.
Proof. done. Qed.

Lemma count_cons {A} `{EqDecision A} (x y : A) l :
  count x (y :: l) = (if decide (y = x) then 1 else 0) + count x l.
Proof. unfold count. rewrite filter_cons. case_decide; [by rewrite len_cons|lia]. Qed.

Lemma count_app {A} `{EqDecision A} (x : A) l k : count x (l ++ k) = count x l + count x k.
Proof. unfold count. by rewrite filter_app, len_app. Qed.

Lemma count_nonneg {A} `{EqDecision A} (x : A) l : 0 <= count x l.
Proof. apply len_nonneg. Qed.

Lemma count_pos {A} `{EqDecision A} (x : A) l : 0 < count x l <-> x ∈ l.
Proof.
  induction l as [|y l IH]; [split; [done|by intros ?%not_elem_of_nil]|].
  rewrite count_cons, elem_of_cons, <-IH. pose proof (count_nonneg x l).
  case_decide as E; split; intros Hc; subst.
  - by left.
  - lia.
  - right. lia.
  - destruct Hc as [->|Hc]; [done|lia].
Qed.

#[global] Instance count_perm {A} `{EqDecision A} (x : A) : Proper ((≡ₚ) ==> eq) (count x).
Proof. intros l k E. unfold count, len. by rewrite E. Qed.

Definition sum_Z (l : list Z) : Z := foldr Z.add 0 l.

#[global] Instance sum_Z_perm : Proper ((≡ₚ) ==> eq) sum_Z.
Proof. induction 1; cbn; unfold sum_Z in *; lia. Qed.

(** Sum of a measure over the values of a map. *)
Definition msum {K A} `{Countable K} (f : A -> Z) (m : gmap K A) : Z :=
  sum_Z ((fun p => f p.2) <$> map_to_list m).

Section MapSums.
Context {K A : Type} `{Countable K}.
Implicit Types (m : gmap K A) (f : A -> Z).

Lemma msum_empty f : msum f (∅ : gmap K A) = 0.
Proof. unfold msum. by rewrite map_to_list_empty. Qed.

Lemma msum_insert f m k a : m !! k = None -> msum f (<[k:=a]> m) = f a + msum f m.
Proof. intros Hk. unfold msum. by rewrite map_to_list_insert. Qed.

Lemma msum_delete f m k a : m !! k = Some a -> msum f m = f a + msum f (delete k m).
Proof.
  intros Hk. rewrite <-(insert_delete_id m k a Hk) at 1.
  apply msum_insert, lookup_delete_eq.
Qed.

Lemma msum_update f m k a b :
  m !! k = Some a -> msum f (<[k:=b]> m) = msum f m - f a + f b.
Proof.
  intros Hk. rewrite <-insert_delete_eq, msum_insert by apply lookup_delete_eq.
  rewrite (msum_delete f m k a Hk). lia.
Qed.

Lemma msum_nonneg f m : (forall a, 0 <= f a) -> 0 <= msum f m.
Proof.
  intros Hf. unfold msum. induction (map_to_list m) as [|p l IH]; cbn; [lia|].
  unfold sum_Z in IH. pose proof (Hf p.2). lia.
Qed.

(** Occurrences among the values of a map. *)
Definition vcount `{EqDecision A} (a : A) (m : gmap K A) : Z := count a (map_to_list m).*2.

Lemma vcount_empty `{EqDecision A} a : vcount a (∅ : gmap K A) = 0.
Proof. unfold vcount. by rewrite map_to_list_empty. Qed.

Lemma vcount_insert `{EqDecision A} a m k b :
  m !! k = None -> vcount a (<[k:=b]> m) = (if decide (b = a) then 1 else 0) + vcount a m.
Proof. intros Hk. unfold vcount. by rewrite map_to_list_insert, fmap_cons, count_cons. Qed.

Lemma vcount_delete `{EqDecision A} a m k b :
  m !! k = Some b -> vcount a m = (if decide (b = a) then 1 else 0) + vcount a (delete k m).
Proof.
  intros Hk. rewrite <-(insert_delete_id m k b Hk) at 1.
  apply vcount_insert, lookup_delete_eq.
Qed.

Lemma vcount_nonneg `{EqDecision A} a m : 0 <= vcount a m.
Proof. apply count_nonneg. Qed.

Lemma vcount_lookup `{EqDecision A} a m k : m !! k = Some a -> 0 < vcount a m.
Proof.
  intros Hk. rewrite (vcount_delete a m k a Hk), decide_True by done.
  pose proof (vcount_nonneg a (delete k m)). lia.
Qed.
End MapSums.
