(* ===== verification/Utf8.v ===== *)
(** * Rust's [str]: UTF-8 bytes

    A [str] is the list of its bytes.  This file models the methods of [str] the programs use and
    proves what they promise about characters: a cut at a character boundary leaves valid text, and
    from any index a boundary is at most three bytes away. *)
From Stdlib Require Import Strings.Byte.
From S2P Require Import Prelude.

(** ** Characters *)

(** A Unicode scalar value. *)
Definition is_scalar (c : Z) : bool :=
  ((0 <=? c) && (c <=? 0xD7FF)) || ((0xE000 <=? c) && (c <=? 0x10FFFF)).

Definition encode_char (c : Z) : list byte :=
  if c <? 0x80 then [byte_of_Z c]
  else if c <? 0x800 then [byte_of_Z (0xC0 + c / 0x40); byte_of_Z (0x80 + c mod 0x40)]
  else if c <? 0x10000 then
    [byte_of_Z (0xE0 + c / 0x1000); byte_of_Z (0x80 + c / 0x40 mod 0x40); byte_of_Z (0x80 + c mod 0x40)]
  else
    [byte_of_Z (0xF0 + c / 0x40000); byte_of_Z (0x80 + c / 0x1000 mod 0x40);
     byte_of_Z (0x80 + c / 0x40 mod 0x40); byte_of_Z (0x80 + c mod 0x40)].

(** [String::from_iter] over characters. *)
Definition encode_chars (cs : list Z) : list byte := concat (encode_char <$> cs).

(** Text: what a [str] holds. *)
Definition is_text (s : list byte) : Prop := exists cs, Forall (fun c => is_scalar c = true) cs /\ s = encode_chars cs.

(** The first character of a text and the rest. *)
Definition next_char (s : list byte) : option (Z * list byte) :=
  match s with
  | [] => None
  | a :: s =>
      let a := byte_val a in
      if a <? 0x80 then Some (a, s)
      else match s with
      | [] => None
      | b :: s =>
          let b := byte_val b - 0x80 in
          if a <? 0xE0 then Some ((a - 0xC0) * 0x40 + b, s)
          else match s with
          | [] => None
          | c :: s =>
              let c := byte_val c - 0x80 in
              if a <? 0xF0 then Some ((a - 0xE0) * 0x1000 + b * 0x40 + c, s)
              else match s with
              | [] => None
              | d :: s => Some ((a - 0xF0) * 0x40000 + b * 0x1000 + c * 0x40 + (byte_val d - 0x80), s)
              end
          end
      end
  end.

(** [str::chars] *)
Fixpoint chars_loop (fuel : nat) (s : list byte) : list Z :=
  match fuel with
  | O => []
  | S fuel => match next_char s with Some (c, s) => c :: chars_loop fuel s | None => [] end
  end.

Definition chars (s : list byte) : list Z := chars_loop (length s) s.

(** A byte that does not start a character. *)
Definition is_continuation (b : byte) : bool := (0x80 <=? byte_val b) && (byte_val b <? 0xC0).

(** [str::is_char_boundary] *)
Definition is_char_boundary (s : list byte) (index : nat) : bool :=
  (index =? 0)%nat
  || match s !! index with
     | Some b => negb (is_continuation b)
     | None => (index =? length s)%nat
     end.

(** [str::chars().count()]: the bytes that start a character. *)
Definition chars_count (s : list byte) : nat := length (List.filter (fun b => negb (is_continuation b)) s).

(** ** Trimming *)

(** UTF-8 encodings of the characters [str::trim] strips (Unicode [White_Space]). *)
Definition WHITESPACE : list (list byte) :=
  [[x09]; [x0a]; [x0b]; [x0c]; [x0d]; [x20]; [xc2; x85]; [xc2; xa0]; [xe1; x9a; x80];
   [xe2; x80; x80]; [xe2; x80; x81]; [xe2; x80; x82]; [xe2; x80; x83]; [xe2; x80; x84];
   [xe2; x80; x85]; [xe2; x80; x86]; [xe2; x80; x87]; [xe2; x80; x88]; [xe2; x80; x89];
   [xe2; x80; x8a]; [xe2; x80; xa8]; [xe2; x80; xa9]; [xe2; x80; xaf]; [xe2; x81; x9f];
   [xe3; x80; x80]].

Fixpoint trim_loop (fuel : nat) (whitespace : list (list byte)) (bytes : list byte) : list byte :=
  match fuel with
  | O => bytes
  | S fuel =>
      match find (fun pat => bool_decide (pat `prefix_of` bytes)) whitespace with
      | Some pat => trim_loop fuel whitespace (drop (length pat) bytes)
      | None => bytes
      end
  end.

Definition trim_start (bytes : list byte) : list byte := trim_loop (length bytes) WHITESPACE bytes.

Definition trim_end (bytes : list byte) : list byte :=
  rev (trim_loop (length bytes) (@rev byte <$> WHITESPACE) (rev bytes)).

(** [str::trim] *)
Definition trim (bytes : list byte) : list byte := trim_end (trim_start bytes).

(** ** Lines *)

(** The newline. *)
Definition LF : byte := x0a.

(** [s.split('\n')], and [slice::split] on the newline *)
Fixpoint split_lines (bytes : list byte) : list (list byte) :=
  match bytes with
  | [] => [[]]
  | b :: bytes =>
      if bool_decide (b = LF) then [] :: split_lines bytes
      else match split_lines bytes with
           | line :: lines => (b :: line) :: lines
           | [] => [[b]]
           end
  end.

(** [lines.join("\n")] *)
Fixpoint join_lines (lines : list (list byte)) : list byte :=
  match lines with
  | [] => []
  | [line] => line
  | line :: lines => line ++ LF :: join_lines lines
  end.

(** ** Searching and replacing *)

(** [str::find] *)
Fixpoint find_text (pat s : list byte) : option nat :=
  if bool_decide (pat `prefix_of` s) then Some 0%nat
  else match s with [] => None | _ :: s => S <$> find_text pat s end.

(** [str::ends_with] *)
Definition ends_with (s pat : list byte) : bool := bool_decide (pat `suffix_of` s).

(** [String::replace_range]; [None]: the panic of a range out of order, out of bounds or inside a
    character. *)
Definition replace_range (s : list byte) (start stop : nat) (text : list byte) : option (list byte) :=
  if (start <=? stop)%nat && (stop <=? length s)%nat && is_char_boundary s start && is_char_boundary s stop
  then Some (take start s ++ text ++ drop stop s) else None.

(** [&s[start..stop]] *)
Definition slice (s : list byte) (start stop : nat) : option (list byte) :=
  if (start <=? stop)%nat && (stop <=? length s)%nat && is_char_boundary s start && is_char_boundary s stop
  then Some (take (stop - start) (drop start s)) else None.

(** ** Characters and boundaries *)

Lemma encode_char_shape c :
  is_scalar c = true ->
  exists lead conts, encode_char c = lead :: conts /\ is_continuation lead = false
    /\ Forall (fun b => is_continuation b = true) conts /\ (length conts <= 3)%nat.
Proof.
  unfold is_scalar, encode_char, is_continuation. intros Hc.
  assert (0 <= c <= 0x10FFFF) as Hr by lia. clear Hc.
  assert (forall z, 0 <= z < 0x40 ->
    (0x80 <=? byte_val (byte_of_Z (0x80 + z))) && (byte_val (byte_of_Z (0x80 + z)) <? 0xC0) = true) as Hcont.
  { intros z Hz. rewrite byte_val_of_Z, Z.mod_small; lia. }
  assert (forall z, 0 <= z < 0x80 \/ 0xC0 <= z < 0x100 ->
    (0x80 <=? byte_val (byte_of_Z z)) && (byte_val (byte_of_Z z) <? 0xC0) = false) as Hlead.
  { intros z Hz. rewrite byte_val_of_Z, Z.mod_small; lia. }
  destruct (c <? 0x80) eqn:H1; [|destruct (c <? 0x800) eqn:H2; [|destruct (c <? 0x10000) eqn:H3]];
    (eexists _, _; split; [reflexivity|]; split;
     [apply Hlead; Z.to_euclidean_division_equations; lia|]; split;
     [repeat (constructor; [apply Hcont; Z.to_euclidean_division_equations; lia|]); constructor|simpl; lia]).
Qed.

Lemma encode_chars_cons c cs : encode_chars (c :: cs) = encode_char c ++ encode_chars cs.
Proof. done. Qed.

Lemma is_text_nil : is_text [].
Proof. by exists []. Qed.

Lemma is_text_app s t : is_text s -> is_text t -> is_text (s ++ t).
Proof.
  intros (cs & Hcs & ->) (ds & Hds & ->). exists (cs ++ ds). split; [by apply Forall_app|].
  unfold encode_chars. by rewrite fmap_app, concat_app.
Qed.

Lemma is_text_char c : is_scalar c = true -> is_text (encode_char c).
Proof. intros Hc. exists [c]. split; [by constructor|]. unfold encode_chars. cbn. by rewrite app_nil_r. Qed.

(** Induction over the characters of a text. *)
Lemma text_ind (P : list byte -> Prop) :
  P [] ->
  (forall lead conts s, is_continuation lead = false -> Forall (fun b => is_continuation b = true) conts ->
     (length conts <= 3)%nat -> is_text (lead :: conts) -> is_text s -> P s -> P ((lead :: conts) ++ s)) ->
  forall s, is_text s -> P s.
Proof.
  intros Hnil Hcons s (cs & Hcs & ->). induction Hcs as [|c cs Hc Hcs IH]; [done|].
  pose proof (is_text_char c Hc) as Ht.
  destruct (encode_char_shape c Hc) as (lead & conts & E & Hl & Hcont & Hlen).
  unfold encode_chars. cbn. rewrite E in *. apply Hcons; try done. by exists cs.
Qed.

Lemma boundary_zero s : is_char_boundary s 0 = true.
Proof. done. Qed.

Lemma boundary_length s : is_char_boundary s (length s) = true.
Proof.
  unfold is_char_boundary. rewrite lookup_ge_None_2 by done. rewrite Nat.eqb_refl. apply orb_true_r.
Qed.

Lemma text_head b s : is_text (b :: s) -> is_continuation b = false.
Proof.
  assert (forall t, is_text t -> forall b s, t = b :: s -> is_continuation b = false) as H.
  { apply (text_ind (fun t => forall b s, t = b :: s -> _)); [done|]. by intros l c t Hl _ _ _ _ _ ? ? [= <- _]. }
  intros Ht. by eapply H.
Qed.

(** Past the first character, boundaries are those of the rest. *)
Lemma char_boundary_app lead conts s i :
  is_text s -> is_char_boundary ((lead :: conts) ++ s) (length (lead :: conts) + i) = is_char_boundary s i.
Proof.
  intros Hs. unfold is_char_boundary.
  replace (length (lead :: conts) + i =? 0)%nat with false by done. cbn [orb].
  rewrite lookup_app_r by lia. replace (length (lead :: conts) + i - length (lead :: conts))%nat with i by lia.
  destruct i as [|i].
  - cbn [Nat.eqb orb]. destruct s as [|b s].
    + cbn. rewrite length_app. apply Nat.eqb_refl.
    + cbn. by rewrite (text_head b s).
  - replace (S i =? 0)%nat with false by done. cbn [orb]. destruct (s !! S i); [done|]. rewrite length_app. apply eq_true_iff_eq.
    rewrite !Nat.eqb_eq. lia.
Qed.

(** Inside the first character there is none. *)
Lemma boundary_inside lead conts s i :
  Forall (fun b => is_continuation b = true) conts -> (0 < i <= length conts)%nat ->
  is_char_boundary ((lead :: conts) ++ s) i = false.
Proof.
  intros Hc Hi. unfold is_char_boundary. destruct i as [|i]; [lia|].
  replace (S i =? 0)%nat with false by done. change (((lead :: conts) ++ s) !! S i) with ((conts ++ s) !! i).
  cbn [orb]. rewrite lookup_app_l by lia. destruct (lookup_lt_is_Some_2 conts i) as [b Hb]; [lia|]. rewrite Hb.
  rewrite Forall_lookup in Hc. by rewrite (Hc _ _ Hb).
Qed.

(** A cut at a boundary leaves two texts. *)
Lemma text_cut s i :
  is_text s -> (i <= length s)%nat -> is_char_boundary s i = true ->
  is_text (take i s) /\ is_text (drop i s).
Proof.
  intros Hs. revert i. revert s Hs. apply (text_ind (fun s => forall i, (i <= length s)%nat -> _ -> _)).
  - intros i _ _. rewrite take_nil, drop_nil. split; apply is_text_nil.
  - intros lead conts s Hl Hc _ Ht Hs IH i Hi Hb.
    destruct (decide (i = 0%nat)) as [->|Hpos]; [split; [apply is_text_nil|by apply is_text_app]|].
    destruct (decide (i <= length conts)%nat) as [Hin|Hout].
    { rewrite boundary_inside in Hb by (done || lia). done. }
    replace i with (length (lead :: conts) + (i - length (lead :: conts)))%nat in * by (cbn; lia).
    set (j := (i - length (lead :: conts))%nat) in *. rewrite char_boundary_app in Hb by done.
    rewrite take_app_add, drop_app_add. rewrite length_app in Hi.
    destruct (IH j) as [H1 H2]; [lia|done|]. split; [by apply is_text_app|done].
Qed.

(** From any index a boundary is at most three bytes away, on both sides. *)
Lemma boundary_near s i :
  is_text s -> (i <= length s)%nat ->
  exists lo hi, (lo <= i <= hi)%nat /\ (hi <= length s)%nat /\ (i - lo <= 3)%nat /\ (hi - i <= 3)%nat
    /\ is_char_boundary s lo = true /\ is_char_boundary s hi = true.
Proof.
  intros Hs. revert i. revert s Hs. apply (text_ind (fun s => forall i, (i <= length s)%nat -> _)).
  - intros i Hi. cbn in Hi. exists 0%nat, 0%nat. cbn. split_and!; (done || lia).
  - intros lead conts s Hl Hc Hlen Ht Hs IH i Hi. rewrite length_app in *.
    destruct (decide (i <= length conts)%nat) as [Hin|Hout].
    + destruct (decide (i = 0%nat)) as [->|].
      * exists 0%nat, 0%nat. split_and!; (done || lia).
      * exists 0%nat, (length (lead :: conts) + 0)%nat. rewrite char_boundary_app by done.
        cbn [length]. split_and!; (done || lia).
    + destruct (IH (i - length (lead :: conts))%nat) as (lo & hi & H1 & H2 & H3 & H4 & H5 & H6); [cbn in *; lia|].
      exists (length (lead :: conts) + lo)%nat, (length (lead :: conts) + hi)%nat.
      rewrite !char_boundary_app by done. cbn [length] in *. split_and!; (done || lia).
Qed.

(** ** Counting and decoding characters *)

Lemma chars_count_app s t : chars_count (s ++ t) = (chars_count s + chars_count t)%nat.
Proof. unfold chars_count. by rewrite List.filter_app, length_app. Qed.

Lemma chars_count_encode cs :
  Forall (fun c => is_scalar c = true) cs -> chars_count (encode_chars cs) = length cs.
Proof.
  induction 1 as [|c cs Hc _ IH]; [done|].
  rewrite encode_chars_cons, chars_count_app, IH.
  destruct (encode_char_shape c Hc) as (lead & conts & -> & Hl & Hcont & _).
  unfold chars_count. cbn. rewrite Hl. cbn. f_equal. rewrite (List.filter_ext_in _ (fun _ => false)).
  - clear. by induction conts.
  - intros b Hb%list_elem_of_In. rewrite Forall_forall in Hcont. by rewrite (Hcont b Hb).
Qed.

Lemma next_char_encode c s :
  is_scalar c = true -> next_char (encode_char c ++ s) = Some (c, s).
Proof.
  unfold is_scalar. intros Hc. assert (0 <= c <= 0x10FFFF) as Hr by lia. clear Hc. unfold encode_char.
  destruct (c <? 0x80) eqn:H1; [|destruct (c <? 0x800) eqn:H2; [|destruct (c <? 0x10000) eqn:H3]];
    cbn [app next_char]; rewrite !byte_val_of_Z, !(Z.mod_small _ 256) by (Z.to_euclidean_division_equations; lia).
  - by rewrite H1.
  - rewrite (proj2 (Z.ltb_ge _ _)), (proj2 (Z.ltb_lt _ _)) by (Z.to_euclidean_division_equations; lia).
    do 2 f_equal. Z.to_euclidean_division_equations; lia.
  - rewrite (proj2 (Z.ltb_ge _ 0x80)), (proj2 (Z.ltb_ge _ 0xE0)), (proj2 (Z.ltb_lt _ 0xF0))
      by (Z.to_euclidean_division_equations; lia).
    do 2 f_equal. Z.to_euclidean_division_equations; lia.
  - rewrite (proj2 (Z.ltb_ge _ 0x80)), (proj2 (Z.ltb_ge _ 0xE0)), (proj2 (Z.ltb_ge _ 0xF0))
      by (Z.to_euclidean_division_equations; lia).
    do 2 f_equal. Z.to_euclidean_division_equations; lia.
Qed.

Lemma chars_loop_encode cs fuel :
  Forall (fun c => is_scalar c = true) cs -> (length cs <= fuel)%nat ->
  chars_loop fuel (encode_chars cs) = cs.
Proof.
  intros Hcs. revert fuel. induction Hcs as [|c cs Hc Hcs IH]; intros fuel Hf; [by destruct fuel|].
  destruct fuel as [|fuel]; [cbn in Hf; lia|]. rewrite encode_chars_cons. cbn [chars_loop].
  rewrite next_char_encode by done. f_equal. apply IH. cbn in Hf. lia.
Qed.

Lemma length_encode_chars cs :
  Forall (fun c => is_scalar c = true) cs -> (length cs <= length (encode_chars cs))%nat.
Proof.
  induction 1 as [|c cs Hc _ IH]; [done|]. rewrite encode_chars_cons, length_app.
  destruct (encode_char_shape c Hc) as (lead & conts & -> & _). cbn. lia.
Qed.

(** Encoding and decoding are inverse. *)
Lemma chars_encode cs : Forall (fun c => is_scalar c = true) cs -> chars (encode_chars cs) = cs.
Proof. intros H. apply chars_loop_encode; [done|]. by apply length_encode_chars. Qed.

Lemma encode_chars_of s : is_text s -> encode_chars (chars s) = s.
Proof. intros (cs & Hcs & ->). by rewrite chars_encode. Qed.

(** ** Lines *)

Lemma split_lines_nonempty s : split_lines s <> [].
Proof. destruct s as [|b s]; cbn; [done|]. case_bool_decide; [done|]. by destruct (split_lines s). Qed.

Lemma join_split s : join_lines (split_lines s) = s.
Proof.
  induction s as [|b s IH]; [done|]. cbn. pose proof (split_lines_nonempty s) as Hne.
  case_bool_decide as Hb.
  - subst b. rewrite <- IH at 2. destruct (split_lines s); [done|]. done.
  - destruct (split_lines s) as [|line lines]; [done|]. rewrite <- IH. by destruct lines.
Qed.

Lemma split_no_newline s : Forall (fun line => LF ∉ line) (split_lines s).
Proof.
  induction s as [|b s IH]; cbn; [repeat constructor; set_solver|].
  case_bool_decide as Hb; [constructor; [set_solver|done]|].
  destruct (split_lines s) as [|line lines]; [repeat constructor; set_solver|].
  inversion IH; subst. constructor; [set_solver|done].
Qed.

Lemma join_lines_app lines line lines' :
  lines <> [] -> join_lines (lines ++ line :: lines') = join_lines lines ++ LF :: join_lines (line :: lines').
Proof.
  induction lines as [|l lines IH]; [done|]. intros _. destruct lines as [|l' lines]; [done|].
  change (join_lines ((l :: l' :: lines) ++ line :: lines'))
    with (l ++ LF :: join_lines ((l' :: lines) ++ line :: lines')).
  rewrite IH by done. change (join_lines (l :: l' :: lines)) with (l ++ LF :: join_lines (l' :: lines)).
  by rewrite <- app_assoc.
Qed.

(** The lines of a text are texts. *)
Lemma split_lines_prefix p s :
  LF ∉ p -> split_lines (p ++ s) = match split_lines s with line :: lines => (p ++ line) :: lines | [] => [p] end.
Proof.
  induction p as [|b p IH]; intros Hp; [cbn; pose proof (split_lines_nonempty s); by destruct (split_lines s)|].
  cbn. rewrite bool_decide_eq_false_2 by set_solver. rewrite IH by set_solver.
  pose proof (split_lines_nonempty s). by destruct (split_lines s).
Qed.

Lemma encode_char_LF c : is_scalar c = true -> LF ∈ encode_char c -> encode_char c = [LF].
Proof.
  unfold is_scalar. intros Hc. assert (0 <= c <= 0x10FFFF) as Hr by lia. clear Hc. unfold encode_char.
  assert (forall z, LF = byte_of_Z z -> z mod 256 = 10) as Hval by (intros z Hz; by rewrite <- byte_val_of_Z, <- Hz).
  destruct (c <? 0x80) eqn:H1; [|destruct (c <? 0x800) eqn:H2; [|destruct (c <? 0x10000) eqn:H3]];
    rewrite ?elem_of_cons, elem_of_nil; intros Hin; [by destruct Hin as [->|[]]|exfalso..];
    repeat destruct Hin as [Hin|Hin]; try done; apply Hval in Hin; revert Hin;
    rewrite Z.mod_small by (Z.to_euclidean_division_equations; lia);
    Z.to_euclidean_division_equations; lia.
Qed.

Lemma split_lines_text s : is_text s -> Forall is_text (split_lines s).
Proof.
  intros (cs & Hcs & ->). induction Hcs as [|c cs Hc _ IH]; [repeat constructor; apply is_text_nil|].
  rewrite encode_chars_cons. destruct (decide (LF ∈ encode_char c)) as [Hin|Hout].
  - rewrite (encode_char_LF c Hc Hin). constructor; [apply is_text_nil|done].
  - rewrite split_lines_prefix by done. pose proof (split_lines_nonempty (encode_chars cs)).
    destruct (split_lines _) as [|line lines]; [done|]. inversion IH; subst.
    constructor; [|done]. apply is_text_app; [by apply is_text_char|done].
Qed.

(** Bytes of joined lines. *)
Lemma length_join_lines lines :
  length (join_lines lines) = (sum_list_with length lines + pred (length lines))%nat.
Proof.
  induction lines as [|line lines IH]; [done|]. destruct lines as [|l lines]; [cbn; lia|].
  change (join_lines (line :: l :: lines)) with (line ++ LF :: join_lines (l :: lines)).
  rewrite length_app. cbn [length]. rewrite IH. cbn. lia.
Qed.
