(* ===== verification/Clru.v ===== *)
(** * The interface of the [clru] crate

    [bounded_ttl_cache.rs] and [lease_aware_cache.rs] wrap [clru::CLruCache], a third-party
    least-recently-used cache.  The crate is a parameter of the model: [CLru] lists the
    operations the repository calls, [CLruLaws] the documented behaviour of each, stated on the
    most-recently-used-first sequence that [CLruCache::iter] yields.  [ListClru] is a concrete
    list-backed cache satisfying the laws, used by the witnesses. *)
From S2P Require Import Prelude.

Section Assoc.
Context {K V : Type} `{Keq : EqDecision K}.

(** Lookup and removal of a key in an association list. *)
Fixpoint alookup (k : K) (l : list (K * V)) : option V :=
  match l with
  | [] => None
  | (k', v) :: l => if decide (k = k') then Some v else alookup k l
  end.

Definition aremove (k : K) (l : list (K * V)) : list (K * V) :=
  filter (fun p => p.1 <> k) l.

(** Last element and all but the last. *)
Definition pop_last {A} (l : list A) : option A * list A :=
  (last l, take (pred (length l)) l).

Lemma alookup_Some_elem k v l : alookup k l = Some v -> (k, v) ∈ l.
Proof.
  induction l as [|[k' v'] l IH]; cbn; [done|].
  case_decide; intros Hl; [simplify_eq; left|right; auto].
Qed.

Lemma alookup_None k l : alookup k l = None <-> k ∉ l.*1.
Proof.
  induction l as [|[k' v'] l IH]; cbn; [set_solver|].
  case_decide; set_solver.
Qed.

Lemma alookup_is_Some k l : is_Some (alookup k l) <-> k ∈ l.*1.
Proof.
  rewrite <-not_eq_None_Some, alookup_None.
  destruct (decide (k ∈ l.*1)); tauto.
Qed.

Lemma alookup_elem k v l : NoDup l.*1 -> (k, v) ∈ l -> alookup k l = Some v.
Proof.
  induction l as [|[k' v'] l IH]; cbn; [set_solver|].
  intros Hnd Hin. apply NoDup_cons in Hnd as [Hni Hnd].
  apply elem_of_cons in Hin as [[= -> ->]|Hin].
  - by rewrite decide_True.
  - rewrite decide_False; [by auto|].
    intros ->. apply Hni, list_elem_of_fmap. by exists (k', v).
Qed.

Lemma aremove_absent k l : k ∉ l.*1 -> aremove k l = l.
Proof.
  unfold aremove. induction l as [|[k' v'] l IH]; [done|].
  rewrite fmap_cons, filter_cons. cbn [fst]. intros Hn.
  case_decide; [|set_solver]. f_equal. apply IH. set_solver.
Qed.

Lemma elem_of_aremove p k l : p ∈ aremove k l <-> p.1 <> k /\ p ∈ l.
Proof. unfold aremove. by rewrite list_elem_of_filter. Qed.

Lemma aremove_keys k l : (aremove k l).*1 = filter (fun k' => k' <> k) l.*1.
Proof.
  unfold aremove. induction l as [|[k' v'] l IH]; [done|].
  rewrite fmap_cons, !filter_cons. cbn [fst]. case_decide; [by rewrite fmap_cons, IH|done].
Qed.

Lemma aremove_NoDup k l : NoDup l.*1 -> NoDup (aremove k l).*1.
Proof. rewrite aremove_keys. apply NoDup_filter. Qed.

Lemma alookup_aremove k k' l :
  alookup k' (aremove k l) = if decide (k' = k) then None else alookup k' l.
Proof.
  unfold aremove. induction l as [|[k1 v1] l IH]; [by case_decide|].
  rewrite filter_cons. cbn [fst]. repeat (case_decide; cbn [alookup]; simplify_eq; try done).
Qed.

Lemma length_aremove_le k l : (length (aremove k l) <= length l)%nat.
Proof. apply length_filter. Qed.

Lemma length_aremove_lt k l : k ∈ l.*1 -> (length (aremove k l) < length l)%nat.
Proof.
  unfold aremove. induction l as [|[k1 v1] l IH]; [set_solver|].
  rewrite fmap_cons, filter_cons. cbn [fst]. intros Hin. case_decide as Hd; cbn [length].
  - assert (k ∈ l.*1) as Hk by set_solver. specialize (IH Hk). lia.
  - pose proof (length_aremove_le k l). unfold aremove in *. lia.
Qed.

(** Removing a key that occurs once. *)
Lemma aremove_middle k v l1 l2 :
  NoDup (l1 ++ (k, v) :: l2).*1 ->
  aremove k (l1 ++ (k, v) :: l2) = l1 ++ l2 /\ alookup k (l1 ++ (k, v) :: l2) = Some v.
Proof.
  intros Hnd. split.
  - rewrite fmap_app, fmap_cons in Hnd. cbn in Hnd.
    apply NoDup_app in Hnd as (_ & Hn1 & [Hn2 _]%NoDup_cons). unfold aremove.
    rewrite filter_app, filter_cons_False by (cbn; tauto).
    f_equal; apply filter_all, Forall_forall; intros p Hp Hk; subst.
    + apply (Hn1 p.1); [apply list_elem_of_fmap; eauto|left].
    + apply Hn2, list_elem_of_fmap. eauto.
  - apply alookup_elem; [done|]. set_solver.
Qed.

Lemma alookup_app k l1 l2 :
  alookup k (l1 ++ l2) = match alookup k l1 with Some v => Some v | None => alookup k l2 end.
Proof. induction l1 as [|[k1 v1] l1 IH]; cbn; [done|]. case_decide; auto. Qed.
End Assoc.

(** Updates the entry of [k], if there is one, and moves it to the front of the list. *)
Definition apromote {K V} `{EqDecision K} (k : K) (f : V -> V) (l : list (K * V)) :
    list (K * V) :=
  match alookup k l with
  | Some v => (k, f v) :: aremove k l
  | None => l
  end.

(** The operations of [CLruCache] the repository uses. *)
Class CLru (K V : Type) := {
  clru : Type;
  clru_with_memory : Z -> Z -> clru;          (* capacity, reserve *)
  clru_capacity : clru -> Z;
  clru_iter : clru -> list (K * V);           (* most recently used first *)
  clru_peek : clru -> K -> option V;
  clru_pop : clru -> K -> option V * clru;
  clru_put : clru -> K -> V -> option V * clru;
  clru_pop_back : clru -> option (K * V) * clru;
  clru_is_full : clru -> bool;
  clru_get_mut : clru -> K -> (V -> V) -> option clru;   (* [None]: no such key *)
  clru_back_mut : clru -> (V -> V) -> option clru;       (* [None]: empty cache *)
  clru_wf : clru -> Prop;                     (* a cache built by these operations *)
}.
Arguments clru K V {CLru}.

(** The documented behaviour of those operations. *)
Class CLruLaws (K V : Type) `{EqDecision K} (C : CLru K V) : Prop := {
  clru_new_wf cap res : 0 < cap -> clru_wf (clru_with_memory cap res);
  clru_new_iter cap res : clru_iter (clru_with_memory cap res) = [];
  clru_new_capacity cap res : clru_capacity (clru_with_memory cap res) = cap;
  clru_nodup c : clru_wf c -> NoDup (clru_iter c).*1;
  clru_bound c : clru_wf c -> len (clru_iter c) <= clru_capacity c;
  clru_capacity_pos c : clru_wf c -> 0 < clru_capacity c;
  clru_peek_spec c k : clru_wf c -> clru_peek c k = alookup k (clru_iter c);
  clru_is_full_spec c : clru_wf c -> clru_is_full c = (len (clru_iter c) =? clru_capacity c);
  clru_pop_spec c k : clru_wf c ->
    (clru_pop c k).1 = alookup k (clru_iter c) /\
    clru_wf (clru_pop c k).2 /\
    clru_iter (clru_pop c k).2 = aremove k (clru_iter c) /\
    clru_capacity (clru_pop c k).2 = clru_capacity c;
  clru_put_spec c k v : clru_wf c ->
    k ∉ (clru_iter c).*1 -> len (clru_iter c) < clru_capacity c ->
    (clru_put c k v).1 = None /\
    clru_wf (clru_put c k v).2 /\
    clru_iter (clru_put c k v).2 = (k, v) :: clru_iter c /\
    clru_capacity (clru_put c k v).2 = clru_capacity c;
  clru_pop_back_spec c : clru_wf c ->
    (clru_pop_back c).1 = last (clru_iter c) /\
    clru_wf (clru_pop_back c).2 /\
    clru_iter (clru_pop_back c).2 = (pop_last (clru_iter c)).2 /\
    clru_capacity (clru_pop_back c).2 = clru_capacity c;
  clru_get_mut_spec c k f : clru_wf c ->
    match clru_get_mut c k f with
    | None => k ∉ (clru_iter c).*1
    | Some c' => k ∈ (clru_iter c).*1 /\ clru_wf c' /\
        clru_iter c' = apromote k f (clru_iter c) /\ clru_capacity c' = clru_capacity c
    end;
  clru_back_mut_spec c f : clru_wf c ->
    match clru_back_mut c f with
    | None => clru_iter c = []
    | Some c' => exists l k v, clru_iter c = l ++ [(k, v)] /\ clru_wf c' /\
        clru_iter c' = l ++ [(k, f v)] /\ clru_capacity c' = clru_capacity c
    end;
}.

(** ** A list-backed cache satisfying the laws *)
Module ListClru.
Section ListClru.
Context {K V : Type} `{Keq : EqDecision K}.

Record t := Mk { cap : Z; items : list (K * V) }.

Definition pop (c : t) (k : K) : option V * t :=
  (alookup k (items c), Mk (cap c) (aremove k (items c))).

Definition pop_back (c : t) : option (K * V) * t :=
  ((pop_last (items c)).1, Mk (cap c) (pop_last (items c)).2).

(** A new key evicts the least recently used entry of a full cache. *)
Definition put (c : t) (k : K) (v : V) : option V * t :=
  match alookup k (items c) with
  | Some old => (Some old, Mk (cap c) ((k, v) :: aremove k (items c)))
  | None =>
      let base := if len (items c) <? cap c then items c else (pop_last (items c)).2 in
      (None, Mk (cap c) ((k, v) :: base))
  end.

Definition get_mut (c : t) (k : K) (f : V -> V) : option t :=
  match alookup k (items c) with
  | Some _ => Some (Mk (cap c) (apromote k f (items c)))
  | None => None
  end.

Definition back_mut (c : t) (f : V -> V) : option t :=
  match last (items c) with
  | Some (k, v) => Some (Mk (cap c) ((pop_last (items c)).2 ++ [(k, f v)]))
  | None => None
  end.

Definition wf (c : t) : Prop :=
  NoDup (items c).*1 /\ len (items c) <= cap c /\ 0 < cap c.

#[export] Instance list_clru : CLru K V := {|
  clru := t;
  clru_with_memory cap _ := Mk cap [];
  clru_capacity := cap;
  clru_iter := items;
  clru_peek c k := alookup k (items c);
  clru_pop := pop;
  clru_put := put;
  clru_pop_back := pop_back;
  clru_is_full c := len (items c) =? cap c;
  clru_get_mut := get_mut;
  clru_back_mut := back_mut;
  clru_wf := wf;
|}.

Lemma pop_last_snoc {A} (l : list A) x : pop_last (l ++ [x]) = (Some x, l).
Proof.
  unfold pop_last. rewrite last_snoc, length_app. cbn.
  rewrite Nat.add_1_r. cbn. by rewrite take_app_length.
Qed.

#[export] Instance list_clru_laws : CLruLaws K V list_clru.
Proof.
  split; cbn; unfold wf; intros.
  - cbn. split_and!; [constructor|rewrite len_nil; lia|done].
  - done.
  - done.
  - tauto.
  - tauto.
  - tauto.
  - done.
  - done.
  - cbn. destruct H as (Hnd & Hl & Hc). split_and!; try done.
    + by apply aremove_NoDup.
    + pose proof (length_aremove_le k (items c)). unfold len in *. lia.
  - destruct H as (Hnd & Hl & Hc). apply alookup_None in H0 as Hn. unfold put. rewrite Hn.
    apply Z.ltb_lt in H1 as Hlt. rewrite Hlt. cbn. split_and!; try done.
    + by apply NoDup_cons.
    + rewrite len_cons. lia.
  - destruct H as (Hnd & Hl & Hc). unfold pop_back. cbn.
    destruct (items c) as [|x l _] using rev_ind.
    + split_and!; try done.
    + rewrite last_snoc, length_app, Nat.add_1_r. cbn. rewrite take_app_length.
      rewrite fmap_app in Hnd. apply NoDup_app in Hnd as (? & _ & _).
      rewrite len_app, len_cons, len_nil in Hl. split_and!; try done. lia.
  - destruct H as (Hnd & Hl & Hc). unfold get_mut.
    destruct (alookup k (items c)) as [v|] eqn:E; [|by apply alookup_None].
    assert (k ∈ (items c).*1) as Hk by (apply alookup_is_Some; eauto).
    split; [done|]. unfold apromote. rewrite E. cbn. split_and!; try done.
    + apply NoDup_cons. split; [|by apply aremove_NoDup].
      rewrite aremove_keys, list_elem_of_filter. tauto.
    + pose proof (length_aremove_lt k (items c) Hk). unfold len in *. cbn. lia.
  - destruct H as (Hnd & Hl & Hc). unfold back_mut.
    destruct (items c) as [|[k v] l _] using rev_ind; [done|].
    rewrite last_snoc, pop_last_snoc. cbn. exists l, k, v. split_and!; try done.
    + by rewrite fmap_app in *.
    + rewrite len_app, len_cons, len_nil in *. lia.
Qed.
End ListClru.
Arguments t : clear implicits.
End ListClru.
