(* ===== verification/BoundedTtlCache.v ===== *)
(** * The fixed-capacity TTL cache ([services/opensecret/src/bounded_ttl_cache.rs])

    Every operation of [BoundedTtlCache] over the [clru] interface.  Rust panics ([expect]) are
    the [None] of an [option] result.  The invariant [ttl_inv] says that recency order is expiry
    order, which is what lets [retire_expired_at] stop at the first live entry. *)
From S2P Require Import Prelude Clru.

Inductive InsertOutcome :=
| Inserted
| Replaced
| ReclaimedExpired
| EvictedOldest.

Record TimedEntry (V : Type) := MkTimedEntry { te_value : V; te_expires_at : Instant }.
Arguments MkTimedEntry {V}.
Arguments te_value {V}.
Arguments te_expires_at {V}.

(** [zeroize::Zeroize] of the stored values. *)
Class Zeroize (V : Type) := zeroize : V -> V.

Section BoundedTtl.
Context {K V : Type} `{Keq : EqDecision K} {C : CLru K (TimedEntry V)}.

Record BoundedTtlCache := MkBoundedTtlCache {
  btc_entries : clru K (TimedEntry V);
  btc_ttl : Duration;
}.

Definition RetiredValues := list (TimedEntry V).
Definition removed_count (r : RetiredValues) : Z := len r.

Definition new (capacity : Z) (ttl : Duration) : BoundedTtlCache :=
  MkBoundedTtlCache (clru_with_memory capacity capacity) ttl.

Definition insert_evicting_at (c : BoundedTtlCache) (key : K) (value : V) (now : Instant) :
    option (InsertOutcome * BoundedTtlCache) :=
  expires_at ← instant_checked_add now (btc_ttl c);
  let entry := MkTimedEntry value expires_at in
  match clru_pop (btc_entries c) key with
  | (Some _, es) =>
      let (_, es) := clru_put es key entry in
      Some (Replaced, MkBoundedTtlCache es (btc_ttl c))
  | (None, es) =>
      '(outcome, es) ←
        (if clru_is_full es then
           match clru_pop_back es with
           | (Some (_, oldest), es) =>
               Some (if te_expires_at oldest <=? now then ReclaimedExpired else EvictedOldest, es)
           | (None, _) => None
           end
         else Some (Inserted, es));
      let (_, es) := clru_put es key entry in
      Some (outcome, MkBoundedTtlCache es (btc_ttl c))
  end.

(** The lookup mutates the cache: an expired entry is removed. *)
Definition get_live_at (c : BoundedTtlCache) (key : K) (now : Instant) :
    option V * BoundedTtlCache :=
  if is_some_and (fun e => te_expires_at e <=? now) (clru_peek (btc_entries c) key)
  then (None, MkBoundedTtlCache (clru_pop (btc_entries c) key).2 (btc_ttl c))
  else (te_value <$> clru_peek (btc_entries c) key, c).

Definition take_live_at (c : BoundedTtlCache) (key : K) (now : Instant) :
    option V * BoundedTtlCache :=
  match clru_pop (btc_entries c) key with
  | (None, es) => (None, MkBoundedTtlCache es (btc_ttl c))
  | (Some entry, es) =>
      ((if te_expires_at entry <=? now then None else Some (te_value entry)),
        MkBoundedTtlCache es (btc_ttl c))
  end.

(** The body of the retirement loop: wipe the oldest value in place, then pop it. *)
Fixpoint retire_oldest `{!Zeroize V} (n : nat) (es : clru K (TimedEntry V)) :
    option (RetiredValues * clru K (TimedEntry V)) :=
  match n with
  | O => Some ([], es)
  | S n =>
      es ← clru_back_mut es (fun e => MkTimedEntry (zeroize (te_value e)) (te_expires_at e));
      match clru_pop_back es with
      | (Some (_, entry), es) =>
          '(rest, es) ← retire_oldest n es;
          Some (entry :: rest, es)
      | (None, _) => None
      end
  end.

Definition retire_expired_at `{!Zeroize V} (c : BoundedTtlCache) (now : Instant) :
    option (RetiredValues * BoundedTtlCache) :=
  let expired_count :=
    count_while (fun p => te_expires_at p.2 <=? now) (rev (clru_iter (btc_entries c))) in
  '(entries, es) ← retire_oldest expired_count (btc_entries c);
  Some (entries, MkBoundedTtlCache es (btc_ttl c)).
End BoundedTtl.
Arguments BoundedTtlCache K V {C}.
Arguments RetiredValues V : clear implicits.

(** ** Views, invariant and reachable states *)
Section Theory.
Context {K V : Type} `{Keq : EqDecision K} {C : CLru K (TimedEntry V)}.
Context {HC : CLruLaws K (TimedEntry V) C}.
Implicit Types (c : BoundedTtlCache K V) (k : K) (v : V) (now : Instant).

Definition items c : list (K * TimedEntry V) := clru_iter (btc_entries c).
Definition expiry (p : K * TimedEntry V) : Instant := te_expires_at p.2.
Definition expired now (p : K * TimedEntry V) : bool := expiry p <=? now.

(** What a client can observe of a key at an instant. *)
Definition live_lookup c k now : option V :=
  match alookup k (items c) with
  | Some e => if te_expires_at e <=? now then None else Some (te_value e)
  | None => None
  end.

Definition cache_wf c : Prop := clru_wf (btc_entries c).

(** Entries are held newest deadline first, none beyond the deadline of an insertion now. *)
Definition ttl_inv (last : Instant) c : Prop :=
  cache_wf c /\
  StronglySorted (fun p q => expiry q <= expiry p) (items c) /\
  Forall (fun p => expiry p <= last + btc_ttl c) (items c).

(** The key an insertion displaces, if any: the oldest one of a full cache. *)
Definition displaced c k : option K :=
  if decide (k ∈ (items c).*1) then None
  else if len (items c) =? clru_capacity (btc_entries c) then last (items c).*1 else None.

Definition insert_outcome c k now : InsertOutcome :=
  if decide (k ∈ (items c).*1) then Replaced
  else if len (items c) =? clru_capacity (btc_entries c) then
    match last (items c) with
    | Some p => if expired now p then ReclaimedExpired else EvictedOldest
    | None => Inserted
    end
  else Inserted.

Definition insert_rest c k : list (K * TimedEntry V) :=
  if decide (k ∈ (items c).*1) then aremove k (items c)
  else if len (items c) =? clru_capacity (btc_entries c) then (pop_last (items c)).2
  else items c.

(** The panic-free result of an insertion, on the recency list. *)
Lemma insert_items c k v now :
  cache_wf c -> now + btc_ttl c <= INSTANT_MAX ->
  exists c', insert_evicting_at c k v now = Some (insert_outcome c k now, c') /\
    cache_wf c' /\ btc_ttl c' = btc_ttl c /\
    clru_capacity (btc_entries c') = clru_capacity (btc_entries c) /\
    items c' = (k, MkTimedEntry v (now + btc_ttl c)) :: insert_rest c k.
Proof.
  intros Hwf Hmax. unfold insert_evicting_at, instant_checked_add.
  rewrite (proj2 (Z.leb_le _ _) Hmax). cbn [mbind option_bind].
  destruct (clru_pop_spec _ k Hwf) as (Hp1 & Hp2 & Hp3 & Hp4).
  pose proof (clru_bound _ Hwf) as Hb. pose proof (clru_capacity_pos _ Hwf) as Hpos.
  destruct (clru_pop (btc_entries c) k) as [o es]; cbn in Hp1, Hp2, Hp3, Hp4.
  unfold insert_outcome, insert_rest, items.
  destruct (decide (k ∈ (clru_iter (btc_entries c)).*1)) as [Hin|Hin].
  - apply alookup_is_Some in Hin as Hs. rewrite <-Hp1 in Hs. destruct Hs as [old ->].
    pose proof (length_aremove_lt _ _ Hin).
    destruct (clru_put_spec es k (MkTimedEntry v (now + btc_ttl c)) Hp2) as (Hq1 & Hq2 & Hq3 & Hq4).
    { rewrite Hp3, aremove_keys, list_elem_of_filter. tauto. }
    { rewrite Hp3, Hp4. unfold len in *. lia. }
    destruct (clru_put _ _ _) as [o' es']; cbn in *. eexists; split; [done|].
    cbn. rewrite Hq3, Hp3, Hq4, Hp4. split_and!; done.
  - apply alookup_None in Hin as Hn. rewrite Hp1, Hn.
    rewrite aremove_absent in Hp3 by done.
    rewrite clru_is_full_spec, Hp3, Hp4 by done.
    destruct (len (clru_iter (btc_entries c)) =? _) eqn:Hfull; bool_to_prop.
    + destruct (clru_pop_back_spec es Hp2) as (Hb1 & Hb2 & Hb3 & Hb4).
      destruct (clru_pop_back es) as [o' es']; cbn [fst snd] in Hb1, Hb2, Hb3, Hb4. rewrite Hp3 in Hb1, Hb3.
      destruct (clru_iter (btc_entries c)) as [|[k1 e1] l _] eqn:E using rev_ind;
        [rewrite len_nil in *; lia|].
      rewrite last_snoc in *. rewrite ListClru.pop_last_snoc in *. cbn [fst snd] in *. subst o'.
      rewrite len_app, len_cons, len_nil in *.
      destruct (clru_put_spec es' k (MkTimedEntry v (now + btc_ttl c)) Hb2)
        as (Hq1 & Hq2 & Hq3 & Hq4);
        [rewrite Hb3; intros Hl; apply Hin; rewrite fmap_app; apply elem_of_app; by left
        |rewrite Hb3, Hb4, Hp4; lia|].
      cbn. destruct (clru_put es' _ _) as [o2 es2]; cbn in *. eexists; split; [done|].
      cbn. rewrite Hq3, Hb3, Hq4, Hb4, Hp4. split_and!; done.
    + destruct (clru_put_spec es k (MkTimedEntry v (now + btc_ttl c)) Hp2)
        as (Hq1 & Hq2 & Hq3 & Hq4); [by rewrite Hp3|rewrite Hp3, Hp4; lia|].
      cbn. destruct (clru_put es _ _) as [o2 es2]; cbn in *. eexists; split; [done|].
      cbn. rewrite Hq3, Hp3, Hq4, Hp4. split_and!; done.
Qed.

(** [get_live_at] and [take_live_at] on the recency list. *)
Lemma get_live_items c k now :
  cache_wf c ->
  let r := get_live_at c k now in
  r.1 = live_lookup c k now /\ cache_wf r.2 /\ btc_ttl r.2 = btc_ttl c /\
  items r.2 = (if is_some_and (fun e => te_expires_at e <=? now) (alookup k (items c))
               then aremove k (items c) else items c).
Proof.
  intros Hwf. unfold get_live_at, live_lookup, items, cache_wf.
  rewrite (clru_peek_spec _ k Hwf).
  destruct (clru_pop_spec _ k Hwf) as (Hp1 & Hp2 & Hp3 & _).
  destruct (alookup k _) as [e|]; cbn; [|done].
  destruct (te_expires_at e <=? now); cbn; done.
Qed.

Lemma take_live_items c k now :
  cache_wf c ->
  let r := take_live_at c k now in
  r.1 = live_lookup c k now /\ cache_wf r.2 /\ btc_ttl r.2 = btc_ttl c /\
  items r.2 = aremove k (items c).
Proof.
  intros Hwf. unfold take_live_at, live_lookup, items, cache_wf.
  destruct (clru_pop_spec _ k Hwf) as (Hp1 & Hp2 & Hp3 & _).
  destruct (clru_pop _ k) as [[e|] es]; cbn in *; rewrite <-Hp1; done.
Qed.

Lemma alookup_pop_last (l : list (K * TimedEntry V)) k :
  NoDup l.*1 ->
  alookup k (pop_last l).2 = if decide (Some k = last l.*1) then None else alookup k l.
Proof.
  destruct l as [|[k1 e1] l _] using rev_ind; [by case_decide|].
  rewrite ListClru.pop_last_snoc, fmap_app, alookup_app. cbn [snd fmap list_fmap fst alookup].
  rewrite last_snoc. intros (_ & Hni & _)%NoDup_app.
  destruct (decide (Some k = Some k1)) as [[= <-]|Hne].
  - apply alookup_None. intros Hk. by apply (Hni k Hk); left.
  - rewrite decide_False by congruence. by destruct (alookup k l).
Qed.

(** Lookups after the recency list gained a head entry. *)
Lemma insert_lookup c c' k v e t :
  cache_wf c -> te_value e = v ->
  items c' = (k, e) :: insert_rest c k ->
  forall k', live_lookup c' k' t =
    if decide (k' = k) then (if te_expires_at e <=? t then None else Some v)
    else if decide (Some k' = displaced c k) then None else live_lookup c k' t.
Proof.
  intros Hwf Hv Hi k'. unfold live_lookup. rewrite Hi. cbn [alookup].
  case_decide as Hk; [by rewrite Hv|]. unfold insert_rest, displaced.
  pose proof (clru_nodup _ Hwf) as Hnd. fold (items c) in Hnd.
  destruct (decide (k ∈ (items c).*1)).
  - rewrite alookup_aremove, decide_False by done. by rewrite decide_False.
  - destruct (_ =? _); [|by rewrite decide_False].
    rewrite alookup_pop_last by done. by case_decide.
Qed.

Lemma pop_last_sublist {A} (l : list A) : exists l2, l = (pop_last l).2 ++ l2.
Proof. exists (drop (pred (length l)) l). cbn. by rewrite take_drop. Qed.

Lemma insert_rest_sorted c k (R : K * TimedEntry V -> K * TimedEntry V -> Prop) :
  StronglySorted R (items c) -> StronglySorted R (insert_rest c k).
Proof.
  intros Hs. unfold insert_rest. case_decide; [by apply StronglySorted_filter_rel|].
  destruct (_ =? _); [|done]. destruct (pop_last_sublist (items c)) as [l2 E].
  rewrite E in Hs. by apply StronglySorted_app_l in Hs.
Qed.

Lemma insert_rest_Forall c k (P : K * TimedEntry V -> Prop) :
  Forall P (items c) -> Forall P (insert_rest c k).
Proof.
  intros Hs. unfold insert_rest. case_decide.
  - apply Forall_forall. intros p [_ Hp]%elem_of_aremove. by eapply Forall_forall in Hs.
  - destruct (_ =? _); [|done]. destruct (pop_last_sublist (items c)) as [l2 E].
    rewrite E in Hs. by apply Forall_app in Hs as [? _].
Qed.

Lemma ttl_inv_weaken last now c : last <= now -> ttl_inv last c -> ttl_inv now c.
Proof.
  intros Hle (Hwf & Hs & Hb). split_and!; [done..|].
  eapply Forall_impl; [exact Hb|]. cbn. lia.
Qed.

(** Removing entries keeps the invariant. *)
Lemma ttl_inv_remove last c c' k :
  ttl_inv last c -> cache_wf c' -> btc_ttl c' = btc_ttl c ->
  items c' = aremove k (items c) -> ttl_inv last c'.
Proof.
  intros (Hwf & Hs & Hb) Hwf' Ht Hi. unfold ttl_inv. rewrite Hi, Ht. split_and!; [done| |].
  - by apply StronglySorted_filter_rel.
  - apply Forall_forall. intros p [_ Hp]%elem_of_aremove. by eapply Forall_forall in Hb.
Qed.

Context `{Hz : !Zeroize V}.

Definition wiped (e : TimedEntry V) : TimedEntry V :=
  MkTimedEntry (zeroize (te_value e)) (te_expires_at e).

Lemma retire_oldest_items (l r : list (K * TimedEntry V)) es :
  clru_wf es -> clru_iter es = l ++ r ->
  exists es', retire_oldest (length r) es = Some ((fun p => wiped p.2) <$> rev r, es') /\
    clru_wf es' /\ clru_iter es' = l.
Proof.
  revert es. induction r as [|[k e] r IH] using rev_ind; intros es Hwf Hi.
  { exists es. rewrite app_nil_r in Hi. done. }
  rewrite length_app, Nat.add_1_r. cbn [retire_oldest].
  pose proof (clru_back_mut_spec es wiped Hwf) as Hb. unfold wiped in Hb at 1.
  destruct (clru_back_mut es _) as [es1|]; cbn [mbind option_bind].
  2:{ rewrite Hi in Hb. by destruct l, r. }
  destruct Hb as (l1 & k1 & e1 & E1 & Hwf1 & Hi1 & _).
  rewrite Hi, app_assoc in E1. apply app_inj_tail in E1 as [<- [= <- <-]].
  destruct (clru_pop_back_spec es1 Hwf1) as (Hp1 & Hp2 & Hp3 & _).
  rewrite Hi1, last_snoc in Hp1. rewrite Hi1, ListClru.pop_last_snoc in Hp3.
  destruct (clru_pop_back es1) as [o es2]. cbn [fst snd] in *. subst o.
  destruct (IH es2 Hp2 Hp3) as (es' & E & Hw' & Hi').
  exists es'. rewrite E. cbn. by rewrite rev_app_distr.
Qed.

Lemma sorted_expired now (l : list (K * TimedEntry V)) :
  StronglySorted (fun p q => expiry q <= expiry p) l ->
  StronglySorted (fun p q => expired now p = true -> expired now q = true) l.
Proof.
  apply StronglySorted_impl_rel. unfold expired. intros p q Hpq Hp%Z.leb_le.
  apply Z.leb_le. lia.
Qed.

Lemma retire_items last c now :
  ttl_inv last c ->
  exists c', retire_expired_at c now
      = Some ((fun p => wiped p.2) <$> rev (filter (fun p => expired now p = true) (items c)), c') /\
    ttl_inv last c' /\ btc_ttl c' = btc_ttl c /\
    items c' = filter (fun p => expired now p = false) (items c).
Proof.
  intros (Hwf & Hs & Hb). pose proof (sorted_split _ _ (sorted_expired now _ Hs)) as Hsp.
  assert (count_while (expired now) (rev (items c))
          = length (filter (fun p => expired now p = true) (items c))) as Hn.
  { rewrite Hsp at 1. apply count_while_rev; apply Forall_forall;
      by intros p [? _]%list_elem_of_filter. }
  destruct (retire_oldest_items _ _ _ Hwf Hsp) as (es & E & Hw & Hi).
  rewrite <-Hn in E. unfold retire_expired_at.
  change (fun p : K * TimedEntry V => te_expires_at p.2 <=? now) with (expired now).
  change (clru_iter (btc_entries c)) with (items c). rewrite E. cbn.
  eexists. split; [done|]. split_and!; try done; cbn.
  - split_and!; [done|..]; unfold items; cbn; rewrite Hi.
    + by apply StronglySorted_filter_rel.
    + apply Forall_forall. intros p [_ Hp]%list_elem_of_filter. by eapply Forall_forall in Hb.
Qed.

(** One cache operation at an instant no earlier than the previous one. *)
Inductive ttl_step : Instant * BoundedTtlCache K V -> Instant * BoundedTtlCache K V -> Prop :=
| step_insert last now c k v o c' :
    last <= now -> insert_evicting_at c k v now = Some (o, c') ->
    ttl_step (last, c) (now, c')
| step_get last now c k :
    last <= now -> ttl_step (last, c) (now, (get_live_at c k now).2)
| step_take last now c k :
    last <= now -> ttl_step (last, c) (now, (take_live_at c k now).2)
| step_retire last now c r c' :
    last <= now -> retire_expired_at c now = Some (r, c') ->
    ttl_step (last, c) (now, c').

Definition ttl_reachable (cap : Z) (ttl : Duration) (s : Instant * BoundedTtlCache K V) : Prop :=
  exists t0, rtc ttl_step (t0, new cap ttl) s.

Lemma insert_fits c k v now r :
  insert_evicting_at c k v now = Some r -> now + btc_ttl c <= INSTANT_MAX.
Proof.
  unfold insert_evicting_at, instant_checked_add.
  destruct (now + btc_ttl c <=? INSTANT_MAX) eqn:E; [|done]. intros _. by apply Z.leb_le.
Qed.

Lemma ttl_step_inv s s' : ttl_step s s' -> ttl_inv s.1 s.2 -> ttl_inv s'.1 s'.2.
Proof.
  destruct 1 as [last now c k v o c' Hle E|last now c k Hle|last now c k Hle|last now c r c' Hle E];
    cbn; intros Hinv; apply (ttl_inv_weaken _ now) in Hinv; try done.
  - pose proof (insert_fits _ _ _ _ _ E) as Hmax. destruct Hinv as (Hwf & Hs & Hb).
    destruct (insert_items c k v now Hwf Hmax) as (c2 & E2 & Hwf2 & Ht2 & _ & Hi2).
    rewrite E in E2. injection E2 as _ <-. unfold ttl_inv. rewrite Hi2, Ht2. split_and!; [done|..].
    + constructor; [by apply insert_rest_sorted|].
      apply insert_rest_Forall. eapply Forall_impl; [exact Hb|]. cbn. unfold expiry. cbn. lia.
    + constructor; [unfold expiry; cbn; lia|]. by apply insert_rest_Forall.
  - destruct (get_live_items c k now (proj1 Hinv)) as (_ & Hwf & Ht & Hi).
    destruct (is_some_and _ _); [by eapply ttl_inv_remove|].
    destruct Hinv as (_ & Hs & Hb). unfold ttl_inv. by rewrite Hi, Ht.
  - destruct (take_live_items c k now (proj1 Hinv)) as (_ & Hwf & Ht & Hi).
    by eapply ttl_inv_remove.
  - destruct (retire_items _ _ now Hinv) as (c2 & E2 & Hinv2 & _).
    rewrite E in E2. by injection E2 as _ <-.
Qed.

Lemma ttl_reachable_inv cap ttl s :
  0 < cap -> ttl_reachable cap ttl s -> ttl_inv s.1 s.2.
Proof.
  intros Hcap [t0 Hr]. eapply (rtc_invariant _ (fun s => ttl_inv s.1 s.2)); [|exact Hr|].
  - apply ttl_step_inv.
  - cbn. unfold ttl_inv, items, cache_wf, new. cbn. rewrite clru_new_iter.
    split_and!; [by apply clru_new_wf|constructor..].
Qed.

(** Inserting into the bounded TTL cache never panics while the deadline fits an [Instant],
    always admits the value, never exceeds the capacity, reports the outcome that describes
    what happened, and changes the lookup of no key but the inserted one and, in a full cache,
    the oldest one. *)
Theorem bounded_insert_admits c k v now :
  cache_wf c -> now + btc_ttl c <= INSTANT_MAX ->
  exists c', insert_evicting_at c k v now = Some (insert_outcome c k now, c') /\
    cache_wf c' /\ len (items c') <= clru_capacity (btc_entries c) /\
    forall k' t, live_lookup c' k' t =
      if decide (k' = k) then (if now + btc_ttl c <=? t then None else Some v)
      else if decide (Some k' = displaced c k) then None
      else live_lookup c k' t.
Proof.
  intros Hwf Hmax. destruct (insert_items c k v now Hwf Hmax) as (c' & E & Hwf' & _ & Hc & Hi).
  exists c'. split_and!; [done..| |].
  - rewrite <-Hc. by apply clru_bound.
  - intros k' t. by apply (insert_lookup c c' k v (MkTimedEntry v (now + btc_ttl c)) t).
Qed.

(** In every state the bounded TTL cache reaches under a clock that never runs backwards,
    one retirement pass removes exactly the expired entries, oldest first and wiped, and keeps
    every live entry in place, although it stops scanning at the first live one. *)
Theorem bounded_retire_exact cap ttl last now c :
  0 < cap -> ttl_reachable cap ttl (last, c) ->
  exists c', retire_expired_at c now
      = Some ((fun p => wiped p.2) <$> rev (filter (fun p => expired now p = true) (items c)), c') /\
    items c' = filter (fun p => expired now p = false) (items c) /\
    forall k t, now <= t -> live_lookup c' k t = live_lookup c k t.
Proof.
  intros Hcap Hr. pose proof (ttl_reachable_inv _ _ _ Hcap Hr) as Hinv. cbn in Hinv.
  destruct (retire_items _ _ now Hinv) as (c' & E & Hinv' & _ & Hi).
  exists c'. split_and!; [done..|]. intros k t Ht.
  pose proof (clru_nodup _ (proj1 Hinv)) as Hnd. fold (items c) in Hnd.
  pose proof (clru_nodup _ (proj1 Hinv')) as Hnd'. fold (items c') in Hnd'.
  unfold live_lookup. destruct (alookup k (items c')) as [e|] eqn:E1.
  - apply alookup_Some_elem in E1. rewrite Hi in E1. apply list_elem_of_filter in E1 as [_ E1].
    by rewrite (alookup_elem _ _ _ Hnd E1).
  - destruct (alookup k (items c)) as [e|] eqn:E2; [|done].
    destruct (te_expires_at e <=? t) eqn:E3; [done|]. bool_to_prop.
    apply alookup_Some_elem in E2. apply alookup_None in E1. exfalso. apply E1.
    rewrite Hi. apply list_elem_of_fmap. exists (k, e). split; [done|].
    apply list_elem_of_filter. split; [|done]. unfold expired, expiry. cbn. apply Z.leb_gt. lia.
Qed.

(** A value is taken at most once: [take_live_at] returns it only before its deadline and
    no later lookup or take of the key succeeds until it is inserted again; other keys are
    untouched. *)
Theorem bounded_take_once c k now :
  cache_wf c ->
  let r := take_live_at c k now in
  r.1 = live_lookup c k now /\
  (forall t, (take_live_at r.2 k t).1 = None /\ (get_live_at r.2 k t).1 = None) /\
  (forall k' t, k' <> k -> live_lookup r.2 k' t = live_lookup c k' t).
Proof.
  intros Hwf r. destruct (take_live_items c k now Hwf) as (Hr & Hwf' & _ & Hi). fold r in Hr, Hwf', Hi.
  assert (forall k' t, live_lookup r.2 k' t = if decide (k' = k) then None else live_lookup c k' t) as Hl.
  { intros k' t. unfold live_lookup. rewrite Hi, alookup_aremove. by case_decide. }
  split_and!; [done| |].
  - intros t. destruct (take_live_items r.2 k t Hwf') as [-> _].
    destruct (get_live_items r.2 k t Hwf') as [-> _]. by rewrite !Hl, decide_True.
  - intros k' t Hne. by rewrite Hl, decide_False.
Qed.
End Theory.

(** ** Witnesses: the list-backed cache over string keys *)
#[local] Existing Instances ListClru.list_clru ListClru.list_clru_laws.
#[local] Instance nat_zeroize : Zeroize nat := fun _ => 0%nat.

Definition sample_of (l : list (string * TimedEntry nat)) : BoundedTtlCache string nat :=
  @MkBoundedTtlCache string nat ListClru.list_clru (ListClru.Mk 2 l) 20.

Definition sample_cache : BoundedTtlCache string nat :=
  sample_of [("b"%string, MkTimedEntry 2%nat 30); ("a"%string, MkTimedEntry 1%nat 15)].

Lemma sample_cache_wf : cache_wf sample_cache.
Proof. split_and!; [|done..]. cbn. repeat constructor; set_solver. Qed.

Lemma bounded_insert_admits_witness :
  exists c', insert_evicting_at sample_cache "c"%string 3%nat 16 = Some (ReclaimedExpired, c') /\
    live_lookup c' "c"%string 35 = Some 3%nat /\ live_lookup c' "a"%string 10 = None.
Proof.
  destruct (bounded_insert_admits sample_cache "c"%string 3%nat 16 sample_cache_wf)
    as (c' & E & _ & _ & Hl); [vm_compute; discriminate|].
  exists c'. split; [exact E|]. rewrite !Hl. split; reflexivity.
Defined.

Lemma sample_reachable :
  ttl_reachable 2 20
    (10, sample_of [("b"%string, MkTimedEntry 2%nat 30); ("a"%string, MkTimedEntry 1%nat 25)]).
Proof.
  exists 0. eapply rtc_l; [eapply (step_insert 0 5 _ "a"%string 1%nat); [lia|reflexivity]|].
  eapply rtc_l; [eapply (step_insert 5 10 _ "b"%string 2%nat); [lia|reflexivity]|]. apply rtc_refl.
Qed.

Lemma bounded_retire_exact_witness :
  exists c', retire_expired_at
      (sample_of [("b"%string, MkTimedEntry 2%nat 30); ("a"%string, MkTimedEntry 1%nat 25)]) 26
    = Some ([MkTimedEntry 0%nat 25], c') /\ items c' = [("b"%string, MkTimedEntry 2%nat 30)].
Proof.
  destruct (bounded_retire_exact 2 20 10 26 _ ltac:(lia) sample_reachable) as (c' & E & Hi & _).
  exists c'. split; [exact E|exact Hi].
Defined.

Lemma bounded_take_once_witness :
  (take_live_at sample_cache "b"%string 16).1 = Some 2%nat /\
  (take_live_at (take_live_at sample_cache "b"%string 16).2 "b"%string 17).1 = None.
Proof.
  destruct (bounded_take_once sample_cache "b"%string 16 sample_cache_wf) as (H1 & H2 & _).
  split; [exact H1|apply H2].
Defined.
