(* ===== verification/LeaseAwareCache.v ===== *)
(** * The lease-aware TTL cache ([services/opensecret/src/lease_aware_cache.rs])

    Cached values live behind [Arc<LeaseSlot>]: the model keeps the slots in a heap with their
    lease counter and strong count.  A [CacheLease] is dropped outside the cache's mutex in two
    separate steps (the counter first, the [Arc] afterwards), and other operations may run in
    between; [lease_step] interleaves them.  Panics ([expect], a deadline that does not fit) are
    the [None] of an [option]. *)
From S2P Require Import Prelude Clru.

Inductive InsertOutcome :=
| Inserted
| ReclaimedExpired
| EvictedLeastRecentlyUsed.

Inductive InsertError := DuplicateKey | AllEntriesLeased.

(** A slot with the strong count of the [Arc] around it. *)
Record LeaseSlot (V : Type) := MkLeaseSlot { ls_value : V; ls_leases : Z; ls_strong : Z }.
Arguments MkLeaseSlot {V}.
Arguments ls_value {V}.
Arguments ls_leases {V}.
Arguments ls_strong {V}.

Abbreviation Slot := positive (only parsing).

Record CachedValue := MkCachedValue { cv_slot : Slot; cv_expires_at : Instant }.

Record Heap (V : Type) := MkHeap { h_slots : gmap Slot (LeaseSlot V); h_next : Slot }.
Arguments MkHeap {V}.
Arguments h_slots {V}.
Arguments h_next {V}.

Section Slots.
Context {V : Type}.
Implicit Types (h : Heap V) (r : Slot).

Definition set_slot h r s : Heap V := MkHeap (<[r := s]> (h_slots h)) (h_next h).

(** [Arc::new(LeaseSlot::new(value))] *)
Definition slot_new h (value : V) : Slot * Heap V :=
  (h_next h, MkHeap (<[h_next h := MkLeaseSlot value 0 1]> (h_slots h)) (Pos.succ (h_next h))).

(** Dropping one [Arc]. *)
Definition slot_drop h r : Heap V :=
  match h_slots h !! r with
  | Some s =>
      if ls_strong s =? 1 then MkHeap (delete r (h_slots h)) (h_next h)
      else set_slot h r (MkLeaseSlot (ls_value s) (ls_leases s) (ls_strong s - 1))
  | None => h
  end.

(** [Arc::clone] *)
Definition slot_clone h r : Heap V :=
  match h_slots h !! r with
  | Some s => set_slot h r (MkLeaseSlot (ls_value s) (ls_leases s) (ls_strong s + 1))
  | None => h
  end.

Definition is_leased h r : bool :=
  is_some_and (fun s => negb (ls_leases s =? 0)) (h_slots h !! r).

Definition strong_count h r : Z := map_or 0 ls_strong (h_slots h !! r).

Definition try_acquire h r : bool * Heap V :=
  match h_slots h !! r with
  | Some s =>
      match checked_add_u64 (ls_leases s) 1 with
      | Some n => (true, set_slot h r (MkLeaseSlot (ls_value s) n (ls_strong s)))
      | None => (false, h)
      end
  | None => (false, h)
  end.

Definition has_external_lease h (e : CachedValue) : bool :=
  is_leased h (cv_slot e) || negb (strong_count h (cv_slot e) =? 1).

(** [Drop for CacheLease]: the counter; the [Arc] field is dropped afterwards. *)
Definition lease_drop h r : Heap V :=
  match h_slots h !! r with
  | Some s => set_slot h r (MkLeaseSlot (ls_value s) (wrap_u64 (ls_leases s - 1)) (ls_strong s))
  | None => h
  end.

(** [CacheLease::value] *)
Definition lease_value h r : option V := ls_value <$> h_slots h !! r.
End Slots.

Section LeaseAware.
Context {K V : Type} `{Keq : EqDecision K} {C : CLru K CachedValue}.
Implicit Types (h : Heap V) (key : K) (now : Instant).

Record LeaseAwareTtlCache := MkLeaseAwareTtlCache {
  lac_entries : clru K CachedValue;
  lac_ttl : Duration;
}.
Implicit Types c : LeaseAwareTtlCache.

Definition new (capacity : Z) (ttl : Duration) : LeaseAwareTtlCache :=
  MkLeaseAwareTtlCache (clru_with_memory capacity capacity) ttl.

Definition expiry_at c now : option Instant := instant_checked_add now (lac_ttl c).

Definition insert_new c h key (value : V) (expires_at : Instant) : LeaseAwareTtlCache * Heap V :=
  let (r, h) := slot_new h value in
  (MkLeaseAwareTtlCache (clru_put (lac_entries c) key (MkCachedValue r expires_at)).2 (lac_ttl c), h).

Definition insert_evicting_at c h key (value : V) now :
    option (result InsertError InsertOutcome * LeaseAwareTtlCache * Heap V) :=
  if is_some (clru_peek (lac_entries c) key) then Some (Err DuplicateKey, c, h)
  else
    expires_at ← expiry_at c now;
    if negb (clru_is_full (lac_entries c)) then
      let (c, h) := insert_new c h key value expires_at in
      Some (Ok Inserted, c, h)
    else
      let eviction_key :=
        fst <$> List.find (fun p => negb (has_external_lease h p.2))
                  (rev (clru_iter (lac_entries c))) in
      match eviction_key with
      | None => Some (Err AllEntriesLeased, c, h)
      | Some eviction_key =>
          match clru_pop (lac_entries c) eviction_key with
          | (None, _) => None
          | (Some evicted, es) =>
              let outcome :=
                if cv_expires_at evicted <=? now then ReclaimedExpired
                else EvictedLeastRecentlyUsed in
              let h := slot_drop h (cv_slot evicted) in
              let (c, h) := insert_new (MkLeaseAwareTtlCache es (lac_ttl c)) h key value expires_at in
              Some (Ok outcome, c, h)
          end
      end.

(** Both lookups first discard an entry that is expired and unleased. *)
Definition expired_and_unleased h now (e : CachedValue) : bool :=
  (cv_expires_at e <=? now) && negb (has_external_lease h e).

Definition discard c h key : LeaseAwareTtlCache * Heap V :=
  let (expired, es) := clru_pop (lac_entries c) key in
  (MkLeaseAwareTtlCache es (lac_ttl c),
   match expired with Some e => slot_drop h (cv_slot e) | None => h end).

Definition acquire_at c h key now : option Slot * LeaseAwareTtlCache * Heap V :=
  match clru_peek (lac_entries c) key with
  | None => (None, c, h)
  | Some entry =>
      if expired_and_unleased h now entry then
        let (c, h) := discard c h key in (None, c, h)
      else
        let slot := cv_slot entry in
        let h := slot_clone h slot in
        let (acquired, h) := try_acquire h slot in
        if acquired then (Some slot, c, h) else (None, c, slot_drop h slot)
  end.

Definition touch_at c h key now : option (bool * LeaseAwareTtlCache * Heap V) :=
  match clru_peek (lac_entries c) key with
  | None => Some (false, c, h)
  | Some entry =>
      if expired_and_unleased h now entry then
        let (c, h) := discard c h key in Some (false, c, h)
      else
        expires_at ← expiry_at c now;
        es ← clru_get_mut (lac_entries c) key (fun e => MkCachedValue (cv_slot e) expires_at);
        Some (true, MkLeaseAwareTtlCache es (lac_ttl c), h)
  end.

(** The scan stops at the first live entry. *)
Fixpoint scan_expired h now (l : list (K * CachedValue)) : list K :=
  match l with
  | [] => []
  | (key, entry) :: l =>
      if now <? cv_expires_at entry then []
      else if negb (has_external_lease h entry) then key :: scan_expired h now l
      else scan_expired h now l
  end.

Definition expired_unleased_keys_at c h now : list K :=
  scan_expired h now (rev (clru_iter (lac_entries c))).

Fixpoint retire_expired_candidates_at c h (keys : list K) now :
    option (list Slot * LeaseAwareTtlCache) :=
  match keys with
  | [] => Some ([], c)
  | key :: keys =>
      if is_some_and (expired_and_unleased h now) (clru_peek (lac_entries c) key) then
        match clru_pop (lac_entries c) key with
        | (None, _) => None
        | (Some retired, es) =>
            '(slots, c) ← retire_expired_candidates_at (MkLeaseAwareTtlCache es (lac_ttl c)) h keys now;
            Some (cv_slot retired :: slots, c)
        end
      else retire_expired_candidates_at c h keys now
  end.
End LeaseAware.
Arguments LeaseAwareTtlCache K {C}.

(** ** Who owns a slot *)

(** Updating one key of a heap, pointwise. *)
Lemma slots_lookup_insert {V} (m : gmap Slot V) r s x :
  <[r := s]> m !! x = if decide (x = r) then Some s else m !! x.
Proof. case_decide; subst; [apply lookup_insert_eq|by apply lookup_insert_ne]. Qed.

Lemma slots_lookup_delete {V} (m : gmap Slot V) r x :
  delete r m !! x = if decide (x = r) then None else m !! x.
Proof. case_decide; subst; [apply lookup_delete_eq|by apply lookup_delete_ne]. Qed.

Section Ownership.
Context {V : Type}.
Implicit Types (h : Heap V).

(** The counters of a heap: [lease r] live leases and [own r] owners of each slot. *)
Definition slots_counted h (lease own : Slot -> Z) : Prop :=
  forall r, match h_slots h !! r with
  | Some s => ls_leases s = lease r /\ ls_strong s = own r /\
      (0 <= lease r <= own r /\ lease r <= U64_MAX) /\ 0 < own r /\ (r < h_next h)%positive
  | None => own r = 0 /\ lease r = 0
  end.

Lemma slots_counted_ext h l o l' o' :
  (forall r, l r = l' r) -> (forall r, o r = o' r) -> slots_counted h l o -> slots_counted h l' o'.
Proof. intros El Eo Hc r. specialize (Hc r). rewrite <-El, <-Eo. done. Qed.

Lemma slot_drop_counted h l o r :
  slots_counted h l o -> l r < o r ->
  slots_counted (slot_drop h r) l (fun x => o x - (if decide (x = r) then 1 else 0)).
Proof.
  intros Hc Hr x. pose proof (Hc r) as Er. specialize (Hc x). unfold slot_drop.
  destruct (h_slots h !! r) as [s|] eqn:E; [|lia]. destruct Er as (Hl & Hs & H1 & H2 & H3).
  rewrite Hs. destruct (Z.eqb_spec (o r) 1); cbn.
  - rewrite slots_lookup_delete. case_decide; subst; cbn; [lia|]. by rewrite Z.sub_0_r.
  - rewrite slots_lookup_insert. case_decide; subst; [|by rewrite Z.sub_0_r].
    cbn. split_and!; try done; lia.
Qed.

Lemma slot_clone_counted h l o r :
  slots_counted h l o -> 0 < o r ->
  slots_counted (slot_clone h r) l (fun x => o x + (if decide (x = r) then 1 else 0)).
Proof.
  intros Hc Hr x. pose proof (Hc r) as Er. specialize (Hc x). unfold slot_clone.
  destruct (h_slots h !! r) as [s|] eqn:E; [|lia]. destruct Er as (Hl & Hs & H1 & H2 & H3).
  cbn. rewrite slots_lookup_insert. case_decide; subst; [|by rewrite Z.add_0_r].
  cbn. split_and!; try done; lia.
Qed.

Lemma try_acquire_counted h l o r :
  slots_counted h l o -> l r < o r ->
  match try_acquire h r with
  | (true, h') => slots_counted h' (fun x => l x + (if decide (x = r) then 1 else 0)) o
  | (false, h') => h' = h
  end.
Proof.
  intros Hc Hr. pose proof (Hc r) as Er. unfold try_acquire.
  destruct (h_slots h !! r) as [s|] eqn:E; [|lia]. destruct Er as (Hl & Hs & H1 & H2 & H3).
  unfold checked_add_u64. destruct (Z.leb_spec (ls_leases s + 1) U64_MAX) as [Hb|Hb].
  - intros x. specialize (Hc x). cbn. rewrite slots_lookup_insert.
    case_decide; subst; [|by rewrite Z.add_0_r]. cbn. split_and!; try done; lia.
  - done.
Qed.

Lemma lease_drop_counted h l o r :
  slots_counted h l o -> 0 < l r ->
  slots_counted (lease_drop h r) (fun x => l x - (if decide (x = r) then 1 else 0)) o.
Proof.
  intros Hc Hr x. pose proof (Hc r) as Er. specialize (Hc x). unfold lease_drop.
  destruct (h_slots h !! r) as [s|] eqn:E; [|lia]. destruct Er as (Hl & Hs & H1 & H2 & H3).
  cbn. rewrite slots_lookup_insert. case_decide; subst; [|by rewrite Z.sub_0_r].
  cbn. unfold wrap_u64. rewrite Z.mod_small by (unfold U64_MAX in *; lia). split_and!; try done; lia.
Qed.

Lemma slot_new_counted h l o v :
  slots_counted h l o ->
  (forall r, (h_next h <= r)%positive -> h_slots h !! r = None) ->
  slots_counted (slot_new h v).2 l (fun x => o x + (if decide (x = h_next h) then 1 else 0)).
Proof.
  intros Hc Hf x. pose proof (Hc (h_next h)) as En. rewrite Hf in En by lia. specialize (Hc x). cbn.
  rewrite slots_lookup_insert. case_decide; subst.
  - cbn. unfold U64_MAX. split_and!; lia.
  - rewrite Z.add_0_r. destruct (h_slots h !! x); [|done]. destruct Hc as (? & ? & ? & ? & ?).
    split_and!; try done; lia.
Qed.

(** An entry without external lease has no owner but the cache. *)
Lemma unleased_owner h l o e :
  slots_counted h l o -> has_external_lease h e = false -> l (cv_slot e) = 0 /\ o (cv_slot e) = 1.
Proof.
  intros Hc Hx. specialize (Hc (cv_slot e)). unfold has_external_lease, is_leased, strong_count in Hx.
  bool_to_prop. destruct (h_slots h !! cv_slot e) as [s|]; cbn in *; [|done].
  bool_to_prop. lia.
Qed.
End Ownership.

(** ** The cache together with the leases outside it *)
Section World.
Context {K V : Type} `{Keq : EqDecision K} {C : CLru K CachedValue}.
Context {HC : CLruLaws K CachedValue C}.
Implicit Types (c : LeaseAwareTtlCache K) (h : Heap V) (k : K) (now : Instant).

Definition items c : list (K * CachedValue) := clru_iter (lac_entries c).
Definition refs (l : list (K * CachedValue)) : list Slot := (fun p => cv_slot p.2) <$> l.
Definition deadline (p : K * CachedValue) : Instant := cv_expires_at p.2.

(** [lw_leases]: live leases with the key they were acquired for; [lw_releasing]: leases whose
    counter is already decremented but whose [Arc] is not dropped; [lw_retired]: slots detached
    by a retirement and not yet destroyed. *)
Record World := MkWorld {
  lw_cache : LeaseAwareTtlCache K;
  lw_heap : Heap V;
  lw_leases : list (K * Slot);
  lw_releasing : list Slot;
  lw_retired : list Slot;
}.

Definition owned (l : list (K * CachedValue)) (leases : list (K * Slot)) (rel ret : list Slot)
    (r : Slot) : Z :=
  count r (refs l) + count r leases.*2 + count r rel + count r ret.

Record winv (last : Instant) (w : World) : Prop := {
  wi_wf : clru_wf (lac_entries (lw_cache w));
  wi_counted : slots_counted (lw_heap w) (fun r => count r (lw_leases w).*2)
    (owned (items (lw_cache w)) (lw_leases w) (lw_releasing w) (lw_retired w));
  wi_nodup : NoDup (refs (items (lw_cache w)));
  wi_resident : forall k r, (k, r) ∈ lw_leases w ->
    exists e, alookup k (items (lw_cache w)) = Some e /\ cv_slot e = r;
  wi_sorted : StronglySorted (fun p q => deadline q <= deadline p) (items (lw_cache w));
  wi_bound : Forall (fun p => deadline p <= last + lac_ttl (lw_cache w)) (items (lw_cache w));
}.

Lemma alookup_perm k e (l : list (K * CachedValue)) :
  NoDup l.*1 -> alookup k l = Some e -> l ≡ₚ (k, e) :: aremove k l.
Proof.
  induction l as [|[k1 e1] l IH]; [done|]. cbn [alookup]. rewrite fmap_cons. intros [Hn Hd]%NoDup_cons.
  unfold aremove. rewrite filter_cons. cbn [fst] in *. fold (aremove k l). case_decide as Hk.
  - subst. intros [= ->]. rewrite decide_False by tauto. by rewrite aremove_absent.
  - intros E. rewrite decide_True by done. etrans; [apply perm_skip, (IH Hd E)|apply perm_swap].
Qed.

Lemma refs_remove k e l :
  NoDup l.*1 -> alookup k l = Some e -> refs l ≡ₚ cv_slot e :: refs (aremove k l).
Proof.
  intros Hd E. change (cv_slot e :: refs (aremove k l)) with (refs ((k, e) :: aremove k l)).
  by apply fmap_Permutation, alookup_perm.
Qed.

Definition detached (c : LeaseAwareTtlCache K) k : LeaseAwareTtlCache K :=
  MkLeaseAwareTtlCache (clru_pop (lac_entries c) k).2 (lac_ttl c).

(** Detaching an unleased entry hands its slot to the caller. *)
Lemma winv_detach last c h leases rel ret k e :
  winv last (MkWorld c h leases rel ret) -> alookup k (items c) = Some e ->
  has_external_lease h e = false ->
  (clru_pop (lac_entries c) k).1 = Some e /\ items (detached c k) = aremove k (items c) /\
  winv last (MkWorld (detached c k) h leases rel (cv_slot e :: ret)).
Proof.
  intros [Hw Hc Hn Hr Hs Hb] E Hx. cbn in *.
  destruct (clru_pop_spec _ k Hw) as (Hp1 & Hp2 & Hp3 & _).
  pose proof (clru_nodup _ Hw) as Hd. fold (items c) in *.
  destruct (unleased_owner _ _ _ _ Hc Hx) as [Hl0 Ho1]. pose proof (refs_remove k e _ Hd E) as Hperm.
  assert (items (detached c k) = aremove k (items c)) as Hi by exact Hp3.
  split_and!; [by rewrite Hp1|done|].
  constructor; cbn [lw_cache lw_heap lw_leases lw_releasing lw_retired]; rewrite ?Hi; try done.
  - eapply slots_counted_ext; [done| |exact Hc]. intros r. unfold owned.
    rewrite Hperm, !count_cons. lia.
  - rewrite Hperm in Hn. by apply NoDup_cons in Hn as [_ ?].
  - intros k' r Hin. destruct (Hr k' r Hin) as (e' & E' & <-). exists e'. split; [|done].
    rewrite alookup_aremove. case_decide; [|done]. subst k'.
    rewrite E in E'. injection E' as <-. exfalso.
    assert (0 < count (cv_slot e) leases.*2); [|lia]. apply count_pos, list_elem_of_fmap. by exists (k, cv_slot e).
  - by apply StronglySorted_filter_rel.
  - apply Forall_forall. intros p [_ Hp]%elem_of_aremove. by eapply Forall_forall in Hb.
Qed.

Lemma winv_weaken last now w : last <= now -> winv last w -> winv now w.
Proof.
  intros Hle [Hw Hc Hn Hr Hs Hb]. constructor; try done. eapply Forall_impl; [exact Hb|]. cbn. lia.
Qed.

(** Dropping the [Arc] of a detached slot or of a finished lease. *)
Lemma winv_drop last c h leases rel ret rel' ret' r :
  winv last (MkWorld c h leases rel ret) ->
  (forall x, count x rel + count x ret
     = count x rel' + count x ret' + (if decide (x = r) then 1 else 0)) ->
  winv last (MkWorld c (slot_drop h r) leases rel' ret').
Proof.
  intros [Hw Hc Hn Hr Hs Hb] Hx. cbn in *. constructor; try done. cbn.
  eapply slots_counted_ext; [done| |apply (slot_drop_counted _ _ _ r Hc)].
  - intros x. cbn. unfold owned. specialize (Hx x). lia.
  - unfold owned. specialize (Hx r). rewrite decide_True in Hx by done.
    pose proof (count_nonneg r rel'). pose proof (count_nonneg r ret').
    pose proof (count_nonneg r (refs (items c))). lia.
Qed.

(** Putting a new value in front. *)
Lemma winv_put last now c h leases rel ret k v :
  winv last (MkWorld c h leases rel ret) -> last <= now -> alookup k (items c) = None ->
  len (items c) < clru_capacity (lac_entries c) ->
  let r := insert_new c h k v (now + lac_ttl c) in
  items r.1 = (k, MkCachedValue (h_next h) (now + lac_ttl c)) :: items c /\
  clru_capacity (lac_entries r.1) = clru_capacity (lac_entries c) /\
  winv now (MkWorld r.1 r.2 leases rel ret).
Proof.
  intros [Hw Hc Hn Hr Hs Hb] Hle E Hlen. cbn in Hw, Hc, Hn, Hr, Hs, Hb. cbn.
  set (e := MkCachedValue (h_next h) (now + lac_ttl c)). apply alookup_None in E.
  destruct (clru_put_spec (lac_entries c) k e Hw E Hlen) as (Hp1 & Hp2 & Hp3 & Hp4).
  assert (forall r, (h_next h <= r)%positive -> h_slots h !! r = None) as Hfresh.
  { intros r Hr'. specialize (Hc r). destruct (h_slots h !! r); [|done]. lia. }
  assert (owned (items c) leases rel ret (h_next h) = 0) as Ho0.
  { specialize (Hc (h_next h)). rewrite Hfresh in Hc by lia. apply Hc. }
  assert (h_next h ∉ refs (items c)) as Hni.
  { intros Hin%count_pos. unfold owned in Ho0.
    pose proof (count_nonneg (h_next h) leases.*2). pose proof (count_nonneg (h_next h) rel).
    pose proof (count_nonneg (h_next h) ret). lia. }
  split_and!; [done|done|]. constructor; cbn; unfold items; cbn; rewrite ?Hp3; fold (items c); try done.
  - eapply slots_counted_ext; [done| |apply (slot_new_counted _ _ _ v Hc Hfresh)].
    intros r. unfold owned. cbn [refs fmap list_fmap]. rewrite count_cons. cbn [cv_slot snd].
    unfold e. cbn [cv_slot]. fold (refs (items c)). repeat case_decide; subst; try done; lia.
  - by apply NoDup_cons.
  - intros k' r Hin. destruct (Hr k' r Hin) as (e' & E' & <-). exists e'. split; [|done]. cbn [alookup].
    case_decide; [|done]. subst. exfalso. apply E. apply alookup_is_Some. by rewrite E'.
  - constructor; [done|]. eapply Forall_impl; [exact Hb|]. unfold deadline, e. cbn. lia.
  - constructor; [unfold deadline, e; cbn; lia|]. eapply Forall_impl; [exact Hb|]. unfold deadline. cbn. lia.
Qed.

Lemma winv_acquire last c h leases rel ret k e :
  winv last (MkWorld c h leases rel ret) -> alookup k (items c) = Some e ->
  match try_acquire (slot_clone h (cv_slot e)) (cv_slot e) with
  | (true, h') => winv last (MkWorld c h' ((k, cv_slot e) :: leases) rel ret)
  | (false, h') => winv last (MkWorld c (slot_drop h' (cv_slot e)) leases rel ret)
  end.
Proof.
  intros [Hw Hc Hn Hr Hs Hb] E. cbn in *. set (r := cv_slot e).
  assert (0 < count r (refs (items c))) as Hin.
  { apply count_pos, list_elem_of_fmap. exists (k, e). split; [done|]. by apply alookup_Some_elem. }
  pose proof (count_nonneg r leases.*2). pose proof (count_nonneg r rel). pose proof (count_nonneg r ret).
  assert (0 < owned (items c) leases rel ret r) as Ho by (unfold owned; lia).
  pose proof (slot_clone_counted _ _ _ r Hc Ho) as Hc1.
  assert (count r leases.*2 < owned (items c) leases rel ret r + (if decide (r = r) then 1 else 0)) as Hlt.
  { rewrite decide_True by done. unfold owned. lia. }
  pose proof (try_acquire_counted _ _ _ r Hc1 Hlt) as Ha.
  destruct (try_acquire _ r) as [[|] h']; constructor; cbn; try done.
  - eapply slots_counted_ext; [| |exact Ha]; intros x; unfold owned; cbn; rewrite count_cons;
      repeat case_decide; subst; try done; lia.
  - intros k' r' [[= -> ->]|Hin']%elem_of_cons; [by exists e|by apply Hr].
  - subst h'. eapply slots_counted_ext; [done| |apply (slot_drop_counted _ _ _ r Hc1)]; [|done].
    intros x. cbn. lia.
Qed.

Lemma winv_release last c h l1 k r l2 rel ret :
  winv last (MkWorld c h (l1 ++ (k, r) :: l2) rel ret) ->
  winv last (MkWorld c (lease_drop h r) (l1 ++ l2) (r :: rel) ret).
Proof.
  intros [Hw Hc Hn Hr Hs Hb]. cbn in *. constructor; cbn; try done.
  - eapply slots_counted_ext; [| |apply (lease_drop_counted _ _ _ r Hc)].
    + intros x. cbn. rewrite !fmap_app, fmap_cons, !count_app, count_cons. cbn.
      repeat case_decide; subst; try done; lia.
    + intros x. unfold owned. rewrite !fmap_app, fmap_cons, !count_app, !count_cons. cbn. lia.
    + apply count_pos. rewrite fmap_app, fmap_cons. set_solver.
  - intros k' r' Hin. apply Hr. set_solver.
Qed.

Lemma winv_touch last now c h leases rel ret k e es :
  winv last (MkWorld c h leases rel ret) -> last <= now -> alookup k (items c) = Some e ->
  clru_get_mut (lac_entries c) k (fun e => MkCachedValue (cv_slot e) (now + lac_ttl c)) = Some es ->
  winv now (MkWorld (MkLeaseAwareTtlCache es (lac_ttl c)) h leases rel ret).
Proof.
  intros [Hw Hc Hn Hr Hs Hb] Hle E Eg. cbn in *.
  pose proof (clru_get_mut_spec (lac_entries c) k (fun e => MkCachedValue (cv_slot e) (now + lac_ttl c)) Hw) as Hg.
  rewrite Eg in Hg. destruct Hg as (_ & Hw' & Hi & _). fold (items c) in Hi.
  unfold apromote in Hi. rewrite E in Hi. pose proof (clru_nodup _ Hw) as Hd. fold (items c) in Hd.
  pose proof (refs_remove k e _ Hd E) as Hperm.
  set (c' := MkLeaseAwareTtlCache es (lac_ttl c)).
  assert (items c' = (k, MkCachedValue (cv_slot e) (now + lac_ttl c)) :: aremove k (items c)) as Hi' by exact Hi.
  assert (refs (items c') ≡ₚ refs (items c)) as Hp2.
  { rewrite Hi', Hperm. done. }
  constructor; cbn [lw_cache lw_heap lw_leases lw_releasing lw_retired]; try done.
  - eapply slots_counted_ext; [done| |exact Hc]. intros x. unfold owned. by rewrite Hp2.
  - by rewrite Hp2.
  - intros k' r Hin. destruct (Hr k' r Hin) as (e' & E' & <-). rewrite Hi'. cbn [alookup].
    case_decide as Hk; [subst; eexists; split; [done|]; by simplify_eq|].
    exists e'. by rewrite alookup_aremove, decide_False.
  - rewrite Hi'. constructor; [by apply StronglySorted_filter_rel|]. apply Forall_forall.
    intros p [_ Hp]%elem_of_aremove. eapply Forall_forall in Hb; [|exact Hp]. unfold deadline in *. cbn in *. lia.
  - rewrite Hi'. constructor; [unfold deadline; cbn; lia|]. apply Forall_forall.
    intros p [_ Hp]%elem_of_aremove. eapply Forall_forall in Hb; [|exact Hp]. unfold deadline in *. cbn in *. lia.
Qed.

(** Discarding an expired, unleased entry. *)
Lemma winv_discard last c h leases rel ret k e :
  winv last (MkWorld c h leases rel ret) -> alookup k (items c) = Some e ->
  has_external_lease h e = false ->
  winv last (MkWorld (discard c h k).1 (discard c h k).2 leases rel ret).
Proof.
  intros Hw E Hx. destruct (winv_detach _ _ _ _ _ _ _ _ Hw E Hx) as (Hp & _ & Hw').
  unfold discard, detached in *. destruct (clru_pop (lac_entries c) k) as [o es]. cbn in *. subst o. cbn.
  eapply winv_drop; [exact Hw'|]. intros x. rewrite count_cons.
  repeat case_decide; subst; try done; lia.
Qed.

(** The entry an insertion into a full cache evicts: the last one without external lease. *)
Lemma find_unleased h (l : list (K * CachedValue)) :
  match List.find (fun p => negb (has_external_lease h p.2)) (rev l) with
  | Some (k, e) => has_external_lease h e = false /\
      exists l1 l2, l = l1 ++ (k, e) :: l2 /\ Forall (fun p => has_external_lease h p.2 = true) l2
  | None => Forall (fun p => has_external_lease h p.2 = true) l
  end.
Proof.
  induction l as [|[k e] l IH] using rev_ind; [cbn; constructor|]. rewrite rev_app_distr. cbn.
  destruct (has_external_lease h e) eqn:Ex; cbn.
  - destruct (List.find _ (rev l)) as [[k' e']|].
    + destruct IH as (Hx & l1 & l2 & -> & Hf). split; [done|]. exists l1, (l2 ++ [(k, e)]).
      split; [by rewrite <-app_assoc|]. apply Forall_app. split; [done|]. by repeat constructor.
    + apply Forall_app. split; [done|]. by repeat constructor.
  - split; [done|]. by exists l, [].
Qed.

Lemma slot_drop_next h r : h_next (slot_drop h r) = h_next h.
Proof. unfold slot_drop. destruct (h_slots h !! r); [|done]. by destruct (_ =? _). Qed.

Lemma winv_evict last now c h leases rel ret k v l1 k0 e0 l2 :
  winv last (MkWorld c h leases rel ret) -> last <= now ->
  items c = l1 ++ (k0, e0) :: l2 -> has_external_lease h e0 = false -> alookup k (items c) = None ->
  (clru_pop (lac_entries c) k0).1 = Some e0 /\
  let r := insert_new (detached c k0) (slot_drop h (cv_slot e0)) k v (now + lac_ttl c) in
  items r.1 = (k, MkCachedValue (h_next h) (now + lac_ttl c)) :: l1 ++ l2 /\
  clru_capacity (lac_entries r.1) = clru_capacity (lac_entries c) /\
  winv now (MkWorld r.1 r.2 leases rel ret).
Proof.
  intros Hwi Hle Hi Hx E. pose proof Hwi as [Hw _ _ _ _ _]. cbn in Hw.
  pose proof (clru_nodup _ Hw) as Hnd. fold (items c) in Hnd. rewrite Hi in Hnd.
  destruct (aremove_middle _ _ _ _ Hnd) as [Hrem E0]. rewrite <-Hi in Hrem, E0.
  destruct (winv_detach _ _ _ _ _ _ _ _ Hwi E0 Hx) as (Hp & Hid & Hwd). split; [done|].
  assert (winv last (MkWorld (detached c k0) (slot_drop h (cv_slot e0)) leases rel ret)) as Hwd'.
  { eapply winv_drop; [exact Hwd|]. intros x. rewrite count_cons. repeat case_decide; subst; try done; lia. }
  pose proof (clru_bound _ Hw) as Hb. fold (items c) in Hb. rewrite Hi, len_app, len_cons in Hb.
  destruct (clru_pop_spec _ k0 Hw) as (_ & _ & _ & Hcap0).
  destruct (winv_put last now (detached c k0) _ leases rel ret k v Hwd' Hle) as (Hi1 & Hcap1 & Hwi1).
  { rewrite Hid, alookup_aremove. by case_decide. }
  { rewrite Hid, Hrem, len_app. cbn. rewrite Hcap0. lia. }
  rewrite slot_drop_next, Hid, Hrem in Hi1. split_and!; [exact Hi1| |exact Hwi1].
  etrans; [exact Hcap1|exact Hcap0].
Qed.

(** The decision of an insertion, on every branch. *)
Lemma insert_spec last c h leases rel ret k v now :
  winv last (MkWorld c h leases rel ret) -> last <= now -> now + lac_ttl c <= INSTANT_MAX ->
  exists res c' h', insert_evicting_at c h k v now = Some (res, c', h') /\
    winv now (MkWorld c' h' leases rel ret) /\
    clru_capacity (lac_entries c') = clru_capacity (lac_entries c) /\
    match res with
    | Err DuplicateKey => c' = c /\ h' = h /\ k ∈ (items c).*1
    | Err AllEntriesLeased => c' = c /\ h' = h /\ k ∉ (items c).*1 /\
        len (items c) = clru_capacity (lac_entries c) /\
        Forall (fun p => has_external_lease h p.2 = true) (items c)
    | Ok Inserted => k ∉ (items c).*1 /\ len (items c) < clru_capacity (lac_entries c) /\
        items c' = (k, MkCachedValue (h_next h) (now + lac_ttl c)) :: items c
    | Ok o => k ∉ (items c).*1 /\ len (items c) = clru_capacity (lac_entries c) /\
        exists l1 k0 e0 l2, items c = l1 ++ (k0, e0) :: l2 /\ has_external_lease h e0 = false /\
          Forall (fun p => has_external_lease h p.2 = true) l2 /\
          o = (if cv_expires_at e0 <=? now then ReclaimedExpired else EvictedLeastRecentlyUsed) /\
          items c' = (k, MkCachedValue (h_next h) (now + lac_ttl c)) :: l1 ++ l2
    end.
Proof.
  intros Hwi Hle Hmax. pose proof Hwi as [Hw _ _ _ _ _]. cbn in Hw. unfold insert_evicting_at.
  rewrite (clru_peek_spec _ k Hw). fold (items c). destruct (alookup k (items c)) as [e|] eqn:E; cbn [is_some].
  { eexists _, _, _. split; [done|]. split_and!; try done; [by apply (winv_weaken last)|].
    apply alookup_is_Some. by rewrite E. }
  apply alookup_None in E as Hni. unfold expiry_at, instant_checked_add.
  rewrite (proj2 (Z.leb_le _ _) Hmax). cbn [mbind option_bind].
  rewrite (clru_is_full_spec _ Hw). fold (items c). pose proof (clru_bound _ Hw) as Hb. fold (items c) in Hb.
  destruct (Z.eqb_spec (len (items c)) (clru_capacity (lac_entries c))) as [Hfull|Hfull]; cbn [negb].
  2:{ destruct (winv_put last now c h leases rel ret k v Hwi Hle E ltac:(lia)) as (Hi & Hcap & Hwi').
      destruct (insert_new c h k v (now + lac_ttl c)) as [c' h'].
      eexists _, _, _. split; [done|]. split_and!; try done. lia. }
  pose proof (find_unleased h (items c)) as Hf.
  destruct (List.find _ (rev (items c))) as [[k0 e0]|]; cbn [fmap option_fmap fst option_map].
  2:{ eexists _, _, _. split; [done|]. split_and!; try done. by apply (winv_weaken last). }
  destruct Hf as (Hx & l1 & l2 & Hi & Hall).
  destruct (winv_evict _ now _ _ _ _ _ k v _ _ _ _ Hwi Hle Hi Hx E) as (Hp & Hi1 & Hcap1 & Hwi1).
  unfold detached in *. destruct (clru_pop (lac_entries c) k0) as [o es]. cbn in Hp. subst o. cbn [snd] in *.
  destruct (insert_new _ _ k v (now + lac_ttl c)) as [c' h'].
  eexists _, _, _. split; [done|]. split_and!; [done..|].
  destruct (cv_expires_at e0 <=? now) eqn:Ee; (split; [done|split; [done|]]);
    exists l1, k0, e0, l2; rewrite Ee; done.
Qed.

Lemma acquire_inv last c h leases rel ret k now :
  winv last (MkWorld c h leases rel ret) -> last <= now ->
  let '(o, c', h') := acquire_at c h k now in
  winv now (MkWorld c' h' (match o with Some r => (k, r) :: leases | None => leases end) rel ret).
Proof.
  intros Hwi Hle. pose proof Hwi as [Hw _ _ _ _ _]. cbn in Hw. unfold acquire_at.
  rewrite (clru_peek_spec _ k Hw). fold (items c).
  destruct (alookup k (items c)) as [e|] eqn:E; [|by apply (winv_weaken last)].
  unfold expired_and_unleased. destruct (_ && _) eqn:Ex.
  - bool_to_prop. pose proof (winv_discard _ _ _ _ _ _ _ _ Hwi E ltac:(done)) as Hd.
    destruct (discard c h k). cbn in *. by apply (winv_weaken last).
  - pose proof (winv_acquire _ _ _ _ _ _ _ _ Hwi E) as Ha. cbn zeta.
    destruct (try_acquire _ _) as [[|] h']; by apply (winv_weaken last).
Qed.

Lemma touch_inv last c h leases rel ret k now :
  winv last (MkWorld c h leases rel ret) -> last <= now -> now + lac_ttl c <= INSTANT_MAX ->
  exists b c' h', touch_at c h k now = Some (b, c', h') /\ winv now (MkWorld c' h' leases rel ret).
Proof.
  intros Hwi Hle Hmax. pose proof Hwi as [Hw _ _ _ _ _]. cbn in Hw. unfold touch_at.
  rewrite (clru_peek_spec _ k Hw). fold (items c).
  destruct (alookup k (items c)) as [e|] eqn:E.
  2:{ eexists _, _, _. split; [done|]. by apply (winv_weaken last). }
  unfold expired_and_unleased. destruct (_ && _) eqn:Ex.
  - bool_to_prop. pose proof (winv_discard _ _ _ _ _ _ _ _ Hwi E ltac:(done)) as Hd.
    destruct (discard c h k). cbn in *. eexists _, _, _. split; [done|]. by apply (winv_weaken last).
  - unfold expiry_at, instant_checked_add. rewrite (proj2 (Z.leb_le _ _) Hmax). cbn [mbind option_bind].
    pose proof (clru_get_mut_spec (lac_entries c) k (fun e => MkCachedValue (cv_slot e) (now + lac_ttl c)) Hw) as Hg.
    destruct (clru_get_mut _ _ _) as [es|] eqn:Eg.
    + eexists _, _, _. split; [done|]. by eapply winv_touch.
    + exfalso. apply Hg, alookup_is_Some. fold (items c). by rewrite E.
Qed.

Lemma retire_inv last c h leases rel ret keys t :
  winv last (MkWorld c h leases rel ret) ->
  exists slots c', retire_expired_candidates_at c h keys t = Some (slots, c') /\
    winv last (MkWorld c' h leases rel (rev slots ++ ret)) /\
    forall p, p ∈ items c' <->
      p ∈ items c /\ ~ (p.1 ∈ keys /\ expired_and_unleased h t p.2 = true).
Proof.
  revert c ret. induction keys as [|k keys IH]; intros c ret Hwi.
  { exists [], c. split_and!; try done. set_solver. }
  pose proof Hwi as [Hw _ _ _ _ _]. cbn in Hw. cbn [retire_expired_candidates_at].
  rewrite (clru_peek_spec _ k Hw). fold (items c).
  pose proof (clru_nodup _ Hw) as Hnd. fold (items c) in Hnd.
  destruct (is_some_and _ _) eqn:Ex.
  - destruct (alookup k (items c)) as [e|] eqn:E; [|done]. cbn in Ex.
    assert (has_external_lease h e = false) as Hx.
    { unfold expired_and_unleased in Ex. by bool_to_prop. }
    destruct (winv_detach _ _ _ _ _ _ _ _ Hwi E Hx) as (Hp & Hid & Hwd).
    destruct (IH _ _ Hwd) as (slots & c' & Er & Hw' & Hel). unfold detached in *.
    destruct (clru_pop (lac_entries c) k) as [o es]. cbn in Hp. subst o. cbn [snd] in *.
    rewrite Er. cbn [mbind option_bind]. eexists _, _. split; [done|]. split.
    + cbn [rev]. by rewrite <-app_assoc.
    + intros p. rewrite Hel, Hid, elem_of_aremove, elem_of_cons. split; [naive_solver|].
      intros [Hin Hn]. split_and!; [|done|naive_solver]. intros Hk. apply Hn.
      destruct p as [k' e']. cbn in *. subst k'. apply (alookup_elem _ _ _ Hnd) in Hin. simplify_eq. by auto.
  - destruct (IH c ret Hwi) as (slots & c' & Er & Hw' & Hel). exists slots, c'. split_and!; try done.
    intros p. rewrite Hel, elem_of_cons. split; [|naive_solver]. intros [Hin Hn]. split; [done|].
    intros [[Hk|Hk] Hu]; [|naive_solver]. destruct p as [k' e']. cbn in *. subst k'.
    apply (alookup_elem _ _ _ Hnd) in Hin. rewrite Hin in Ex. cbn in Ex. congruence.
Qed.

Lemma scan_exact h now (l : list (K * CachedValue)) :
  StronglySorted (fun p q => deadline p <= deadline q) l ->
  scan_expired h now l = (filter (fun p => expired_and_unleased h now p.2 = true) l).*1.
Proof.
  induction 1 as [|[k e] l _ IH Hx]; [done|]. cbn [scan_expired]. rewrite filter_cons. cbn [snd].
  destruct (Z.ltb_spec now (cv_expires_at e)) as [Hn|Hn].
  - assert (forall e', cv_expires_at e <= cv_expires_at e' -> expired_and_unleased h now e' = false) as Hf.
    { intros e' He. unfold expired_and_unleased.
      by rewrite (proj2 (Z.leb_gt (cv_expires_at e') now)) by lia. }
    rewrite decide_False by (by rewrite Hf). rewrite filter_none; [done|].
    eapply Forall_impl; [exact Hx|]. intros [k' e'] Hd. cbn. by rewrite Hf.
  - assert (expired_and_unleased h now e = negb (has_external_lease h e)) as He.
    { unfold expired_and_unleased. by rewrite (proj2 (Z.leb_le (cv_expires_at e) now)) by lia. }
    destruct (has_external_lease h e); cbn [negb] in *; [by rewrite decide_False by (by rewrite He)|].
    rewrite decide_True by done. rewrite fmap_cons. by f_equal.
Qed.

(** ** Interleavings *)
Inductive lease_step : Instant * World -> Instant * World -> Prop :=
| ls_insert last now c h leases rel ret k v res c' h' :
    last <= now -> insert_evicting_at c h k v now = Some (res, c', h') ->
    lease_step (last, MkWorld c h leases rel ret) (now, MkWorld c' h' leases rel ret)
| ls_acquire last now c h leases rel ret k o c' h' :
    last <= now -> acquire_at c h k now = (o, c', h') ->
    lease_step (last, MkWorld c h leases rel ret)
      (now, MkWorld c' h' (match o with Some r => (k, r) :: leases | None => leases end) rel ret)
| ls_touch last now c h leases rel ret k b c' h' :
    last <= now -> touch_at c h k now = Some (b, c', h') ->
    lease_step (last, MkWorld c h leases rel ret) (now, MkWorld c' h' leases rel ret)
| ls_retire last c h leases rel ret keys t slots c' :
    retire_expired_candidates_at c h keys t = Some (slots, c') ->
    lease_step (last, MkWorld c h leases rel ret) (last, MkWorld c' h leases rel (rev slots ++ ret))
| ls_destroy last c h leases rel ret1 r ret2 :
    lease_step (last, MkWorld c h leases rel (ret1 ++ r :: ret2))
      (last, MkWorld c (slot_drop h r) leases rel (ret1 ++ ret2))
| ls_release last c h l1 k r l2 rel ret :
    lease_step (last, MkWorld c h (l1 ++ (k, r) :: l2) rel ret)
      (last, MkWorld c (lease_drop h r) (l1 ++ l2) (r :: rel) ret)
| ls_released last c h leases rel1 r rel2 ret :
    lease_step (last, MkWorld c h leases (rel1 ++ r :: rel2) ret)
      (last, MkWorld c (slot_drop h r) leases (rel1 ++ rel2) ret).

Definition lease_reachable (cap : Z) (ttl : Duration) (s : Instant * World) : Prop :=
  exists t0, rtc lease_step (t0, MkWorld (new cap ttl) (MkHeap ∅ 1%positive) [] [] []) s.

Lemma lease_insert_fits c h k v now res c' h' :
  insert_evicting_at c h k v now = Some (res, c', h') ->
  (c' = c /\ h' = h) \/ now + lac_ttl c <= INSTANT_MAX.
Proof.
  unfold insert_evicting_at, expiry_at, instant_checked_add. destruct (is_some _); [by intros [= _ <- <-]; left|].
  destruct (Z.leb_spec (now + lac_ttl c) INSTANT_MAX); [by right|done].
Qed.

Lemma touch_fits last c h leases rel ret k now b c' h' :
  winv last (MkWorld c h leases rel ret) -> last <= now ->
  touch_at c h k now = Some (b, c', h') ->
  winv now (MkWorld c' h' leases rel ret).
Proof.
  intros Hwi Hle E. destruct (Z.leb_spec (now + lac_ttl c) INSTANT_MAX) as [Hm|Hm].
  - destruct (touch_inv _ _ _ _ _ _ k now Hwi Hle Hm) as (b2 & c2 & h2 & E2 & Hw). by simplify_eq.
  - pose proof Hwi as [Hw _ _ _ _ _]. cbn in Hw. revert E. unfold touch_at.
    rewrite (clru_peek_spec _ k Hw). fold (items c).
    destruct (alookup k (items c)) as [e|] eqn:Ek; [|intros [= _ <- <-]; by apply (winv_weaken last)].
    unfold expired_and_unleased. destruct (_ && _) eqn:Ex.
    + bool_to_prop. pose proof (winv_discard _ _ _ _ _ _ _ _ Hwi Ek ltac:(done)) as Hd.
      destruct (discard c h k). cbn in *. intros [= _ <- <-]. by apply (winv_weaken last).
    + unfold expiry_at, instant_checked_add. by rewrite (proj2 (Z.leb_gt _ _)) by done.
Qed.

Lemma lease_step_inv s s' : lease_step s s' -> winv s.1 s.2 -> winv s'.1 s'.2.
Proof.
  destruct 1 as [last now c h leases rel ret k v res c' h' Hle E
    |last now c h leases rel ret k o c' h' Hle E|last now c h leases rel ret k b c' h' Hle E
    |last c h leases rel ret keys t slots c' E|last c h leases rel ret1 r ret2
    |last c h l1 k r l2 rel ret|last c h leases rel1 r rel2 ret]; cbn; intros Hw.
  - destruct (lease_insert_fits _ _ _ _ _ _ _ _ E) as [[-> ->]|Hm]; [by apply (winv_weaken last)|].
    destruct (insert_spec _ _ _ _ _ _ k v now Hw Hle Hm) as (res2 & c2 & h2 & E2 & Hw2 & _). by simplify_eq.
  - pose proof (acquire_inv _ _ _ _ _ _ k now Hw Hle) as Ha. by rewrite E in Ha.
  - exact (touch_fits _ _ _ _ _ _ _ _ _ _ _ Hw Hle E).
  - destruct (retire_inv _ _ _ _ _ _ keys t Hw) as (sl & c2 & E2 & Hw2 & _). by simplify_eq.
  - eapply winv_drop; [exact Hw|]. intros x. rewrite !count_app, count_cons.
    repeat case_decide; subst; try done; lia.
  - by eapply winv_release.
  - eapply winv_drop; [exact Hw|]. intros x. rewrite !count_app, count_cons.
    repeat case_decide; subst; try done; lia.
Qed.

Lemma lease_reachable_inv cap ttl s : 0 < cap -> lease_reachable cap ttl s -> winv s.1 s.2.
Proof.
  intros Hcap [t0 Hr]. eapply (rtc_invariant _ (fun s => winv s.1 s.2)); [apply lease_step_inv|exact Hr|].
  constructor; cbn; unfold items; cbn; rewrite ?clru_new_iter.
  - by apply clru_new_wf.
  - intros r. cbn. by rewrite lookup_empty.
  - constructor.
  - by intros k r ?%not_elem_of_nil.
  - constructor.
  - constructor.
Qed.

(** ** Properties *)

(** C36: An in-flight value stays resident: in every interleaving of cache operations with the
    two-step drops of leases, the key of every live lease still maps to the leased slot, whose
    value exists, and a further acquisition of that key joins the same slot even after its
    deadline. *)
Theorem leased_value_resident cap ttl last w k r :
  0 < cap -> lease_reachable cap ttl (last, w) -> (k, r) ∈ lw_leases w ->
  exists e v, alookup k (items (lw_cache w)) = Some e /\ cv_slot e = r /\
    lease_value (lw_heap w) r = Some v /\
    forall now, count r (lw_leases w).*2 < U64_MAX ->
      (acquire_at (lw_cache w) (lw_heap w) k now).1.1 = Some r.
Proof.
  intros Hcap Hr Hin. pose proof (lease_reachable_inv _ _ _ Hcap Hr) as [Hw Hc Hn Hres Hs Hb]. cbn in *.
  destruct (Hres k r Hin) as (e & E & <-).
  assert (0 < count (cv_slot e) (lw_leases w).*2) as Hl.
  { apply count_pos, list_elem_of_fmap. by exists (k, cv_slot e). }
  pose proof (Hc (cv_slot e)) as Hce. unfold lease_value.
  destruct (h_slots (lw_heap w) !! cv_slot e) as [s|] eqn:Es; [|lia]. destruct Hce as (Hls & Hst & Hbd & _).
  exists e, (ls_value s). split_and!; try done. intros now Hlt. unfold acquire_at.
  rewrite (clru_peek_spec _ k Hw). fold (items (lw_cache w)). rewrite E.
  unfold expired_and_unleased, has_external_lease, is_leased. rewrite Es. cbn [is_some_and map_or].
  rewrite (proj2 (Z.eqb_neq (ls_leases s) 0)) by lia. cbn [negb orb]. rewrite andb_false_r.
  unfold slot_clone, try_acquire. rewrite Es. cbn. rewrite lookup_insert_eq. cbn.
  unfold checked_add_u64. by rewrite (proj2 (Z.leb_le _ _)) by lia.
Qed.

(** Inserting admits whenever it can: a resident key is refused and nothing changes; a full
    cache refuses only if every resident value is in use, and otherwise gives up exactly the
    least recently used value that is not, reporting whether it had expired; all other entries,
    every lease included, and their order are kept. *)
Theorem lease_insert_exact cap ttl last now c h leases rel ret k v :
  0 < cap -> lease_reachable cap ttl (last, MkWorld c h leases rel ret) -> last <= now ->
  now + lac_ttl c <= INSTANT_MAX ->
  exists res c' h', insert_evicting_at c h k v now = Some (res, c', h') /\
    len (items c') <= clru_capacity (lac_entries c) /\
    match res with
    | Err DuplicateKey => c' = c /\ h' = h /\ k ∈ (items c).*1
    | Err AllEntriesLeased => c' = c /\ h' = h /\ k ∉ (items c).*1 /\
        len (items c) = clru_capacity (lac_entries c) /\
        Forall (fun p => has_external_lease h p.2 = true) (items c)
    | Ok Inserted => k ∉ (items c).*1 /\ len (items c) < clru_capacity (lac_entries c) /\
        items c' = (k, MkCachedValue (h_next h) (now + lac_ttl c)) :: items c
    | Ok o => k ∉ (items c).*1 /\ len (items c) = clru_capacity (lac_entries c) /\
        exists l1 k0 e0 l2, items c = l1 ++ (k0, e0) :: l2 /\ has_external_lease h e0 = false /\
          Forall (fun p => has_external_lease h p.2 = true) l2 /\
          o = (if cv_expires_at e0 <=? now then ReclaimedExpired else EvictedLeastRecentlyUsed) /\
          items c' = (k, MkCachedValue (h_next h) (now + lac_ttl c)) :: l1 ++ l2
    end.
Proof.
  intros Hcap Hr Hle Hm. pose proof (lease_reachable_inv _ _ _ Hcap Hr) as Hw. cbn in Hw.
  destruct (insert_spec _ _ _ _ _ _ k v now Hw Hle Hm) as (res & c' & h' & E & Hw' & Hcp & Hres).
  exists res, c', h'. split_and!; [done| |done]. rewrite <-Hcp. apply clru_bound. apply Hw'.
Qed.

(** The expiry sweep is exact although it stops at the first live entry: its snapshot lists,
    least recently used first, precisely the keys that are expired and not in use, and retiring
    that snapshot removes precisely those entries. *)
Theorem lease_sweep_exact cap ttl last now c h leases rel ret :
  0 < cap -> lease_reachable cap ttl (last, MkWorld c h leases rel ret) ->
  let keys := expired_unleased_keys_at c h now in
  keys = (filter (fun p => expired_and_unleased h now p.2 = true) (rev (items c))).*1 /\
  exists slots c', retire_expired_candidates_at c h keys now = Some (slots, c') /\
    forall p, p ∈ items c' <-> p ∈ items c /\ expired_and_unleased h now p.2 = false.
Proof.
  intros Hcap Hr keys. pose proof (lease_reachable_inv _ _ _ Hcap Hr) as Hw. cbn in Hw.
  assert (keys = (filter (fun p => expired_and_unleased h now p.2 = true) (rev (items c))).*1) as Hk.
  { apply scan_exact. destruct Hw as [_ _ _ _ Hs _]. by apply StronglySorted_rev_rel in Hs. }
  split; [done|]. destruct (retire_inv _ _ _ _ _ _ keys now Hw) as (slots & c' & E & _ & Hel).
  exists slots, c'. split; [done|]. intros p. rewrite Hel. split.
  - intros [Hin Hn]. split; [done|]. destruct (expired_and_unleased h now p.2) eqn:Ex; [|done]. exfalso.
    apply Hn. split; [|done]. rewrite Hk. apply list_elem_of_fmap. exists p. split; [done|].
    apply list_elem_of_filter. split; [done|]. by apply list_elem_of_In, in_rev; rewrite rev_involutive; apply list_elem_of_In.
  - intros [Hin Hx]. split; [done|]. intros [_ ?]. congruence.
Qed.
End World.
Arguments World K V {C}.

(** ** Witnesses: one slot, leased and then full *)
#[local] Existing Instances ListClru.list_clru ListClru.list_clru_laws.

Definition sample_cache (l : list (string * CachedValue)) : LeaseAwareTtlCache string :=
  @MkLeaseAwareTtlCache string ListClru.list_clru (ListClru.Mk 1 l) 20.
Definition sample_heap : Heap nat := MkHeap {[ 1%positive := MkLeaseSlot 7%nat 1 2 ]} 2%positive.
Definition sample_world : World string nat :=
  MkWorld (sample_cache [("a"%string, MkCachedValue 1 25)]) sample_heap [("a"%string, 1%positive)] [] [].

Lemma sample_world_reachable : lease_reachable 1 20 (6, sample_world).
Proof.
  exists 0. eapply rtc_l; [eapply (ls_insert 0 5 _ _ _ _ _ "a"%string 7%nat); [lia|vm_compute; reflexivity]|].
  eapply rtc_l; [eapply (ls_acquire 5 6 _ _ _ _ _ "a"%string); [lia|vm_compute; reflexivity]|].
  apply rtc_refl.
Qed.

Lemma leased_value_resident_witness :
  (acquire_at (sample_cache [("a"%string, MkCachedValue 1 25)]) sample_heap "a"%string 90).1.1
  = Some 1%positive.
Proof.
  destruct (leased_value_resident 1 20 6 sample_world "a"%string 1%positive ltac:(lia)
              sample_world_reachable) as (e & v & _ & _ & _ & Ha); [left|].
  apply (Ha 90). vm_compute. reflexivity.
Defined.

Lemma lease_insert_exact_witness :
  exists res c' h',
    insert_evicting_at (sample_cache [("a"%string, MkCachedValue 1 25)]) sample_heap "b"%string 9%nat 30
    = Some (res, c', h') /\ len (items c') <= 1.
Proof.
  destruct (lease_insert_exact 1 20 6 30 (sample_cache [("a"%string, MkCachedValue 1 25)]) sample_heap
    [("a"%string, 1%positive)] [] [] "b"%string 9%nat ltac:(lia) sample_world_reachable)
    as (res & c' & h' & E & Hl & _); [lia|vm_compute; discriminate|].
  exists res, c', h'. split; [exact E|exact Hl].
Defined.

Lemma lease_sweep_exact_witness :
  expired_unleased_keys_at (sample_cache [("a"%string, MkCachedValue 1 25)]) sample_heap 90 = [].
Proof.
  destruct (lease_sweep_exact 1 20 6 90 (sample_cache [("a"%string, MkCachedValue 1 25)]) sample_heap
    [("a"%string, 1%positive)] [] [] ltac:(lia) sample_world_reachable) as [E _]. exact E.
Defined.
