(* ===== verification/Primitives.v ===== *)
(** * Cryptographic and encoding crates used by the transport

    SHA-256, HKDF, X25519, ChaCha20-Poly1305 and the [hex] crate are third-party code: they are
    parameters of the model, and [CryptoLaws] / [HexLaws] state the documented behaviour the
    transport relies on (functional laws only, no computational assumption).  [Toy] instantiates
    both with concrete functions for the witnesses. *)
From Stdlib Require Import Strings.Byte.
From S2P Require Import Prelude.

Class CryptoPrims := {
  sha256 : list byte -> list byte;
  (** [Hkdf::<Sha256>::new(Some(salt), ikm)] and [Hkdf::from_prk]: the pseudo-random key. *)
  hkdf_extract : list byte -> list byte -> list byte;
  hkdf_from_prk : list byte -> option (list byte);
  (** [Hkdf::expand(info, &mut [0; n])] *)
  hkdf_expand : list byte -> list byte -> Z -> option (list byte);
  (** [x25519_dalek::EphemeralSecret], its public key, and [diffie_hellman]. *)
  EphemeralSecret : Type;
  x25519_public : EphemeralSecret -> list byte;
  diffie_hellman : EphemeralSecret -> list byte -> list byte;
  (** [ChaCha20Poly1305::new(key).encrypt(nonce, Payload { msg, aad })] and [decrypt]. *)
  aead_encrypt : list byte -> list byte -> list byte -> list byte -> option (list byte);
  aead_decrypt : list byte -> list byte -> list byte -> list byte -> option (list byte);
}.

(** Longest message the cipher takes: [u32::MAX] blocks of 64 bytes. *)
Definition AEAD_MAX_BYTES : Z := U32_MAX * 64.

Class CryptoLaws (P : CryptoPrims) : Prop := {
  hkdf_from_prk_ok prk : 32 <= len prk -> hkdf_from_prk prk = Some prk;
  hkdf_expand_ok prk info n : 0 <= n <= 255 * 32 -> is_Some (hkdf_expand prk info n);
  hkdf_expand_len prk info n out : hkdf_expand prk info n = Some out -> len out = n;
  diffie_hellman_comm a b :
    diffie_hellman a (x25519_public b) = diffie_hellman b (x25519_public a);
  aead_encrypt_ok key nonce aad msg :
    len key = 32 -> len nonce = 12 -> len aad < AEAD_MAX_BYTES -> len msg < AEAD_MAX_BYTES ->
    is_Some (aead_encrypt key nonce aad msg);
  (** The tag is appended: 16 bytes of expansion. *)
  aead_encrypt_len key nonce aad msg ct :
    aead_encrypt key nonce aad msg = Some ct -> len ct = len msg + 16;
  aead_decrypt_encrypt key nonce aad msg ct :
    aead_encrypt key nonce aad msg = Some ct -> aead_decrypt key nonce aad ct = Some msg;
  (** Decryption is the inverse of a deterministic encryption: a stream cipher plus a tag that
      is recomputed and compared. *)
  aead_encrypt_decrypt key nonce aad msg ct :
    aead_decrypt key nonce aad ct = Some msg -> aead_encrypt key nonce aad msg = Some ct;
}.

(** [hex::encode] and [hex::decode_to_slice] into a slice of [n] bytes. *)
Class HexCrate := {
  hex_encode : list byte -> string;
  hex_decode_to_slice : list byte -> Z -> option (list byte);
}.

(** [byte.is_ascii_digit() || matches!(byte, b'a'..=b'f')] *)
Definition is_lower_hex (b : byte) : bool :=
  ((48 <=? byte_val b) && (byte_val b <=? 57)) || ((97 <=? byte_val b) && (byte_val b <=? 102)).

Class HexLaws (H : HexCrate) : Prop := {
  hex_encode_len bs : len (as_bytes (hex_encode bs)) = 2 * len bs;
  hex_encode_lower bs : forallb is_lower_hex (as_bytes (hex_encode bs)) = true;
  hex_decode_encode bs : hex_decode_to_slice (as_bytes (hex_encode bs)) (len bs) = Some bs;
  hex_decode_len s n bs : hex_decode_to_slice s n = Some bs -> len bs = n;
}.

(** ** A concrete instance *)
Module Toy.
Definition tag : list byte := replicate 16 x00.

(** The "cipher" appends a constant tag and checks it. *)
Definition encrypt (key nonce aad msg : list byte) : option (list byte) := Some (msg ++ tag).
Definition decrypt (key nonce aad ct : list byte) : option (list byte) :=
  let n := (length ct - 16)%nat in
  if decide (drop n ct = tag) then Some (take n ct) else None.

#[export] Instance toy_crypto : CryptoPrims := {|
  sha256 _ := replicate 32 x00;
  hkdf_extract salt _ := take 32 (salt ++ replicate 32 x00);
  hkdf_from_prk prk := if 32 <=? len prk then Some prk else None;
  hkdf_expand _ info n :=
    if 0 <=? n then Some (take (Z.to_nat n) (info ++ replicate (Z.to_nat n) x00)) else None;
  EphemeralSecret := Z;
  x25519_public s := to_be_bytes 32 s;
  diffie_hellman s p := to_be_bytes 32 (from_be_bytes (to_be_bytes 32 s) + from_be_bytes p);
  aead_encrypt := encrypt;
  aead_decrypt := decrypt;
|}.

#[export] Instance toy_crypto_laws : CryptoLaws toy_crypto.
Proof.
  split; cbn [sha256 hkdf_extract hkdf_from_prk hkdf_expand EphemeralSecret x25519_public
    diffie_hellman aead_encrypt aead_decrypt toy_crypto]; intros.
  - by rewrite (proj2 (Z.leb_le _ _) H).
  - rewrite (proj2 (Z.leb_le 0 n)) by lia. eauto.
  - destruct (0 <=? n) eqn:E; [|done]. bool_to_prop. simplify_eq. unfold len.
    rewrite length_take, length_app, length_replicate. lia.
  - f_equal. lia.
  - unfold encrypt. eauto.
  - unfold encrypt in H. simplify_eq. rewrite len_app. done.
  - unfold encrypt in H. simplify_eq. unfold decrypt.
    rewrite length_app. replace (length msg + length tag - 16)%nat with (length msg) by (cbn; lia).
    by rewrite drop_app_length, take_app_length, decide_True.
  - unfold decrypt in H. case_decide as E; [|done]. simplify_eq. unfold encrypt.
    by rewrite <-E, take_drop.
Qed.

Definition digit (n : Z) : byte := byte_of_Z (if n <? 10 then 48 + n else 87 + n).
Definition undigit (b : byte) : option Z :=
  if (48 <=? byte_val b) && (byte_val b <=? 57) then Some (byte_val b - 48)
  else if (97 <=? byte_val b) && (byte_val b <=? 102) then Some (byte_val b - 87) else None.

Fixpoint encode_bytes (bs : list byte) : list byte :=
  match bs with
  | [] => []
  | b :: bs => digit (byte_val b / 16) :: digit (byte_val b mod 16) :: encode_bytes bs
  end.

Fixpoint decode_bytes (s : list byte) : option (list byte) :=
  match s with
  | [] => Some []
  | [_] => None
  | h :: l :: s =>
      h ← undigit h; l ← undigit l; rest ← decode_bytes s; Some (byte_of_Z (h * 16 + l) :: rest)
  end.

#[export] Instance toy_hex : HexCrate := {|
  hex_encode bs := String.string_of_list_byte (encode_bytes bs);
  hex_decode_to_slice s n :=
    bs ← decode_bytes s; if decide (len bs = n) then Some bs else None;
|}.

Lemma digit_val n : 0 <= n < 16 -> byte_val (digit n) = if n <? 10 then 48 + n else 87 + n.
Proof. intros. unfold digit. rewrite byte_val_of_Z. apply Z.mod_small. destruct (n <? 10); lia. Qed.

Lemma digit_lower n : 0 <= n < 16 -> is_lower_hex (digit n) = true.
Proof.
  intros Hn. unfold is_lower_hex. rewrite digit_val by done.
  destruct (n <? 10) eqn:E; bool_to_prop; apply orb_true_iff; [left|right];
    apply andb_true_iff; split; apply Z.leb_le; lia.
Qed.

Lemma undigit_digit n : 0 <= n < 16 -> undigit (digit n) = Some n.
Proof.
  intros Hn. unfold undigit. rewrite digit_val by done.
  destruct (n <? 10) eqn:E; bool_to_prop.
  - rewrite (proj2 (Z.leb_le 48 (48 + n))), (proj2 (Z.leb_le (48 + n) 57)) by lia. cbn.
    f_equal. lia.
  - rewrite (proj2 (Z.leb_gt (87 + n) 57)), andb_false_r by lia.
    rewrite (proj2 (Z.leb_le 97 (87 + n))), (proj2 (Z.leb_le (87 + n) 102)) by lia. cbn.
    f_equal. lia.
Qed.

Lemma nibbles b : 0 <= byte_val b / 16 < 16 /\ 0 <= byte_val b mod 16 < 16.
Proof.
  pose proof (byte_val_range b). pose proof (Z.mod_pos_bound (byte_val b) 16 ltac:(lia)).
  split; [|done]. split; [apply Z.div_pos; lia|apply Z.div_lt_upper_bound; lia].
Qed.

Lemma decode_encode_bytes bs : decode_bytes (encode_bytes bs) = Some bs.
Proof.
  induction bs as [|b bs IH]; [done|]. cbn [encode_bytes decode_bytes].
  destruct (nibbles b). rewrite !undigit_digit by done. cbn. rewrite IH. cbn.
  do 2 f_equal. rewrite <-(byte_of_Z_val b) at 3. f_equal.
  pose proof (Z.div_mod (byte_val b) 16 ltac:(lia)). lia.
Qed.

#[export] Instance toy_hex_laws : HexLaws toy_hex.
Proof.
  split; unfold as_bytes; cbn [hex_encode hex_decode_to_slice toy_hex]; intros.
  - rewrite String.list_byte_of_string_of_list_byte.
    induction bs as [|b bs IH]; [done|]. cbn [encode_bytes]. rewrite !len_cons, IH. lia.
  - rewrite String.list_byte_of_string_of_list_byte.
    induction bs as [|b bs IH]; [done|]. destruct (nibbles b). cbn [encode_bytes forallb].
    by rewrite !digit_lower.
  - rewrite String.list_byte_of_string_of_list_byte, decode_encode_bytes. cbn.
    by rewrite decide_True.
  - destruct (decode_bytes s); cbn in *; [|done]. case_decide; naive_solver.
Qed.
End Toy.
