(* ===== verification/WireCrates.v ===== *)
(** * HTTP and JSON crates used by the transport

    [http]'s [Method], [HeaderName], [HeaderValue] and [Uri] parsers and [serde_json] with the
    derived (de)serializers are third-party or generated code: parameters of the model. *)
From Stdlib Require Import Strings.Byte.
From S2P Require Import Prelude.

(** The parts of [http::Uri] the transport inspects. *)
Record Uri := MkUri {
  uri_scheme : option string;
  uri_authority : option string;
  uri_path_and_query : option string;
}.

Class HttpCrate := {
  Method : Type;
  method_as_str : Method -> string;
  method_from_bytes : list byte -> option Method;
  (** [HeaderName::from_bytes(..)] and the canonical name [as_str] returns. *)
  header_name_from_bytes : list byte -> option string;
  (** [HeaderValue::from_str(..).is_ok()] *)
  header_value_is_ok : string -> bool;
  uri_from_str : string -> option Uri;
}.

Class HttpLaws (H : HttpCrate) : Prop := {
  method_roundtrip m : method_from_bytes (as_bytes (method_as_str m)) = Some m;
  method_nonempty : method_from_bytes [] = None;
}.

(** [serde_json::to_vec] of a type and [serde_json::from_slice] to a type. *)
Class JsonSer (A : Type) := json_to_vec : A -> option (list byte).
Class JsonDe (A : Type) := json_from_slice : list byte -> option A.

(** Reading back what was written: [f] maps the written value to the type read. *)
Class JsonCompat {A B : Type} (S : JsonSer A) (D : JsonDe B) (f : A -> B) : Prop :=
  json_roundtrip a bs : json_to_vec a = Some bs -> json_from_slice bs = Some (f a).

(** [http::HeaderValue::to_str] on the bytes of a value. *)
Class HeaderText := header_to_str : list byte -> option string.

(** [base64::engine::general_purpose::STANDARD]: [encode], [decode], and [decode_slice] into a
    buffer of [n] bytes. *)
Class Base64Crate := {
  base64_encode : list byte -> string;
  base64_decode : list byte -> option (list byte);
  base64_decode_slice : list byte -> Z -> option (list byte);
}.

(** String tests of the source on the UTF-8 bytes. *)
Definition starts_with (p s : string) : bool := String.prefix p s.
Definition contains_byte (b : byte) (s : string) : bool :=
  existsb (fun c => bool_decide (c = b)) (as_bytes s).

Lemma as_bytes_nil_iff s : as_bytes s = [] <-> s = EmptyString.
Proof. destruct s; cbn; split; try done; congruence. Qed.

Lemma len_as_bytes s : len (as_bytes s) = str_len s.
Proof.
  unfold len, str_len, as_bytes. f_equal. induction s as [|a s IH]; [done|].
  cbn. by f_equal.
Qed.

(** A permissive [http] crate: every non-empty method and header name parses to itself. *)
Module ToyHttp.
Definition parse_token (bs : list byte) : option string :=
  match bs with [] => None | _ => Some (String.string_of_list_byte bs) end.

#[export] Instance toy_http : HttpCrate := {|
  Method := dsig (fun s : string => s <> EmptyString);
  method_as_str := proj1_sig;
  method_from_bytes bs :=
    match decide (String.string_of_list_byte bs <> EmptyString) with
    | left p => Some (dexist (String.string_of_list_byte bs) p)
    | right _ => None
    end;
  header_name_from_bytes := parse_token;
  header_value_is_ok _ := true;
  uri_from_str t := Some (MkUri None None (Some t));
|}.

#[export] Instance toy_http_laws : HttpLaws toy_http.
Proof.
  split; [|done]. intros m. cbn [method_from_bytes method_as_str toy_http].
  assert (String.string_of_list_byte (as_bytes (proj1_sig m)) = proj1_sig m) as E
    by apply String.string_of_list_byte_of_string.
  case_decide as Hd.
  - f_equal. by apply dsig_eq.
  - destruct (proj2_dsig m). by rewrite <-E.
Qed.

#[export] Instance toy_header_text : HeaderText := fun bs => Some (String.string_of_list_byte bs).

(** Bytes as their own text. *)
#[export] Instance toy_base64 : Base64Crate := {|
  base64_encode := String.string_of_list_byte;
  base64_decode := Some;
  base64_decode_slice bs n := if len bs =? n then Some bs else None;
|}.
End ToyHttp.
