(* ===== verification/ServerCrypto.v ===== *)
(** * Transport-v2 record cryptography, enclave side
    ([services/opensecret/src/transport_v2/crypto.rs])

    Key schedule, record subkeys, associated data and nonces, and the request and response record
    operations, over the primitives of [Primitives].  Fixed-size arrays are byte lists; functions
    that mutate [self] return the new state. *)
From Stdlib Require Import Strings.Byte.
From S2P Require Import Prelude Primitives.

Definition HANDSHAKE_CHALLENGE_BYTES : Z := 32.
Definition X25519_PUBLIC_KEY_BYTES : Z := 32.
Definition SESSION_ID_BYTES : Z := 16.
Definition REQUEST_ID_BYTES : Z := 16.
Definition RECORD_NONCE_BYTES : Z := 12.
Definition RECORD_TAG_BYTES : Z := 16.
Definition MIN_REQUEST_RECORD_BYTES : Z := REQUEST_ID_BYTES + RECORD_TAG_BYTES.
Definition MIN_RESPONSE_RECORD_BYTES : Z := RECORD_TAG_BYTES.

Definition HANDSHAKE_DOMAIN := as_bytes "opensecret/transport-v2/session/v1".
Definition ATTESTATION_USER_DATA_DOMAIN :=
  as_bytes "opensecret/transport-v2/session/v1/client-public-key".
Definition REQUEST_KEY_INFO := as_bytes "opensecret/transport-v2/request-key/v1".
Definition RESPONSE_KEY_INFO := as_bytes "opensecret/transport-v2/response-key/v1".
Definition SESSION_ID_INFO := as_bytes "opensecret/transport-v2/session-id/v1".
Definition REQUEST_SUBKEY_INFO := as_bytes "opensecret/transport-v2/request-subkey/v1".
Definition RESPONSE_SUBKEY_INFO := as_bytes "opensecret/transport-v2/response-subkey/v1".
Definition REQUEST_RECORD_DOMAIN := as_bytes "opensecret/transport-v2/request-record/v1".
Definition RESPONSE_RECORD_DOMAIN := as_bytes "opensecret/transport-v2/response-record/v1".

Inductive CryptoError :=
| NonContributoryKey
| KeyDerivation
| TruncatedRecord
| Encryption
| Authentication
| SequenceExhausted.

#[global] Instance CryptoError_eq_dec : EqDecision CryptoError.
Proof. solve_decision. Defined.

(** [SessionId], [RequestId] and [TrafficKey] are arrays of 16, 16 and 32 bytes. *)
Abbreviation SessionId := (list byte) (only parsing).
Abbreviation RequestId := (list byte) (only parsing).
Abbreviation TrafficKey := (list byte) (only parsing).

Record HandshakeTranscript := MkHandshakeTranscript {
  ht_challenge : list byte;
  ht_client_public_key : list byte;
  ht_server_public_key : list byte;
}.

Record SessionSecrets := MkSessionSecrets {
  ss_session_id : SessionId;
  ss_request_key : TrafficKey;
  ss_response_key : TrafficKey;
}.

Record ResponseSealer := MkResponseSealer {
  rs_session_id : SessionId;
  rs_request_id : RequestId;
  rs_key : TrafficKey;
  rs_next_sequence : Z;
}.

(** ** Pure helpers *)

Definition key_info (label transcript_digest : list byte) : list byte :=
  label ++ [x00] ++ transcript_digest.

Definition request_aad (session_id : SessionId) (request_id : RequestId) : list byte :=
  REQUEST_RECORD_DOMAIN ++ [x00] ++ session_id ++ request_id.

Definition response_aad (session_id : SessionId) (request_id : RequestId) (sequence : Z) :
    list byte :=
  RESPONSE_RECORD_DOMAIN ++ [x00] ++ session_id ++ request_id ++ to_be_bytes 8 sequence.

Definition response_nonce (sequence : Z) : list byte := replicate 4 x00 ++ to_be_bytes 8 sequence.

Definition zero_nonce : list byte := replicate (Z.to_nat RECORD_NONCE_BYTES) x00.

Definition attestation_user_data (client_public_key : list byte) : list byte :=
  ATTESTATION_USER_DATA_DOMAIN ++ [x00] ++ client_public_key.

Section ServerCrypto.
Context {P : CryptoPrims}.

Definition digest (t : HandshakeTranscript) : list byte :=
  sha256 (HANDSHAKE_DOMAIN ++ [x00] ++ ht_challenge t ++ ht_client_public_key t
            ++ ht_server_public_key t).

Definition derive_record_subkey (base_key : TrafficKey) (label : list byte)
    (session_id : SessionId) (request_id : RequestId) : result CryptoError TrafficKey :=
  hkdf ← ok_or (hkdf_from_prk base_key) KeyDerivation;
  ok_or (hkdf_expand hkdf (label ++ [x00] ++ session_id ++ request_id) 32) KeyDerivation.

Definition seal_detached_nonce (key : TrafficKey) (aad nonce plaintext : list byte) :
    result CryptoError (list byte) :=
  ok_or (aead_encrypt key nonce aad plaintext) Encryption.

Definition open_detached_nonce (key : TrafficKey) (aad nonce record : list byte) :
    result CryptoError (list byte) :=
  if len record <? RECORD_TAG_BYTES then Err TruncatedRecord
  else ok_or (aead_decrypt key nonce aad record) Authentication.

Definition derive_session_secrets (shared_secret : list byte) (transcript : HandshakeTranscript) :
    result CryptoError SessionSecrets :=
  if decide (shared_secret = replicate 32 x00) then Err NonContributoryKey
  else
    let transcript_digest := digest transcript in
    let hkdf := hkdf_extract (ht_challenge transcript) shared_secret in
    request_key ← ok_or (hkdf_expand hkdf (key_info REQUEST_KEY_INFO transcript_digest) 32)
                     KeyDerivation;
    response_key ← ok_or (hkdf_expand hkdf (key_info RESPONSE_KEY_INFO transcript_digest) 32)
                     KeyDerivation;
    session_id ← ok_or (hkdf_expand hkdf (key_info SESSION_ID_INFO transcript_digest)
                          SESSION_ID_BYTES) KeyDerivation;
    Ok (MkSessionSecrets session_id request_key response_key).

Definition derive_server_session (server_secret : EphemeralSecret)
    (transcript : HandshakeTranscript) : result CryptoError SessionSecrets :=
  derive_session_secrets (diffie_hellman server_secret (ht_client_public_key transcript))
    transcript.

Definition derive_client_session (client_secret : EphemeralSecret)
    (transcript : HandshakeTranscript) : result CryptoError SessionSecrets :=
  derive_session_secrets (diffie_hellman client_secret (ht_server_public_key transcript))
    transcript.

Definition encrypt_request (s : SessionSecrets) (request_id : RequestId) (plaintext : list byte) :
    result CryptoError (list byte) :=
  key ← derive_record_subkey (ss_request_key s) REQUEST_SUBKEY_INFO (ss_session_id s) request_id;
  ciphertext ← seal_detached_nonce key (request_aad (ss_session_id s) request_id) zero_nonce
                 plaintext;
  Ok (request_id ++ ciphertext).

Definition decrypt_request (s : SessionSecrets) (record : list byte) :
    result CryptoError (RequestId * list byte) :=
  if len record <? MIN_REQUEST_RECORD_BYTES then Err TruncatedRecord
  else
    let request_id := take (Z.to_nat REQUEST_ID_BYTES) record in
    key ← derive_record_subkey (ss_request_key s) REQUEST_SUBKEY_INFO (ss_session_id s) request_id;
    plaintext ← open_detached_nonce key (request_aad (ss_session_id s) request_id) zero_nonce
                  (drop (Z.to_nat REQUEST_ID_BYTES) record);
    Ok (request_id, plaintext).

Definition response_sealer (s : SessionSecrets) (request_id : RequestId) :
    result CryptoError ResponseSealer :=
  key ← derive_record_subkey (ss_response_key s) RESPONSE_SUBKEY_INFO (ss_session_id s) request_id;
  Ok (MkResponseSealer (ss_session_id s) request_id key 0).

Definition decrypt_response (s : SessionSecrets) (request_id : RequestId) (sequence : Z)
    (record : list byte) : result CryptoError (list byte) :=
  key ← derive_record_subkey (ss_response_key s) RESPONSE_SUBKEY_INFO (ss_session_id s) request_id;
  open_detached_nonce key (response_aad (ss_session_id s) request_id sequence)
    (response_nonce sequence) record.

(** The sequence advances before the encryption, so a failed one is never reused. *)
Definition seal_next (s : ResponseSealer) (plaintext : list byte) :
    ResponseSealer * result CryptoError (list byte) :=
  let sequence := rs_next_sequence s in
  match checked_add_u64 sequence 1 with
  | None => (s, Err SequenceExhausted)
  | Some next =>
      (MkResponseSealer (rs_session_id s) (rs_request_id s) (rs_key s) next,
       seal_detached_nonce (rs_key s)
         (response_aad (rs_session_id s) (rs_request_id s) sequence)
         (response_nonce sequence) plaintext)
  end.
End ServerCrypto.

(** ** Identifiers as text *)
Section SessionIdText.
Context {H : HexCrate}.

(** [Display for SessionId] and [FromStr for SessionId]; [None] is [SessionIdParseError]. *)
Definition session_id_to_string (id : SessionId) : string := hex_encode id.

Definition session_id_from_str (value : string) : option SessionId :=
  let encoded := as_bytes value in
  if negb (len encoded =? SESSION_ID_BYTES * 2) || negb (forallb is_lower_hex encoded)
  then None
  else hex_decode_to_slice encoded SESSION_ID_BYTES.
End SessionIdText.

(** ** Separation of records: associated data and nonces *)

Lemma app_inj_len {A} (l1 l2 k1 k2 : list A) :
  len l1 = len l2 -> l1 ++ k1 = l2 ++ k2 -> l1 = l2 /\ k1 = k2.
Proof. unfold len. intros Hl. apply app_inj_1. lia. Qed.

Lemma response_nonce_inj a b :
  0 <= a <= U64_MAX -> 0 <= b <= U64_MAX -> response_nonce a = response_nonce b -> a = b.
Proof.
  unfold response_nonce, U64_MAX. intros Ha Hb E%app_inv_head.
  eapply (to_be_bytes_inj 8); [..|exact E]; change (256 ^ Z.of_nat 8) with 18446744073709551616; lia.
Qed.

Lemma response_aad_inj s1 r1 n1 s2 r2 n2 :
  len s1 = len s2 -> len r1 = len r2 -> 0 <= n1 <= U64_MAX -> 0 <= n2 <= U64_MAX ->
  response_aad s1 r1 n1 = response_aad s2 r2 n2 -> s1 = s2 /\ r1 = r2 /\ n1 = n2.
Proof.
  unfold response_aad. intros Hs Hr H1 H2 E.
  apply app_inv_head, app_inv_head in E.
  apply app_inj_len in E as [-> E]; [|done]. apply app_inj_len in E as [-> E]; [|done].
  split_and!; [done..|]. apply (response_nonce_inj _ _ H1 H2). unfold response_nonce. by rewrite E.
Qed.

(** Every encrypted record has its own context: the associated data of two response records
    agree only for the same session, request and sequence number, the nonces of one request's
    response records differ, and no request record shares its associated data with a response
    record. *)
Theorem record_contexts_separated s1 r1 n1 s2 r2 n2 :
  len s1 = 16 -> len s2 = 16 -> len r1 = 16 -> len r2 = 16 ->
  0 <= n1 <= U64_MAX -> 0 <= n2 <= U64_MAX ->
  (response_aad s1 r1 n1 = response_aad s2 r2 n2 -> s1 = s2 /\ r1 = r2 /\ n1 = n2) /\
  (response_nonce n1 = response_nonce n2 -> n1 = n2) /\
  (request_aad s1 r1 = request_aad s2 r2 -> s1 = s2 /\ r1 = r2) /\
  request_aad s1 r1 <> response_aad s2 r2 n2.
Proof.
  intros Hs1 Hs2 Hr1 Hr2 Hn1 Hn2. split_and!.
  - apply response_aad_inj; congruence || lia.
  - by apply response_nonce_inj.
  - unfold request_aad. intros E. apply app_inv_head, app_inv_head in E.
    apply app_inj_len in E; [done|congruence].
  - intros E%(f_equal len). unfold request_aad, response_aad in E.
    rewrite !len_app, len_to_be_bytes, Hs1, Hs2, Hr1, Hr2 in E. vm_compute in E. discriminate.
Qed.

Lemma record_contexts_separated_witness :
  response_aad (replicate 16 x01) (replicate 16 x02) 0
    <> response_aad (replicate 16 x01) (replicate 16 x02) 1.
Proof.
  intros E.
  assert (0 <= 0 <= U64_MAX /\ 0 <= 1 <= U64_MAX) as [H0 H1] by (unfold U64_MAX; lia).
  destruct (record_contexts_separated (replicate 16 x01) (replicate 16 x02) 0
              (replicate 16 x01) (replicate 16 x02) 1
              eq_refl eq_refl eq_refl eq_refl H0 H1) as (H & _).
  destruct (H E) as (_ & _ & ?). lia.
Defined.

(** ** Round trips *)
Section Theory.
Context {P : CryptoPrims} {HP : CryptoLaws P}.

(** Secrets as the key schedule produces them: two 32-byte keys and a 16-byte identifier. *)
Definition secrets_wf (s : SessionSecrets) : Prop :=
  len (ss_request_key s) = 32 /\ len (ss_response_key s) = 32 /\ len (ss_session_id s) = 16.

Lemma derive_session_secrets_wf shared t s :
  derive_session_secrets shared t = Ok s -> secrets_wf s.
Proof.
  unfold derive_session_secrets. case_decide; [done|]. intros. result_inv. subst.
  repeat match goal with H : hkdf_expand _ _ _ = Some _ |- _ => apply hkdf_expand_len in H end.
  done.
Qed.

Lemma derive_record_subkey_ok base label sid rid :
  len base = 32 -> exists key, derive_record_subkey base label sid rid = Ok key /\ len key = 32.
Proof.
  intros Hb. unfold derive_record_subkey. rewrite hkdf_from_prk_ok by lia. cbn.
  destruct (hkdf_expand_ok base (label ++ x00 :: sid ++ rid) 32) as [key E]; [lia|].
  exists key. cbn in *. rewrite E. split; [done|]. by apply hkdf_expand_len in E.
Qed.

Lemma seal_open key aad nonce msg ct :
  seal_detached_nonce key aad nonce msg = Ok ct ->
  open_detached_nonce key aad nonce ct = Ok msg /\ len ct = len msg + 16.
Proof.
  unfold seal_detached_nonce, open_detached_nonce. intros E%ok_or_ok.
  pose proof (aead_encrypt_len _ _ _ _ _ E) as Hl. apply aead_decrypt_encrypt in E.
  pose proof (len_nonneg msg). unfold RECORD_TAG_BYTES.
  destruct (Z.ltb_spec (len ct) 16); [lia|]. by rewrite E.
Qed.

Lemma open_seal key aad nonce msg ct :
  open_detached_nonce key aad nonce ct = Ok msg -> seal_detached_nonce key aad nonce msg = Ok ct.
Proof.
  unfold seal_detached_nonce, open_detached_nonce. destruct (_ <? _); [done|].
  intros E%ok_or_ok. apply aead_encrypt_decrypt in E. by rewrite E.
Qed.

Lemma seal_ok key aad nonce msg :
  len key = 32 -> len nonce = 12 -> len aad < AEAD_MAX_BYTES -> len msg < AEAD_MAX_BYTES ->
  exists ct, seal_detached_nonce key aad nonce msg = Ok ct.
Proof.
  intros Hk Hn Ha Hm. destruct (aead_encrypt_ok key nonce aad msg Hk Hn Ha Hm) as [ct E].
  exists ct. unfold seal_detached_nonce. by rewrite E.
Qed.

Lemma len_request_aad sid rid : len (request_aad sid rid) = 42 + len sid + len rid.
Proof. unfold request_aad. rewrite !len_app. change (len REQUEST_RECORD_DOMAIN) with 41.
  change (len [x00]) with 1. lia. Qed.

Lemma len_response_aad sid rid n : len (response_aad sid rid n) = 51 + len sid + len rid.
Proof. unfold response_aad. rewrite !len_app, len_to_be_bytes.
  change (len RESPONSE_RECORD_DOMAIN) with 42. change (len [x00]) with 1. lia. Qed.

(** Sealing a request and opening it again. *)
Lemma seal_request s rid msg :
  secrets_wf s -> len rid = 16 -> len msg < AEAD_MAX_BYTES ->
  exists record, encrypt_request s rid msg = Ok record /\
    len record = len msg + MIN_REQUEST_RECORD_BYTES /\
    decrypt_request s record = Ok (rid, msg).
Proof.
  intros (Hk & _ & Hs) Hr Hm.
  destruct (derive_record_subkey_ok (ss_request_key s) REQUEST_SUBKEY_INFO (ss_session_id s) rid Hk)
    as (key & Ek & Hkl).
  destruct (seal_ok key (request_aad (ss_session_id s) rid) zero_nonce msg) as [ct Ec]; [done..| |done|].
  { rewrite len_request_aad. unfold AEAD_MAX_BYTES, U32_MAX. lia. }
  destruct (seal_open _ _ _ _ _ Ec) as [Eo Hl].
  exists (rid ++ ct). unfold encrypt_request. rewrite Ek. bsimpl. rewrite Ec. bsimpl. split; [done|].
  pose proof (len_nonneg msg). unfold MIN_REQUEST_RECORD_BYTES, REQUEST_ID_BYTES, RECORD_TAG_BYTES.
  rewrite len_app. split; [lia|]. unfold decrypt_request.
  destruct (take_drop_app_len (Z.to_nat 16) rid ct) as [E1 E2]; [unfold len in Hr; lia|].
  unfold MIN_REQUEST_RECORD_BYTES, REQUEST_ID_BYTES, RECORD_TAG_BYTES.
  rewrite E1, E2, len_app. destruct (Z.ltb_spec (len rid + len ct) (16 + 16)); [lia|].
  rewrite Ek. bsimpl. rewrite Eo. done.
Qed.

(** A record the enclave accepts is the one and only encryption of the identifier and
    plaintext it returns: nothing else opens to them under the session. *)
Theorem decrypt_request_canonical s record rid msg :
  decrypt_request s record = Ok (rid, msg) ->
  encrypt_request s rid msg = Ok record /\ len rid = 16.
Proof.
  unfold decrypt_request, MIN_REQUEST_RECORD_BYTES, REQUEST_ID_BYTES, RECORD_TAG_BYTES.
  destruct (Z.ltb_spec (len record) (16 + 16)); [done|]. intros. result_inv. subst.
  match goal with H : open_detached_nonce _ _ _ _ = _ |- _ => apply open_seal in H end.
  unfold encrypt_request.
  match goal with H : derive_record_subkey _ _ _ _ = _ |- _ => rewrite H end. bsimpl.
  match goal with H : seal_detached_nonce _ _ _ _ = _ |- _ => rewrite H end. bsimpl.
  split; [by rewrite take_drop|]. unfold len in *. rewrite length_take. lia.
Qed.

(** Sealing a sequence of response records. *)
Fixpoint seal_all (s : ResponseSealer) (msgs : list (list byte)) :
    ResponseSealer * list (result CryptoError (list byte)) :=
  match msgs with
  | [] => (s, [])
  | m :: msgs =>
      let (s, r) := seal_next s m in
      let (s, rs) := seal_all s msgs in
      (s, r :: rs)
  end.

Definition record_seal (s : ResponseSealer) (i : nat) (msg : list byte) :
    result CryptoError (list byte) :=
  let n := rs_next_sequence s + Z.of_nat i in
  seal_detached_nonce (rs_key s) (response_aad (rs_session_id s) (rs_request_id s) n)
    (response_nonce n) msg.

Lemma seal_next_spec s msg :
  rs_next_sequence s < U64_MAX ->
  seal_next s msg
  = (MkResponseSealer (rs_session_id s) (rs_request_id s) (rs_key s) (rs_next_sequence s + 1),
     record_seal s 0 msg).
Proof.
  intros Hn. unfold seal_next, checked_add_u64, record_seal.
  rewrite (proj2 (Z.leb_le _ _)) by lia. by rewrite Z.add_0_r.
Qed.

Lemma seal_all_spec s msgs :
  rs_next_sequence s + len msgs <= U64_MAX ->
  (seal_all s msgs).2 = imap (record_seal s) msgs /\
  rs_next_sequence (seal_all s msgs).1 = rs_next_sequence s + len msgs.
Proof.
  revert s. induction msgs as [|m msgs IH]; intros s Hn.
  { split; [done|]. cbn [seal_all fst]. rewrite len_nil. lia. }
  rewrite len_cons in *. pose proof (len_nonneg msgs).
  cbn [seal_all]. rewrite seal_next_spec by lia.
  destruct (IH (MkResponseSealer (rs_session_id s) (rs_request_id s) (rs_key s)
                 (rs_next_sequence s + 1))) as [E1 E2]; [cbn; lia|].
  destruct (seal_all _ msgs) as [s' rs]. cbn [fst snd rs_next_sequence] in *. subst rs.
  split; [|lia]. cbn [imap]. f_equal. apply imap_ext. intros i x _.
  unfold record_seal. cbn. by rewrite Nat2Z.inj_succ, <-Z.add_assoc, Z.add_1_l.
Qed.

(** C32: A response sealer never reuses a nonce: sealing any number of records that fits in the
    64-bit sequence uses consecutive sequence numbers, pairwise different nonces and associated
    data, and at the last number it refuses to seal and keeps its state. *)
Theorem sealer_nonces_unique s msgs :
  0 <= rs_next_sequence s -> rs_next_sequence s + len msgs <= U64_MAX ->
  (seal_all s msgs).2 = imap (record_seal s) msgs /\
  (forall i j : nat, Z.of_nat i < len msgs -> Z.of_nat j < len msgs -> i <> j ->
     response_nonce (rs_next_sequence s + Z.of_nat i)
     <> response_nonce (rs_next_sequence s + Z.of_nat j)) /\
  (forall msg, rs_next_sequence s = U64_MAX -> seal_next s msg = (s, Err SequenceExhausted)).
Proof.
  intros H0 Hn. split_and!.
  - by apply seal_all_spec.
  - intros i j Hi Hj Hne E%response_nonce_inj; lia.
  - intros msg E. unfold seal_next, checked_add_u64. by rewrite E.
Qed.
End Theory.

(** ** Witnesses *)
#[local] Existing Instances Toy.toy_crypto Toy.toy_crypto_laws.

Definition sample_secrets : SessionSecrets :=
  MkSessionSecrets (replicate 16 x01) (replicate 32 x02) (replicate 32 x03).

Lemma decrypt_request_canonical_witness :
  encrypt_request sample_secrets (replicate 16 x07) [x68]
    = Ok (replicate 16 x07 ++ [x68] ++ replicate 16 x00).
Proof.
  apply (decrypt_request_canonical sample_secrets (replicate 16 x07 ++ [x68] ++ replicate 16 x00)).
  vm_compute. reflexivity.
Defined.

Lemma sealer_nonces_unique_witness :
  let s := MkResponseSealer (replicate 16 x01) (replicate 16 x07) (replicate 32 x03) 0 in
  (seal_all s [[x68]; [x69]]).2 = imap (record_seal s) [[x68]; [x69]].
Proof.
  apply (sealer_nonces_unique
           (MkResponseSealer (replicate 16 x01) (replicate 16 x07) (replicate 32 x03) 0)
           [[x68]; [x69]]); vm_compute; discriminate.
Defined.
