(* ===== verification/ServerEnvelope.v ===== *)
(** * Request envelopes, enclave side
    ([services/opensecret/src/transport_v2/envelope.rs])

    The decrypted request record: a four-byte big-endian metadata length, JSON metadata and the
    raw body, with every validation the enclave applies. *)
From Stdlib Require Import Strings.Byte.
From S2P Require Import Prelude Primitives WireCrates ServerCrypto.

Definition VERSION : Z := 2.
Definition METADATA_LENGTH_BYTES : Z := 4.
Definition MAX_METADATA_BYTES : Z := 128 * 1024.
Definition MAX_BODY_BYTES : Z := 50 * 1024 * 1024.
Definition MAX_ENCODED_REQUEST_BYTES : Z :=
  METADATA_LENGTH_BYTES + MAX_METADATA_BYTES + MAX_BODY_BYTES.
Definition MAX_CREDENTIAL_BYTES : Z := 16 * 1024.
Definition MAX_METHOD_BYTES : Z := 32.
Definition MAX_TARGET_BYTES : Z := 16 * 1024.
Definition MAX_HEADER_COUNT : Z := 64.

(** [InvalidMetadata] carries the [serde_json] error as its source, which the model drops. *)
Inductive EnvelopeError :=
| Truncated
| EnvelopeTooLarge
| MetadataTooLarge
| BodyTooLarge
| InvalidMetadata
| InvalidVersion
| BodyPresenceMismatch
| InvalidCredential
| InvalidMethod
| InvalidTarget
| TooManyHeaders
| InvalidHeaderName
| InvalidHeaderValue
| GatewayControlledHeader.

Inductive CredentialKind := Bearer | ApiKey | Resumption.

Record Credential := MkCredential { cred_kind : CredentialKind; cred_value : string }.

Record LogicalHeader := MkLogicalHeader { lh_name : string; lh_value : string }.

Record RequestMetadata := MkRequestMetadata {
  md_version : Z;
  md_credential : option Credential;
  md_cache_namespace_root : option (list byte);
  md_method : string;
  md_target : string;
  md_headers : list LogicalHeader;
  md_body_present : bool;
}.

Record RequestEnvelope := MkRequestEnvelope {
  env_request_id : list byte;
  env_credential : option Credential;
  env_cache_namespace_root : option (list byte);
  env_method : string;
  env_target : string;
  env_headers : list LogicalHeader;
  env_body : option (list byte);
}.

Definition is_gateway_controlled_header (name : string) : bool :=
  existsb (fun n => bool_decide (name = n))
    ["authorization"; "proxy-authorization"; "cookie"; "set-cookie"; "host"; "content-length";
     "transfer-encoding"; "connection"; "keep-alive"; "te"; "trailer"; "upgrade"; "forwarded";
     "via"; "x-forwarded-for"; "x-forwarded-host"; "x-forwarded-proto";
     "x-opensecret-routing-key"; "x-session-id"]%string.

(** [matches!(byte, 0x21..=0x7e)] *)
Definition is_visible_ascii (b : byte) : bool := (33 <=? byte_val b) && (byte_val b <=? 126).

Definition validate_body_len (body_len : Z) : result EnvelopeError unit :=
  if MAX_BODY_BYTES <? body_len then Err BodyTooLarge else Ok tt.

Definition validate_credential (c : Credential) : result EnvelopeError unit :=
  let value := as_bytes (cred_value c) in
  if (len value =? 0) || (MAX_CREDENTIAL_BYTES <? len value) || negb (forallb is_visible_ascii value)
  then Err InvalidCredential else Ok tt.

Section ServerEnvelope.
Context {H : HttpCrate}.

Definition validate_method (method : string) : result EnvelopeError unit :=
  if (str_len method =? 0) || (MAX_METHOD_BYTES <? str_len method)
     || is_none (method_from_bytes (as_bytes method))
  then Err InvalidMethod else Ok tt.

Definition validate_target (target : string) : result EnvelopeError unit :=
  if (str_len target =? 0) || (MAX_TARGET_BYTES <? str_len target)
     || negb (starts_with "/" target) || starts_with "//" target
     || contains_byte x23 target || contains_byte x5c target
  then Err InvalidTarget
  else
    uri ← ok_or (uri_from_str target) InvalidTarget;
    if is_some (uri_scheme uri) || is_some (uri_authority uri)
       || is_none_or (fun pq => negb (bool_decide (pq = target))) (uri_path_and_query uri)
    then Err InvalidTarget else Ok tt.

Definition validate_header (h : LogicalHeader) : result EnvelopeError unit :=
  parsed_name ← ok_or (header_name_from_bytes (as_bytes (lh_name h))) InvalidHeaderName;
  if negb (bool_decide (parsed_name = lh_name h)) then Err InvalidHeaderName
  else if is_gateway_controlled_header parsed_name then Err GatewayControlledHeader
  else if header_value_is_ok (lh_value h) then Ok tt else Err InvalidHeaderValue.

Fixpoint validate_each (hs : list LogicalHeader) : result EnvelopeError unit :=
  match hs with
  | [] => Ok tt
  | h :: hs => _ ← validate_header h; validate_each hs
  end.

Definition validate_headers (headers : list LogicalHeader) : result EnvelopeError unit :=
  if MAX_HEADER_COUNT <? len headers then Err TooManyHeaders else validate_each headers.

Definition credential_new (kind : CredentialKind) (value : string) :
    result EnvelopeError Credential :=
  let credential := MkCredential kind value in
  _ ← validate_credential credential; Ok credential.

Definition logical_header_new (name value : string) : result EnvelopeError LogicalHeader :=
  let header := MkLogicalHeader name value in
  _ ← validate_header header; Ok header.

Definition validate (e : RequestEnvelope) : result EnvelopeError unit :=
  _ ← (match env_credential e with Some c => validate_credential c | None => Ok tt end);
  _ ← validate_method (env_method e);
  _ ← validate_target (env_target e);
  _ ← validate_headers (env_headers e);
  validate_body_len (map_or 0 len (env_body e)).

Definition from_parts (request_id : list byte) (credential : option Credential)
    (cache_namespace_root : option (list byte)) (method target : string)
    (headers : list LogicalHeader) (body : option (list byte)) :
    result EnvelopeError RequestEnvelope :=
  let envelope := MkRequestEnvelope request_id credential cache_namespace_root method target
                    headers body in
  _ ← validate envelope; Ok envelope.

Context {Ser : JsonSer RequestMetadata} {De : JsonDe RequestMetadata}.

Definition encode (e : RequestEnvelope) : result EnvelopeError (list byte) :=
  _ ← validate e;
  let metadata := MkRequestMetadata VERSION (env_credential e) (env_cache_namespace_root e)
                    (env_method e) (env_target e) (env_headers e) (is_some (env_body e)) in
  encoded_metadata ← ok_or (json_to_vec metadata) InvalidMetadata;
  if MAX_METADATA_BYTES <? len encoded_metadata then Err MetadataTooLarge
  else
    let body := default [] (env_body e) in
    _ ← validate_body_len (len body);
    Ok (to_be_bytes 4 (wrap_u32 (len encoded_metadata)) ++ encoded_metadata ++ body).

Definition decode_bytes (request_id : list byte) (encoded : list byte) :
    result EnvelopeError RequestEnvelope :=
  if len encoded <? METADATA_LENGTH_BYTES then Err Truncated
  else if MAX_ENCODED_REQUEST_BYTES <? len encoded then Err EnvelopeTooLarge
  else
    let metadata_len := from_be_bytes (take 4 encoded) in
    if MAX_METADATA_BYTES <? metadata_len then Err MetadataTooLarge
    else
      metadata_end ← ok_or (checked_add_u64 METADATA_LENGTH_BYTES metadata_len) EnvelopeTooLarge;
      if len encoded <? metadata_end then Err Truncated
      else
        metadata ← ok_or (json_from_slice
                            (take (Z.to_nat metadata_len) (drop 4 encoded))) InvalidMetadata;
        if negb (md_version metadata =? VERSION) then Err InvalidVersion
        else
          let body_bytes := drop (Z.to_nat metadata_end) encoded in
          _ ← validate_body_len (len body_bytes);
          body ← (match md_body_present metadata, body_bytes with
                  | true, _ => Ok (Some body_bytes)
                  | false, [] => Ok None
                  | false, _ :: _ => Err BodyPresenceMismatch
                  end);
          from_parts request_id (md_credential metadata) (md_cache_namespace_root metadata)
            (md_method metadata) (md_target metadata) (md_headers metadata) body.
End ServerEnvelope.

(** ** Request identifiers and cache roots inside JSON strings *)
Section IdText.
Context {X : HexCrate}.

(** [Serialize]/[Deserialize] of [RequestId]: [None] is the visitor's error. *)
Definition request_id_serialize (id : list byte) : string := hex_encode id.

Definition request_id_visit_str (value : string) : option (list byte) :=
  let encoded := as_bytes value in
  if negb (len encoded =? REQUEST_ID_BYTES * 2) || negb (forallb is_lower_hex encoded)
  then None
  else hex_decode_to_slice encoded REQUEST_ID_BYTES.
End IdText.

(** ** Properties *)
Section Theory.
Context {H : HttpCrate} {Ser : JsonSer RequestMetadata} {De : JsonDe RequestMetadata}.

(** The metadata [encode] writes for an envelope. *)
Definition metadata_of (e : RequestEnvelope) : RequestMetadata :=
  MkRequestMetadata VERSION (env_credential e) (env_cache_namespace_root e) (env_method e)
    (env_target e) (env_headers e) (is_some (env_body e)).

Definition body_bytes_of (e : RequestEnvelope) : list byte := default [] (env_body e).

Lemma validate_each_ok hs :
  validate_each hs = Ok tt <-> Forall (fun h => validate_header h = Ok tt) hs.
Proof.
  induction hs as [|h hs IH]; cbn [validate_each]; [split; constructor|].
  rewrite result_bind_ok, Forall_cons, <-IH. split.
  - by intros ([] & ? & ?).
  - intros [? ?]. by exists tt.
Qed.

Lemma validate_header_ok h :
  validate_header h = Ok tt <->
  header_name_from_bytes (as_bytes (lh_name h)) = Some (lh_name h) /\
  is_gateway_controlled_header (lh_name h) = false /\ header_value_is_ok (lh_value h) = true.
Proof.
  unfold validate_header. rewrite result_bind_ok. split.
  - intros (n & E%ok_or_ok & Hn). case_bool_decide; [|done]. subst n. cbn [negb] in Hn.
    destruct (is_gateway_controlled_header _); [done|]. by destruct (header_value_is_ok _).
  - intros (E & Hg & Hv). exists (lh_name h). split; [by rewrite E|]. rewrite bool_decide_true by done. cbn [negb].
    by rewrite Hg, Hv.
Qed.

Lemma validate_ok e :
  validate e = Ok tt <->
  match env_credential e with Some c => validate_credential c = Ok tt | None => True end /\
  validate_method (env_method e) = Ok tt /\ validate_target (env_target e) = Ok tt /\
  validate_headers (env_headers e) = Ok tt /\
  map_or 0 len (env_body e) <= MAX_BODY_BYTES.
Proof.
  unfold validate, validate_body_len. split.
  - intros E. result_inv. repeat match goal with u : unit |- _ => destruct u end.
    destruct (Z.ltb_spec MAX_BODY_BYTES (map_or 0 len (env_body e))); [done|].
    split_and!; try done. by destruct (env_credential e).
  - intros (Hc & Hm & Ht & Hh & Hb).
    assert (match env_credential e with Some c => validate_credential c | None => Ok tt end = Ok tt)
      as -> by by destruct (env_credential e).
    bsimpl. rewrite Hm. bsimpl. rewrite Ht. bsimpl. rewrite Hh. bsimpl.
    destruct (Z.ltb_spec MAX_BODY_BYTES (map_or 0 len (env_body e))); [lia|done].
Qed.

Lemma body_len_of e : len (body_bytes_of e) = map_or 0 len (env_body e).
Proof. unfold body_bytes_of. by destruct (env_body e). Qed.

Lemma validate_body_len_ok n : n <= MAX_BODY_BYTES -> validate_body_len n = Ok tt.
Proof. intros. unfold validate_body_len. by destruct (Z.ltb_spec MAX_BODY_BYTES n); [lia|]. Qed.

Lemma encode_ok e md :
  validate e = Ok tt -> json_to_vec (metadata_of e) = Some md -> len md <= MAX_METADATA_BYTES ->
  encode e = Ok (to_be_bytes 4 (len md) ++ md ++ body_bytes_of e).
Proof.
  intros Hv Hj Hm. unfold encode. rewrite Hv. bsimpl. fold (metadata_of e). rewrite Hj. bsimpl.
  destruct (Z.ltb_spec MAX_METADATA_BYTES (len md)); [lia|].
  rewrite validate_body_len_ok; bsimpl.
  - unfold wrap_u32. rewrite Z.mod_small; [done|].
    unfold MAX_METADATA_BYTES in *. pose proof (len_nonneg md). lia.
  - fold (body_bytes_of e). rewrite body_len_of. by apply validate_ok in Hv as (_ & _ & _ & _ & ?).
Qed.

(** Decoding the three parts of a well-formed record. *)
Lemma decode_parts rid md body m :
  len md <= MAX_METADATA_BYTES -> len body <= MAX_BODY_BYTES ->
  json_from_slice md = Some m -> md_version m = VERSION ->
  decode_bytes rid (to_be_bytes 4 (len md) ++ md ++ body) =
    (b ← (match md_body_present m, body with
          | true, _ => Ok (Some body)
          | false, [] => Ok None
          | false, _ :: _ => Err BodyPresenceMismatch
          end);
     from_parts rid (md_credential m) (md_cache_namespace_root m) (md_method m) (md_target m)
       (md_headers m) b).
Proof.
  intros Hm Hb Hj Hver. pose proof (len_nonneg md). pose proof (len_nonneg body).
  unfold MAX_METADATA_BYTES, MAX_BODY_BYTES in *.
  unfold decode_bytes, METADATA_LENGTH_BYTES, MAX_ENCODED_REQUEST_BYTES, METADATA_LENGTH_BYTES,
    MAX_METADATA_BYTES, MAX_BODY_BYTES.
  rewrite !len_app, len_to_be_bytes. change (Z.of_nat 4) with 4.
  destruct (Z.ltb_spec (4 + (len md + len body)) 4); [lia|].
  destruct (Z.ltb_spec (4 + 128 * 1024 + 50 * 1024 * 1024) (4 + (len md + len body))); [lia|].
  destruct (take_drop_app_len 4 (to_be_bytes 4 (len md)) (md ++ body)) as [E1 E2];
    [by rewrite length_to_be_bytes|].
  rewrite E1, from_to_be_bytes_small by (change (256 ^ Z.of_nat 4) with 4294967296; lia).
  destruct (Z.ltb_spec (128 * 1024) (len md)); [lia|].
  unfold checked_add_u64, U64_MAX. rewrite (proj2 (Z.leb_le _ _)) by lia. bsimpl.
  destruct (Z.ltb_spec (4 + (len md + len body)) (4 + len md)); [lia|].
  assert (Z.to_nat (4 + len md) = 4 + length md)%nat as -> by (unfold len; lia).
  rewrite <-drop_drop, E2, drop_app_length.
  assert (Z.to_nat (len md) = length md) as -> by (unfold len; lia).
  rewrite take_app_length, Hj. bsimpl.
  rewrite Hver. cbn [VERSION negb Z.eqb Pos.eqb].
  rewrite (validate_body_len_ok (len body)) by (unfold MAX_BODY_BYTES; lia). done.
Qed.

Lemma from_parts_fields e :
  validate e = Ok tt ->
  from_parts (env_request_id e) (env_credential e) (env_cache_namespace_root e) (env_method e)
    (env_target e) (env_headers e) (env_body e) = Ok e.
Proof. intros Hv. unfold from_parts. destruct e. cbn in *. by rewrite Hv. Qed.

Lemma body_of_metadata e :
  match md_body_present (metadata_of e), body_bytes_of e with
  | true, _ => Ok (Some (body_bytes_of e))
  | false, [] => Ok None
  | false, _ :: _ => Err BodyPresenceMismatch
  end = Ok (env_body e).
Proof. unfold metadata_of, body_bytes_of. cbn. by destruct (env_body e). Qed.

(** An envelope that passes validation and whose metadata fits encodes, and the enclave
    decodes the bytes back to exactly the same envelope, including the difference between an
    absent and an empty body. *)
Theorem envelope_roundtrip e md :
  JsonCompat Ser De id ->
  validate e = Ok tt -> json_to_vec (metadata_of e) = Some md -> len md <= MAX_METADATA_BYTES ->
  exists bytes, encode e = Ok bytes /\ len bytes = 4 + len md + len (body_bytes_of e) /\
    decode_bytes (env_request_id e) bytes = Ok e.
Proof.
  intros HJ Hv Hj Hm. eexists. split; [by apply encode_ok|].
  rewrite !len_app, len_to_be_bytes. split; [lia|].
  apply HJ in Hj. rewrite (decode_parts _ _ _ (metadata_of e)); [|done| |done|done].
  2:{ rewrite body_len_of. by apply validate_ok in Hv as (_ & _ & _ & _ & ?). }
  rewrite body_of_metadata. bsimpl. by apply from_parts_fields.
Qed.

Lemma decode_inv rid encoded e :
  decode_bytes rid encoded = Ok e ->
  exists m md, encoded = to_be_bytes 4 (len md) ++ md ++ body_bytes_of e /\
    json_from_slice md = Some m /\ md_version m = VERSION /\ len md <= MAX_METADATA_BYTES /\
    env_request_id e = rid /\ validate e = Ok tt /\ m = metadata_of e.
Proof.
  unfold decode_bytes, METADATA_LENGTH_BYTES.
  destruct (Z.ltb_spec (len encoded) 4) as [|H4]; [done|].
  destruct (Z.ltb_spec MAX_ENCODED_REQUEST_BYTES (len encoded)); [done|].
  set (n := from_be_bytes (take 4 encoded)).
  destruct (Z.ltb_spec MAX_METADATA_BYTES n) as [|Hn]; [done|].
  assert (n = n mod 256 ^ 4) as Hn0.
  { unfold n. rewrite <-(to_from_be_bytes (take 4 encoded)) at 1.
    rewrite from_to_be_bytes. f_equal. rewrite length_take. unfold len in H4.
    by replace (4 `min` length encoded)%nat with 4%nat by lia. }
  pose proof (Z.mod_pos_bound n (256 ^ 4) ltac:(lia)) as Hpos.
  unfold checked_add_u64, U64_MAX. unfold MAX_METADATA_BYTES in *.
  rewrite (proj2 (Z.leb_le (4 + n) _)) by lia. bsimpl.
  destruct (Z.ltb_spec (len encoded) (4 + n)) as [|Hl]; [done|]. intros E. result_inv.
  rename x into m. case_match; [done|]. result_inv.
  unfold from_parts in *. result_inv. subst.
  match goal with H : validate _ = Ok ?u |- _ => destruct u end.
  exists m, (take (Z.to_nat n) (drop 4 encoded)).
  assert (len (take (Z.to_nat n) (drop 4 encoded)) = n) as Hlen.
  { unfold len in *. rewrite length_take, length_drop. lia. }
  assert (drop (Z.to_nat (4 + n)) encoded = drop (Z.to_nat n) (drop 4 encoded)) as Hd.
  { rewrite drop_drop. f_equal. lia. }
  rewrite Hlen. split_and!; try done.
  - assert (to_be_bytes 4 n = take 4 encoded) as ->.
    { unfold n. rewrite <-(to_from_be_bytes (take 4 encoded)) at 2. f_equal.
      rewrite length_take. unfold len in H4. lia. }
    assert (body_bytes_of (MkRequestEnvelope rid (md_credential m) (md_cache_namespace_root m)
      (md_method m) (md_target m) (md_headers m) x0) = drop (Z.to_nat n) (drop 4 encoded)) as Hb.
    { rewrite <-Hd. unfold body_bytes_of. cbn.
      destruct (md_body_present m); [by simplify_eq|].
      destruct (drop (Z.to_nat (4 + n)) encoded); by simplify_eq. }
    by rewrite Hb, take_drop, take_drop.
  - bool_to_prop. done.
  - unfold metadata_of. cbn. bool_to_prop. destruct m; cbn in *.
    f_equal; [done|]. destruct md_body_present0; [by simplify_eq|].
    by destruct (drop (Z.to_nat (4 + n)) encoded); simplify_eq.
Qed.

Lemma validate_method_ok method :
  validate_method method = Ok tt <->
  0 < str_len method <= MAX_METHOD_BYTES /\ is_Some (method_from_bytes (as_bytes method)).
Proof.
  unfold validate_method. pose proof (len_nonneg (as_bytes method)) as Hp. rewrite len_as_bytes in Hp. split.
  - destruct (_ || _) eqn:Eb; [done|]. bool_to_prop. intros _. split; [lia|]. destruct (method_from_bytes _); [eauto|done].
  - intros [Hl [m ->]]. destruct (Z.eqb_spec (str_len method) 0); [lia|].
    by destruct (Z.ltb_spec MAX_METHOD_BYTES (str_len method)); [lia|].
Qed.

Lemma validate_target_ok target :
  validate_target target = Ok tt <->
  (0 < str_len target <= MAX_TARGET_BYTES /\ starts_with "/" target = true /\ starts_with "//" target = false
   /\ contains_byte x23 target = false /\ contains_byte x5c target = false)
  /\ exists uri, uri_from_str target = Some uri /\ uri_scheme uri = None /\ uri_authority uri = None
       /\ uri_path_and_query uri = Some target.
Proof.
  unfold validate_target. pose proof (len_nonneg (as_bytes target)) as Hp. rewrite len_as_bytes in Hp. split.
  - destruct (_ || _) eqn:Eb; [done|]. bool_to_prop. intros E. result_inv. rename x into uri. split; [split_and!; (done || lia)|].
    exists uri. destruct (uri_scheme uri), (uri_authority uri), (uri_path_and_query uri) as [pq|]; cbn in *; try done.
    case_bool_decide; [by subst|done].
  - intros [(Hl & -> & -> & -> & ->) (uri & -> & Es & Ea & Ep)]. bsimpl. rewrite Es, Ea, Ep. cbn.
    destruct (Z.eqb_spec (str_len target) 0); [lia|].
    destruct (Z.ltb_spec MAX_TARGET_BYTES (str_len target)); [lia|]. by rewrite bool_decide_true.
Qed.

Lemma validate_credential_ok c :
  validate_credential c = Ok tt <->
  0 < str_len (cred_value c) <= MAX_CREDENTIAL_BYTES /\ forallb is_visible_ascii (as_bytes (cred_value c)) = true.
Proof.
  unfold validate_credential. rewrite len_as_bytes.
  pose proof (len_nonneg (as_bytes (cred_value c))) as Hp. rewrite len_as_bytes in Hp. split.
  - destruct (_ || _) eqn:Eb; [done|]. bool_to_prop. intros _. split; [lia|done].
  - intros [Hl ->]. destruct (Z.eqb_spec (str_len (cred_value c)) 0); [lia|].
    by destruct (Z.ltb_spec MAX_CREDENTIAL_BYTES (str_len (cred_value c))); [lia|].
Qed.

Lemma validate_headers_ok headers :
  validate_headers headers = Ok tt <->
  len headers <= MAX_HEADER_COUNT
  /\ Forall (fun h => header_name_from_bytes (as_bytes (lh_name h)) = Some (lh_name h)
                      /\ is_gateway_controlled_header (lh_name h) = false
                      /\ header_value_is_ok (lh_value h) = true) headers.
Proof.
  unfold validate_headers.
  destruct (Z.ltb_spec MAX_HEADER_COUNT (len headers)); [split; [done|lia]|].
  rewrite validate_each_ok. setoid_rewrite validate_header_ok. by intuition.
Qed.

(** C38: The enclave decodes exactly the envelopes that satisfy every limit and filter, whatever bytes arrive.
    The bytes are a four-byte length, that much metadata, which is JSON for the envelope in this version, and the body;
    the identifier is the authenticated one; metadata and body are within their limits; there are at most the headers
    allowed, each with a canonical name that the gateway does not control and a value that can be sent; a credential
    is non-empty visible ASCII within its limit; the method is non-empty, within its limit and a method; and
    the target is non-empty, within its limit, starts with one slash, contains neither a number sign nor a backslash,
    and is nothing but a path and query, without scheme or authority. *)
Theorem decoded_envelope_safe rid encoded e :
  decode_bytes rid encoded = Ok e <->
  env_request_id e = rid /\
  (exists md, encoded = to_be_bytes 4 (len md) ++ md ++ body_bytes_of e /\
     json_from_slice md = Some (metadata_of e) /\ len md <= MAX_METADATA_BYTES) /\
  len (body_bytes_of e) <= MAX_BODY_BYTES /\
  len (env_headers e) <= MAX_HEADER_COUNT /\
  Forall (fun h => header_name_from_bytes (as_bytes (lh_name h)) = Some (lh_name h) /\
                   is_gateway_controlled_header (lh_name h) = false /\
                   header_value_is_ok (lh_value h) = true) (env_headers e) /\
  (forall c, env_credential e = Some c ->
     0 < str_len (cred_value c) <= MAX_CREDENTIAL_BYTES /\
     forallb is_visible_ascii (as_bytes (cred_value c)) = true) /\
  0 < str_len (env_method e) <= MAX_METHOD_BYTES /\
  is_Some (method_from_bytes (as_bytes (env_method e))) /\
  0 < str_len (env_target e) <= MAX_TARGET_BYTES /\
  starts_with "/" (env_target e) = true /\ starts_with "//" (env_target e) = false /\
  contains_byte x23 (env_target e) = false /\ contains_byte x5c (env_target e) = false /\
  exists uri, uri_from_str (env_target e) = Some uri /\ uri_scheme uri = None /\
    uri_authority uri = None /\ uri_path_and_query uri = Some (env_target e).
Proof.
  split.
  - intros E. destruct (decode_inv _ _ _ E) as (m & md & Henc & Hj & _ & Hmd & Hid & Hv & ->).
    apply validate_ok in Hv as (Hc & Hm%validate_method_ok & Ht%validate_target_ok & Hh%validate_headers_ok & Hb).
    rewrite body_len_of. destruct Hm, Ht as [(? & ? & ? & ? & ?) ?], Hh. do 5 (split; [by try (exists md)|]).
    split; [|by repeat (split; [done|])].
    intros c Ec. rewrite Ec in Hc. by apply validate_credential_ok.
  - intros (<- & (md & -> & Hj & Hmd) & Hb & Hh1 & Hh2 & Hc & Hm1 & Hm2 & Ht1 & Ht2 & Ht3 & Ht4 & Ht5 & Hu).
    rewrite (decode_parts _ _ _ (metadata_of e)) by done. rewrite body_of_metadata. bsimpl. apply from_parts_fields.
    apply validate_ok. rewrite <- body_len_of. split_and!; [|by apply validate_method_ok|by apply validate_target_ok
      |by apply validate_headers_ok|done].
    destruct (env_credential e) as [c|]; [|done]. apply validate_credential_ok. by apply Hc.
Qed.
End Theory.

(** ** Witnesses *)
#[global] Instance CredentialKind_eq_dec : EqDecision CredentialKind.
Proof. solve_decision. Defined.
#[global] Instance Credential_eq_dec : EqDecision Credential.
Proof. solve_decision. Defined.
#[global] Instance LogicalHeader_eq_dec : EqDecision LogicalHeader.
Proof. solve_decision. Defined.
#[global] Instance RequestMetadata_eq_dec : EqDecision RequestMetadata.
Proof. solve_decision. Defined.

Definition sample_envelope : RequestEnvelope :=
  MkRequestEnvelope (replicate 16 x07) (Some (MkCredential Bearer "token")) None "POST" "/v1/chat"
    [MkLogicalHeader "accept" "text/event-stream"] (Some [x7b; x7d]).

(** A codec that knows one document. *)
Definition sample_codec_ser : JsonSer RequestMetadata := fun m =>
  if decide (m = metadata_of sample_envelope) then Some [x7b; x32; x7d] else None.
Definition sample_codec_de : JsonDe RequestMetadata := fun bs =>
  if decide (bs = [x7b; x32; x7d]) then Some (metadata_of sample_envelope) else None.

#[local] Existing Instances ToyHttp.toy_http sample_codec_ser sample_codec_de.

Lemma sample_codec_compat : JsonCompat sample_codec_ser sample_codec_de id.
Proof.
  intros a bs. unfold json_to_vec, sample_codec_ser. case_decide; [|done]. intros [= <-]. by subst.
Qed.

Lemma envelope_roundtrip_witness :
  exists bytes, encode sample_envelope = Ok bytes /\
    decode_bytes (replicate 16 x07) bytes = Ok sample_envelope.
Proof.
  destruct (envelope_roundtrip sample_envelope [x7b; x32; x7d] sample_codec_compat)
    as (bytes & E & _ & D); [vm_compute; reflexivity..|vm_compute; discriminate|].
  exists bytes. split; [exact E|exact D].
Defined.

Lemma decoded_envelope_safe_witness :
  env_request_id sample_envelope = replicate 16 x07.
Proof.
  apply (decoded_envelope_safe (replicate 16 x07)
           ([x00; x00; x00; x03; x7b; x32; x7d] ++ [x7b; x7d])).
  vm_compute. reflexivity.
Defined.
