(* ===== verification/ServerFraming.v ===== *)
(** * Response records and frames, enclave side
    ([services/opensecret/src/transport_v2/framing.rs])

    A response is a sequence of tagged records; each is encrypted and framed by a four-byte
    big-endian ciphertext length. *)
From Stdlib Require Import Strings.Byte.
From S2P Require Import Prelude Primitives WireCrates ServerCrypto ServerEnvelope.

Definition MAX_RESPONSE_CHUNK_BYTES : Z := 64 * 1024.
Definition MAX_RESPONSE_METADATA_BYTES : Z := 64 * 1024.
Definition MAX_RESPONSE_ERROR_CODE_BYTES : Z := 64.
Definition MAX_RESPONSE_RECORD_PLAINTEXT_BYTES : Z := 1 + MAX_RESPONSE_CHUNK_BYTES.
Definition MAX_RESPONSE_RECORD_CIPHERTEXT_BYTES : Z :=
  MAX_RESPONSE_RECORD_PLAINTEXT_BYTES + RECORD_TAG_BYTES.
Definition CIPHERTEXT_LENGTH_BYTES : Z := 4.

Definition START_TAG : byte := x01.
Definition CHUNK_TAG : byte := x02.
Definition END_TAG : byte := x03.
Definition ERROR_TAG : byte := x04.
Definition MAX_RESPONSE_HEADER_COUNT : Z := 32.

(** [FrInvalidMetadata] drops the [serde_json] error it carries. *)
Inductive FramingError :=
| FrTruncated
| FrRecordTooLarge
| FrInvalidTag
| FrInvalidMetadata
| FrInvalidStatus
| FrTooManyHeaders
| FrInvalidHeader (e : EnvelopeError)
| FrInvalidErrorCode
| FrTrailingBytes
| FrInvalidCiphertextLength.

Record ResponseStart := MkResponseStart { rst_status : Z; rst_headers : list LogicalHeader }.

Record ResponseFailure := MkResponseFailure { rf_code : string }.

Inductive ResponseRecord :=
| Start (start : ResponseStart)
| Chunk (bytes : list byte)
| End
| Error (code : string).

(** [byte.is_ascii_lowercase() || byte.is_ascii_digit() || byte == b'_'] *)
Definition is_code_byte (b : byte) : bool :=
  ((97 <=? byte_val b) && (byte_val b <=? 122)) || ((48 <=? byte_val b) && (byte_val b <=? 57))
  || (byte_val b =? 95).

Definition validate_error_code (code : string) : result FramingError unit :=
  if (str_len code =? 0) || (MAX_RESPONSE_ERROR_CODE_BYTES <? str_len code)
     || negb (forallb is_code_byte (as_bytes code))
  then Err FrInvalidErrorCode else Ok tt.

Definition frame_ciphertext (ciphertext : list byte) : result FramingError (list byte) :=
  if (len ciphertext <? RECORD_TAG_BYTES)
     || (MAX_RESPONSE_RECORD_CIPHERTEXT_BYTES <? len ciphertext)
  then Err FrInvalidCiphertextLength
  else
    length ← (if len ciphertext <=? U32_MAX then Ok (len ciphertext)
              else Err FrInvalidCiphertextLength);
    Ok (to_be_bytes 4 length ++ ciphertext).

Definition encode_metadata {T} `{JsonSer T} (tag : byte) (value : T) :
    result FramingError (list byte) :=
  metadata ← ok_or (json_to_vec value) FrInvalidMetadata;
  if (MAX_RESPONSE_METADATA_BYTES <? len metadata)
     || (MAX_RESPONSE_RECORD_PLAINTEXT_BYTES <? len metadata + 1)
  then Err FrRecordTooLarge
  else Ok (tag :: metadata).

Section ServerFraming.
Context {H : HttpCrate}.

Fixpoint revalidate_headers (hs : list LogicalHeader) : result FramingError unit :=
  match hs with
  | [] => Ok tt
  | h :: hs =>
      _ ← map_err FrInvalidHeader (logical_header_new (lh_name h) (lh_value h));
      revalidate_headers hs
  end.

Definition response_start_validate (s : ResponseStart) : result FramingError unit :=
  if negb ((200 <=? rst_status s) && (rst_status s <=? 599)) then Err FrInvalidStatus
  else if MAX_RESPONSE_HEADER_COUNT <? len (rst_headers s) then Err FrTooManyHeaders
  else revalidate_headers (rst_headers s).

Definition response_start_new (status : Z) (headers : list LogicalHeader) :
    result FramingError ResponseStart :=
  let start := MkResponseStart status headers in
  _ ← response_start_validate start; Ok start.

Context {SerStart : JsonSer ResponseStart} {SerFail : JsonSer ResponseFailure}.

Definition record_encode (r : ResponseRecord) : result FramingError (list byte) :=
  match r with
  | Start start =>
      _ ← response_start_validate start;
      encode_metadata START_TAG start
  | Chunk bytes =>
      if MAX_RESPONSE_CHUNK_BYTES <? len bytes then Err FrRecordTooLarge
      else Ok (CHUNK_TAG :: bytes)
  | End => Ok [END_TAG]
  | Error code =>
      _ ← validate_error_code code;
      encode_metadata ERROR_TAG (MkResponseFailure code)
  end.
End ServerFraming.

(** ** What the sender guarantees *)
Section Theory.
Context {H : HttpCrate} {SerStart : JsonSer ResponseStart} {SerFail : JsonSer ResponseFailure}.

Lemma revalidate_headers_ok hs :
  revalidate_headers hs = Ok tt <-> Forall (fun h => validate_header h = Ok tt) hs.
Proof.
  induction hs as [|h hs IH]; cbn [revalidate_headers]; [split; constructor|].
  rewrite result_bind_ok, Forall_cons, <-IH. unfold logical_header_new.
  destruct h as [n v]. cbn [lh_name lh_value]. destruct (validate_header _) as [[]|e]; cbn.
  - split; [by intros (? & _ & ?)|intros [_ ?]; eauto].
  - split; [by intros (? & ? & _)|by intros [? _]].
Qed.

Lemma response_start_validate_ok s :
  response_start_validate s = Ok tt <->
  200 <= rst_status s <= 599 /\ len (rst_headers s) <= MAX_RESPONSE_HEADER_COUNT /\
  Forall (fun h => validate_header h = Ok tt) (rst_headers s).
Proof.
  unfold response_start_validate. rewrite <-revalidate_headers_ok.
  destruct (negb _) eqn:Es.
  - split; [done|]. intros (Hs & _). apply negb_true_iff, andb_false_iff in Es as [Es|Es];
      bool_to_prop; lia.
  - bool_to_prop. destruct (Z.ltb_spec MAX_RESPONSE_HEADER_COUNT (len (rst_headers s))).
    + split; [done|]. lia.
    + split; [|naive_solver]. intros. split_and!; [lia..|done].
Qed.

Lemma encode_metadata_inv {T} `{S : JsonSer T} tag (value : T) bs :
  encode_metadata tag value = Ok bs ->
  exists md, json_to_vec value = Some md /\ bs = tag :: md /\
    len md <= MAX_RESPONSE_METADATA_BYTES.
Proof.
  unfold encode_metadata. intros E. result_inv. destruct (_ || _) eqn:Eb in *; [done|].
  result_inv. bool_to_prop. eauto.
Qed.

(** An encoded record is a tag and at most 64 KiB. *)
Lemma record_encode_len r bs :
  record_encode r = Ok bs -> 1 <= len bs <= MAX_RESPONSE_RECORD_PLAINTEXT_BYTES.
Proof.
  unfold MAX_RESPONSE_RECORD_PLAINTEXT_BYTES, MAX_RESPONSE_CHUNK_BYTES.
  destruct r as [s|b| |code]; cbn [record_encode].
  - intros E. result_inv. apply encode_metadata_inv in H1 as (md & _ & -> & Hl).
    rewrite len_cons. unfold MAX_RESPONSE_METADATA_BYTES in Hl. pose proof (len_nonneg md). lia.
  - destruct (Z.ltb_spec MAX_RESPONSE_CHUNK_BYTES (len b)) as [|Hb]; [done|]. intros [= <-].
    unfold MAX_RESPONSE_CHUNK_BYTES in Hb. rewrite len_cons. pose proof (len_nonneg b). lia.
  - intros [= <-]. rewrite len_cons, len_nil. lia.
  - intros E. result_inv. apply encode_metadata_inv in H1 as (md & _ & -> & Hl).
    rewrite len_cons. unfold MAX_RESPONSE_METADATA_BYTES in Hl. pose proof (len_nonneg md). lia.
Qed.

Lemma frame_ciphertext_ok ct :
  RECORD_TAG_BYTES <= len ct <= MAX_RESPONSE_RECORD_CIPHERTEXT_BYTES ->
  frame_ciphertext ct = Ok (to_be_bytes 4 (len ct) ++ ct).
Proof.
  intros Hl. unfold frame_ciphertext.
  destruct (Z.ltb_spec (len ct) RECORD_TAG_BYTES); [lia|].
  destruct (Z.ltb_spec MAX_RESPONSE_RECORD_CIPHERTEXT_BYTES (len ct)); [lia|]. cbn [orb].
  rewrite (proj2 (Z.leb_le _ _)); [done|].
  unfold MAX_RESPONSE_RECORD_CIPHERTEXT_BYTES, MAX_RESPONSE_RECORD_PLAINTEXT_BYTES,
    MAX_RESPONSE_CHUNK_BYTES, RECORD_TAG_BYTES, U32_MAX in *. lia.
Qed.
End Theory.
