(* ===== verification/ServerSession.v ===== *)
(** * Sessions, replay protection and the session store
    ([services/opensecret/src/transport_v2/session.rs])

    [Session]s are shared through [Arc]: the model keeps them in a heap with their strong counts,
    the replay budget and the store beside it, and every place of the code that clones or drops an
    [Arc] updates the count.  The last drop runs [ReplayRegistry::drop], which returns the retained
    identifiers to the budget.  Each operation takes its locks once, so it is one step.  [None]
    means a dangling reference, which [arcs_counted] excludes. *)
From Stdlib Require Import Strings.Byte.
From S2P Require Import Prelude Primitives ServerCrypto.

Inductive ReplayError :=
| Duplicate
| SessionCapacity
| GlobalCapacity
| ReplayUnavailable.

Inductive SessionError :=
| InvalidLifetime
| SessionExpired
| Crypto (e : CryptoError)
| Replay (e : ReplayError).

Inductive SessionStoreError :=
| StoreUnavailable
| Collision
| Full
| Missing
| StoreExpired.

Record ReplayBudget := MkReplayBudget { rb_claimed : Z; rb_capacity : Z }.

(** The registry's [Arc<ReplayBudget>] is the budget of the process, passed beside it. *)
Record ReplayRegistry := MkReplayRegistry {
  rr_request_ids : gset (list byte);
  rr_capacity : Z;
}.

Record Session := MkSession {
  se_secrets : SessionSecrets;
  se_routing_key : list byte;
  se_expires_at : Instant;
  se_replay : ReplayRegistry;
}.

(** An allocation holding a [Session] behind [Arc]s. *)
Abbreviation Ref := positive (only parsing).

Record AdmittedRequest := MkAdmittedRequest { ar_session : Ref; ar_request_id : RequestId }.

Record SessionStore := MkSessionStore {
  st_sessions : gmap (list byte) Ref;
  st_capacity : Z;
}.

(** ** Replay budget and registry *)

Definition budget_new (capacity : Z) : ReplayBudget := MkReplayBudget 0 capacity.

Definition claim_one (b : ReplayBudget) : result ReplayError ReplayBudget :=
  if rb_claimed b <? rb_capacity b
  then Ok (MkReplayBudget (rb_claimed b + 1) (rb_capacity b))
  else Err GlobalCapacity.

(** [fetch_sub] wraps; [budget_counts_retained] shows it never does here. *)
Definition release (b : ReplayBudget) (count : Z) : ReplayBudget :=
  if count =? 0 then b else MkReplayBudget (wrap_u64 (rb_claimed b - count)) (rb_capacity b).

Definition registry_new (capacity : Z) : ReplayRegistry := MkReplayRegistry ∅ capacity.

Definition set_len (s : gset (list byte)) : Z := Z.of_nat (size s).

Definition claim (r : ReplayRegistry) (b : ReplayBudget) (request_id : RequestId) :
    result ReplayError (ReplayRegistry * ReplayBudget) :=
  if decide (request_id ∈ rr_request_ids r) then Err Duplicate
  else if rr_capacity r <=? set_len (rr_request_ids r) then Err SessionCapacity
  else
    b ← claim_one b;
    Ok (MkReplayRegistry ({[request_id]} ∪ rr_request_ids r) (rr_capacity r), b).

(** [Drop for ReplayRegistry] *)
Definition drop_registry (r : ReplayRegistry) (b : ReplayBudget) : ReplayBudget :=
  release b (set_len (rr_request_ids r)).

(** ** Sessions *)

Definition session_new_at (secrets : SessionSecrets) (routing_key : list byte) (now : Instant)
    (lifetime : Duration) (replay_capacity : Z) : result SessionError Session :=
  if lifetime =? 0 then Err InvalidLifetime
  else
    expires_at ← ok_or (instant_checked_add now lifetime) InvalidLifetime;
    Ok (MkSession secrets routing_key expires_at (registry_new replay_capacity)).

Definition session_id (s : Session) : SessionId := ss_session_id (se_secrets s).
Definition matches_routing_key (s : Session) (routing_key : list byte) : bool :=
  bool_decide (se_routing_key s = routing_key).
Definition is_expired (s : Session) (now : Instant) : bool := se_expires_at s <=? now.

Definition claim_request_at (s : Session) (b : ReplayBudget) (request_id : RequestId)
    (now : Instant) : result SessionError (Session * ReplayBudget) :=
  if is_expired s now then Err SessionExpired
  else
    '(r, b) ← map_err Replay (claim (se_replay s) b request_id);
    Ok (MkSession (se_secrets s) (se_routing_key s) (se_expires_at s) r, b).

(** ** The process: shared sessions, budget and store *)

Record Process := MkProcess {
  p_heap : gmap Ref (Session * Z);
  p_next : Ref;
  p_budget : ReplayBudget;
  p_store : SessionStore;
}.

Definition set_heap (p : Process) h := MkProcess h (p_next p) (p_budget p) (p_store p).
Definition set_sessions (p : Process) m :=
  MkProcess (p_heap p) (p_next p) (p_budget p) (MkSessionStore m (st_capacity (p_store p))).

Definition session_at (p : Process) (r : Ref) : option Session := fst <$> p_heap p !! r.

Definition arc_new (p : Process) (s : Session) : Ref * Process :=
  (p_next p, MkProcess (<[p_next p := (s, 1)]> (p_heap p)) (Pos.succ (p_next p)) (p_budget p)
               (p_store p)).

Definition arc_clone (p : Process) (r : Ref) : Process :=
  match p_heap p !! r with
  | Some (s, n) => set_heap p (<[r := (s, n + 1)]> (p_heap p))
  | None => p
  end.

Definition arc_drop (p : Process) (r : Ref) : Process :=
  match p_heap p !! r with
  | Some (s, n) =>
      if n =? 1
      then MkProcess (delete r (p_heap p)) (p_next p) (drop_registry (se_replay s) (p_budget p))
             (p_store p)
      else set_heap p (<[r := (s, n - 1)]> (p_heap p))
  | None => p
  end.

Definition drop_all (p : Process) (rs : list Ref) : Process := foldl arc_drop p rs.

Definition process_new (budget_capacity store_capacity : Z) : Process :=
  MkProcess ∅ 1%positive (budget_new budget_capacity) (MkSessionStore ∅ store_capacity).

Definition store_insert_at (p : Process) (r : Ref) (now : Instant) :
    option (result SessionStoreError unit * Process) :=
  s ← session_at p r;
  if is_expired s now then Some (Err StoreExpired, arc_drop p r)
  else
    let finish (p : Process) (reclaimed : list Ref) :=
      if st_capacity (p_store p) <=? Z.of_nat (size (st_sessions (p_store p)))
      then Some (Err Full, arc_drop (drop_all p reclaimed) r)
      else Some (Ok tt, drop_all (set_sessions p (<[session_id s := r]> (st_sessions (p_store p))))
                          reclaimed) in
    match st_sessions (p_store p) !! session_id s with
    | Some existing =>
        e ← session_at p existing;
        if is_expired e now
        then finish (set_sessions p (delete (session_id s) (st_sessions (p_store p)))) [existing]
        else Some (Err Collision, arc_drop p r)
    | None => finish p []
    end.

Definition store_get_at (p : Process) (id : SessionId) (now : Instant) :
    option (result SessionStoreError Ref * Process) :=
  match st_sessions (p_store p) !! id with
  | None => Some (Err Missing, p)
  | Some r =>
      s ← session_at p r;
      if is_expired s now
      then Some (Err StoreExpired,
                 arc_drop (set_sessions p (delete id (st_sessions (p_store p)))) r)
      else Some (Ok r, arc_clone p r)
  end.

Definition store_remove (p : Process) (id : SessionId) : option Ref * Process :=
  (st_sessions (p_store p) !! id, set_sessions p (delete id (st_sessions (p_store p)))).

Definition entry_expired (p : Process) (now : Instant) (r : Ref) : bool :=
  is_some_and (fun s => is_expired s now) (session_at p r).

(** [filter_map(|id| sessions.remove(id))] over the expired keys. *)
Fixpoint remove_keys (m : gmap (list byte) Ref) (ids : list (list byte)) :
    list Ref * gmap (list byte) Ref :=
  match ids with
  | [] => ([], m)
  | id :: ids =>
      let (rest, m') := remove_keys (delete id m) ids in
      (match m !! id with Some r => r :: rest | None => rest end, m')
  end.

Definition purge_expired (p : Process) (now : Instant) : Z * Process :=
  let expired_ids :=
    filter_map (fun e : list byte * Ref => if entry_expired p now e.2 then Some e.1 else None)
      (map_to_list (st_sessions (p_store p))) in
  let '(expired, sessions) := remove_keys (st_sessions (p_store p)) expired_ids in
  let removed := len expired in
  (removed, drop_all (set_sessions p sessions) expired).

Section Admission.
Context {P : CryptoPrims}.

(** [open_and_admit]: on success the returned [AdmittedRequest] holds a clone of the [Arc]. *)
Definition open_and_admit (p : Process) (r : Ref) (record : list byte) (now : Instant) :
    option (result SessionError (AdmittedRequest * list byte) * Process) :=
  '(s, n) ← p_heap p !! r;
  match decrypt_request (se_secrets s) record with
  | Err e => Some (Err (Crypto e), p)
  | Ok (request_id, plaintext) =>
      match claim_request_at s (p_budget p) request_id now with
      | Err e => Some (Err e, p)
      | Ok (s, b) =>
          let p := MkProcess (<[r := (s, n)]> (p_heap p)) (p_next p) b (p_store p) in
          Some (Ok (MkAdmittedRequest r request_id, plaintext), arc_clone p r)
      end
  end.

(** [begin_response] consumes the capability, whether or not it succeeds. *)
Definition begin_response (p : Process) (a : AdmittedRequest) :
    option (result CryptoError ResponseSealer * Process) :=
  s ← session_at p (ar_session a);
  Some (response_sealer (se_secrets s) (ar_request_id a), arc_drop p (ar_session a)).
End Admission.

#[global] Instance AdmittedRequest_eq_dec : EqDecision AdmittedRequest.
Proof. solve_decision. Defined.

(** ** Reference counts *)

(** Every strong count equals the number of owners, and only owned sessions are allocated. *)
Definition counted (p : Process) (own : Ref -> Z) : Prop :=
  forall r, match p_heap p !! r with Some (_, n) => n = own r /\ 0 < n | None => own r = 0 end.

Lemma counted_ext p own own' : (forall r, own r = own' r) -> counted p own -> counted p own'.
Proof. intros E Hc r. specialize (Hc r). rewrite <-E. done. Qed.

Lemma counted_held p own r : counted p own -> 0 < own r -> is_Some (p_heap p !! r).
Proof. intros Hc Hr. specialize (Hc r). destruct (p_heap p !! r); [eauto|lia]. Qed.

Definition less (own : Ref -> Z) (r : Ref) : Ref -> Z :=
  fun x => own x - (if decide (x = r) then 1 else 0).
Definition more (own : Ref -> Z) (r : Ref) : Ref -> Z :=
  fun x => own x + (if decide (x = r) then 1 else 0).

Lemma arc_drop_counted p own r :
  counted p own -> 0 < own r -> counted (arc_drop p r) (less own r).
Proof.
  intros Hc Hr x. unfold arc_drop, less. pose proof (Hc r) as Er. specialize (Hc x).
  destruct (p_heap p !! r) as [[s n]|] eqn:E; [|lia]. destruct Er as [-> _].
  destruct (Z.eqb_spec (own r) 1) as [E1|E1]; cbn.
  - destruct (decide (x = r)) as [->|Hne].
    + rewrite lookup_delete_eq. lia.
    + rewrite lookup_delete_ne, Z.sub_0_r by done. done.
  - destruct (decide (x = r)) as [->|Hne].
    + rewrite lookup_insert_eq. lia.
    + rewrite lookup_insert_ne, Z.sub_0_r by done. done.
Qed.

Lemma arc_clone_counted p own r :
  counted p own -> 0 < own r -> counted (arc_clone p r) (more own r).
Proof.
  intros Hc Hr x. unfold arc_clone, more. pose proof (Hc r) as Er. specialize (Hc x).
  destruct (p_heap p !! r) as [[s n]|] eqn:E; [|lia]. destruct Er as [-> _]. cbn.
  destruct (decide (x = r)) as [->|Hne].
  - rewrite lookup_insert_eq. lia.
  - rewrite lookup_insert_ne, Z.add_0_r by done. done.
Qed.

Lemma drop_all_counted p own rs :
  counted p own -> (forall r, count r rs <= own r) ->
  counted (drop_all p rs) (fun r => own r - count r rs).
Proof.
  revert p own. induction rs as [|r rs IH]; intros p own Hc Hle.
  { eapply counted_ext; [|exact Hc]. intros r. rewrite count_nil. lia. }
  cbn. eapply counted_ext; [|eapply IH; [apply (arc_drop_counted p own r Hc)|]]; cbn.
  - intros x. unfold less. rewrite count_cons. repeat case_decide; subst; try done; lia.
  - specialize (Hle r). rewrite count_cons, decide_True in Hle by done.
    pose proof (count_nonneg r rs). lia.
  - intros x. specialize (Hle x). rewrite count_cons in Hle. unfold less.
    repeat case_decide; subst; try done; lia.
Qed.

(** ** Everything else the process maintains *)

Definition retained (c : Session * Z) : Z := set_len (rr_request_ids (se_replay c.1)).

Definition budget_ok (p : Process) : Prop :=
  rb_claimed (p_budget p) = msum retained (p_heap p) /\
  rb_claimed (p_budget p) <= rb_capacity (p_budget p) <= USIZE_MAX.

Definition heap_ok (p : Process) : Prop :=
  forall r s n, p_heap p !! r = Some (s, n) -> (r < p_next p)%positive /\
    set_len (rr_request_ids (se_replay s)) <= Z.max 0 (rr_capacity (se_replay s)).

Definition store_ok (p : Process) : Prop :=
  (0 < st_capacity (p_store p) /\
   Z.of_nat (size (st_sessions (p_store p))) <= st_capacity (p_store p)) /\
  forall id r s, st_sessions (p_store p) !! id = Some r -> session_at p r = Some s ->
    session_id s = id.

(** Admissions so far: none repeated, and each still remembered by its session. *)
Definition log_ok (p : Process) (log : list AdmittedRequest) : Prop :=
  NoDup log /\
  forall a, a ∈ log -> (ar_session a < p_next p)%positive /\
    forall s, session_at p (ar_session a) = Some s ->
      ar_request_id a ∈ rr_request_ids (se_replay s).

Definition good (p : Process) (log : list AdmittedRequest) : Prop :=
  budget_ok p /\ heap_ok p /\ store_ok p /\ log_ok p log.

Lemma retained_nonneg c : 0 <= retained c.
Proof. unfold retained, set_len. lia. Qed.

(** [p'] has only sessions of [p], unchanged except for their counts. *)
Definition sessions_sub (p p' : Process) : Prop :=
  p_next p' = p_next p /\ forall r s, session_at p' r = Some s -> session_at p r = Some s.

Lemma session_at_lookup p r s : session_at p r = Some s <-> exists n, p_heap p !! r = Some (s, n).
Proof.
  unfold session_at. destruct (p_heap p !! r) as [[s' n]|]; cbn; split; intros Hs; try naive_solver.
Qed.

Lemma sessions_sub_heap p p' : sessions_sub p p' -> heap_ok p -> heap_ok p'.
Proof.
  intros [Hn Hs] Hh r s n E. rewrite Hn.
  assert (session_at p' r = Some s) as E'%Hs by (apply session_at_lookup; eauto).
  apply session_at_lookup in E' as [m E']. eauto.
Qed.

Lemma sessions_sub_log p p' log : sessions_sub p p' -> log_ok p log -> log_ok p' log.
Proof.
  intros [Hn Hs] [Hd Hl]. split; [done|]. intros a Ha. destruct (Hl a Ha) as [Hlt Hi].
  rewrite Hn. split; [done|]. intros s E%Hs. by apply Hi.
Qed.

Lemma arc_drop_sub p r : sessions_sub p (arc_drop p r) /\ p_store (arc_drop p r) = p_store p.
Proof.
  unfold arc_drop. destruct (p_heap p !! r) as [[s n]|] eqn:E; [|by split].
  destruct (n =? 1); (split; [split; [done|]|done]); intros x s' Hx;
    apply session_at_lookup in Hx as [m Hx]; cbn in Hx; apply session_at_lookup.
  - apply lookup_delete_Some in Hx as [_ Hx]. eauto.
  - apply lookup_insert_Some in Hx as [[<- [= <- <-]]|[_ Hx]]; eauto.
Qed.

Lemma arc_clone_sub p r : sessions_sub p (arc_clone p r) /\ p_store (arc_clone p r) = p_store p.
Proof.
  unfold arc_clone. destruct (p_heap p !! r) as [[s n]|] eqn:E; [|by split].
  split; [split; [done|]|done]; intros x s' Hx;
    apply session_at_lookup in Hx as [m Hx]; cbn in Hx; apply session_at_lookup.
  apply lookup_insert_Some in Hx as [[<- [= <- <-]]|[_ Hx]]; eauto.
Qed.

Lemma drop_registry_budget p s n r :
  budget_ok p -> p_heap p !! r = Some (s, n) ->
  drop_registry (se_replay s) (p_budget p)
  = MkReplayBudget (msum retained (delete r (p_heap p))) (rb_capacity (p_budget p)).
Proof.
  intros [Hb Hcap] E. pose proof (msum_delete retained _ _ _ E) as Hd.
  pose proof (msum_nonneg retained (delete r (p_heap p)) retained_nonneg) as Hnn.
  unfold drop_registry, release. unfold retained in Hd at 2. cbn in Hd.
  destruct (Z.eqb_spec (set_len (rr_request_ids (se_replay s))) 0) as [E0|E0].
  - destruct (p_budget p) as [cl cap]. cbn in *. f_equal. lia.
  - f_equal. unfold wrap_u64, USIZE_MAX, U64_MAX in *. rewrite Z.mod_small; [lia|].
    unfold set_len in *. lia.
Qed.

Lemma arc_drop_budget p r : budget_ok p -> budget_ok (arc_drop p r).
Proof.
  intros Hb. unfold arc_drop. destruct (p_heap p !! r) as [[s n]|] eqn:E; [|done].
  destruct (n =? 1).
  - rewrite (drop_registry_budget _ _ _ _ Hb E). destruct Hb as [Hb Hcap].
    split; cbn; [done|]. pose proof (msum_delete retained _ _ _ E).
    pose proof (retained_nonneg (s, n)). lia.
  - destruct Hb as [Hb Hcap]. split; cbn; [|done]. rewrite (msum_update _ _ _ _ _ E). 
    unfold retained in *. cbn in *. lia.
Qed.

Lemma arc_clone_budget p r : budget_ok p -> budget_ok (arc_clone p r).
Proof.
  intros [Hb Hcap]. unfold arc_clone. destruct (p_heap p !! r) as [[s n]|] eqn:E; [|done].
  split; cbn; [|done]. rewrite (msum_update _ _ _ _ _ E). unfold retained in *. cbn in *. lia.
Qed.

Lemma store_ok_sub p p' :
  sessions_sub p p' -> p_store p' = p_store p -> store_ok p -> store_ok p'.
Proof.
  intros [_ Hs] Est [Hsz Hk]. unfold store_ok. rewrite Est. split; [done|].
  intros id r s Hid E%Hs. eauto.
Qed.

Lemma good_sub p p' log :
  sessions_sub p p' -> p_store p' = p_store p -> budget_ok p' -> good p log -> good p' log.
Proof.
  intros Hsub Est Hb (_ & Hh & Hst & Hl). split_and!; [done|..].
  - by eapply sessions_sub_heap.
  - by eapply store_ok_sub.
  - by eapply sessions_sub_log.
Qed.

Lemma arc_drop_good p r log : good p log -> good (arc_drop p r) log.
Proof.
  intros Hg. destruct (arc_drop_sub p r). eapply good_sub; try done.
  apply arc_drop_budget, Hg.
Qed.

Lemma arc_clone_good p r log : good p log -> good (arc_clone p r) log.
Proof.
  intros Hg. destruct (arc_clone_sub p r). eapply good_sub; try done.
  apply arc_clone_budget, Hg.
Qed.

Lemma drop_all_good p rs log : good p log -> good (drop_all p rs) log.
Proof. revert p. induction rs as [|r rs IH]; intros p Hg; cbn; [done|]. by apply IH, arc_drop_good. Qed.

Lemma drop_all_store p rs : p_store (drop_all p rs) = p_store p.
Proof.
  revert p. induction rs as [|r rs IH]; intros p; cbn; [done|]. rewrite IH. apply arc_drop_sub.
Qed.

Lemma set_sessions_good p m log :
  good p log -> Z.of_nat (size m) <= st_capacity (p_store p) ->
  (forall id r s, m !! id = Some r -> session_at p r = Some s -> session_id s = id) ->
  good (set_sessions p m) log.
Proof. intros (Hb & Hh & [[Hpos Hsz] Hk] & Hl) Hm Hid. split_and!; done. Qed.

Lemma delete_sessions_good p id log :
  good p log -> good (set_sessions p (delete id (st_sessions (p_store p)))) log.
Proof.
  intros Hg. pose proof Hg as (_ & _ & [[_ Hsz] Hk] & _). apply set_sessions_good; [done| |].
  - destruct (st_sessions (p_store p) !! id) as [r|] eqn:E.
    + rewrite map_size_delete_Some by (by eexists). lia.
    + rewrite map_size_delete_None by done. done.
  - intros id' r s [_ Hr]%lookup_delete_Some. eauto.
Qed.

(** Owners of the sessions: the store and whoever holds a handle. *)
Definition owners (p : Process) (hs : list Ref) (r : Ref) : Z :=
  count r hs + vcount r (st_sessions (p_store p)).

Definition inv (p : Process) (hs : list Ref) (log : list AdmittedRequest) : Prop :=
  counted p (owners p hs) /\ good p log.

Lemma owners_held p hs r : r ∈ hs -> 0 < owners p hs r.
Proof. intros H%count_pos. unfold owners. pose proof (vcount_nonneg r (st_sessions (p_store p))). lia. Qed.

Lemma owners_stored p hs id r : st_sessions (p_store p) !! id = Some r -> 0 < owners p hs r.
Proof. intros H%vcount_lookup. unfold owners. pose proof (count_nonneg r hs). lia. Qed.

(** Dropping one of the holders of a session. *)
Lemma inv_drop p r hs log : inv p (r :: hs) log -> inv (arc_drop p r) hs log.
Proof.
  intros [Hc Hg]. split; [|by apply arc_drop_good].
  eapply counted_ext; [|apply (arc_drop_counted _ _ r Hc), owners_held; by left].
  intros x. unfold less, owners. rewrite (proj2 (arc_drop_sub p r)), count_cons.
  repeat case_decide; subst; try done; lia.
Qed.

Lemma inv_drop_all p rs hs log : inv p (rs ++ hs) log -> inv (drop_all p rs) hs log.
Proof.
  revert p. induction rs as [|r rs IH]; intros p Hi; cbn; [done|]. by apply IH, inv_drop.
Qed.

Lemma inv_perm p hs hs' log : hs ≡ₚ hs' -> inv p hs log -> inv p hs' log.
Proof.
  intros E [Hc Hg]. split; [|done]. eapply counted_ext; [|exact Hc].
  intros r. unfold owners. by rewrite E.
Qed.

(** Taking the reference out of the store leaves it with the caller. *)
Lemma inv_take p hs log id r :
  inv p hs log -> st_sessions (p_store p) !! id = Some r ->
  inv (set_sessions p (delete id (st_sessions (p_store p)))) (r :: hs) log.
Proof.
  intros [Hc Hg] E. split; [|by apply delete_sessions_good].
  eapply counted_ext; [|exact Hc]. intros x. unfold owners. cbn.
  rewrite (vcount_delete x _ _ _ E), count_cons. lia.
Qed.

(** Putting a held reference under a free identifier of a store that has room. *)
Lemma inv_put p hs log r s :
  inv p (r :: hs) log -> session_at p r = Some s ->
  st_sessions (p_store p) !! session_id s = None ->
  Z.of_nat (size (st_sessions (p_store p))) < st_capacity (p_store p) ->
  inv (set_sessions p (<[session_id s := r]> (st_sessions (p_store p)))) hs log.
Proof.
  intros [Hc Hg] Es En Hsz. split.
  - eapply counted_ext; [|exact Hc]. intros x. unfold owners. cbn.
    rewrite vcount_insert, count_cons by done. lia.
  - pose proof Hg as (_ & _ & [_ Hk] & _). apply set_sessions_good; [done| |].
    + rewrite map_size_insert_None by done. lia.
    + intros id x s' [[<- <-]|[_ Hx]]%lookup_insert_Some Hs; [congruence|eauto].
Qed.

Lemma inv_clone p hs log r :
  inv p hs log -> 0 < owners p hs r -> inv (arc_clone p r) (r :: hs) log.
Proof.
  intros [Hc Hg] Hr. split; [|by apply arc_clone_good].
  eapply counted_ext; [|apply (arc_clone_counted _ _ r Hc Hr)].
  intros x. unfold more, owners. rewrite (proj2 (arc_clone_sub p r)), count_cons.
  repeat case_decide; subst; try done; lia.
Qed.

Lemma inv_session p hs log r : inv p hs log -> 0 < owners p hs r -> is_Some (session_at p r).
Proof.
  intros [Hc _] Hr. destruct (counted_held _ _ _ Hc Hr) as [[s n] E].
  exists s. apply session_at_lookup. eauto.
Qed.

(** ** Store operations keep the invariant *)

Lemma store_insert_inv p hs log r now :
  inv p (r :: hs) log ->
  exists res p', store_insert_at p r now = Some (res, p') /\ inv p' hs log.
Proof.
  intros Hi. destruct (inv_session _ _ _ r Hi) as [s Es]; [apply owners_held; by left|].
  unfold store_insert_at. rewrite Es. cbn [mbind option_bind].
  destruct (is_expired s now); [eexists _, _; split; [done|by apply inv_drop]|].
  destruct (st_sessions (p_store p) !! session_id s) as [e|] eqn:Ee.
  - destruct (inv_session _ _ _ e Hi) as [se Ese]; [by eapply owners_stored|]. rewrite Ese. cbn.
    destruct (is_expired se now); [|eexists _, _; split; [done|by apply inv_drop]].
    pose proof (inv_take _ _ _ _ _ Hi Ee) as Ht.
    destruct (Z.leb_spec (st_capacity (p_store p))
      (Z.of_nat (size (delete (session_id s) (st_sessions (p_store p)))))) as [Hf|Hf];
      (eexists _, _; split; [done|]).
    + apply (inv_drop _ r). by apply inv_drop.
    + apply (inv_drop _ e). apply (inv_put (set_sessions p _) (e :: hs) log r s); [by eapply inv_perm, Ht; constructor|done| |done].
      apply lookup_delete_eq.
  - destruct (Z.leb_spec (st_capacity (p_store p)) (Z.of_nat (size (st_sessions (p_store p))))) as [Hf|Hf];
      (eexists _, _; split; [done|]); cbn.
    + by apply inv_drop.
    + by apply inv_put.
Qed.

Lemma store_get_inv p hs log id now :
  inv p hs log ->
  exists res p', store_get_at p id now = Some (res, p') /\
    inv p' (match res with Ok r => r :: hs | Err _ => hs end) log.
Proof.
  intros Hi. unfold store_get_at.
  destruct (st_sessions (p_store p) !! id) as [r|] eqn:Er; [|by eexists _, _].
  pose proof (owners_stored p hs id r Er) as Ho.
  destruct (inv_session _ _ _ r Hi Ho) as [s Es]. rewrite Es. cbn.
  destruct (is_expired s now); (eexists _, _; split; [done|]); cbn.
  - by apply inv_drop, inv_take.
  - by apply inv_clone.
Qed.

Lemma store_remove_inv p hs log id :
  inv p hs log ->
  inv (store_remove p id).2 (option_list (store_remove p id).1 ++ hs) log.
Proof.
  intros Hi. cbn. destruct (st_sessions (p_store p) !! id) as [r|] eqn:Er; cbn.
  - by apply inv_take.
  - rewrite delete_id by done. by destruct p as [? ? ? []].
Qed.

Lemma remove_keys_inv p hs log ids :
  inv p hs log ->
  inv (set_sessions p (remove_keys (st_sessions (p_store p)) ids).2)
    ((remove_keys (st_sessions (p_store p)) ids).1 ++ hs) log.
Proof.
  revert p hs. induction ids as [|id ids IH]; intros p hs Hi; cbn.
  { by destruct p as [? ? ? []]. }
  destruct (st_sessions (p_store p) !! id) as [r|] eqn:Er.
  - specialize (IH _ _ (inv_take _ _ _ _ _ Hi Er)). cbn in IH.
    destruct (remove_keys _ ids) as [rs m] eqn:Ek. cbn in *.
    eapply inv_perm; [|exact IH]. by rewrite Permutation_middle.
  - rewrite delete_id by done. specialize (IH p hs Hi).
    by destruct (remove_keys _ ids) as [rs m] eqn:Ek.
Qed.

Lemma purge_inv p hs log now : inv p hs log -> inv (purge_expired p now).2 hs log.
Proof.
  intros Hi. unfold purge_expired.
  match goal with |- context [remove_keys _ ?l] => pose proof (remove_keys_inv p hs log l Hi) as Hr end.
  destruct (remove_keys _ _) as [rs m]. cbn in *. by apply inv_drop_all.
Qed.

(** ** Admission *)

Definition claimed_session (s : Session) (rid : RequestId) : Session :=
  MkSession (se_secrets s) (se_routing_key s) (se_expires_at s)
    (MkReplayRegistry ({[rid]} ∪ rr_request_ids (se_replay s)) (rr_capacity (se_replay s))).

Lemma set_len_insert (rid : list byte) (s : gset (list byte)) : rid ∉ s -> set_len ({[rid]} ∪ s) = set_len s + 1.
Proof.
  intros Hn. unfold set_len. rewrite size_union by set_solver. rewrite size_singleton. lia.
Qed.

(** The decision of [claim_request_at], branch by branch. *)
Lemma claim_request_at_spec s b rid now :
  claim_request_at s b rid now =
    if is_expired s now then Err SessionExpired
    else if decide (rid ∈ rr_request_ids (se_replay s)) then Err (Replay Duplicate)
    else if rr_capacity (se_replay s) <=? set_len (rr_request_ids (se_replay s))
         then Err (Replay SessionCapacity)
    else if rb_capacity b <=? rb_claimed b then Err (Replay GlobalCapacity)
    else Ok (claimed_session s rid, MkReplayBudget (rb_claimed b + 1) (rb_capacity b)).
Proof.
  unfold claim_request_at, claim, claim_one. destruct (is_expired s now); [done|].
  case_decide; [done|]. destruct (rr_capacity _ <=? _); [done|].
  destruct (Z.ltb_spec (rb_claimed b) (rb_capacity b)), (Z.leb_spec (rb_capacity b) (rb_claimed b));
    done || lia.
Qed.

Lemma inv_admit p hs log r s n rid now s' b :
  inv p hs log -> p_heap p !! r = Some (s, n) ->
  claim_request_at s (p_budget p) rid now = Ok (s', b) ->
  inv (MkProcess (<[r := (s', n)]> (p_heap p)) (p_next p) b (p_store p)) hs
    (MkAdmittedRequest r rid :: log).
Proof.
  intros [Hc (Hb & Hh & Hst & Hd & Hl)] E. rewrite claim_request_at_spec.
  destruct (is_expired s now); [done|]. case_decide as Hf; [done|].
  destruct (Z.leb_spec (rr_capacity (se_replay s)) (set_len (rr_request_ids (se_replay s)))) as [|Hs];
    [done|].
  destruct (Z.leb_spec (rb_capacity (p_budget p)) (rb_claimed (p_budget p))) as [|Hg]; [done|].
  intros [= <- <-]. pose proof (set_len_insert _ _ Hf) as Hsz.
  assert (forall x y, session_at (MkProcess (<[r := (claimed_session s rid, n)]> (p_heap p)) (p_next p)
      (MkReplayBudget (rb_claimed (p_budget p) + 1) (rb_capacity (p_budget p))) (p_store p)) x = Some y ->
      exists z, session_at p x = Some z /\ session_id y = session_id z /\
        rr_request_ids (se_replay z) ⊆ rr_request_ids (se_replay y)) as Hsub.
  { intros x y [m Hm]%session_at_lookup. cbn in Hm.
    apply lookup_insert_Some in Hm as [[<- [= <- <-]]|[_ Hm]].
    - exists s. split; [apply session_at_lookup; eauto|]. split; [done|]. cbn. set_solver.
    - exists y. split; [apply session_at_lookup; eauto|done]. }
  split; [|split_and!].
  - intros x. specialize (Hc x). cbn. destruct (decide (x = r)) as [->|Hne].
    + rewrite lookup_insert_eq. by rewrite E in Hc.
    + by rewrite lookup_insert_ne.
  - destruct Hb as [Hb Hcap]. split; cbn; [|lia]. rewrite (msum_update _ _ _ _ _ E).
    unfold retained in *. cbn in *. lia.
  - intros x y m Hm. cbn in *. apply lookup_insert_Some in Hm as [[<- [= <- <-]]|[_ Hm]]; [|eauto].
    split; [by apply (Hh _ _ _ E)|]. cbn. lia.
  - destruct Hst as [Hs1 Hs2]. split; [done|]. cbn. intros id x y Hx (z & Hz & -> & _)%Hsub. eauto.
  - split.
    + apply NoDup_cons. split; [|done]. intros Hin. destruct (Hl _ Hin) as [_ Hi]. cbn in Hi.
      apply Hf, Hi. apply session_at_lookup. eauto.
    + intros a [->|Ha]%elem_of_cons; cbn.
      * split; [by apply (Hh _ _ _ E)|]. intros y Hy.
        apply session_at_lookup in Hy as [m Hm]. cbn in Hm. rewrite lookup_insert_eq in Hm.
        injection Hm as <- _. cbn. set_solver.
      * destruct (Hl a Ha) as [Hlt Hi]. split; [done|]. intros y (z & Hz & _ & Hsb)%Hsub.
        by apply Hsb, Hi.
Qed.

Lemma inv_new p hs log s :
  inv p hs log -> se_replay s = registry_new (rr_capacity (se_replay s)) ->
  inv (arc_new p s).2 ((arc_new p s).1 :: hs) log.
Proof.
  intros [Hc (Hb & Hh & Hst & Hd & Hl)] Hr. cbn.
  assert (p_heap p !! p_next p = None) as Hn.
  { destruct (p_heap p !! p_next p) as [[s' n]|] eqn:E; [|done]. apply Hh in E as [? _]. lia. }
  assert (forall x y, session_at (arc_new p s).2 x = Some y -> (x < p_next p)%positive ->
    session_at p x = Some y) as Hold.
  { intros x y [m Hm]%session_at_lookup Hlt. cbn in Hm.
    rewrite lookup_insert_ne in Hm by lia. apply session_at_lookup. eauto. }
  assert (retained (s, 1) = 0) as Hr0.
  { unfold retained. cbn. rewrite Hr. done. }
  split; [|split_and!].
  - intros x. pose proof (Hc (p_next p)) as Hcn. rewrite Hn in Hcn. specialize (Hc x). cbn.
    unfold owners in *. cbn. rewrite count_cons. destruct (decide (p_next p = x)) as [<-|Hne].
    + rewrite lookup_insert_eq. lia.
    + by rewrite lookup_insert_ne.
  - destruct Hb as [Hb Hcap]. split; cbn; [|done]. rewrite msum_insert by done. lia.
  - intros x y m Hm. cbn in *. apply lookup_insert_Some in Hm as [[<- [= <- <-]]|[_ Hm]].
    + split; [lia|]. unfold retained in Hr0. cbn in Hr0. lia.
    + destruct (Hh _ _ _ Hm). split; [lia|done].
  - destruct Hst as [Hs1 Hs2]. split; [done|]. cbn. intros id x y Hx Hy.
    apply (Hs2 id x); [done|]. apply Hold; [done|].
    assert (is_Some (session_at p x)) as [z [m Hm]%session_at_lookup].
    { eapply (inv_session p hs log); [by split|by eapply owners_stored]. }
    by apply Hh in Hm as [? _].
  - split; [done|]. cbn. intros a Ha. destruct (Hl a Ha) as [Hlt Hi]. split; [lia|].
    intros y Hy. by apply Hi, Hold.
Qed.

(** ** The running system

    [sys_held] are the plain [Arc<Session>]s held by tasks, [sys_admitted] the capabilities
    handed out by [open_and_admit]; [sys_log] and [sys_begun] record admissions and begun
    responses. *)
Record Sys := MkSys {
  sys_proc : Process;
  sys_held : list Ref;
  sys_admitted : list AdmittedRequest;
  sys_log : list AdmittedRequest;
  sys_begun : list AdmittedRequest;
}.

Section System.
Context {P : CryptoPrims}.

Inductive sys_step : Sys -> Sys -> Prop :=
| sys_new p hs adm log beg secrets rk now lifetime cap s :
    session_new_at secrets rk now lifetime cap = Ok s ->
    sys_step (MkSys p hs adm log beg) (MkSys (arc_new p s).2 ((arc_new p s).1 :: hs) adm log beg)
| sys_insert p hs1 r hs2 adm log beg now res p' :
    store_insert_at p r now = Some (res, p') ->
    sys_step (MkSys p (hs1 ++ r :: hs2) adm log beg) (MkSys p' (hs1 ++ hs2) adm log beg)
| sys_get p hs adm log beg id now res p' :
    store_get_at p id now = Some (res, p') ->
    sys_step (MkSys p hs adm log beg)
      (MkSys p' (match res with Ok r => r :: hs | Err _ => hs end) adm log beg)
| sys_remove p hs adm log beg id :
    sys_step (MkSys p hs adm log beg)
      (MkSys (store_remove p id).2 (option_list (store_remove p id).1 ++ hs) adm log beg)
| sys_purge p hs adm log beg now :
    sys_step (MkSys p hs adm log beg) (MkSys (purge_expired p now).2 hs adm log beg)
| sys_drop p hs1 r hs2 adm log beg :
    sys_step (MkSys p (hs1 ++ r :: hs2) adm log beg) (MkSys (arc_drop p r) (hs1 ++ hs2) adm log beg)
| sys_admit p hs adm log beg r record now a plaintext p' :
    r ∈ hs -> open_and_admit p r record now = Some (Ok (a, plaintext), p') ->
    sys_step (MkSys p hs adm log beg) (MkSys p' hs (a :: adm) (a :: log) beg)
| sys_reject p hs adm log beg r record now e p' :
    r ∈ hs -> open_and_admit p r record now = Some (Err e, p') ->
    sys_step (MkSys p hs adm log beg) (MkSys p' hs adm log beg)
| sys_begin p hs adm1 a adm2 log beg res p' :
    begin_response p a = Some (res, p') ->
    sys_step (MkSys p hs (adm1 ++ a :: adm2) log beg) (MkSys p' hs (adm1 ++ adm2) log (a :: beg))
| sys_discard p hs adm1 a adm2 log beg :
    sys_step (MkSys p hs (adm1 ++ a :: adm2) log beg)
      (MkSys (arc_drop p (ar_session a)) hs (adm1 ++ adm2) log beg).

Definition sys_init (budget_capacity store_capacity : Z) : Sys :=
  MkSys (process_new budget_capacity store_capacity) [] [] [] [].

Definition sys_reachable (budget_capacity store_capacity : Z) (s : Sys) : Prop :=
  rtc sys_step (sys_init budget_capacity store_capacity) s.

(** Everyone who holds a reference. *)
Definition holders (s : Sys) : list Ref := sys_held s ++ (ar_session <$> sys_admitted s).

Definition sys_inv (s : Sys) : Prop :=
  inv (sys_proc s) (holders s) (sys_log s) /\ sys_begun s ++ sys_admitted s ⊆+ sys_log s.

Lemma open_and_admit_inv p hs log r record now :
  inv p hs log -> r ∈ hs ->
  exists res p', open_and_admit p r record now = Some (res, p') /\
    match res with
    | Ok (a, _) => ar_session a = r /\ inv p' (r :: hs) (a :: log)
    | Err _ => p' = p
    end.
Proof.
  intros Hi Hr. destruct (counted_held _ _ r (proj1 Hi)) as [[s n] E]; [by apply owners_held|].
  unfold open_and_admit. rewrite E. cbn [mbind option_bind].
  destruct (decrypt_request _ record) as [[rid msg]|e]; [|by eexists _, _].
  destruct (claim_request_at s (p_budget p) rid now) as [[s' b]|e] eqn:Ec; [|by eexists _, _].
  eexists _, _. split; [done|]. split; [done|].
  apply inv_clone; [by eapply inv_admit|]. by apply owners_held.
Qed.

Lemma holders_perm p hs adm1 a adm2 log beg :
  holders (MkSys p hs (adm1 ++ a :: adm2) log beg)
  ≡ₚ ar_session a :: holders (MkSys p hs (adm1 ++ adm2) log beg).
Proof.
  unfold holders. cbn. rewrite !fmap_app, fmap_cons. by rewrite !app_assoc, <-Permutation_middle.
Qed.

Lemma sys_step_inv s s' : sys_step s s' -> sys_inv s -> sys_inv s'.
Proof.
  destruct 1 as [p hs adm log beg secrets rk now lifetime cap s0 E
    |p hs1 r hs2 adm log beg now res p' E|p hs adm log beg id now res p' E
    |p hs adm log beg id|p hs adm log beg now|p hs1 r hs2 adm log beg
    |p hs adm log beg r record now a pt p' Hr E|p hs adm log beg r record now e p' Hr E
    |p hs adm1 a adm2 log beg res p' E|p hs adm1 a adm2 log beg];
    unfold sys_inv, holders; cbn; intros [Hi Hb]; (split; [|try done]).
  - apply inv_new; [done|]. unfold session_new_at in E. destruct (_ =? 0); [done|].
    result_inv. by subst.
  - apply (inv_perm _ _ (r :: (hs1 ++ hs2) ++ (ar_session <$> adm))) in Hi.
    2:{ by rewrite <-Permutation_middle. }
    destruct (store_insert_inv _ _ _ _ now Hi) as (res2 & p2 & E2 & Hi2). by simplify_eq.
  - destruct (store_get_inv _ _ _ id now Hi) as (res2 & p2 & E2 & Hi2).
    rewrite E in E2. injection E2 as <- <-. by destruct res.
  - rewrite <-app_assoc. by apply store_remove_inv.
  - by apply purge_inv.
  - apply inv_drop. eapply inv_perm; [|exact Hi]. by rewrite <-Permutation_middle.
  - destruct (open_and_admit_inv _ _ _ r record now Hi) as (res2 & p2 & E2 & Hr2).
    { apply elem_of_app. by left. }
    rewrite E in E2. simplify_eq. destruct Hr2 as [<- Hi2].
    eapply inv_perm; [|exact Hi2]. by rewrite Permutation_middle.
  - rewrite <-Permutation_middle. by apply submseteq_skip.
  - destruct (open_and_admit_inv _ _ _ r record now Hi) as (res2 & p2 & E2 & Hr2).
    { apply elem_of_app. by left. }
    rewrite E in E2. simplify_eq. by subst.
  - unfold begin_response in E. destruct (session_at p _); [|done]. cbn in E. simplify_eq.
    apply inv_drop. eapply inv_perm; [|exact Hi]. apply (holders_perm p hs adm1 a adm2 log beg).
  - etrans; [|exact Hb]. by rewrite <-!Permutation_middle.
  - apply inv_drop. eapply inv_perm; [|exact Hi]. apply (holders_perm p hs adm1 a adm2 log beg).
  - etrans; [|exact Hb]. rewrite <-Permutation_middle, <-Permutation_middle. by apply submseteq_cons.
Qed.

Lemma sys_reachable_inv bc sc s :
  0 < bc <= USIZE_MAX -> 0 < sc -> sys_reachable bc sc s -> sys_inv s.
Proof.
  intros Hbc Hsc Hr. eapply (rtc_invariant _ sys_inv); [apply sys_step_inv|exact Hr|].
  split; [|done]. split; [|split_and!].
  - intros r. cbn. rewrite lookup_empty. unfold owners. cbn. by rewrite vcount_empty.
  - split; cbn; [by rewrite msum_empty|lia].
  - intros r s' n. cbn. by rewrite lookup_empty.
  - split; cbn; [rewrite map_size_empty; lia|]. intros ? ? ?. by rewrite lookup_empty.
  - split; [constructor|]. by intros a ?%not_elem_of_nil.
Qed.
End System.

Lemma store_insert_capacity p r now res p' :
  store_insert_at p r now = Some (res, p') -> st_capacity (p_store p') = st_capacity (p_store p).
Proof.
  unfold store_insert_at. destruct (session_at p r) as [s|]; [|done]. cbn [mbind option_bind].
  destruct (is_expired s now); [intros [= _ <-]; by rewrite (proj2 (arc_drop_sub p r))|].
  destruct (_ !! _) as [x|]; [destruct (session_at p x) as [e|]; [|done]; cbn [mbind option_bind];
    destruct (is_expired e now)|];
    repeat match goal with |- context [if ?b then _ else _] => destruct b end;
    intros [= _ <-]; rewrite ?(proj2 (arc_drop_sub _ _)), ?drop_all_store; done.
Qed.

(** What each branch of [store_insert_at] does to the store, before any invariant. *)
Lemma store_insert_branches p r now res p' s :
  store_insert_at p r now = Some (res, p') -> session_at p r = Some s ->
  sessions_sub p p' /\
  (forall id x e, st_sessions (p_store p) !! id = Some x -> session_at p x = Some e ->
     is_expired e now = false -> st_sessions (p_store p') !! id = Some x) /\
  match res with
  | Ok _ => st_sessions (p_store p') !! session_id s = Some r /\ is_expired s now = false
  | Err Collision => exists x e, st_sessions (p_store p) !! session_id s = Some x /\
      session_at p x = Some e /\ is_expired e now = false
  | Err Full => st_capacity (p_store p) <= Z.of_nat (size (st_sessions (p_store p)))
  | Err StoreExpired => is_expired s now = true
  | Err _ => False
  end.
Proof.
  intros E Es. revert E. unfold store_insert_at. rewrite Es. cbn [mbind option_bind].
  destruct (is_expired s now) eqn:Ex.
  { intros [= <- <-]. destruct (arc_drop_sub p r) as [Hsub ->]. done. }
  destruct (st_sessions (p_store p) !! session_id s) as [x|] eqn:Ei.
  - destruct (session_at p x) as [e|] eqn:Ee; [|done]. cbn [mbind option_bind].
    destruct (is_expired e now) eqn:Eexp.
    2:{ intros [= <- <-]. destruct (arc_drop_sub p r) as [Hsub ->]. split_and!; [done..|by eauto]. }
    assert (forall id y e', st_sessions (p_store p) !! id = Some y -> session_at p y = Some e' ->
      is_expired e' now = false -> delete (session_id s) (st_sessions (p_store p)) !! id = Some y) as Hk.
    { intros id y e' Hy He' Hl. rewrite lookup_delete_ne; [done|]. intros <-. congruence. }
    set (p1 := set_sessions p (delete (session_id s) (st_sessions (p_store p)))) in *.
    destruct (Z.leb_spec (st_capacity (p_store p1)) (Z.of_nat (size (st_sessions (p_store p1))))) as [Hc|Hc];
      intros [= <- <-].
    + cbn. destruct (arc_drop_sub p1 x) as [[H1 H2] H3], (arc_drop_sub (arc_drop p1 x) r) as [[H4 H5] H6].
      rewrite H6, H3. split_and!; [split; [by rewrite H4, H1|by eauto]|done|].
      cbn in Hc. rewrite map_size_delete_Some in Hc by (by eexists). lia.
    + match goal with |- context [arc_drop ?q x] =>
        destruct (arc_drop_sub q x) as [[H1 H2] H3] end.
      rewrite H3. cbn. split_and!; [by split| |by rewrite lookup_insert_eq|done].
      intros id y e' Hy He' Hl. rewrite lookup_insert_ne; [by eauto|]. intros <-. congruence.
  - destruct (Z.leb_spec (st_capacity (p_store p)) (Z.of_nat (size (st_sessions (p_store p))))) as [Hc|Hc];
      intros [= <- <-]; cbn.
    + destruct (arc_drop_sub p r) as [Hsub ->]. done.
    + split_and!; [by split| |by rewrite lookup_insert_eq|done].
      intros id y e' Hy He' Hl. rewrite lookup_insert_ne; [done|]. intros <-. congruence.
Qed.

(** ** Properties *)
Section Theorems.
Context {P : CryptoPrims}.

(** C2: Replay protection: along every run of the process, through any interleaving of
    handshakes, lookups, purges, removals and admissions, no request identifier is admitted
    twice in one session and no admitted request begins two responses; a record of an identifier
    already admitted in a session that still exists is refused, without any change of state. *)
Theorem requests_admitted_once bc sc s :
  0 < bc <= USIZE_MAX -> 0 < sc -> sys_reachable bc sc s ->
  NoDup (sys_log s) /\ NoDup (sys_begun s) /\ (forall a, a ∈ sys_begun s -> a ∈ sys_log s) /\
  forall a ses record plaintext now, a ∈ sys_log s ->
    session_at (sys_proc s) (ar_session a) = Some ses ->
    decrypt_request (se_secrets ses) record = Ok (ar_request_id a, plaintext) ->
    open_and_admit (sys_proc s) (ar_session a) record now
    = Some (Err (if is_expired ses now then SessionExpired else Replay Duplicate), sys_proc s).
Proof.
  intros Hbc Hsc Hr. destruct (sys_reachable_inv _ _ _ Hbc Hsc Hr) as [Hi Hb].
  pose proof Hi as [_ (_ & _ & _ & Hd & Hl)].
  assert (NoDup (sys_begun s ++ sys_admitted s)) as [Hnb _]%NoDup_app.
  { apply submseteq_Permutation in Hb as [k Hk]. rewrite Hk in Hd. by apply NoDup_app in Hd as [? _]. }
  split_and!; [done..| |].
  - intros a Ha. eapply elem_of_submseteq; [|exact Hb]. apply elem_of_app. by left.
  - intros a ses record msg now Ha Hs Hdec. apply session_at_lookup in Hs as Hs'. destruct Hs' as [n E].
    unfold open_and_admit. rewrite E. cbn [mbind option_bind]. rewrite Hdec.
    rewrite claim_request_at_spec. destruct (is_expired ses now); [done|].
    rewrite decide_True; [done|]. by apply Hl.
Qed.

(** C35: The replay budget is exact: its counter always equals the number of identifiers retained
    by the sessions still allocated, never exceeds the capacity and is zero again once every
    session is gone; a session's own set stays within its limit. *)
Theorem budget_counts_retained bc sc s :
  0 < bc <= USIZE_MAX -> 0 < sc -> sys_reachable bc sc s ->
  rb_claimed (p_budget (sys_proc s)) = msum retained (p_heap (sys_proc s)) /\
  0 <= rb_claimed (p_budget (sys_proc s)) <= rb_capacity (p_budget (sys_proc s)) /\
  (p_heap (sys_proc s) = ∅ -> rb_claimed (p_budget (sys_proc s)) = 0) /\
  forall r ses, session_at (sys_proc s) r = Some ses ->
    set_len (rr_request_ids (se_replay ses)) <= Z.max 0 (rr_capacity (se_replay ses)).
Proof.
  intros Hbc Hsc Hr. destruct (sys_reachable_inv _ _ _ Hbc Hsc Hr) as [[_ ([Hb Hcap] & Hh & _)] _].
  rewrite Hb in *. split_and!; [done| |lia| |].
  - apply msum_nonneg, retained_nonneg.
  - intros ->. apply msum_empty.
  - intros r ses [n E]%session_at_lookup. by apply (Hh _ _ _ E).
Qed.

(** A session lives exactly as long as it has owners: the store's reference and the handles
    held by tasks and admitted requests are counted without loss or leak, so no operation meets
    a freed session and none survives its last owner. *)
Theorem arcs_counted bc sc s r :
  0 < bc <= USIZE_MAX -> 0 < sc -> sys_reachable bc sc s ->
  (is_Some (session_at (sys_proc s) r) <->
     r ∈ holders s \/ exists id, st_sessions (p_store (sys_proc s)) !! id = Some r) /\
  forall ses n, p_heap (sys_proc s) !! r = Some (ses, n) ->
    n = count r (holders s) + vcount r (st_sessions (p_store (sys_proc s))).
Proof.
  intros Hbc Hsc Hr. destruct (sys_reachable_inv _ _ _ Hbc Hsc Hr) as [Hi _].
  split.
  - split.
    + intros [ses [n E]%session_at_lookup]. pose proof (proj1 Hi r) as Hc. rewrite E in Hc.
      destruct Hc as [-> Hpos]. unfold owners in Hpos.
      destruct (decide (r ∈ holders s)) as [|Hn]; [by left|right].
      assert (0 < vcount r (st_sessions (p_store (sys_proc s)))) as Hv%count_pos.
      { pose proof (count_nonneg r (holders s)). rewrite <-count_pos in Hn. lia. }
      apply list_elem_of_fmap in Hv as ([id x] & -> & Hx). exists id.
      by apply elem_of_map_to_list in Hx.
    + intros Ho. apply (inv_session _ _ _ r Hi). destruct Ho as [Hh|[id E]].
      * by apply owners_held.
      * by eapply owners_stored.
  - intros ses n E. pose proof (proj1 Hi r) as Hc. rewrite E in Hc. apply Hc.
Qed.

(** Storing a session never evicts a live one: whatever the outcome, every unexpired stored
    session stays stored and unchanged, the store keeps within its capacity, success means the
    new session is found, [Collision] that a live session has its identifier, and [Full] that
    the store holds as many sessions as it may. *)
Theorem store_insert_keeps_live bc sc s hs1 r hs2 ses now :
  0 < bc <= USIZE_MAX -> 0 < sc -> sys_reachable bc sc s -> sys_held s = hs1 ++ r :: hs2 ->
  session_at (sys_proc s) r = Some ses ->
  exists res p', store_insert_at (sys_proc s) r now = Some (res, p') /\
    (forall id x e, st_sessions (p_store (sys_proc s)) !! id = Some x ->
       session_at (sys_proc s) x = Some e -> is_expired e now = false ->
       st_sessions (p_store p') !! id = Some x /\ session_at p' x = Some e) /\
    Z.of_nat (size (st_sessions (p_store p'))) <= st_capacity (p_store (sys_proc s)) /\
    match res with
    | Ok _ => st_sessions (p_store p') !! session_id ses = Some r /\ is_expired ses now = false
    | Err Collision => exists x e, st_sessions (p_store (sys_proc s)) !! session_id ses = Some x /\
        session_at (sys_proc s) x = Some e /\ is_expired e now = false
    | Err Full => st_capacity (p_store (sys_proc s))
        <= Z.of_nat (size (st_sessions (p_store (sys_proc s))))
    | Err StoreExpired => is_expired ses now = true
    | Err _ => False
    end.
Proof.
  intros Hbc Hsc Hr Hh Es. destruct (sys_reachable_inv _ _ _ Hbc Hsc Hr) as [Hi _].
  eapply (inv_perm _ _ (r :: (hs1 ++ hs2) ++ (ar_session <$> sys_admitted s))) in Hi.
  2:{ unfold holders. rewrite Hh. by rewrite <-Permutation_middle. }
  destruct (store_insert_inv _ _ _ _ now Hi) as (res & p' & E & Hi').
  destruct (store_insert_branches _ _ _ _ _ _ E Es) as (Hsub & Hkeep & Hres).
  exists res, p'. split; [done|].
  pose proof Hi' as [_ (_ & _ & [[_ Hsz] _] & _)]. split_and!.
  - intros id x e Hx He Hlive. pose proof (Hkeep id x e Hx He Hlive) as Hx'. split; [done|].
    destruct (inv_session _ _ _ x Hi') as [e' He']; [by eapply owners_stored|].
    apply Hsub in He' as He2. congruence.
  - by rewrite <-(store_insert_capacity _ _ _ _ _ E).
  - done.
Qed.
End Theorems.

(** ** Witnesses: one session, one admitted request *)
#[local] Existing Instances Toy.toy_crypto Toy.toy_crypto_laws.

Definition sample_session : Session :=
  MkSession sample_secrets (replicate 32 x09) (from_secs 60) (registry_new 8).
Definition sample_record : list byte := replicate 16 x07 ++ [x68] ++ replicate 16 x00.
Definition sample_admission : AdmittedRequest := MkAdmittedRequest 1 (replicate 16 x07).
Definition sample_proc0 : Process := (arc_new (process_new 8 4) sample_session).2.
Definition sample_proc1 : Process :=
  default sample_proc0 (snd <$> open_and_admit sample_proc0 1 sample_record 5).
Definition sample_sys : Sys :=
  MkSys sample_proc1 [1%positive] [sample_admission] [sample_admission] [].

Lemma sample_sys_reachable : sys_reachable 8 4 sample_sys.
Proof.
  eapply rtc_l; [eapply (sys_new _ [] [] [] [] sample_secrets (replicate 32 x09) 0 (from_secs 60) 8); reflexivity|].
  eapply rtc_l; [|apply rtc_refl].
  eapply (sys_admit _ _ _ _ _ 1%positive sample_record 5 sample_admission [x68]); [by left|].
  vm_compute. reflexivity.
Qed.

Lemma sample_bounds : 0 < 8 <= USIZE_MAX /\ 0 < 4.
Proof. unfold USIZE_MAX, U64_MAX. lia. Qed.

Lemma requests_admitted_once_witness :
  open_and_admit sample_proc1 1 sample_record 6 = Some (Err (Replay Duplicate), sample_proc1).
Proof.
  destruct (requests_admitted_once 8 4 sample_sys (proj1 sample_bounds) (proj2 sample_bounds)
              sample_sys_reachable) as (_ & _ & _ & H).
  apply (H sample_admission (claimed_session sample_session (replicate 16 x07)) sample_record [x68] 6);
    [by left|vm_compute; reflexivity..].
Defined.

Lemma budget_counts_retained_witness : rb_claimed (p_budget sample_proc1) = msum retained (p_heap sample_proc1).
Proof.
  apply (budget_counts_retained 8 4 sample_sys (proj1 sample_bounds) (proj2 sample_bounds)
           sample_sys_reachable).
Defined.

Lemma arcs_counted_witness : is_Some (session_at sample_proc1 1).
Proof.
  apply (arcs_counted 8 4 sample_sys 1 (proj1 sample_bounds) (proj2 sample_bounds)
           sample_sys_reachable). left. vm_compute. by left.
Defined.

Lemma store_insert_keeps_live_witness :
  exists res p', store_insert_at sample_proc1 1 7 = Some (res, p') /\
    Z.of_nat (size (st_sessions (p_store p'))) <= 4.
Proof.
  destruct (store_insert_keeps_live 8 4 sample_sys [] 1 []
              (claimed_session sample_session (replicate 16 x07)) 7
              (proj1 sample_bounds) (proj2 sample_bounds) sample_sys_reachable)
    as (res & p' & E & _ & Hs & _); [reflexivity|vm_compute; reflexivity|].
  exists res, p'. split; [exact E|exact Hs].
Defined.
