(* ===== verification/Gateway.v ===== *)
(** * The transport gateway ([services/opensecret/src/transport_v2/gateway.rs])

    Session creation and request dispatch over the session store, and the encrypted response
    stream.  The two [await]s of [dispatch_request] (reading the body, running the application)
    let other tasks run, so the handler is three functions, one per stretch between them.  The
    attestation service, the random generator and the application are arguments. *)
From Stdlib Require Import Strings.Byte.
From S2P Require Import Prelude Primitives WireCrates ServerCrypto ServerEnvelope ServerFraming.
From S2P Require Import ServerSession.

Definition SESSION_LIFETIME : Duration := from_secs (60 * 60).
Definition MAX_SESSION_REQUEST_BYTES : Z := 4 * 1024.
Definition MAX_SESSIONS : Z := 2097152.
Definition MAX_REPLAY_IDS_PER_SESSION : Z := 1048576.
Definition MAX_REPLAY_IDS_PROCESS_WIDE : Z := 16777216.
Definition MAX_REQUEST_RECORD_BYTES : Z :=
  REQUEST_ID_BYTES + MAX_ENCODED_REQUEST_BYTES + RECORD_TAG_BYTES.

Definition SESSION_ID_HEADER : string := "x-session-id".
Definition ROUTING_KEY_HEADER : string := "x-opensecret-routing-key".

Inductive OuterError :=
| BadRequest
| SessionNotFound
| RequestDecryptionFailed
| PayloadTooLarge
| UnsupportedMediaType
| Unavailable.

Inductive SealFrameError := SfFraming (e : FramingError) | SfCrypto (e : CryptoError).

(** The status and recovery code of [OuterError::into_response]. *)
Definition outer_status (e : OuterError) : Z :=
  match e with
  | BadRequest | SessionNotFound | RequestDecryptionFailed => 400
  | PayloadTooLarge => 413
  | UnsupportedMediaType => 415
  | Unavailable => 503
  end.

Definition outer_recovery_code (e : OuterError) : option string :=
  match e with
  | SessionNotFound => Some "session_not_found"%string
  | RequestDecryptionFailed => Some "request_decryption_failed"%string
  | _ => None
  end.

(** A [HeaderMap]: lower-case names with the values in order of arrival. *)
Abbreviation HeaderMap := (list (string * list byte)) (only parsing).

(** An outer request: its headers, whether the URI has a query, and the collected body ([None]
    when reading it fails). *)
Record OuterRequest := MkOuterRequest {
  or_headers : HeaderMap;
  or_has_query : bool;
  or_body : option (list byte);
}.

Record CreateSessionRequest := MkCreateSessionRequest {
  cs_version : Z;
  cs_challenge : string;
  cs_client_public_key : string;
}.

Record CreateSessionResponse := MkCreateSessionResponse {
  cr_version : Z;
  cr_session_id : string;
  cr_attestation_document : string;
  cr_expires_in_seconds : Z;
}.

Definition get_all (headers : HeaderMap) (name : string) : list (list byte) :=
  snd <$> filter (fun h => h.1 = name) headers.

(** [Err(map_err)] conversions. *)
Definition map_session_insert_error (e : SessionStoreError) : OuterError :=
  match e with Collision | Full | StoreUnavailable | StoreExpired | Missing => Unavailable end.

Definition map_session_lookup_error (e : SessionStoreError) : OuterError :=
  match e with
  | Missing | StoreExpired => SessionNotFound
  | Collision | Full | StoreUnavailable => Unavailable
  end.

Definition map_admission_error (e : SessionError) : OuterError :=
  match e with
  | SessionExpired => SessionNotFound
  | Crypto Authentication => RequestDecryptionFailed
  | Replay GlobalCapacity | Replay ReplayUnavailable => Unavailable
  | Replay Duplicate | Replay SessionCapacity | Crypto _ => BadRequest
  | InvalidLifetime => Unavailable
  end.

Definition require_content_type (headers : HeaderMap) (expected : string) : result OuterError unit :=
  match get_all headers "content-type" with
  | [] => Err UnsupportedMediaType
  | actual :: rest =>
      if negb (bool_decide (rest = [])) || negb (bool_decide (actual = as_bytes expected))
      then Err UnsupportedMediaType else Ok tt
  end.

Definition reject_forbidden_outer_headers (headers : HeaderMap) : result OuterError unit :=
  if existsb (fun name => negb (bool_decide (get_all headers name = [])))
       ["authorization"; "proxy-authorization"; "cookie"; "content-encoding"]%string
  then Err BadRequest else Ok tt.

(** [str::parse::<usize>]: an optional [+], at least one decimal digit, no overflow. *)
Fixpoint parse_digits (acc : Z) (bs : list byte) : option Z :=
  match bs with
  | [] => Some acc
  | b :: bs =>
      if (48 <=? byte_val b) && (byte_val b <=? 57) then
        let acc := acc * 10 + (byte_val b - 48) in
        if acc <=? USIZE_MAX then parse_digits acc bs else None
      else None
  end.

Definition parse_usize (s : string) : option Z :=
  match as_bytes s with
  | [] => None
  | [x2b] => None
  | x2b :: bs => parse_digits 0 bs
  | bs => parse_digits 0 bs
  end.

(** [to_bytes(body, maximum)] *)
Definition read_bounded_body (body : option (list byte)) (maximum : Z) :
    result OuterError (list byte) :=
  match body with
  | Some bytes => if maximum <? len bytes then Err PayloadTooLarge else Ok bytes
  | None => Err PayloadTooLarge
  end.

Section Parsing.
Context {T : HeaderText} {B : Base64Crate} {X : HexCrate}.

Definition reject_declared_oversize (headers : HeaderMap) (maximum : Z) : result OuterError unit :=
  match get_all headers "content-length" with
  | [] => Ok tt
  | [value] =>
      declared ← ok_or (header_to_str value ≫= parse_usize) BadRequest;
      if maximum <? declared then Err PayloadTooLarge else Ok tt
  | _ => Err BadRequest
  end.

Definition decode_canonical_fixed (n : Z) (encoded : string) : result OuterError (list byte) :=
  decoded ← ok_or (base64_decode (as_bytes encoded)) BadRequest;
  bytes ← (if len decoded =? n then Ok decoded else Err BadRequest);
  if bool_decide (base64_encode bytes = encoded) then Ok bytes else Err BadRequest.

Definition parse_outer_session_id (headers : HeaderMap) : result OuterError SessionId :=
  match get_all headers SESSION_ID_HEADER with
  | [value] =>
      ok_or (header_to_str value ≫= ServerCrypto.session_id_from_str) BadRequest
  | _ => Err BadRequest
  end.

Definition parse_outer_routing_key (headers : HeaderMap) : result OuterError (list byte) :=
  match get_all headers ROUTING_KEY_HEADER with
  | [value] =>
      value ← ok_or (header_to_str value) BadRequest;
      decode_canonical_fixed HANDSHAKE_CHALLENGE_BYTES value
  | _ => Err BadRequest
  end.
End Parsing.

(** ** Routing to a session *)

Definition get_routed_session (p : Process) (id : SessionId) (routing_key : list byte)
    (now : Instant) : option (result OuterError Ref * Process) :=
  '(found, p) ← store_get_at p id now;
  match found with
  | Err e => Some (Err (map_session_lookup_error e), p)
  | Ok r =>
      s ← session_at p r;
      if negb (matches_routing_key s routing_key) then Some (Err BadRequest, arc_drop p r)
      else Some (Ok r, p)
  end.

(** ** Creating a session *)
Section CreateSession.
Context {P : CryptoPrims} {T : HeaderText} {B : Base64Crate} {X : HexCrate}.
Context {De : JsonDe CreateSessionRequest}.

(** What [create_session] computes before it touches shared state: the challenge, the client
    key, the server key and the derived secrets. *)
Definition negotiate (request : OuterRequest) (server_secret : EphemeralSecret) :
    result OuterError (list byte * list byte * list byte * SessionSecrets) :=
  _ ← require_content_type (or_headers request) "application/json";
  _ ← reject_forbidden_outer_headers (or_headers request);
  if or_has_query request then Err BadRequest
  else
    routing_key ← parse_outer_routing_key (or_headers request);
    _ ← reject_declared_oversize (or_headers request) MAX_SESSION_REQUEST_BYTES;
    body ← read_bounded_body (or_body request) MAX_SESSION_REQUEST_BYTES;
    payload ← ok_or (json_from_slice body) BadRequest;
    if negb (cs_version payload =? VERSION) then Err BadRequest
    else
      challenge ← decode_canonical_fixed HANDSHAKE_CHALLENGE_BYTES (cs_challenge payload);
      if negb (bool_decide (challenge = routing_key)) then Err BadRequest
      else
        client_public_key ← decode_canonical_fixed X25519_PUBLIC_KEY_BYTES
                              (cs_client_public_key payload);
        let server_public_key := x25519_public server_secret in
        let transcript := MkHandshakeTranscript challenge client_public_key server_public_key in
        secrets ← map_err (fun _ => BadRequest) (derive_server_session server_secret transcript);
        Ok (challenge, client_public_key, server_public_key, secrets).

(** [attest] is the attestation service, applied to user data, public key and nonce; [now] and
    [later] are the clock readings of [Session::new] and [SessionStore::insert]. *)
Definition create_session (p : Process) (request : OuterRequest) (server_secret : EphemeralSecret)
    (attest : list byte -> list byte -> list byte -> option (list byte)) (now later : Instant) :
    option (result OuterError CreateSessionResponse * Process) :=
  match negotiate request server_secret with
  | Err e => Some (Err e, p)
  | Ok (challenge, client_public_key, server_public_key, secrets) =>
      match attest (attestation_user_data client_public_key) server_public_key challenge with
      | None => Some (Err Unavailable, p)
      | Some attestation_document =>
          match session_new_at secrets challenge now SESSION_LIFETIME MAX_REPLAY_IDS_PER_SESSION with
          | Err _ => Some (Err Unavailable, p)
          | Ok session =>
              let (r, p) := arc_new p session in
              '(inserted, p) ← store_insert_at p r later;
              match inserted with
              | Err e => Some (Err (map_session_insert_error e), p)
              | Ok _ =>
                  Some (Ok (MkCreateSessionResponse VERSION
                              (ServerCrypto.session_id_to_string (ss_session_id secrets))
                              (base64_encode attestation_document) (60 * 60)), p)
              end
          end
      end
  end.
End CreateSession.

(** ** Dispatching a request *)

(** The request handed to the application router. *)
Record AppRequest {H : HttpCrate} := MkAppRequest {
  app_method : Method;
  app_uri : Uri;
  app_headers : list (string * string);
  app_body : list byte;
  app_session_id : SessionId;
  app_request_id : RequestId;
  app_credential : option Credential;
  app_cache_namespace_root : option (list byte);
}.
Arguments AppRequest H : clear implicits.

(** A frame of the application's response body: data, trailers, another kind, or a failure. *)
Inductive BodyFrame :=
| Data (bytes : list byte)
| Trailers
| OtherFrame
| BodyFailed.

Record AppResponse := MkAppResponse {
  resp_status : Z;
  resp_headers : HeaderMap;
  resp_body : list BodyFrame;
}.

Section Dispatch.
Context {P : CryptoPrims} {H : HttpCrate} {T : HeaderText} {B : Base64Crate} {X : HexCrate}.
Context {De : JsonDe RequestMetadata}.

(** The checks on the outer headers. *)
Definition dispatch_headers (request : OuterRequest) : result OuterError (SessionId * list byte) :=
  _ ← require_content_type (or_headers request) "application/octet-stream";
  _ ← reject_forbidden_outer_headers (or_headers request);
  if or_has_query request then Err BadRequest
  else
    session_id ← parse_outer_session_id (or_headers request);
    routing_key ← parse_outer_routing_key (or_headers request);
    _ ← reject_declared_oversize (or_headers request) MAX_REQUEST_RECORD_BYTES;
    Ok (session_id, routing_key).

(** Up to reading the body: the early lookup is dropped at once. *)
Definition dispatch_check (p : Process) (request : OuterRequest) (now : Instant) :
    option (result OuterError (SessionId * list byte) * Process) :=
  match dispatch_headers request with
  | Err e => Some (Err e, p)
  | Ok (session_id, routing_key) =>
      '(found, p) ← get_routed_session p session_id routing_key now;
      match found with
      | Err e => Some (Err e, p)
      | Ok r => Some (Ok (session_id, routing_key), arc_drop p r)
      end
  end.

Fixpoint app_request_headers (hs : list LogicalHeader) :
    result EnvelopeError (list (string * string)) :=
  match hs with
  | [] => Ok []
  | h :: hs =>
      name ← ok_or (header_name_from_bytes (as_bytes (lh_name h))) InvalidHeaderName;
      if header_value_is_ok (lh_value h) then
        rest ← app_request_headers hs; Ok ((name, lh_value h) :: rest)
      else Err InvalidHeaderValue
  end.

Definition build_application_request (envelope : RequestEnvelope) (session_id : SessionId)
    (request_id : RequestId) : result EnvelopeError (AppRequest H) :=
  method ← ok_or (method_from_bytes (as_bytes (env_method envelope))) InvalidMethod;
  uri ← ok_or (uri_from_str (env_target envelope)) InvalidTarget;
  headers ← app_request_headers (env_headers envelope);
  Ok (MkAppRequest H method uri headers (default [] (env_body envelope)) session_id request_id
        (env_credential envelope) (env_cache_namespace_root envelope)).

(** From the collected body to the application: the held session, the capability, and the
    request, or [None] when the envelope is refused inside the channel. *)
Definition dispatch_admit (p : Process) (session_id : SessionId) (routing_key : list byte)
    (body : option (list byte)) (now : Instant) :
    option (result OuterError (Ref * AdmittedRequest * option (AppRequest H)) * Process) :=
  match read_bounded_body body MAX_REQUEST_RECORD_BYTES with
  | Err e => Some (Err e, p)
  | Ok record =>
      if len record <? MIN_REQUEST_RECORD_BYTES then Some (Err BadRequest, p)
      else
        '(found, p) ← get_routed_session p session_id routing_key now;
        match found with
        | Err e => Some (Err e, p)
        | Ok r =>
            '(admission, p) ← open_and_admit p r record now;
            match admission with
            | Err e => Some (Err (map_admission_error e), arc_drop p r)
            | Ok (admitted, plaintext) =>
                s ← session_at p r;
                let request :=
                  envelope ← decode_bytes (ar_request_id admitted) plaintext;
                  build_application_request envelope (ServerSession.session_id s)
                    (ar_request_id admitted) in
                Some (Ok (r, admitted, match request with Ok q => Some q | Err _ => None end), p)
            end
        end
  end.
End Dispatch.

(** ** The encrypted response *)
Section Response.
Context {P : CryptoPrims} {H : HttpCrate} {T : HeaderText}.
Context {SerStart : JsonSer ResponseStart} {SerFail : JsonSer ResponseFailure}.

Definition seal_framed (w : ResponseSealer) (record : ResponseRecord) :
    ResponseSealer * result SealFrameError (list byte) :=
  match record_encode record with
  | Err e => (w, Err (SfFraming e))
  | Ok plaintext =>
      let (w, sealed) := seal_next w plaintext in
      (w, ciphertext ← map_err SfCrypto sealed;
          map_err SfFraming (frame_ciphertext ciphertext))
  end.

Definition logical_response_headers (headers : HeaderMap) : list LogicalHeader :=
  filter_map (fun h : string * list byte =>
    value ← header_to_str h.2;
    match logical_header_new h.1 value with Ok header => Some header | Err _ => None end) headers.

(** [slice::chunks]: the fuel is the length of the slice. *)
Fixpoint chunks_fuel (fuel : nat) (n : nat) (l : list byte) : list (list byte) :=
  match fuel, l with
  | _, [] => []
  | O, _ => []
  | S fuel, _ => take n l :: chunks_fuel fuel n (drop n l)
  end.
Definition chunks (n : Z) (l : list byte) : list (list byte) :=
  chunks_fuel (length l) (Z.to_nat n) l.

(** The rest of the stream: the frames yielded and the error that ends it, if any. *)
Fixpoint emit_records (w : ResponseSealer) (records : list ResponseRecord) :
    ResponseSealer * list (list byte) * option SealFrameError :=
  match records with
  | [] => (w, [], None)
  | r :: records =>
      match seal_framed w r with
      | (w, Err e) => (w, [], Some e)
      | (w, Ok frame) =>
          let '(w, frames, e) := emit_records w records in (w, frame :: frames, e)
      end
  end.

Fixpoint emit_body (w : ResponseSealer) (body : list BodyFrame) :
    list (list byte) * option SealFrameError :=
  let last (record : ResponseRecord) :=
    let '(_, frames, e) := emit_records w [record] in (frames, e) in
  match body with
  | [] => last ServerFraming.End
  | BodyFailed :: _ => last (ServerFraming.Error "application_body_failed")
  | Trailers :: _ => last (ServerFraming.Error "application_trailers_unsupported")
  | OtherFrame :: _ => last (ServerFraming.Error "application_frame_unsupported")
  | Data bytes :: body =>
      match emit_records w (ServerFraming.Chunk <$> chunks MAX_RESPONSE_CHUNK_BYTES bytes) with
      | (_, frames, Some e) => (frames, Some e)
      | (w, frames, None) => let (rest, e) := emit_body w body in (frames ++ rest, e)
      end
  end.

Definition encrypted_response (p : Process) (admitted : AdmittedRequest) (response : AppResponse) :
    option (result OuterError (list (list byte) * option SealFrameError) * Process) :=
  let (start, body) :=
    match response_start_new (resp_status response)
            (logical_response_headers (resp_headers response)) with
    | Ok start => (start, resp_body response)
    | Err _ => (MkResponseStart 500 [], [])
    end in
  '(begun, p) ← begin_response p admitted;
  match begun with
  | Err _ => Some (Err Unavailable, p)
  | Ok w =>
      match seal_framed w (ServerFraming.Start start) with
      | (_, Err _) => Some (Err Unavailable, p)
      | (w, Ok first) => let (rest, e) := emit_body w body in Some (Ok (first :: rest, e), p)
      end
  end.

(** The end of [dispatch_request]: [response] is the application's, or the one of
    [ApiError::BadRequest] when no application request was built; the session held since the
    admission is dropped on return. *)
Definition dispatch_respond (p : Process) (r : Ref) (admitted : AdmittedRequest)
    (response : AppResponse) :
    option (result OuterError (list (list byte) * option SealFrameError) * Process) :=
  '(result, p) ← encrypted_response p admitted response;
  Some (result, arc_drop p r).
End Response.

(** ** Handlers neither leak nor lose sessions *)
Section Handlers.
Context {P : CryptoPrims} {H : HttpCrate} {T : HeaderText} {B : Base64Crate} {X : HexCrate}.
Context {DeReq : JsonDe RequestMetadata} {DeCreate : JsonDe CreateSessionRequest}.
Context {SerStart : JsonSer ResponseStart} {SerFail : JsonSer ResponseFailure}.

Lemma get_routed_session_inv p hs log id key now :
  inv p hs log ->
  exists res p', get_routed_session p id key now = Some (res, p') /\
    match res with
    | Ok r => inv p' (r :: hs) log /\ exists s, session_at p' r = Some s /\
        se_routing_key s = key /\ session_id s = id /\ is_expired s now = false
    | Err _ => inv p' hs log
    end.
Proof.
  intros Hi. unfold get_routed_session.
  destruct (store_get_inv _ _ _ id now Hi) as (found & p1 & E & Hi1). rewrite E. cbn [mbind option_bind].
  destruct found as [r|e]; [|by eexists _, _].
  destruct (inv_session _ _ _ r Hi1) as [s Es]; [apply owners_held; by left|].
  rewrite Es. cbn [mbind option_bind]. unfold matches_routing_key. case_bool_decide as Hk; cbn [negb].
  - eexists _, _. split; [done|]. split; [done|]. exists s. split_and!; [done..| |].
    + unfold store_get_at in E. destruct (st_sessions (p_store p) !! id) as [r'|] eqn:Er; [|done].
      destruct (session_at p r') as [s'|] eqn:Es'; [|done]. cbn in E.
      destruct (is_expired s' now); [done|]. injection E as <- <-.
      destruct (proj1 (arc_clone_sub p r')) as [_ Hs]. apply Hs in Es. simplify_eq.
      destruct Hi as [_ (_ & _ & [_ Hkeys] & _)]. eauto.
    + unfold store_get_at in E. destruct (st_sessions (p_store p) !! id) as [r'|] eqn:Er; [|done].
      destruct (session_at p r') as [s'|] eqn:Es'; [|done]. cbn in E.
      destruct (is_expired s' now) eqn:Ex; [done|]. injection E as <- <-.
      destruct (proj1 (arc_clone_sub p r')) as [_ Hs]. apply Hs in Es. by simplify_eq.
  - eexists _, _. split; [done|]. cbn. by apply inv_drop.
Qed.

Lemma create_session_inv p hs log request secret attest now later :
  inv p hs log ->
  exists res p', create_session p request secret attest now later = Some (res, p') /\ inv p' hs log.
Proof.
  intros Hi. unfold create_session. destruct (negotiate request secret) as [[[[ch ck] sk] ss]|e];
    [|by eexists _, _].
  destruct (attest _ _ _) as [doc|]; [|by eexists _, _].
  destruct (session_new_at _ _ _ _ _) as [s|e] eqn:Es; [|by eexists _, _].
  pose proof (inv_new p hs log s Hi) as Hn.
  destruct (arc_new p s) as [r p1] eqn:Ea. cbn in Hn.
  destruct (store_insert_inv p1 hs log r later) as (res & p2 & E & Hi2).
  { apply Hn. unfold session_new_at in Es. destruct (_ =? 0); [done|]. result_inv. by subst. }
  rewrite E. cbn [mbind option_bind]. destruct res; by eexists _, _.
Qed.

Lemma dispatch_check_inv p hs log request now :
  inv p hs log ->
  exists res p', dispatch_check p request now = Some (res, p') /\ inv p' hs log.
Proof.
  intros Hi. unfold dispatch_check.
  destruct (dispatch_headers request) as [[sid key]|e]; [|by eexists _, _].
  destruct (get_routed_session_inv _ _ _ sid key now Hi) as (found & p1 & E & Hf).
  rewrite E. cbn [mbind option_bind]. destruct found as [r|e]; [|eexists _, _; split; [done|exact Hf]].
  eexists _, _. split; [done|]. by apply inv_drop; destruct Hf.
Qed.

Lemma dispatch_admit_inv p hs log id key body now :
  inv p hs log ->
  exists res p', dispatch_admit p id key body now = Some (res, p') /\
    match res with
    | Ok (r, a, _) => r = ar_session a /\ inv p' (r :: ar_session a :: hs) (a :: log) /\
        exists s, session_at p' r = Some s /\ se_routing_key s = key /\ session_id s = id /\
          is_expired s now = false
    | Err _ => inv p' hs log
    end.
Proof.
  intros Hi. unfold dispatch_admit. destruct (read_bounded_body _ _) as [record|e]; [|by eexists _, _].
  destruct (_ <? _); [by eexists _, _|].
  destruct (get_routed_session_inv _ _ _ id key now Hi) as (found & p1 & E & Hf).
  rewrite E. cbn [mbind option_bind]. destruct found as [r|e]; [|eexists _, _; split; [done|exact Hf]].
  destruct Hf as (Hi1 & s & Es & Hk & Hid & Hx).
  destruct (open_and_admit_inv _ _ _ r record now Hi1) as (res & p2 & E2 & Hr2); [by left|].
  rewrite E2. cbn [mbind option_bind]. destruct res as [[a pt]|e].
  - destruct Hr2 as [<- Hi2].
    destruct (inv_session _ _ _ (ar_session a) Hi2) as [s2 Es2]; [apply owners_held; by left|].
    rewrite Es2. cbn [mbind option_bind]. eexists _, _. split; [done|]. split; [done|]. split; [done|].
    exists s2. split; [done|].
    unfold open_and_admit in E2. apply session_at_lookup in Es as [n En]. rewrite En in E2. cbn in E2.
    destruct (decrypt_request _ record) as [[rid m]|]; [|done].
    rewrite claim_request_at_spec, Hx in E2. case_decide; [done|].
    destruct (_ <=? _); [done|]. destruct (_ <=? _); [done|].
    injection E2 as <- _ <-. cbn in Es2.
    apply (proj2 (proj1 (arc_clone_sub _ _))) in Es2.
    apply session_at_lookup in Es2 as [k Hk2]. cbn in Hk2. rewrite lookup_insert_eq in Hk2.
    by injection Hk2 as <- _.
  - subst p2. eexists _, _. split; [done|]. by apply inv_drop.
Qed.
End Handlers.

(** ** The records of a response *)
Section Records.
Context {P : CryptoPrims} {H : HttpCrate} {T : HeaderText}.
Context {SerStart : JsonSer ResponseStart} {SerFail : JsonSer ResponseFailure}.

(** The records sent for a body: its data in chunks, then one terminal record. *)
Fixpoint body_records (body : list BodyFrame) : list ResponseRecord :=
  match body with
  | [] => [ServerFraming.End]
  | BodyFailed :: _ => [ServerFraming.Error "application_body_failed"]
  | Trailers :: _ => [ServerFraming.Error "application_trailers_unsupported"]
  | OtherFrame :: _ => [ServerFraming.Error "application_frame_unsupported"]
  | Data bytes :: body =>
      (ServerFraming.Chunk <$> chunks MAX_RESPONSE_CHUNK_BYTES bytes) ++ body_records body
  end.

(** The head that is sent: the application's, or a bare 500 when it is not representable. *)
Definition response_head (response : AppResponse) : ResponseStart * list BodyFrame :=
  match response_start_new (resp_status response)
          (logical_response_headers (resp_headers response)) with
  | Ok start => (start, resp_body response)
  | Err _ => (MkResponseStart 500 [], [])
  end.

Definition response_records (response : AppResponse) : list ResponseRecord :=
  ServerFraming.Start (response_head response).1 :: body_records (response_head response).2.

Lemma emit_records_app w rs rs' :
  emit_records w (rs ++ rs') =
    match emit_records w rs with
    | (w, frames, Some e) => (w, frames, Some e)
    | (w, frames, None) =>
        let '(w, frames', e) := emit_records w rs' in (w, frames ++ frames', e)
    end.
Proof.
  revert w. induction rs as [|r rs IH]; intros w; cbn [emit_records app].
  - by destruct (emit_records w rs') as [[? ?] ?].
  - destruct (seal_framed w r) as [w1 [f|e]]; [|done]. rewrite IH.
    destruct (emit_records w1 rs) as [[w2 fs] [e|]]; [done|].
    by destruct (emit_records w2 rs') as [[? ?] ?].
Qed.

(** The generator emits exactly the records of the body. *)
Lemma emit_body_records w body :
  emit_body w body = let '(_, frames, e) := emit_records w (body_records body) in (frames, e).
Proof.
  revert w. induction body as [|f body IH]; intros w; [done|]. destruct f as [bytes| | |]; [|done..].
  cbn [emit_body body_records]. rewrite emit_records_app.
  destruct (emit_records w _) as [[w1 fs] [e|]]; [done|]. rewrite IH.
  by destruct (emit_records w1 (body_records body)) as [[? ?] ?].
Qed.

Lemma chunks_fuel_spec fuel n l :
  (0 < n)%nat -> (length l <= fuel)%nat ->
  concat (chunks_fuel fuel n l) = l /\
  Forall (fun c => (0 < length c <= n)%nat) (chunks_fuel fuel n l).
Proof.
  revert l. induction fuel as [|fuel IH]; intros l Hn Hl.
  { destruct l; [by split|cbn in Hl; lia]. }
  destruct l as [|x l]; [by split|]. cbn [chunks_fuel concat].
  destruct (IH (drop n (x :: l)) Hn) as [E F].
  { rewrite length_drop. cbn in *. lia. }
  split; [by rewrite E, take_drop|]. constructor; [|done]. rewrite length_take. cbn. lia.
Qed.

(** [chunks] loses nothing and respects the size. *)
Lemma chunks_spec bytes :
  concat (chunks MAX_RESPONSE_CHUNK_BYTES bytes) = bytes /\
  Forall (fun c => len c <= MAX_RESPONSE_CHUNK_BYTES) (chunks MAX_RESPONSE_CHUNK_BYTES bytes).
Proof.
  destruct (chunks_fuel_spec (length bytes) (Z.to_nat MAX_RESPONSE_CHUNK_BYTES) bytes)
    as [E F]; [unfold MAX_RESPONSE_CHUNK_BYTES; lia|lia|].
  split; [done|]. eapply Forall_impl; [exact F|]. unfold len, MAX_RESPONSE_CHUNK_BYTES. cbn beta. lia.
Qed.

Context {HP : CryptoLaws P}.

(** The frame of the [i]-th record from now. *)
Definition frame_of (w : ResponseSealer) (i : nat) (pt : list byte) : list byte :=
  match record_seal w i pt with
  | Ok ct => to_be_bytes 4 (len ct) ++ ct
  | Err _ => []
  end.

Definition sealer_wf (w : ResponseSealer) : Prop :=
  len (rs_key w) = 32 /\ len (rs_session_id w) = 16 /\ len (rs_request_id w) = 16 /\
  0 <= rs_next_sequence w.

Lemma record_seal_ok w i pt :
  sealer_wf w -> len pt <= MAX_RESPONSE_RECORD_PLAINTEXT_BYTES ->
  exists ct, record_seal w i pt = Ok ct /\ len ct = len pt + 16.
Proof.
  intros (Hk & Hs & Hr & _) Hl. unfold record_seal.
  edestruct (seal_ok (rs_key w)) as [ct E]; [done|..]; cycle 3.
  - exists ct. split; [exact E|]. by apply seal_open in E as [_ ?].
  - unfold response_nonce. rewrite len_app, len_to_be_bytes. done.
  - rewrite len_response_aad. unfold AEAD_MAX_BYTES, U32_MAX. lia.
  - unfold MAX_RESPONSE_RECORD_PLAINTEXT_BYTES, MAX_RESPONSE_CHUNK_BYTES, AEAD_MAX_BYTES, U32_MAX in *. lia.
Qed.

Definition advance (w : ResponseSealer) (n : Z) : ResponseSealer :=
  MkResponseSealer (rs_session_id w) (rs_request_id w) (rs_key w) (rs_next_sequence w + n).

Lemma seal_framed_ok w r pt :
  sealer_wf w -> rs_next_sequence w < U64_MAX -> record_encode r = Ok pt ->
  seal_framed w r = (advance w 1, Ok (frame_of w 0 pt)).
Proof.
  intros Hw Hn Hr. pose proof (record_encode_len _ _ Hr) as Hl. unfold seal_framed. rewrite Hr.
  destruct (record_seal_ok w 0 pt Hw) as (ct & Ec & Hct); [lia|].
  rewrite seal_next_spec, Ec by done. bsimpl. unfold frame_of. rewrite Ec.
  rewrite frame_ciphertext_ok; [done|].
  unfold RECORD_TAG_BYTES, MAX_RESPONSE_RECORD_CIPHERTEXT_BYTES, RECORD_TAG_BYTES in *. lia.
Qed.

Lemma emit_records_ok w rs pts :
  sealer_wf w -> rs_next_sequence w + len rs <= U64_MAX ->
  Forall2 (fun r pt => record_encode r = Ok pt) rs pts ->
  emit_records w rs = (advance w (len rs), imap (frame_of w) pts, None).
Proof.
  intros Hw Hn Hf. revert w Hw Hn. induction Hf as [|r pt rs pts Hr Hf IH]; intros w Hw Hn.
  { cbn. unfold advance. rewrite len_nil, Z.add_0_r. by destruct w. }
  rewrite len_cons in *. pose proof (len_nonneg rs). cbn [emit_records].
  rewrite (seal_framed_ok w r pt) by (done || lia). rewrite IH.
  - unfold advance. cbn. rewrite Z.add_assoc. f_equal. f_equal. f_equal.
    apply imap_ext. intros i x _. unfold frame_of, record_seal. cbn.
    by rewrite Nat2Z.inj_succ, <-Z.add_assoc, Z.add_1_l.
  - destruct Hw as (? & ? & ? & ?). split_and!; try done. cbn. lia.
  - cbn. lia.
Qed.
End Records.

(** ** Properties *)
Section Channel.
Context {P : CryptoPrims} {HP : CryptoLaws P} {H : HttpCrate} {T : HeaderText}.
Context {SerStart : JsonSer ResponseStart} {SerFail : JsonSer ResponseFailure}.

(** Serialising a failure with a short ASCII code succeeds and is short. *)
Definition failure_json_small : Prop :=
  forall code, str_len code <= MAX_RESPONSE_ERROR_CODE_BYTES ->
    exists md, json_to_vec (MkResponseFailure code) = Some md /\ len md <= MAX_RESPONSE_METADATA_BYTES.

Lemma encode_metadata_ok {A} `{S : JsonSer A} tag (v : A) md :
  json_to_vec v = Some md -> len md <= MAX_RESPONSE_METADATA_BYTES ->
  encode_metadata tag v = Ok (tag :: md).
Proof.
  intros E Hl. unfold encode_metadata. rewrite E. bsimpl.
  unfold MAX_RESPONSE_METADATA_BYTES, MAX_RESPONSE_RECORD_PLAINTEXT_BYTES, MAX_RESPONSE_CHUNK_BYTES in *.
  destruct (Z.ltb_spec (64 * 1024) (len md)); [lia|].
  destruct (Z.ltb_spec (1 + 64 * 1024) (len md + 1)); [lia|done].
Qed.

Lemma error_encodes code :
  failure_json_small -> validate_error_code code = Ok tt ->
  exists pt, record_encode (ServerFraming.Error code) = Ok pt.
Proof.
  intros Hs Hv. cbn [record_encode]. rewrite Hv. bsimpl. unfold validate_error_code in Hv.
  destruct (_ || _) eqn:Eb in Hv; [done|]. bool_to_prop.
  destruct (Hs code) as (md & E & Hl); [done|]. eexists. by apply encode_metadata_ok.
Qed.

Lemma body_records_encode body :
  failure_json_small -> exists pts, Forall2 (fun r pt => record_encode r = Ok pt) (body_records body) pts.
Proof.
  intros Hs. induction body as [|f body [pts IH]].
  { exists [[END_TAG]]. by repeat constructor. }
  destruct f as [bytes| | |]; cbn [body_records].
  - destruct (chunks_spec bytes) as [_ Hc].
    exists ((cons CHUNK_TAG <$> chunks MAX_RESPONSE_CHUNK_BYTES bytes) ++ pts).
    apply Forall2_app; [|done]. induction Hc as [|c l Hc _ IHc]; cbn; constructor; [|done].
    cbn [record_encode]. by destruct (Z.ltb_spec MAX_RESPONSE_CHUNK_BYTES (len c)); [lia|].
  - destruct (error_encodes "application_trailers_unsupported" Hs) as [pt E]; [done|].
    exists [pt]. by repeat constructor.
  - destruct (error_encodes "application_frame_unsupported" Hs) as [pt E]; [done|].
    exists [pt]. by repeat constructor.
  - destruct (error_encodes "application_body_failed" Hs) as [pt E]; [done|].
    exists [pt]. by repeat constructor.
Qed.

Lemma response_head_valid response : response_start_validate (response_head response).1 = Ok tt.
Proof.
  unfold response_head, response_start_new.
  destruct (response_start_validate (MkResponseStart _ _)) as [[]|] eqn:E; bsimpl; [exact E|reflexivity].
Qed.

Lemma encrypted_response_head p a response :
  encrypted_response p a response =
    '(begun, p) ← begin_response p a;
    match begun with
    | Err _ => Some (Err Unavailable, p)
    | Ok w =>
        match seal_framed w (ServerFraming.Start (response_head response).1) with
        | (_, Err _) => Some (Err Unavailable, p)
        | (w, Ok first) =>
            let (rest, e) := emit_body w (response_head response).2 in Some (Ok (first :: rest, e), p)
        end
    end.
Proof.
  unfold encrypted_response, response_head. by destruct (response_start_new _ _).
Qed.

Lemma response_sealer_ok s rid :
  secrets_wf s -> len rid = 16 -> exists w, response_sealer s rid = Ok w /\ sealer_wf w /\
    rs_next_sequence w = 0 /\ rs_session_id w = ss_session_id s /\ rs_request_id w = rid.
Proof.
  intros (_ & Hk & Hs) Hr. unfold response_sealer.
  destruct (derive_record_subkey_ok (ss_response_key s) RESPONSE_SUBKEY_INFO (ss_session_id s) rid Hk)
    as (key & E & Hl). rewrite E. eexists. split; [done|]. cbn. unfold sealer_wf. cbn. done.
Qed.

(** Once a request is admitted its answer stays inside the encrypted channel: if the head's
    metadata fits, the gateway sends the application's head (or a bare 500), all body data in
    order and exactly one terminal record, each sealed under the next sequence number, never an
    unencrypted error, and gives up its reference to the session. *)
Lemma encrypted_response_frames p hs log a s response md :
  inv p (ar_session a :: hs) log -> session_at p (ar_session a) = Some s ->
  secrets_wf (se_secrets s) -> len (ar_request_id a) = 16 ->
  json_to_vec (response_head response).1 = Some md -> len md <= MAX_RESPONSE_METADATA_BYTES ->
  failure_json_small -> len (response_records response) <= U64_MAX ->
  exists w pts p', response_sealer (se_secrets s) (ar_request_id a) = Ok w /\
    Forall2 (fun r pt => record_encode r = Ok pt) (response_records response) pts /\
    encrypted_response p a response = Some (Ok (imap (frame_of w) pts, None), p') /\
    inv p' hs log.
Proof.
  intros Hi Hs Hsec Hr Hj Hl Hf Hn.
  destruct (response_sealer_ok _ _ Hsec Hr) as (w & Ew & Hw & Hseq & _).
  destruct (body_records_encode (response_head response).2 Hf) as [pts Hpts].
  assert (record_encode (ServerFraming.Start (response_head response).1) = Ok (START_TAG :: md)) as Hst.
  { cbn [record_encode]. rewrite response_head_valid. bsimpl. by apply encode_metadata_ok. }
  exists w, ((START_TAG :: md) :: pts), (arc_drop p (ar_session a)).
  split; [done|]. split; [by constructor|]. split; [|by apply inv_drop].
  rewrite encrypted_response_head. unfold begin_response. rewrite Hs. cbn [mbind option_bind]. rewrite Ew.
  pose proof (emit_records_ok w (response_records response) ((START_TAG :: md) :: pts) Hw) as He.
  unfold response_records in He, Hn. rewrite Hseq in He. specialize (He ltac:(lia) ltac:(by constructor)).
  cbn [emit_records] in He. rewrite (seal_framed_ok w _ _ Hw ltac:(rewrite len_cons in Hn; pose proof (len_nonneg (body_records (response_head response).2)); lia) Hst) in *.
  rewrite emit_body_records. destruct (emit_records _ _) as [[w' fs] e].
  cbn [imap] in *. by injection He as _ -> ->.
Qed.

(** A representable head whose metadata exceeds 64 KiB leaves the channel: the gateway answers
    with an unencrypted 503 although the request was admitted, where its comment announces a
    minimal encrypted 500. *)
Theorem oversized_head_answered_outside p a s response start md :
  session_at p (ar_session a) = Some s ->
  response_start_new (resp_status response) (logical_response_headers (resp_headers response)) = Ok start ->
  json_to_vec start = Some md -> MAX_RESPONSE_METADATA_BYTES < len md ->
  exists p', encrypted_response p a response = Some (Err Unavailable, p').
Proof.
  intros Hs Hst Hj Hl. unfold encrypted_response. rewrite Hst. unfold begin_response. rewrite Hs.
  cbn [mbind option_bind]. destruct (response_sealer _ _) as [w|e]; [|by eexists].
  assert (record_encode (ServerFraming.Start start) = Err FrRecordTooLarge) as E.
  { cbn [record_encode]. unfold response_start_new in Hst. result_inv. subst.
    match goal with H : response_start_validate _ = Ok ?u |- _ => destruct u; rewrite H end. bsimpl.
    unfold encode_metadata. rewrite Hj. bsimpl. by rewrite (proj2 (Z.ltb_lt _ _)). }
  unfold seal_framed. rewrite E. by eexists.
Qed.
End Channel.

Section HandlerTheorems.
Context {P : CryptoPrims} {H : HttpCrate} {T : HeaderText} {B : Base64Crate} {X : HexCrate}.
Context {DeReq : JsonDe RequestMetadata} {DeCreate : JsonDe CreateSessionRequest}.
Context {SerStart : JsonSer ResponseStart} {SerFail : JsonSer ResponseFailure}.

(** C31: The gateway's handlers keep the process invariant and account for every session
    reference: creating a session and the early lookup keep none, an admission keeps exactly the
    session it answers for, found under the given identifier and routing key and not expired,
    and answering releases both references, whatever the request and the branch taken. *)
Theorem gateway_handlers_balanced p hs log :
  inv p hs log ->
  (forall request secret attest now later, exists res p',
     create_session p request secret attest now later = Some (res, p') /\ inv p' hs log) /\
  (forall request now, exists res p', dispatch_check p request now = Some (res, p') /\ inv p' hs log) /\
  (forall id key body now, exists res p', dispatch_admit p id key body now = Some (res, p') /\
     match res with
     | Ok (r, a, _) => r = ar_session a /\ inv p' (r :: ar_session a :: hs) (a :: log) /\
         (exists s, session_at p' r = Some s /\ se_routing_key s = key /\ session_id s = id /\
            is_expired s now = false) /\
         forall response, exists res' p'', dispatch_respond p' r a response = Some (res', p'') /\
           inv p'' hs (a :: log)
     | Err _ => inv p' hs log
     end).
Proof.
  intros Hi. split_and!.
  - intros. by apply create_session_inv.
  - intros. by apply dispatch_check_inv.
  - intros id key body now. destruct (dispatch_admit_inv _ _ _ id key body now Hi) as (res & p' & E & Hr).
    exists res, p'. split; [done|]. destruct res as [[[r a] q]|e]; [|done].
    destruct Hr as (Hra & Hi' & Hs). split_and!; try done. intros response.
    assert (inv p' (ar_session a :: r :: hs) (a :: log)) as Hi2 by (by eapply inv_perm, Hi'; constructor).
    destruct (inv_session _ _ _ (ar_session a) Hi2) as [s Es]; [apply owners_held; by left|].
    unfold dispatch_respond. rewrite encrypted_response_head. unfold begin_response.
    rewrite Es. cbn [mbind option_bind]. apply inv_drop in Hi2. apply inv_drop in Hi2.
    destruct (response_sealer _ _) as [w|e]; cbn [mbind option_bind]; [|by eexists _, _].
    destruct (seal_framed w _) as [w' [f|e]]; cbn [mbind option_bind]; [|by eexists _, _].
    destruct (emit_body w' _) as [fs e]. cbn [mbind option_bind]. by eexists _, _.
Qed.
End HandlerTheorems.

(** ** Witnesses *)
#[local] Existing Instances Toy.toy_crypto Toy.toy_crypto_laws Toy.toy_hex ToyHttp.toy_http
  ToyHttp.toy_header_text ToyHttp.toy_base64.

Definition sample_ser_start : JsonSer ResponseStart := fun _ => Some [x7b; x7d].
Definition sample_ser_big : JsonSer ResponseStart := fun _ => Some (replicate (Z.to_nat 65537) x00).
Definition sample_ser_fail : JsonSer ResponseFailure := fun f => Some (as_bytes (rf_code f)).
Definition sample_de_request : JsonDe RequestMetadata := fun _ => None.
Definition sample_de_create : JsonDe CreateSessionRequest := fun _ => None.
#[local] Existing Instances sample_ser_fail sample_de_request sample_de_create.

Definition sample_response : AppResponse :=
  MkAppResponse 200 [("content-type"%string, as_bytes "text/plain")] [Data [x68; x69]; Data [x21]].

Lemma sample_failure_small : failure_json_small.
Proof.
  intros code Hc. exists (as_bytes code). split; [done|]. rewrite len_as_bytes.
  unfold MAX_RESPONSE_ERROR_CODE_BYTES, MAX_RESPONSE_METADATA_BYTES in *. lia.
Qed.

Lemma sample_inv : inv sample_proc1 [1%positive; 1%positive] [sample_admission].
Proof.
  apply (sys_reachable_inv 8 4 sample_sys (proj1 sample_bounds) (proj2 sample_bounds)
           sample_sys_reachable).
Qed.

Lemma oversized_head_answered_outside_witness :
  exists p', encrypted_response (SerStart := sample_ser_big) sample_proc1 sample_admission
    sample_response = Some (Err Unavailable, p').
Proof.
  apply (oversized_head_answered_outside (SerStart := sample_ser_big) sample_proc1 sample_admission
    (claimed_session sample_session (replicate 16 x07)) sample_response
    (MkResponseStart 200 [MkLogicalHeader "content-type" "text/plain"])
    (replicate (Z.to_nat 65537) x00)); [vm_compute; reflexivity..|reflexivity|].
  unfold len. rewrite length_replicate, Z2Nat.id; [reflexivity|discriminate].
Defined.

Lemma gateway_handlers_balanced_witness :
  exists res p', dispatch_admit sample_proc1 (replicate 16 x01) (replicate 32 x09)
    (Some sample_record) 6 = Some (res, p') .
Proof.
  destruct (gateway_handlers_balanced (SerStart := sample_ser_start) sample_proc1
    [1%positive; 1%positive] [sample_admission] sample_inv) as (_ & _ & Hd).
  destruct (Hd (replicate 16 x01) (replicate 32 x09) (Some sample_record) 6) as (res & p' & E & _).
  exists res, p'. exact E.
Defined.
