(* ===== verification/SdkCrypto.v ===== *)
(** * Transport-v2 record cryptography, client side
    ([sdk/rust/src/transport_v2/crypto.rs], errors of [sdk/rust/src/transport_v2/mod.rs])

    The SDK keeps its own copy of the key schedule and of the record formats; [Tunnel] relates it
    to the enclave's. *)
From Stdlib Require Import Strings.Byte.
From S2P Require Import Prelude Primitives.

Inductive SessionRecoveryHint := SessionNotFound | RequestDecryptionFailed.

(** [Http] carries a [reqwest] error, which the wire protocol never inspects. *)
Inductive TransportV2Error :=
| InvalidConfiguration
| RandomnessUnavailable
| AttestationRejected
| InvalidSessionResponse
| SessionExpired
| KeyDerivation
| NonContributoryKey
| InvalidRequest
| Encryption
| Authentication
| UntrustedOuterResponse
| RecoveryHint (h : SessionRecoveryHint)
| Http
| InvalidFrame
| InvalidRecord
| InvalidSequence
| TruncatedResponse
| PostTerminalData.

#[global] Instance SessionRecoveryHint_eq_dec : EqDecision SessionRecoveryHint.
Proof. solve_decision. Defined.
#[global] Instance TransportV2Error_eq_dec : EqDecision TransportV2Error.
Proof. solve_decision. Defined.

(** [sdk::Result] *)
Abbreviation sdk_result A := (result TransportV2Error A) (only parsing).

Definition ROUTING_KEY_HEADER : string := "x-opensecret-routing-key".

Definition HANDSHAKE_CHALLENGE_BYTES : Z := 32.
Definition X25519_PUBLIC_KEY_BYTES : Z := 32.
Definition SESSION_ID_BYTES : Z := 16.
Definition RECORD_TAG_BYTES : Z := 16.
Definition MIN_REQUEST_RECORD_BYTES : Z := 16 + RECORD_TAG_BYTES.
Definition RECORD_NONCE_BYTES : Z := 12.

Definition HANDSHAKE_DOMAIN := as_bytes "opensecret/transport-v2/session/v1".
Definition ATTESTATION_USER_DATA_DOMAIN :=
  as_bytes "opensecret/transport-v2/session/v1/client-public-key".
Definition REQUEST_KEY_INFO := as_bytes "opensecret/transport-v2/request-key/v1".
Definition RESPONSE_KEY_INFO := as_bytes "opensecret/transport-v2/response-key/v1".
Definition SESSION_ID_INFO := as_bytes "opensecret/transport-v2/session-id/v1".
Definition REQUEST_SUBKEY_INFO := as_bytes "opensecret/transport-v2/request-subkey/v1".
Definition RESPONSE_SUBKEY_INFO := as_bytes "opensecret/transport-v2/response-subkey/v1".
Definition REQUEST_RECORD_DOMAIN := as_bytes "opensecret/transport-v2/request-record/v1".
Definition RESPONSE_RECORD_DOMAIN := as_bytes "opensecret/transport-v2/response-record/v1".

Abbreviation SessionId := (list byte) (only parsing).
Abbreviation RequestId := (list byte) (only parsing).
Abbreviation TrafficKey := (list byte) (only parsing).

Record HandshakeTranscript := MkHandshakeTranscript {
  ht_challenge : list byte;
  ht_client_public_key : list byte;
  ht_server_public_key : list byte;
}.

Record SessionSecrets := MkSessionSecrets {
  ss_session_id : SessionId;
  ss_request_key : TrafficKey;
  ss_response_key : TrafficKey;
}.

Record ResponseOpener := MkResponseOpener {
  ro_session_id : SessionId;
  ro_request_id : RequestId;
  ro_key : TrafficKey;
  ro_next_sequence : Z;
}.

Definition attestation_user_data (client_public_key : list byte) : list byte :=
  ATTESTATION_USER_DATA_DOMAIN ++ [x00] ++ client_public_key.

Definition key_info (label transcript_digest : list byte) : list byte :=
  label ++ [x00] ++ transcript_digest.

Definition request_aad (session_id : SessionId) (request_id : RequestId) : list byte :=
  REQUEST_RECORD_DOMAIN ++ [x00] ++ session_id ++ request_id.

Definition response_aad (session_id : SessionId) (request_id : RequestId) (sequence : Z) :
    list byte :=
  RESPONSE_RECORD_DOMAIN ++ [x00] ++ session_id ++ request_id ++ to_be_bytes 8 sequence.

(** [nonce[4..]] of a zeroed nonce receives the big-endian sequence. *)
Definition response_nonce (sequence : Z) : list byte :=
  take 4 (replicate (Z.to_nat RECORD_NONCE_BYTES) x00) ++ to_be_bytes 8 sequence.

Section SdkCrypto.
Context {P : CryptoPrims}.

Definition digest (t : HandshakeTranscript) : list byte :=
  sha256 (HANDSHAKE_DOMAIN ++ [x00] ++ ht_challenge t ++ ht_client_public_key t
            ++ ht_server_public_key t).

Definition derive_record_subkey (base_key : TrafficKey) (label : list byte)
    (session_id : SessionId) (request_id : RequestId) : sdk_result TrafficKey :=
  hkdf ← ok_or (hkdf_from_prk base_key) KeyDerivation;
  ok_or (hkdf_expand hkdf (label ++ [x00] ++ session_id ++ request_id) 32) KeyDerivation.

Definition seal (key : TrafficKey) (aad nonce plaintext : list byte) : sdk_result (list byte) :=
  ok_or (aead_encrypt key nonce aad plaintext) Encryption.

Definition open (key : TrafficKey) (aad nonce record : list byte) : sdk_result (list byte) :=
  if len record <? RECORD_TAG_BYTES then Err InvalidFrame
  else ok_or (aead_decrypt key nonce aad record) Authentication.

Definition derive_session_secrets (shared_secret : list byte) (transcript : HandshakeTranscript) :
    sdk_result SessionSecrets :=
  if decide (shared_secret = replicate 32 x00) then Err NonContributoryKey
  else
    let transcript_digest := digest transcript in
    let hkdf := hkdf_extract (ht_challenge transcript) shared_secret in
    request_key ← ok_or (hkdf_expand hkdf (key_info REQUEST_KEY_INFO transcript_digest) 32)
                     KeyDerivation;
    response_key ← ok_or (hkdf_expand hkdf (key_info RESPONSE_KEY_INFO transcript_digest) 32)
                     KeyDerivation;
    session_id ← ok_or (hkdf_expand hkdf (key_info SESSION_ID_INFO transcript_digest)
                          SESSION_ID_BYTES) KeyDerivation;
    Ok (MkSessionSecrets session_id request_key response_key).

Definition derive_client_session (client_secret : EphemeralSecret)
    (transcript : HandshakeTranscript) : sdk_result SessionSecrets :=
  derive_session_secrets (diffie_hellman client_secret (ht_server_public_key transcript))
    transcript.

Definition encrypt_request (s : SessionSecrets) (request_id : RequestId) (plaintext : list byte) :
    sdk_result (list byte) :=
  key ← derive_record_subkey (ss_request_key s) REQUEST_SUBKEY_INFO (ss_session_id s) request_id;
  ciphertext ← seal key (request_aad (ss_session_id s) request_id)
                 (replicate (Z.to_nat RECORD_NONCE_BYTES) x00) plaintext;
  Ok (request_id ++ ciphertext).

Definition response_opener (s : SessionSecrets) (request_id : RequestId) :
    sdk_result ResponseOpener :=
  key ← derive_record_subkey (ss_response_key s) RESPONSE_SUBKEY_INFO (ss_session_id s) request_id;
  Ok (MkResponseOpener (ss_session_id s) request_id key 0).

(** The sequence advances only after the record authenticated. *)
Definition open_next (o : ResponseOpener) (record : list byte) :
    ResponseOpener * sdk_result (list byte) :=
  let sequence := ro_next_sequence o in
  match open (ro_key o) (response_aad (ro_session_id o) (ro_request_id o) sequence)
          (response_nonce sequence) record with
  | Err e => (o, Err e)
  | Ok plaintext =>
      match checked_add_u64 sequence 1 with
      | None => (o, Err InvalidSequence)
      | Some next =>
          (MkResponseOpener (ro_session_id o) (ro_request_id o) (ro_key o) next, Ok plaintext)
      end
  end.
End SdkCrypto.

(** ** Identifiers as text *)
Section SessionIdText.
Context {H : HexCrate}.

Definition session_id_to_string (id : SessionId) : string := hex_encode id.

Definition session_id_from_str (value : string) : sdk_result SessionId :=
  let encoded := as_bytes value in
  if negb (len encoded =? SESSION_ID_BYTES * 2) || negb (forallb is_lower_hex encoded)
  then Err InvalidSessionResponse
  else ok_or (hex_decode_to_slice encoded SESSION_ID_BYTES) InvalidSessionResponse.

(** A session identifier printed by either end parses back to itself, and the parser accepts
    nothing but the canonical lower-case text of the right length. *)
Theorem session_id_text_roundtrip {HL : HexLaws H} id :
  len id = SESSION_ID_BYTES ->
  session_id_from_str (session_id_to_string id) = Ok id /\
  forall s id', session_id_from_str s = Ok id' ->
    len (as_bytes s) = 32 /\ forallb is_lower_hex (as_bytes s) = true /\ len id' = 16.
Proof.
  unfold session_id_from_str, session_id_to_string. intros Hid. split.
  - rewrite hex_encode_len, hex_encode_lower, (proj2 (Z.eqb_eq _ _)) by lia. cbn [negb orb].
    by rewrite <-Hid, hex_decode_encode.
  - intros s id'. destruct (_ || _) eqn:E; [done|]. bool_to_prop. intros Hd%ok_or_ok.
    apply hex_decode_len in Hd. done.
Qed.
End SessionIdText.

Lemma session_id_text_roundtrip_witness :
  @session_id_from_str Toy.toy_hex (@session_id_to_string Toy.toy_hex (replicate 16 xab))
  = Ok (replicate 16 xab).
Proof.
  apply (@session_id_text_roundtrip Toy.toy_hex Toy.toy_hex_laws (replicate 16 xab)). reflexivity.
Defined.
