(* ===== verification/SdkEnvelope.v ===== *)
(** * Request encoding, client side ([sdk/rust/src/transport_v2/envelope.rs]) *)
From Stdlib Require Import Strings.Byte.
From S2P Require Import Prelude Primitives WireCrates SdkCrypto.

Definition VERSION : Z := 2.
Definition REQUEST_ID_BYTES : Z := 16.
Definition METADATA_LENGTH_BYTES : Z := 4.
Definition MAX_METADATA_BYTES : Z := 128 * 1024.
Definition MAX_BODY_BYTES : Z := 50 * 1024 * 1024.
Definition MAX_CREDENTIAL_BYTES : Z := 16 * 1024.
Definition MAX_METHOD_BYTES : Z := 32.
Definition MAX_TARGET_BYTES : Z := 16 * 1024.
Definition MAX_HEADER_COUNT : Z := 64.

Inductive CredentialKind := Bearer | ApiKey | Resumption.

Record Credential := MkCredential { cred_kind : CredentialKind; cred_value : string }.

Record LogicalHeader := MkLogicalHeader { lh_name : string; lh_value : string }.

Record RequestMetadata := MkRequestMetadata {
  md_version : Z;
  md_credential : option Credential;
  md_cache_namespace_root : option (list byte);
  md_method : string;
  md_target : string;
  md_headers : list LogicalHeader;
  md_body_present : bool;
}.

(** [RequestId::random], the operating system's answer being the argument. *)
Definition request_id_random (os_rng : option (list byte)) : sdk_result RequestId :=
  ok_or os_rng RandomnessUnavailable.

(** [matches!(byte, 0x21..=0x7e)] *)
Definition is_visible_ascii (b : byte) : bool := (33 <=? byte_val b) && (byte_val b <=? 126).

Definition credential_new (kind : CredentialKind) (value : string) : sdk_result Credential :=
  if (str_len value =? 0) || (MAX_CREDENTIAL_BYTES <? str_len value)
     || negb (forallb is_visible_ascii (as_bytes value))
  then Err InvalidRequest else Ok (MkCredential kind value).

Definition is_gateway_controlled_header (name : string) : bool :=
  existsb (fun n => bool_decide (name = n))
    ["authorization"; "proxy-authorization"; "cookie"; "set-cookie"; "host"; "content-length";
     "transfer-encoding"; "connection"; "keep-alive"; "te"; "trailer"; "upgrade"; "forwarded";
     "via"; "x-forwarded-for"; "x-forwarded-host"; "x-forwarded-proto"; "x-session-id";
     ROUTING_KEY_HEADER]%string.

Section SdkEnvelope.
Context {H : HttpCrate}.

Record LogicalRequest := MkLogicalRequest {
  lr_credential : option Credential;
  lr_cache_namespace_root : option (list byte);
  lr_method : Method;
  lr_target : string;
  lr_headers : list LogicalHeader;
  lr_body : option (list byte);
}.

Definition validate_target (target : string) : sdk_result unit :=
  if (str_len target =? 0) || (MAX_TARGET_BYTES <? str_len target)
     || negb (starts_with "/" target) || starts_with "//" target
     || (contains_byte x23 target || contains_byte x5c target)
  then Err InvalidRequest
  else
    uri ← ok_or (uri_from_str target) InvalidRequest;
    if is_some (uri_scheme uri) || is_some (uri_authority uri)
       || is_none_or (fun pq => negb (bool_decide (pq = target))) (uri_path_and_query uri)
    then Err InvalidRequest else Ok tt.

Definition validate_header (h : LogicalHeader) : sdk_result unit :=
  parsed_name ← ok_or (header_name_from_bytes (as_bytes (lh_name h))) InvalidRequest;
  if negb (bool_decide (parsed_name = lh_name h)) || is_gateway_controlled_header parsed_name
  then Err InvalidRequest
  else if header_value_is_ok (lh_value h) then Ok tt else Err InvalidRequest.

Fixpoint validate_each (hs : list LogicalHeader) : sdk_result unit :=
  match hs with
  | [] => Ok tt
  | h :: hs => _ ← validate_header h; validate_each hs
  end.

Definition validate_headers (headers : list LogicalHeader) : sdk_result unit :=
  if MAX_HEADER_COUNT <? len headers then Err InvalidRequest else validate_each headers.

Definition logical_header_new (name value : string) : sdk_result LogicalHeader :=
  let header := MkLogicalHeader name value in
  _ ← validate_header header; Ok header.

Definition validate (r : LogicalRequest) : sdk_result unit :=
  if MAX_METHOD_BYTES <? str_len (method_as_str (lr_method r)) then Err InvalidRequest
  else
    _ ← validate_target (lr_target r);
    _ ← validate_headers (lr_headers r);
    if MAX_BODY_BYTES <? map_or 0 len (lr_body r) then Err InvalidRequest else Ok tt.

Definition logical_request_new (credential : option Credential)
    (cache_namespace_root : option (list byte)) (method : Method) (target : string)
    (headers : list LogicalHeader) (body : option (list byte)) : sdk_result LogicalRequest :=
  let request := MkLogicalRequest credential cache_namespace_root method target headers body in
  _ ← validate request; Ok request.

Context {Ser : JsonSer RequestMetadata}.

Definition encode (r : LogicalRequest) : sdk_result (list byte) :=
  _ ← validate r;
  let metadata := MkRequestMetadata VERSION (lr_credential r) (lr_cache_namespace_root r)
                    (method_as_str (lr_method r)) (lr_target r) (lr_headers r)
                    (is_some (lr_body r)) in
  encoded_metadata ← ok_or (json_to_vec metadata) InvalidRequest;
  if MAX_METADATA_BYTES <? len encoded_metadata then Err InvalidRequest
  else
    let body := default [] (lr_body r) in
    Ok (to_be_bytes 4 (wrap_u32 (len encoded_metadata)) ++ encoded_metadata ++ body).
End SdkEnvelope.

(** ** What the client guarantees of an encoded request *)
Section Theory.
Context {H : HttpCrate} {Ser : JsonSer RequestMetadata}.

Lemma sdk_validate_each_ok hs :
  validate_each hs = Ok tt <-> Forall (fun h => validate_header h = Ok tt) hs.
Proof.
  induction hs as [|h hs IH]; cbn [validate_each]; [split; constructor|].
  rewrite result_bind_ok, Forall_cons, <-IH. split.
  - by intros ([] & ? & ?).
  - intros [? ?]. by exists tt.
Qed.

Lemma sdk_validate_header_ok h :
  validate_header h = Ok tt <->
  header_name_from_bytes (as_bytes (lh_name h)) = Some (lh_name h) /\
  is_gateway_controlled_header (lh_name h) = false /\ header_value_is_ok (lh_value h) = true.
Proof.
  unfold validate_header. rewrite result_bind_ok. split.
  - intros (n & E%ok_or_ok & Hn). case_bool_decide; [|done]. subst n. cbn [negb orb] in Hn.
    destruct (is_gateway_controlled_header _); [done|]. by destruct (header_value_is_ok _).
  - intros (E & Hg & Hv). exists (lh_name h). split; [by rewrite E|].
    rewrite bool_decide_true by done. cbn [negb orb]. by rewrite Hg, Hv.
Qed.

Lemma validate_inv r :
  validate r = Ok tt ->
  str_len (method_as_str (lr_method r)) <= MAX_METHOD_BYTES /\
  validate_target (lr_target r) = Ok tt /\ len (lr_headers r) <= MAX_HEADER_COUNT /\
  Forall (fun h => validate_header h = Ok tt) (lr_headers r) /\
  map_or 0 len (lr_body r) <= MAX_BODY_BYTES.
Proof.
  unfold validate, validate_headers.
  destruct (Z.ltb_spec MAX_METHOD_BYTES (str_len (method_as_str (lr_method r)))) as [|Hm]; [done|].
  intros E. result_inv. repeat match goal with u : unit |- _ => destruct u end.
  destruct (Z.ltb_spec MAX_HEADER_COUNT (len (lr_headers r))) as [|Hh]; [done|].
  destruct (Z.ltb_spec MAX_BODY_BYTES (map_or 0 len (lr_body r))) as [|Hb]; [done|].
  split_and!; try done. by apply sdk_validate_each_ok.
Qed.

(** The metadata [encode] writes. *)
Definition metadata_of (r : LogicalRequest) : RequestMetadata :=
  MkRequestMetadata VERSION (lr_credential r) (lr_cache_namespace_root r)
    (method_as_str (lr_method r)) (lr_target r) (lr_headers r) (is_some (lr_body r)).

Lemma encode_inv r bytes :
  encode r = Ok bytes ->
  validate r = Ok tt /\ exists md, json_to_vec (metadata_of r) = Some md /\
    len md <= MAX_METADATA_BYTES /\ bytes = to_be_bytes 4 (len md) ++ md ++ default [] (lr_body r).
Proof.
  unfold encode. intros E. result_inv. repeat match goal with u : unit |- _ => destruct u end.
  split; [done|]. match goal with H : json_to_vec _ = Some ?m |- _ => exists m end.
  destruct (Z.ltb_spec MAX_METADATA_BYTES (len x0)) as [|Hl]; [done|]. result_inv. subst.
  split_and!; try done. unfold wrap_u32. rewrite Z.mod_small; [done|].
  unfold MAX_METADATA_BYTES in Hl. pose proof (len_nonneg x0). lia.
Qed.
End Theory.
