(* ===== verification/SdkFraming.v ===== *)
(** * The incremental response decoder, client side ([sdk/rust/src/transport_v2/framing.rs])

    [push] takes network input in arbitrary pieces; [finish] is called at end of stream and
    releases the withheld terminal record.  The loop of [push] runs on fuel: every iteration
    consumes input, so the length of the input is enough ([push_total]). *)
From Stdlib Require Import Strings.Byte.
From S2P Require Import Prelude Primitives WireCrates SdkCrypto SdkEnvelope.

Definition CIPHERTEXT_LENGTH_BYTES : nat := 4.
Definition MAX_RESPONSE_CHUNK_BYTES : Z := 64 * 1024.
Definition MAX_RESPONSE_METADATA_BYTES : Z := 64 * 1024.
Definition MAX_RESPONSE_RECORD_PLAINTEXT_BYTES : Z := 1 + MAX_RESPONSE_CHUNK_BYTES.
Definition MAX_RESPONSE_RECORD_CIPHERTEXT_BYTES : Z :=
  MAX_RESPONSE_RECORD_PLAINTEXT_BYTES + RECORD_TAG_BYTES.
Definition MAX_RESPONSE_HEADER_COUNT : Z := 32.
Definition MAX_RESPONSE_ERROR_CODE_BYTES : Z := 64.

Definition START_TAG : byte := x01.
Definition CHUNK_TAG : byte := x02.
Definition END_TAG : byte := x03.
Definition ERROR_TAG : byte := x04.

Inductive ResponseEvent :=
| Start (status : Z) (headers : list LogicalHeader)
| Chunk (bytes : list byte)
| End
| Error (code : string).

Record ResponseStart := MkResponseStart { rst_status : Z; rst_headers : list LogicalHeader }.
Record ResponseFailure := MkResponseFailure { rf_code : string }.

Inductive DecodeState :=
| AwaitingStart
| Open
| PendingTerminal (e : ResponseEvent)
| Finished.

Record ResponseDecoder := MkResponseDecoder {
  rd_opener : ResponseOpener;
  rd_state : DecodeState;
  rd_length_prefix : list byte;
  rd_length_prefix_bytes : nat;
  rd_expected_ciphertext_bytes : option nat;
  rd_ciphertext : list byte;
}.

Definition decoder_new (opener : ResponseOpener) : ResponseDecoder :=
  MkResponseDecoder opener AwaitingStart (replicate CIPHERTEXT_LENGTH_BYTES x00) 0 None [].

Definition is_code_byte (b : byte) : bool :=
  ((97 <=? byte_val b) && (byte_val b <=? 122)) || ((48 <=? byte_val b) && (byte_val b <=? 57))
  || (byte_val b =? 95).

Definition is_terminal (e : ResponseEvent) : bool :=
  match e with End | Error _ => true | _ => false end.

Section SdkFraming.
Context {P : CryptoPrims} {H : HttpCrate}.
Context {DeStart : JsonDe ResponseStart} {DeFail : JsonDe ResponseFailure}.

Fixpoint revalidate_headers (hs : list LogicalHeader) : sdk_result unit :=
  match hs with
  | [] => Ok tt
  | h :: hs => _ ← logical_header_new (lh_name h) (lh_value h); revalidate_headers hs
  end.

Definition decode_plaintext_record (encoded : list byte) : sdk_result ResponseEvent :=
  match encoded with
  | [] => Err InvalidRecord
  | tag :: payload =>
      if decide (tag = START_TAG) then
        if MAX_RESPONSE_METADATA_BYTES <? len payload then Err InvalidRecord
        else
          start ← ok_or (json_from_slice payload) InvalidRecord;
          if negb ((200 <=? rst_status start) && (rst_status start <=? 599))
             || (MAX_RESPONSE_HEADER_COUNT <? len (rst_headers start))
          then Err InvalidRecord
          else
            _ ← revalidate_headers (rst_headers start);
            Ok (Start (rst_status start) (rst_headers start))
      else if bool_decide (tag = CHUNK_TAG) && (len payload <=? MAX_RESPONSE_CHUNK_BYTES) then
        Ok (Chunk payload)
      else if bool_decide (tag = END_TAG) && (len payload =? 0) then Ok End
      else if decide (tag = ERROR_TAG) then
        if MAX_RESPONSE_METADATA_BYTES <? len payload then Err InvalidRecord
        else
          failure ← ok_or (json_from_slice payload) InvalidRecord;
          if (str_len (rf_code failure) =? 0)
             || (MAX_RESPONSE_ERROR_CODE_BYTES <? str_len (rf_code failure))
             || negb (forallb is_code_byte (as_bytes (rf_code failure)))
          then Err InvalidRecord
          else Ok (Error (rf_code failure))
      else Err InvalidRecord
  end.

Definition decode_record (d : ResponseDecoder) (ciphertext : list byte) :
    ResponseDecoder * sdk_result ResponseEvent :=
  let (opener, opened) := open_next (rd_opener d) ciphertext in
  let with_state st :=
    MkResponseDecoder opener st (rd_length_prefix d) (rd_length_prefix_bytes d)
      (rd_expected_ciphertext_bytes d) (rd_ciphertext d) in
  match (plaintext ← opened; decode_plaintext_record plaintext) with
  | Err e => (with_state (rd_state d), Err e)
  | Ok event =>
      match rd_state d, event with
      | AwaitingStart, Start _ _ => (with_state Open, Ok event)
      | Open, Chunk _ | Open, End | Open, Error _ => (with_state (rd_state d), Ok event)
      | _, _ => (with_state (rd_state d), Err InvalidSequence)
      end
  end.

(** The first half of an iteration, lines 93-110: [inl] holds the decoder, the input left and
    whether the length is known (otherwise [continue]); [inr] is the early return. *)
Definition take_prefix (d : ResponseDecoder) (input : list byte) :
    (ResponseDecoder * list byte * bool) + (ResponseDecoder * TransportV2Error) :=
  match rd_expected_ciphertext_bytes d with
  | Some _ => inl (d, input, true)
  | None =>
      let needed := (CIPHERTEXT_LENGTH_BYTES - rd_length_prefix_bytes d)%nat in
      let n := Nat.min needed (length input) in
      let filled := (rd_length_prefix_bytes d + n)%nat in
      let prefix := take (rd_length_prefix_bytes d) (rd_length_prefix d) ++ take n input
                      ++ drop filled (rd_length_prefix d) in
      let d' e := MkResponseDecoder (rd_opener d) (rd_state d) prefix filled e (rd_ciphertext d) in
      if Nat.ltb filled CIPHERTEXT_LENGTH_BYTES then inl (d' None, drop n input, false)
      else
        let length := from_be_bytes prefix in
        if negb ((RECORD_TAG_BYTES <=? length) && (length <=? MAX_RESPONSE_RECORD_CIPHERTEXT_BYTES))
        then inr (d' None, InvalidFrame)
        else inl (d' (Some (Z.to_nat length)), drop n input, true)
  end.

(** One iteration of the loop either continues, with the input left and the event pushed if
    any, or returns an error; [Panic] is the [expect] or a subtraction below zero. *)
Inductive iteration :=
| Continue (d : ResponseDecoder) (input : list byte) (event : option ResponseEvent)
| Return (d : ResponseDecoder) (e : TransportV2Error)
| Panic.

(** Lines 123-135, a complete ciphertext: decode it and withhold a terminal event. *)
Definition complete_record (d : ResponseDecoder) (ciphertext input : list byte) : iteration :=
  let d := MkResponseDecoder (rd_opener d) (rd_state d) (rd_length_prefix d) 0 None [] in
  let (d, decoded) := decode_record d ciphertext in
  match decoded with
  | Err e => Return d e
  | Ok event =>
      if is_terminal event then
        let d := MkResponseDecoder (rd_opener d) (PendingTerminal event) (rd_length_prefix d)
                   (rd_length_prefix_bytes d) (rd_expected_ciphertext_bytes d) (rd_ciphertext d) in
        match input with [] => Continue d [] None | _ :: _ => Return d PostTerminalData end
      else Continue d input (Some event)
  end.

(** Lines 112-135, once the length is known. *)
Definition take_ciphertext (d : ResponseDecoder) (input : list byte) : iteration :=
  match rd_expected_ciphertext_bytes d with
  | None => Panic
  | Some expected =>
      if Nat.ltb expected (length (rd_ciphertext d)) then Panic
      else
        let needed := (expected - length (rd_ciphertext d))%nat in
        let n := Nat.min needed (length input) in
        let ciphertext := rd_ciphertext d ++ take n input in
        if Nat.ltb (length ciphertext) expected then
          Continue (MkResponseDecoder (rd_opener d) (rd_state d) (rd_length_prefix d)
                      (rd_length_prefix_bytes d) (rd_expected_ciphertext_bytes d) ciphertext)
            (drop n input) None
        else complete_record d ciphertext (drop n input)
  end.

Definition push_iteration (d : ResponseDecoder) (input : list byte) : iteration :=
  match take_prefix d input with
  | inr (d, e) => Return d e
  | inl (d, input, false) => Continue d input None
  | inl (d, input, true) => take_ciphertext d input
  end.

Fixpoint push_loop (fuel : nat) (d : ResponseDecoder) (input : list byte)
    (events : list ResponseEvent) : option (ResponseDecoder * sdk_result (list ResponseEvent)) :=
  match input, fuel with
  | [], _ => Some (d, Ok events)
  | _, O => None
  | _, S fuel =>
      match push_iteration d input with
      | Continue d input event => push_loop fuel d input (events ++ option_list event)
      | Return d e => Some (d, Err e)
      | Panic => None
      end
  end.

Definition push (d : ResponseDecoder) (input : list byte) :
    option (ResponseDecoder * sdk_result (list ResponseEvent)) :=
  match rd_state d, input with
  | Finished, _ => Some (d, Err PostTerminalData)
  | PendingTerminal _, _ :: _ => Some (d, Err PostTerminalData)
  | _, _ => push_loop (length input) d input []
  end.

Definition finish (d : ResponseDecoder) : ResponseDecoder * sdk_result ResponseEvent :=
  if negb (Nat.eqb (rd_length_prefix_bytes d) 0) || is_some (rd_expected_ciphertext_bytes d)
     || negb (Nat.eqb (length (rd_ciphertext d)) 0)
  then (d, Err TruncatedResponse)
  else
    (MkResponseDecoder (rd_opener d) Finished (rd_length_prefix d) (rd_length_prefix_bytes d)
       (rd_expected_ciphertext_bytes d) (rd_ciphertext d),
     match rd_state d with
     | PendingTerminal event => Ok event
     | AwaitingStart | Open => Err TruncatedResponse
     | Finished => Err PostTerminalData
     end).
End SdkFraming.

(** Reduces projections of a decoder, and nothing else. *)
Ltac dsimpl :=
  cbn [rd_opener rd_state rd_length_prefix rd_length_prefix_bytes rd_expected_ciphertext_bytes
       rd_ciphertext].

(** ** The decoder as a stream transducer *)
Section Theory.
Context {P : CryptoPrims} {H : HttpCrate}.
Context {DeStart : JsonDe ResponseStart} {DeFail : JsonDe ResponseFailure}.

(** Between iterations: a partial prefix, or a known length and a partial ciphertext. *)
Definition decoder_wf (d : ResponseDecoder) : Prop :=
  length (rd_length_prefix d) = 4%nat /\
  match rd_expected_ciphertext_bytes d with
  | None => (rd_length_prefix_bytes d < 4)%nat /\ rd_ciphertext d = []
  | Some e => (length (rd_ciphertext d) < e)%nat /\ rd_length_prefix_bytes d = 4%nat
  end.

Lemma decoder_new_wf o : decoder_wf (decoder_new o).
Proof. split; cbn; [done|]. split; [lia|done]. Qed.

Definition set_ciphertext (d : ResponseDecoder) (ct : list byte) : ResponseDecoder :=
  MkResponseDecoder (rd_opener d) (rd_state d) (rd_length_prefix d) (rd_length_prefix_bytes d)
    (rd_expected_ciphertext_bytes d) ct.

Definition set_prefix (d : ResponseDecoder) (a : list byte) : ResponseDecoder :=
  MkResponseDecoder (rd_opener d) (rd_state d)
    (take (rd_length_prefix_bytes d) (rd_length_prefix d) ++ a
       ++ drop (rd_length_prefix_bytes d + length a) (rd_length_prefix d))
    (rd_length_prefix_bytes d + length a) None (rd_ciphertext d).

Lemma take_ciphertext_short d a b e :
  rd_expected_ciphertext_bytes d = Some e -> (length (rd_ciphertext d) + length a < e)%nat ->
  take_ciphertext d a = Continue (set_ciphertext d (rd_ciphertext d ++ a)) [] None /\
  take_ciphertext d (a ++ b) = take_ciphertext (set_ciphertext d (rd_ciphertext d ++ a)) b.
Proof.
  intros He Hl. unfold take_ciphertext, set_ciphertext. dsimpl. rewrite He, !length_app.
  rewrite (proj2 (Nat.ltb_ge e (length (rd_ciphertext d)))) by lia.
  rewrite (proj2 (Nat.ltb_ge e (length (rd_ciphertext d) + length a))) by lia. split.
  - rewrite Nat.min_r, firstn_all, drop_all by lia.
    by rewrite (proj2 (Nat.ltb_lt _ _)) by lia.
  - replace ((e - length (rd_ciphertext d)) `min` (length a + length b))%nat
      with (length a + ((e - (length (rd_ciphertext d) + length a)) `min` length b))%nat by lia.
    rewrite take_app_add, drop_app_add, app_assoc, !length_app, Nat.add_assoc. done.
Qed.

Lemma take_ciphertext_long d a b e :
  rd_expected_ciphertext_bytes d = Some e -> (length (rd_ciphertext d) <= e)%nat ->
  (e <= length (rd_ciphertext d) + length a)%nat ->
  let n := (e - length (rd_ciphertext d))%nat in
  take_ciphertext d (a ++ b) = complete_record d (rd_ciphertext d ++ take n a) (drop n a ++ b).
Proof.
  intros He Hl Ha n. unfold take_ciphertext. rewrite He, !length_app.
  rewrite (proj2 (Nat.ltb_ge e (length (rd_ciphertext d)))) by lia. fold n.
  rewrite Nat.min_l by lia. rewrite take_app_le, drop_app_le by lia.
  by rewrite (proj2 (Nat.ltb_ge _ _)) by (rewrite length_take; lia).
Qed.

Lemma take_prefix_short d a b :
  decoder_wf d -> rd_expected_ciphertext_bytes d = None ->
  (rd_length_prefix_bytes d + length a < 4)%nat ->
  take_prefix d a = inl (set_prefix d a, [], false) /\
  take_prefix d (a ++ b) = take_prefix (set_prefix d a) b.
Proof.
  intros [Hp _] He Hl. unfold take_prefix, set_prefix, CIPHERTEXT_LENGTH_BYTES. dsimpl. rewrite He. split.
  - rewrite Nat.min_r, firstn_all, drop_all by lia.
    by rewrite (proj2 (Nat.ltb_lt _ _)) by lia.
  - set (pb := rd_length_prefix_bytes d) in *. rewrite length_app.
    replace ((4 - pb) `min` (length a + length b))%nat
      with (length a + ((4 - (pb + length a)) `min` length b))%nat by lia.
    set (n := ((4 - (pb + length a)) `min` length b)%nat).
    rewrite take_app_add, drop_app_add, Nat.add_assoc.
    rewrite (app_assoc (take pb _) a), (take_app_length' _ _ (pb + length a)).
    2:{ rewrite length_app, length_take. lia. }
    rewrite (drop_app_add' _ _ (pb + length a) n).
    2:{ rewrite length_app, length_take. lia. }
    by rewrite drop_drop, <-!app_assoc.
Qed.

Lemma take_prefix_long d a b :
  rd_expected_ciphertext_bytes d = None -> (rd_length_prefix_bytes d < 4)%nat ->
  (4 <= rd_length_prefix_bytes d + length a)%nat ->
  take_prefix d (a ++ b) =
    match take_prefix d a with inl (d', r, k) => inl (d', r ++ b, k) | inr x => inr x end.
Proof.
  intros He Hl Ha. unfold take_prefix, CIPHERTEXT_LENGTH_BYTES. rewrite He, length_app.
  rewrite !Nat.min_l by lia. rewrite take_app_le, drop_app_le by lia.
  rewrite (proj2 (Nat.ltb_ge _ 4)) by lia. by destruct (negb _).
Qed.

(** What is left of a known length is consumed by the ciphertext. *)
Lemma take_prefix_known d a d1 r :
  decoder_wf d -> take_prefix d a = inl (d1, r, true) ->
  rd_state d1 = rd_state d /\ decoder_wf d1 /\ is_Some (rd_expected_ciphertext_bytes d1) /\
  (length r <= length a)%nat /\
  (rd_expected_ciphertext_bytes d = None -> (rd_length_prefix_bytes d + length a = 4 + length r)%nat).
Proof.
  intros [Hp Hw]. unfold take_prefix, CIPHERTEXT_LENGTH_BYTES.
  destruct (rd_expected_ciphertext_bytes d) as [e|] eqn:He.
  - intros [= <- <-]. unfold decoder_wf. rewrite He. destruct Hw. split_and!; done || by eexists.
  - destruct Hw as [Hb Hc]. destruct (Nat.ltb_spec (rd_length_prefix_bytes d
      + (4 - rd_length_prefix_bytes d) `min` length a) 4) as [|Hf]; [done|].
    destruct (negb _) eqn:Eb; [done|]. bool_to_prop. intros [= <- <-].
    unfold decoder_wf. dsimpl. rewrite Hc, !length_app, !length_take, !length_drop.
    unfold RECORD_TAG_BYTES in *. cbn [length]. split_and!; try done; try lia; by eexists.
Qed.

(** States in which more records are read. *)
Definition active (d : ResponseDecoder) : Prop :=
  rd_state d = AwaitingStart \/ rd_state d = Open.

Lemma complete_record_spec d ct :
  (exists d' e, forall input, complete_record d ct input = Return d' e) \/
  (exists d' ev, (length (rd_length_prefix d) = 4%nat -> decoder_wf d') /\ rd_state d' = Open /\
     is_terminal ev = false /\ forall input, complete_record d ct input = Continue d' input (Some ev)) \/
  (exists d' ev, (length (rd_length_prefix d) = 4%nat -> decoder_wf d') /\
     rd_state d' = PendingTerminal ev /\ complete_record d ct [] = Continue d' [] None /\
     forall x input, complete_record d ct (x :: input) = Return d' PostTerminalData).
Proof.
  unfold complete_record, decode_record. dsimpl. destruct (open_next (rd_opener d) ct) as [o opened].
  destruct (opened ≫= fun plaintext => decode_plaintext_record plaintext) as [ev|e];
    [|left; by eexists _, _].
  assert (forall st, length (rd_length_prefix d) = 4%nat ->
    decoder_wf (MkResponseDecoder o st (rd_length_prefix d) 0 None [])) as Hw.
  { intros st Hl. split; dsimpl; [done|]. split; [lia|done]. }
  destruct (rd_state d) eqn:Es, ev; try (left; by eexists _, _); right; cbn [is_terminal];
    first [left; eexists _, _; split; [|split; [|split; [|intros; reflexivity]]]; [apply Hw|done..]
          |right; eexists _, _; split; [|split; [|split; [|intros; reflexivity]]]; [apply Hw|done..]].
Qed.

(** An iteration consumes input, keeps the decoder well formed and never panics. *)
Lemma iteration_progress d a :
  decoder_wf d -> a <> [] ->
  match push_iteration d a with
  | Continue d' r _ => decoder_wf d' /\ (length r < length a)%nat
  | Return _ _ => True
  | Panic => False
  end.
Proof.
  intros Hw Ha. assert (0 < length a)%nat as Hpos by (by destruct a; cbn; [|lia]).
  assert (forall d1 r, decoder_wf d1 -> is_Some (rd_expected_ciphertext_bytes d1) ->
    (length r <= length a)%nat ->
    match take_ciphertext d1 r with
    | Continue d' r' _ => decoder_wf d' /\ (length r' < length a)%nat
    | Return _ _ => True | Panic => False end) as Hct.
  { intros d1 r [Hp1 Hw1] [e He] Hr. rewrite He in Hw1. destruct Hw1 as [Hlt Hpb].
    destruct (Nat.lt_ge_cases (length (rd_ciphertext d1) + length r) e) as [Hs|Hs].
    - destruct (take_ciphertext_short d1 r [] e He Hs) as [-> _]. cbn [length]. split; [|lia].
      split; unfold set_ciphertext; dsimpl; [done|]. rewrite He, length_app. split; [lia|done].
    - pose proof (take_ciphertext_long d1 r [] e He ltac:(lia) Hs) as E. cbn zeta in E.
      rewrite !app_nil_r in E. rewrite E.
      destruct (complete_record_spec d1 (rd_ciphertext d1 ++ take (e - length (rd_ciphertext d1)) r))
        as [(d' & e' & Ec)|[(d' & ev & Hw' & _ & _ & Ec)|(d' & ev & Hw' & _ & Ec & Ec')]].
      + by rewrite Ec.
      + rewrite Ec, length_drop. split; [by apply Hw'|lia].
      + destruct (drop _ r) as [|x l] eqn:Ed; [rewrite Ec|by rewrite Ec'].
        split; [by apply Hw'|cbn; lia]. }
  unfold push_iteration. destruct (take_prefix d a) as [[[d1 r] [|]]|[d1 e]] eqn:Et; [|..|done].
  - destruct (take_prefix_known _ _ _ _ Hw Et) as (_ & Hw1 & Hs & Hr & Hn).
    by apply Hct.
  - destruct (rd_expected_ciphertext_bytes d) as [e|] eqn:He.
    { unfold take_prefix in Et. by rewrite He in Et. }
    pose proof Hw as [Hp Hb]. rewrite He in Hb. destruct Hb as [Hb Hc].
    destruct (Nat.lt_ge_cases (rd_length_prefix_bytes d + length a) 4) as [Hs|Hs].
    + destruct (take_prefix_short d a [] Hw He Hs) as [E _]. rewrite E in Et. simplify_eq.
      split; [|cbn; lia]. split; unfold set_prefix; dsimpl; [|split; [lia|done]].
      rewrite !length_app, length_take, length_drop. lia.
    + unfold take_prefix, CIPHERTEXT_LENGTH_BYTES in Et. rewrite He, Nat.min_l in Et by lia.
      rewrite (proj2 (Nat.ltb_ge _ 4)) in Et by lia. by destruct (negb _).
Qed.

(** How an iteration on [a ++ b] relates to one on [a]. *)
Inductive iteration_split (d : ResponseDecoder) (a b : list byte) : Prop :=
| split_more d' :
    push_iteration d a = Continue d' [] None -> rd_state d' = rd_state d ->
    push_iteration d (a ++ b) = push_iteration d' b -> iteration_split d a b
| split_event d' r ev :
    push_iteration d a = Continue d' r (Some ev) -> rd_state d' = Open ->
    push_iteration d (a ++ b) = Continue d' (r ++ b) (Some ev) -> iteration_split d a b
| split_terminal d' ev :
    push_iteration d a = Continue d' [] None -> rd_state d' = PendingTerminal ev ->
    push_iteration d (a ++ b) = Return d' PostTerminalData -> iteration_split d a b
| split_error d' e :
    push_iteration d a = Return d' e -> push_iteration d (a ++ b) = Return d' e ->
    iteration_split d a b.

Lemma push_iteration_known d a e :
  rd_expected_ciphertext_bytes d = Some e -> push_iteration d a = take_ciphertext d a.
Proof. intros He. unfold push_iteration, take_prefix. by rewrite He. Qed.

Lemma take_ciphertext_split d d1 a r b :
  push_iteration d a = take_ciphertext d1 r ->
  push_iteration d (a ++ b) = take_ciphertext d1 (r ++ b) ->
  decoder_wf d1 -> is_Some (rd_expected_ciphertext_bytes d1) -> rd_state d1 = rd_state d ->
  b <> [] -> iteration_split d a b.
Proof.
  intros E1 E2 [Hp1 Hw1] [e He] Hst Hb. rewrite He in Hw1. destruct Hw1 as [Hlt Hpb].
  destruct (Nat.lt_ge_cases (length (rd_ciphertext d1) + length r) e) as [Hs|Hs].
  - destruct (take_ciphertext_short d1 r b e He Hs) as [F1 F2].
    eapply split_more; [by rewrite E1, F1|done|].
    rewrite E2, F2. symmetry. by apply (push_iteration_known _ b e).
  - pose proof (take_ciphertext_long d1 r [] e He ltac:(lia) Hs) as F1.
    pose proof (take_ciphertext_long d1 r b e He ltac:(lia) Hs) as F2. cbn zeta in F1, F2.
    rewrite !app_nil_r in F1. rewrite F1 in E1. rewrite F2 in E2.
    destruct (complete_record_spec d1 (rd_ciphertext d1 ++ take (e - length (rd_ciphertext d1)) r))
      as [(d' & e' & Ec)|[(d' & ev & Hw' & Ho & _ & Ec)|(d' & ev & Hw' & Ho & Ec & Ec')]].
    + eapply split_error; [by rewrite E1, Ec|by rewrite E2, Ec].
    + eapply split_event; [by rewrite E1, Ec|done|by rewrite E2, Ec].
    + destruct (drop _ r) as [|x l] eqn:Ed.
      * eapply split_terminal; [by rewrite E1, Ec|done|].
        destruct b as [|x l]; [done|]. by rewrite E2, app_nil_l, Ec'.
      * eapply split_error; [by rewrite E1, Ec'|by rewrite E2, <-app_comm_cons, Ec'].
Qed.

Lemma iteration_splits d a b : decoder_wf d -> b <> [] -> iteration_split d a b.
Proof.
  intros Hw Hb. destruct (rd_expected_ciphertext_bytes d) as [e|] eqn:He.
  { eapply (take_ciphertext_split d d a a b); [by eapply push_iteration_known..|done| |done|done].
    by rewrite He. }
  pose proof Hw as [Hp Hn]. rewrite He in Hn. destruct Hn as [Hn Hc].
  destruct (Nat.lt_ge_cases (rd_length_prefix_bytes d + length a) 4) as [Hs|Hs].
  - destruct (take_prefix_short d a b Hw He Hs) as [E1 E2].
    eapply split_more; unfold push_iteration; [by rewrite E1|done|by rewrite E2].
  - pose proof (take_prefix_long d a b He Hn Hs) as E.
    destruct (take_prefix d a) as [[[d1 r] [|]]|[d1 e]] eqn:Et.
    + destruct (take_prefix_known _ _ _ _ Hw Et) as (Hst & Hw1 & Hs1 & _).
      apply (take_ciphertext_split d d1 a r b); try done; unfold push_iteration; [by rewrite Et|by rewrite E].
    + exfalso. unfold take_prefix, CIPHERTEXT_LENGTH_BYTES in Et. rewrite He, Nat.min_l in Et by lia.
      rewrite (proj2 (Nat.ltb_ge _ 4)) in Et by lia. by destruct (negb _).
    + eapply split_error; unfold push_iteration; [by rewrite Et|by rewrite E].
Qed.

(** Enough fuel gives a result, the same for every amount that is enough. *)
Lemma push_loop_total fuel d input ev :
  decoder_wf d -> (length input <= fuel)%nat ->
  push_loop fuel d input ev = push_loop (length input) d input ev /\
  exists d' r, push_loop fuel d input ev = Some (d', r) /\
    match r with Ok _ => decoder_wf d' | Err _ => True end.
Proof.
  revert fuel d ev. remember (length input) as n eqn:Hn. revert input Hn.
  induction (lt_wf n) as [n _ IH]. intros input -> fuel d ev Hw Hf.
  destruct input as [|x input]; [destruct fuel; split; try done; by eexists _, _|].
  destruct fuel as [|fuel]; [cbn in Hf; lia|]. cbn [push_loop length].
  pose proof (iteration_progress d (x :: input) Hw ltac:(done)) as Hp.
  destruct (push_iteration d (x :: input)) as [d1 r e1|d1 e|]; [|split; [done|]; by eexists _, _|done].
  destruct Hp as [Hw1 Hl]. cbn in Hl, Hf.
  destruct (IH (length r) ltac:(cbn; lia) r eq_refl fuel d1 (ev ++ option_list e1) Hw1 ltac:(lia)) as [E1 E2].
  destruct (IH (length r) ltac:(cbn; lia) r eq_refl (length input) d1 (ev ++ option_list e1) Hw1 ltac:(lia)) as [E3 _].
  split; [by rewrite E1, E3|done].
Qed.

(** The loop with just enough fuel, and its equation. *)
Definition run (d : ResponseDecoder) (input : list byte) (ev : list ResponseEvent) :=
  push_loop (length input) d input ev.

Lemma run_step d input ev :
  decoder_wf d -> input <> [] ->
  run d input ev = match push_iteration d input with
                   | Continue d' r e => run d' r (ev ++ option_list e)
                   | Return d' e => Some (d', Err e)
                   | Panic => None
                   end.
Proof.
  intros Hw Hi. unfold run. destruct input as [|x input]; [done|]. cbn [push_loop length].
  pose proof (iteration_progress d (x :: input) Hw Hi) as Hp.
  destruct (push_iteration d (x :: input)) as [d1 r e1|d1 e|]; [|done..].
  destruct Hp as [Hw1 Hl]. cbn in Hl. by apply push_loop_total; [|lia].
Qed.

Lemma run_app d a b ev :
  decoder_wf d -> active d -> b <> [] ->
  run d (a ++ b) ev =
    match run d a ev with
    | Some (d1, Ok e1) =>
        match rd_state d1 with
        | PendingTerminal _ => Some (d1, Err PostTerminalData)
        | _ => run d1 b e1
        end
    | r => r
    end.
Proof.
  remember (length a) as n eqn:Hn. revert a Hn d ev.
  induction (lt_wf n) as [n _ IH]. intros a -> d ev Hw Ha Hb.
  destruct (decide (a = [])) as [->|Hne].
  { unfold run at 2. cbn. by destruct Ha as [-> | ->]. }
  assert (a ++ b <> []) as Hab by by destruct a.
  rewrite (run_step d (a ++ b)), (run_step d a) by done.
  pose proof (iteration_progress d a Hw Hne) as Hp.
  destruct (iteration_splits d a b Hw Hb)
    as [d' E1 Hs E2|d' r e E1 Hs E2|d' e E1 Hs E2|d' e E1 E2]; rewrite E1 in *; rewrite E2; clear E2.
  - destruct Hp as [Hw' _]. cbn [option_list]. rewrite app_nil_r, <-run_step by done.
    unfold run at 2. cbn. rewrite Hs. by destruct Ha as [-> | ->].
  - destruct Hp as [Hw' Hl]. apply (IH (length r)); try done. by right.
  - cbn [option_list]. rewrite app_nil_r. unfold run. cbn. by rewrite Hs.
  - done.
Qed.

Lemma run_events d input ev :
  decoder_wf d ->
  run d input ev = match run d input [] with
                   | Some (d', Ok e) => Some (d', Ok (ev ++ e))
                   | r => r
                   end.
Proof.
  remember (length input) as n eqn:Hn. revert input Hn d ev.
  induction (lt_wf n) as [n _ IH]. intros input -> d ev Hw.
  destruct (decide (input = [])) as [->|Hne].
  { unfold run. cbn. by rewrite app_nil_r. }
  rewrite !run_step by done. pose proof (iteration_progress d input Hw Hne) as Hp.
  destruct (push_iteration d input) as [d1 r e1|d1 e|]; [|done..]. destruct Hp as [Hw1 Hl].
  rewrite (IH (length r) ltac:(done) r eq_refl d1 (ev ++ _)), (IH (length r) ltac:(done) r eq_refl d1 ([] ++ _)) by done.
  destruct (run d1 r []) as [[d2 [e2|e2]]|]; [|done..]. by rewrite app_nil_l, app_assoc.
Qed.

Lemma push_run d input :
  active d -> push d input = run d input [].
Proof. unfold push, run. intros [-> | ->]; by destruct input. Qed.

(** A successful [push] leaves the decoder reading or holding a terminal record. *)
Lemma run_state d a ev d1 e1 :
  decoder_wf d -> active d -> run d a ev = Some (d1, Ok e1) ->
  active d1 \/ exists t, rd_state d1 = PendingTerminal t.
Proof.
  remember (length a) as n eqn:Hn. revert a Hn d ev.
  induction (lt_wf n) as [n _ IH]. intros a -> d ev Hw Ha.
  destruct (decide (a = [])) as [->|Hne].
  { unfold run. cbn. intros [= <- <-]. by left. }
  rewrite run_step by done. pose proof (iteration_progress d a Hw Hne) as Hp.
  destruct (iteration_splits d a [x00] Hw ltac:(done))
    as [d' E1 Hs _|d' r e E1 Hs _|d' e E1 Hs _|d' e E1 _]; rewrite E1 in *.
  - unfold run. cbn. intros [= <- _]. left. unfold active. by rewrite Hs.
  - destruct Hp as [Hw' Hl]. apply (IH (length r) Hl r eq_refl); [done|by right].
  - unfold run. cbn. intros [= <- _]. right. eauto.
  - done.
Qed.

Lemma push_app d a b :
  decoder_wf d ->
  push d (a ++ b) =
    match push d a with
    | Some (d1, Ok e1) =>
        match push d1 b with Some (d2, Ok e2) => Some (d2, Ok (e1 ++ e2)) | r => r end
    | r => r
    end.
Proof.
  intros Hw. assert (active d \/ ~ active d) as [Ha|Ha].
  { unfold active. destruct (rd_state d); naive_solver. }
  2:{ unfold active in Ha. unfold push. destruct (rd_state d) eqn:Es; [tauto|tauto| |done].
      destruct a as [|x a]; cbn; [|done]. rewrite Es. by destruct b. }
  rewrite !push_run by done.
  destruct (push_loop_total (length a) d a [] Hw ltac:(lia)) as (_ & d1 & r & E & Hw1).
  fold (run d a []) in E. destruct (decide (b = [])) as [->|Hb].
  - rewrite app_nil_r, E. destruct r as [e1|e1]; [|done].
    assert (push d1 [] = Some (d1, Ok [])) as ->.
    { destruct (run_state _ _ _ _ _ Hw Ha E) as [Ha1|[t Ht]]; unfold push.
      - by destruct Ha1 as [-> | ->].
      - by rewrite Ht. }
    by rewrite app_nil_r.
  - rewrite run_app, E by done. destruct r as [e1|e1]; [|done].
    destruct (run_state _ _ _ _ _ Hw Ha E) as [Ha1|[t Ht]].
    + rewrite push_run by done. destruct Ha1 as [Es|Es]; rewrite Es; by apply run_events.
    + rewrite Ht. unfold push. rewrite Ht. by destruct b.
Qed.

(** Feeding network reads one after the other until an error. *)
Fixpoint push_all (d : ResponseDecoder) (chunks : list (list byte)) :
    option (ResponseDecoder * result TransportV2Error (list ResponseEvent)) :=
  match chunks with
  | [] => Some (d, Ok [])
  | c :: chunks =>
      match push d c with
      | Some (d1, Ok e1) =>
          match push_all d1 chunks with Some (d2, Ok e2) => Some (d2, Ok (e1 ++ e2)) | r => r end
      | r => r
      end
  end.

Lemma push_total d input :
  decoder_wf d -> exists d' r, push d input = Some (d', r) /\
    match r with Ok _ => decoder_wf d' | Err _ => True end.
Proof.
  intros Hw. destruct (push_loop_total (length input) d input [] Hw ltac:(lia)) as (_ & d' & r & E & Hr).
  unfold push. destruct (rd_state d), input; by eexists _, _.
Qed.

Lemma push_all_app d chunks :
  decoder_wf d -> rd_state d <> Finished -> push_all d chunks = push d (concat chunks).
Proof.
  revert d. induction chunks as [|c chunks IH]; intros d Hw Hf.
  { cbn. unfold push. by destruct (rd_state d). }
  cbn [push_all concat]. rewrite push_app by done.
  destruct (push_total d c Hw) as (d1 & r & E & Hw1). rewrite E. destruct r as [e1|e1]; [|done].
  rewrite IH; [done|done|]. unfold push in E.
  destruct (rd_state d) as [| |t|] eqn:Es; [| | |done].
  - destruct (run_state d c [] d1 e1 Hw ltac:(by left) E) as [[->| ->]|[t ->]]; done.
  - destruct (run_state d c [] d1 e1 Hw ltac:(by right) E) as [[->| ->]|[t ->]]; done.
  - destruct c; [|done]. cbn in E. injection E as <- _. by rewrite Es.
Qed.

(** C34: The client's decoder does not depend on how the network cuts the stream: from a fresh
    decoder, pushing the pieces one after the other gives the same state, events and error as
    pushing their concatenation, and [push] always returns (the loop consumes input on every
    iteration and never panics). *)
Theorem decoder_chunking_independent o chunks :
  push_all (decoder_new o) chunks = push (decoder_new o) (concat chunks) /\
  is_Some (push (decoder_new o) (concat chunks)).
Proof.
  split; [by apply push_all_app; [apply decoder_new_wf|]|].
  destruct (push_total (decoder_new o) (concat chunks) (decoder_new_wf o)) as (d & r & -> & _). eauto.
Qed.

(** ** The order of records *)

(** The state after delivering events, if the order is legal. *)
Fixpoint deliver (st : DecodeState) (es : list ResponseEvent) : option DecodeState :=
  match es with
  | [] => Some st
  | e :: es =>
      match st, e with
      | AwaitingStart, Start _ _ => deliver Open es
      | Open, Chunk _ => deliver Open es
      | _, _ => None
      end
  end.

(** [st'] follows [st]: the same state, or a terminal record read in the open state. *)
Definition closes (st st' : DecodeState) : Prop :=
  st' = st \/ st = Open /\ exists t, is_terminal t = true /\ st' = PendingTerminal t.

Lemma complete_record_order d ct input d' r ev :
  complete_record d ct input = Continue d' r ev ->
  match ev with
  | Some e => deliver (rd_state d) [e] = Some (rd_state d')
  | None => r = [] /\ rd_state d <> rd_state d' /\ closes (rd_state d) (rd_state d')
  end.
Proof.
  unfold complete_record, decode_record, closes. dsimpl.
  destruct (open_next (rd_opener d) ct) as [o opened].
  destruct (opened ≫= fun plaintext => decode_plaintext_record plaintext) as [e|e]; [|done].
  destruct (rd_state d), e; try done; cbn [is_terminal]; try destruct input; intros [= <- <- <-]; try done;
    dsimpl; split_and!; try done; right; (split; [done|]); (eexists; split; [|reflexivity]; done).
Qed.

Lemma iteration_order d a d' r ev :
  push_iteration d a = Continue d' r ev ->
  match ev with
  | Some e => deliver (rd_state d) [e] = Some (rd_state d')
  | None => rd_state d' = rd_state d \/ r = [] /\ closes (rd_state d) (rd_state d')
  end.
Proof.
  unfold push_iteration. destruct (take_prefix d a) as [[[d1 r1] [|]]|[d1 e1]] eqn:Et; [..|done].
  - assert (rd_state d1 = rd_state d) as Hs.
    { unfold take_prefix in Et. destruct (rd_expected_ciphertext_bytes d); [congruence|].
      destruct (Nat.ltb _ _); [done|]. destruct (negb _); [done|]. by simplify_eq. }
    unfold take_ciphertext. destruct (rd_expected_ciphertext_bytes d1); [|done].
    destruct (Nat.ltb _ _); [done|]. destruct (Nat.ltb _ _).
    + intros [= <- <- <-]. by left.
    + intros E%complete_record_order. rewrite Hs in E. destruct ev; [done|]. right. tauto.
  - intros [= <- <- <-]. left. unfold take_prefix in Et.
    destruct (rd_expected_ciphertext_bytes d); [done|].
    destruct (Nat.ltb _ _); [by simplify_eq|]. by destruct (negb _).
Qed.

Lemma deliver_app st es fs :
  deliver st (es ++ fs) = deliver st es ≫= fun st => deliver st fs.
Proof. revert st. induction es as [|e es IH]; intros st; [done|]. cbn. destruct st, e; cbn; auto. Qed.

Lemma run_order d a d1 es :
  decoder_wf d -> active d -> run d a [] = Some (d1, Ok es) ->
  exists st, deliver (rd_state d) es = Some st /\ closes st (rd_state d1).
Proof.
  remember (length a) as n eqn:Hn. revert a Hn d es.
  induction (lt_wf n) as [n _ IH]. intros a -> d es Hw Ha.
  destruct (decide (a = [])) as [->|Hne].
  { unfold run. cbn. intros [= <- <-]. exists (rd_state d). split; [done|by left]. }
  rewrite run_step by done. pose proof (iteration_progress d a Hw Hne) as Hp.
  destruct (push_iteration d a) as [d' r ev|d' e|] eqn:E; [|done..]. destruct Hp as [Hw' Hl].
  pose proof (iteration_order _ _ _ _ _ E) as Ho. rewrite run_events by done.
  destruct (run d' r []) as [[d2 [e2|e2]]|] eqn:E2; [|done..]. intros [= <- <-].
  destruct ev as [e|].
  - cbn [option_list app]. change (e :: e2) with ([e] ++ e2).
    rewrite (deliver_app _ [e] e2). rewrite Ho. cbn [mbind option_bind].
    apply (IH (length r) Hl r eq_refl); [done| |done]. unfold active.
    destruct (rd_state d), e; try done; cbn in Ho; simplify_eq; auto.
  - cbn [option_list app]. destruct Ho as [Hs|[-> Hc]].
    + rewrite <-Hs. apply (IH (length r) Hl r eq_refl); [done| |done]. unfold active. by rewrite Hs.
    + unfold run in E2. cbn in E2. injection E2 as <- <-. by exists (rd_state d).
Qed.

Lemma deliver_open es st : deliver Open es = Some st -> st = Open /\ exists bs, es = Chunk <$> bs.
Proof.
  revert st. induction es as [|e es IH]; intros st; cbn.
  - intros [= <-]. split; [done|]. by exists [].
  - destruct e as [|b| |]; try done. intros E. destruct (IH _ E) as [-> [bs ->]].
    split; [done|]. by exists (b :: bs).
Qed.

(** Whatever bytes arrive, a response the client accepts as complete is one [Start], then
    chunks, then one authenticated terminal record at the end of the stream: [finish] succeeds
    only after a terminal record with nothing behind it, and only once. *)
Theorem accepted_response_complete o input d events d' t :
  push (decoder_new o) input = Some (d, Ok events) -> finish d = (d', Ok t) ->
  (exists status headers chunks, events = Start status headers :: (Chunk <$> chunks)) /\
  is_terminal t = true /\ rd_state d = PendingTerminal t /\
  finish d' = (d', Err PostTerminalData) /\
  (forall more, push d' more = Some (d', Err PostTerminalData)) /\
  (forall x more, push (decoder_new o) (input ++ x :: more) = Some (d, Err PostTerminalData)).
Proof.
  intros Hpush Hfin. assert (active (decoder_new o)) as Ha by by left.
  pose proof (decoder_new_wf o) as Hw. pose proof Hpush as Hrun. rewrite push_run in Hrun by done.
  destruct (run_order _ _ _ _ Hw Ha Hrun) as (st & Hd & Hc).
  unfold finish in Hfin. destruct (_ || _) eqn:Eb in Hfin; [done|]. injection Hfin as <- Ht.
  destruct (rd_state d) as [| |t'|] eqn:Es; try done. injection Ht as ->.
  destruct Hc as [<-|[-> (t2 & Ht2 & [= <-])]].
  { cbn in Hd. destruct events as [|e es]; [done|]. destruct e; try done. by apply deliver_open in Hd as [? _]. }
  split_and!; try done.
  - cbn in Hd. destruct events as [|[s h|b| |c] es]; try done.
    apply deliver_open in Hd as [_ [bs ->]]. by exists s, h, bs.
  - unfold finish. dsimpl. by rewrite Eb.
  - intros x more. rewrite push_app, Hpush by done. unfold push at 1. by rewrite Es.
Qed.
End Theory.

(** ** Witness: a two-record response *)
#[local] Existing Instances Toy.toy_crypto ToyHttp.toy_http.

Definition sample_de_start : JsonDe ResponseStart := fun bs =>
  if decide (bs = [x7b]) then Some (MkResponseStart 200 []) else None.
Definition sample_de_fail : JsonDe ResponseFailure := fun _ => None.
#[local] Existing Instances sample_de_start sample_de_fail.

Definition sample_opener : ResponseOpener :=
  MkResponseOpener (replicate 16 x01) (replicate 16 x02) (replicate 32 x03) 0.
Definition sample_stream : list byte :=
  [x00; x00; x00; x12; x01; x7b] ++ replicate 16 x00 ++ [x00; x00; x00; x11; x03] ++ replicate 16 x00.
Definition sample_end : ResponseDecoder :=
  MkResponseDecoder (MkResponseOpener (replicate 16 x01) (replicate 16 x02) (replicate 32 x03) 2)
    (PendingTerminal End) [x00; x00; x00; x11] 0 None [].

Lemma accepted_response_complete_witness :
  push (decoder_new sample_opener) (sample_stream ++ [x00]) = Some (sample_end, Err PostTerminalData).
Proof.
  apply (accepted_response_complete sample_opener sample_stream sample_end [Start 200 []]
           (finish sample_end).1 End); vm_compute; reflexivity.
Defined.
