(* ===== verification/Tunnel.v ===== *)
(** * End to end: the client SDK against the enclave

    The SDK and the enclave implement the wire protocol independently.  This file relates the two
    models: both ends derive the same session, a request encoded and encrypted by the SDK is the
    request the enclave decodes, and the frames the gateway sends are the events the SDK's decoder
    delivers, however the network cuts them. *)
From Stdlib Require Import Strings.Byte.
From S2P Require Import Prelude Primitives WireCrates ServerCrypto ServerEnvelope ServerFraming.
From S2P Require Import ServerSession Gateway SdkCrypto SdkEnvelope SdkFraming.

(** ** Correspondence of the data *)

Definition sdk_transcript (t : ServerCrypto.HandshakeTranscript) : SdkCrypto.HandshakeTranscript :=
  SdkCrypto.MkHandshakeTranscript (ServerCrypto.ht_challenge t) (ServerCrypto.ht_client_public_key t)
    (ServerCrypto.ht_server_public_key t).

Definition sdk_secrets (s : ServerCrypto.SessionSecrets) : SdkCrypto.SessionSecrets :=
  SdkCrypto.MkSessionSecrets (ServerCrypto.ss_session_id s) (ServerCrypto.ss_request_key s)
    (ServerCrypto.ss_response_key s).

Definition sdk_error (e : ServerCrypto.CryptoError) : TransportV2Error :=
  match e with
  | ServerCrypto.NonContributoryKey => SdkCrypto.NonContributoryKey
  | ServerCrypto.KeyDerivation => SdkCrypto.KeyDerivation
  | ServerCrypto.TruncatedRecord => InvalidFrame
  | ServerCrypto.Encryption => SdkCrypto.Encryption
  | ServerCrypto.Authentication => SdkCrypto.Authentication
  | ServerCrypto.SequenceExhausted => InvalidSequence
  end.

Definition server_kind (k : SdkEnvelope.CredentialKind) : ServerEnvelope.CredentialKind :=
  match k with
  | SdkEnvelope.Bearer => ServerEnvelope.Bearer
  | SdkEnvelope.ApiKey => ServerEnvelope.ApiKey
  | SdkEnvelope.Resumption => ServerEnvelope.Resumption
  end.

Definition server_credential (c : SdkEnvelope.Credential) : ServerEnvelope.Credential :=
  ServerEnvelope.MkCredential (server_kind (SdkEnvelope.cred_kind c)) (SdkEnvelope.cred_value c).

Definition server_header (h : SdkEnvelope.LogicalHeader) : ServerEnvelope.LogicalHeader :=
  ServerEnvelope.MkLogicalHeader (SdkEnvelope.lh_name h) (SdkEnvelope.lh_value h).

Definition sdk_header (h : ServerEnvelope.LogicalHeader) : SdkEnvelope.LogicalHeader :=
  SdkEnvelope.MkLogicalHeader (ServerEnvelope.lh_name h) (ServerEnvelope.lh_value h).

Definition server_metadata (m : SdkEnvelope.RequestMetadata) : ServerEnvelope.RequestMetadata :=
  ServerEnvelope.MkRequestMetadata (SdkEnvelope.md_version m)
    (server_credential <$> SdkEnvelope.md_credential m) (SdkEnvelope.md_cache_namespace_root m)
    (SdkEnvelope.md_method m) (SdkEnvelope.md_target m) (server_header <$> SdkEnvelope.md_headers m)
    (SdkEnvelope.md_body_present m).

Definition server_envelope {H : HttpCrate} (rid : list byte) (r : LogicalRequest) : RequestEnvelope :=
  MkRequestEnvelope rid (server_credential <$> lr_credential r) (lr_cache_namespace_root r)
    (method_as_str (lr_method r)) (lr_target r) (server_header <$> lr_headers r) (lr_body r).

Definition sdk_start (s : ServerFraming.ResponseStart) : SdkFraming.ResponseStart :=
  SdkFraming.MkResponseStart (ServerFraming.rst_status s) (sdk_header <$> ServerFraming.rst_headers s).

Definition sdk_failure (f : ServerFraming.ResponseFailure) : SdkFraming.ResponseFailure :=
  SdkFraming.MkResponseFailure (ServerFraming.rf_code f).

Definition event_of (r : ServerFraming.ResponseRecord) : ResponseEvent :=
  match r with
  | ServerFraming.Start s =>
      SdkFraming.Start (ServerFraming.rst_status s) (sdk_header <$> ServerFraming.rst_headers s)
  | ServerFraming.Chunk bytes => SdkFraming.Chunk bytes
  | ServerFraming.End => SdkFraming.End
  | ServerFraming.Error code => SdkFraming.Error code
  end.

(** ** Cryptography *)
Section CryptoInterop.
Context {P : CryptoPrims} {HP : CryptoLaws P}.

Lemma map_err_ok_or {E F A} (f : E -> F) (o : option A) e : map_err f (ok_or o e) = ok_or o (f e).
Proof. by destruct o. Qed.

Lemma derive_session_secrets_interop shared t :
  SdkCrypto.derive_session_secrets shared (sdk_transcript t)
  = sdk_secrets <$> map_err sdk_error (ServerCrypto.derive_session_secrets shared t).
Proof.
  unfold SdkCrypto.derive_session_secrets, ServerCrypto.derive_session_secrets.
  case_decide; [done|].
  change (SdkCrypto.digest (sdk_transcript t)) with (ServerCrypto.digest t).
  change (SdkCrypto.ht_challenge (sdk_transcript t)) with (ServerCrypto.ht_challenge t).
  set (h := hkdf_extract _ _).
  change SdkCrypto.key_info with ServerCrypto.key_info.
  change SdkCrypto.REQUEST_KEY_INFO with ServerCrypto.REQUEST_KEY_INFO.
  change SdkCrypto.RESPONSE_KEY_INFO with ServerCrypto.RESPONSE_KEY_INFO.
  change SdkCrypto.SESSION_ID_INFO with ServerCrypto.SESSION_ID_INFO.
  change SdkCrypto.SESSION_ID_BYTES with ServerCrypto.SESSION_ID_BYTES.
  set (d := ServerCrypto.digest t).
  destruct (hkdf_expand h (ServerCrypto.key_info ServerCrypto.REQUEST_KEY_INFO d) 32); bsimpl; [|done].
  destruct (hkdf_expand h (ServerCrypto.key_info ServerCrypto.RESPONSE_KEY_INFO d) 32); bsimpl; [|done].
  by destruct (hkdf_expand h (ServerCrypto.key_info ServerCrypto.SESSION_ID_INFO d) _).
Qed.

(** C6: Both ends of a handshake derive the same session: the SDK from its secret and the
    enclave's public key, the enclave from its secret and the client's, with the same identifier
    and keys or the corresponding error; the derived secrets have their full lengths. *)
Theorem handshake_interop server_secret client_secret t :
  ServerCrypto.ht_client_public_key t = x25519_public client_secret ->
  ServerCrypto.ht_server_public_key t = x25519_public server_secret ->
  SdkCrypto.derive_client_session client_secret (sdk_transcript t)
  = sdk_secrets <$> map_err sdk_error (ServerCrypto.derive_server_session server_secret t) /\
  (forall s, ServerCrypto.derive_server_session server_secret t = Ok s -> secrets_wf s) /\
  SdkCrypto.attestation_user_data (ServerCrypto.ht_client_public_key t)
  = ServerCrypto.attestation_user_data (ServerCrypto.ht_client_public_key t).
Proof.
  intros Hc Hs. split_and!; [|by intros s; apply derive_session_secrets_wf|done].
  unfold SdkCrypto.derive_client_session, ServerCrypto.derive_server_session.
  rewrite <-derive_session_secrets_interop. f_equal.
  change (SdkCrypto.ht_server_public_key (sdk_transcript t)) with (ServerCrypto.ht_server_public_key t).
  by rewrite Hc, Hs, diffie_hellman_comm.
Qed.

Lemma derive_record_subkey_interop base label sid rid :
  SdkCrypto.derive_record_subkey base label sid rid
  = map_err sdk_error (ServerCrypto.derive_record_subkey base label sid rid).
Proof.
  unfold SdkCrypto.derive_record_subkey, ServerCrypto.derive_record_subkey.
  destruct (hkdf_from_prk base); bsimpl; [|done]. by rewrite map_err_ok_or.
Qed.

Lemma encrypt_request_interop s rid msg :
  SdkCrypto.encrypt_request (sdk_secrets s) rid msg
  = map_err sdk_error (ServerCrypto.encrypt_request s rid msg).
Proof.
  unfold SdkCrypto.encrypt_request, ServerCrypto.encrypt_request.
  rewrite derive_record_subkey_interop.
  change (SdkCrypto.ss_request_key (sdk_secrets s)) with (ServerCrypto.ss_request_key s).
  change (SdkCrypto.ss_session_id (sdk_secrets s)) with (ServerCrypto.ss_session_id s).
  change SdkCrypto.REQUEST_SUBKEY_INFO with ServerCrypto.REQUEST_SUBKEY_INFO.
  destruct (ServerCrypto.derive_record_subkey _ _ _ _) as [key|e]; bsimpl; [|done].
  unfold SdkCrypto.seal, ServerCrypto.seal_detached_nonce.
  change (SdkCrypto.request_aad (ServerCrypto.ss_session_id s) rid)
    with (ServerCrypto.request_aad (ServerCrypto.ss_session_id s) rid).
  change (replicate (Z.to_nat SdkCrypto.RECORD_NONCE_BYTES) x00) with ServerCrypto.zero_nonce.
  by destruct (aead_encrypt _ _ _ _).
Qed.

(** The opener that mirrors a sealer. *)
Definition opener_of (w : ServerCrypto.ResponseSealer) : ResponseOpener :=
  MkResponseOpener (ServerCrypto.rs_session_id w) (ServerCrypto.rs_request_id w)
    (ServerCrypto.rs_key w) (ServerCrypto.rs_next_sequence w).

Lemma response_opener_interop s rid :
  SdkCrypto.response_opener (sdk_secrets s) rid
  = opener_of <$> map_err sdk_error (ServerCrypto.response_sealer s rid).
Proof.
  unfold SdkCrypto.response_opener, ServerCrypto.response_sealer.
  rewrite derive_record_subkey_interop.
  change (SdkCrypto.ss_response_key (sdk_secrets s)) with (ServerCrypto.ss_response_key s).
  change (SdkCrypto.ss_session_id (sdk_secrets s)) with (ServerCrypto.ss_session_id s).
  change SdkCrypto.RESPONSE_SUBKEY_INFO with ServerCrypto.RESPONSE_SUBKEY_INFO.
  by destruct (ServerCrypto.derive_record_subkey _ _ _ _) as [key|e].
Qed.

(** What is sealed at a sequence number opens at that number. *)
Lemma open_next_sealed w i pt ct :
  ServerCrypto.rs_next_sequence w + Z.of_nat i < U64_MAX ->
  record_seal w i pt = Ok ct ->
  open_next (opener_of (advance w (Z.of_nat i))) ct
  = (opener_of (advance w (Z.of_nat i + 1)), Ok pt).
Proof.
  intros Hn E. unfold record_seal in E. destruct (seal_open _ _ _ _ _ E) as [Eo _].
  unfold open_next, opener_of, advance.
  cbn [ro_session_id ro_request_id ro_key ro_next_sequence ServerCrypto.rs_session_id
       ServerCrypto.rs_request_id ServerCrypto.rs_key ServerCrypto.rs_next_sequence].
  unfold ServerCrypto.open_detached_nonce in Eo. unfold SdkCrypto.open, SdkCrypto.RECORD_TAG_BYTES.
  unfold ServerCrypto.RECORD_TAG_BYTES in Eo. destruct (len ct <? 16); [done|]. apply ok_or_ok in Eo.
  change (SdkCrypto.response_aad ?a ?b ?c) with (ServerCrypto.response_aad a b c).
  change (SdkCrypto.response_nonce ?c) with (ServerCrypto.response_nonce c).
  rewrite Eo. bsimpl. unfold checked_add_u64. rewrite (proj2 (Z.leb_le _ _)) by lia.
  by rewrite Z.add_assoc.
Qed.
End CryptoInterop.

(** ** Requests *)

Lemma gateway_headers_agree name :
  SdkEnvelope.is_gateway_controlled_header name = ServerEnvelope.is_gateway_controlled_header name.
Proof.
  unfold SdkEnvelope.is_gateway_controlled_header, ServerEnvelope.is_gateway_controlled_header,
    SdkCrypto.ROUTING_KEY_HEADER.
  apply eq_true_iff_eq. rewrite !existsb_exists. setoid_rewrite bool_decide_eq_true.
  split; intros (x & Hx & ->); exists x; (split; [|done]); cbn in *; tauto.
Qed.

Section Requests.
Context {P : CryptoPrims} {HP : CryptoLaws P} {H : HttpCrate} {HH : HttpLaws H}.

Lemma header_agree h :
  SdkEnvelope.validate_header h = Ok tt <-> ServerEnvelope.validate_header (server_header h) = Ok tt.
Proof.
  rewrite SdkEnvelope.sdk_validate_header_ok, ServerEnvelope.validate_header_ok.
  by rewrite gateway_headers_agree.
Qed.

Lemma target_agree t :
  SdkEnvelope.validate_target t = Ok tt -> ServerEnvelope.validate_target t = Ok tt.
Proof.
  unfold SdkEnvelope.validate_target, ServerEnvelope.validate_target.
  unfold SdkEnvelope.MAX_TARGET_BYTES, ServerEnvelope.MAX_TARGET_BYTES. rewrite !orb_assoc.
  destruct (_ || _); [done|]. destruct (uri_from_str t) as [u|]; bsimpl; [|done].
  by destruct (_ || _).
Qed.

Lemma str_len_pos_method (m : Method) : str_len (method_as_str m) <> 0.
Proof.
  rewrite <-len_as_bytes. intros E%len_zero_nil. pose proof (method_roundtrip m) as Hm.
  by rewrite E, method_nonempty in Hm.
Qed.

(** Credentials exist only through [Credential::new]. *)
Definition credential_wf (c : SdkEnvelope.Credential) : Prop :=
  SdkEnvelope.credential_new (SdkEnvelope.cred_kind c) (SdkEnvelope.cred_value c) = Ok c.

Lemma credential_agree c :
  credential_wf c -> ServerEnvelope.validate_credential (server_credential c) = Ok tt.
Proof.
  unfold credential_wf, SdkEnvelope.credential_new, ServerEnvelope.validate_credential.
  change (ServerEnvelope.cred_value (server_credential c)) with (SdkEnvelope.cred_value c).
  rewrite !len_as_bytes. change ServerEnvelope.is_visible_ascii with SdkEnvelope.is_visible_ascii.
  change ServerEnvelope.MAX_CREDENTIAL_BYTES with SdkEnvelope.MAX_CREDENTIAL_BYTES.
  by destruct (_ || _).
Qed.

Lemma server_validates rid r :
  SdkEnvelope.validate r = Ok tt -> (forall c, lr_credential r = Some c -> credential_wf c) ->
  ServerEnvelope.validate (server_envelope rid r) = Ok tt.
Proof.
  intros Hv Hc. apply SdkEnvelope.validate_inv in Hv as (Hm & Ht & Hh & Hall & Hb).
  apply ServerEnvelope.validate_ok. split_and!.
  - cbn. destruct (lr_credential r) as [c|]; cbn; [|done]. by apply credential_agree, Hc.
  - unfold ServerEnvelope.validate_method. cbn [env_method server_envelope].
    rewrite method_roundtrip. cbn [is_none is_some negb].
    pose proof (str_len_pos_method (lr_method r)).
    rewrite (proj2 (Z.eqb_neq _ _)), (proj2 (Z.ltb_ge _ _)); done.
  - by apply target_agree.
  - unfold ServerEnvelope.validate_headers. cbn [env_headers server_envelope]. unfold len in *. rewrite length_fmap.
    rewrite (proj2 (Z.ltb_ge _ _)) by done. apply ServerEnvelope.validate_each_ok, Forall_fmap.
    eapply Forall_impl; [exact Hall|]. intros h Hx. by apply header_agree.
  - done.
Qed.

Context {Ser : JsonSer SdkEnvelope.RequestMetadata} {De : JsonDe ServerEnvelope.RequestMetadata}.

(** C3: A request crosses the tunnel unchanged: whatever logical request the SDK encodes, it
    encrypts successfully under the session, and the enclave decrypts the record to the same
    request identifier and decodes it to exactly that request, with nothing the client accepted
    being refused by the enclave. *)
Theorem request_tunnel s rid r bytes :
  JsonCompat Ser De server_metadata -> secrets_wf s -> len rid = 16 ->
  (forall c, lr_credential r = Some c -> credential_wf c) ->
  SdkEnvelope.encode r = Ok bytes ->
  exists record, SdkCrypto.encrypt_request (sdk_secrets s) rid bytes = Ok record /\
    len record <= MAX_REQUEST_RECORD_BYTES /\
    ServerCrypto.decrypt_request s record = Ok (rid, bytes) /\
    decode_bytes rid bytes = Ok (server_envelope rid r).
Proof.
  intros HJ Hs Hr Hc He. apply SdkEnvelope.encode_inv in He as (Hv & md & Hj & Hl & ->).
  pose proof (server_validates rid r Hv Hc) as Hsv.
  assert (len (default [] (lr_body r)) <= MAX_BODY_BYTES) as Hb.
  { apply SdkEnvelope.validate_inv in Hv as (_ & _ & _ & _ & Hb). by destruct (lr_body r). }
  set (bytes := to_be_bytes 4 (len md) ++ md ++ default [] (lr_body r)).
  assert (len bytes = 4 + len md + len (default [] (lr_body r))) as Hlen.
  { unfold bytes. rewrite !len_app, len_to_be_bytes. lia. }
  unfold SdkEnvelope.MAX_METADATA_BYTES, SdkEnvelope.MAX_BODY_BYTES in *.
  pose proof (len_nonneg md). pose proof (len_nonneg (default [] (lr_body r))).
  destruct (seal_request s rid bytes Hs Hr) as (record & E & Hrl & D).
  { unfold AEAD_MAX_BYTES, U32_MAX. lia. }
  exists record. rewrite encrypt_request_interop, E. split_and!; [done| |done|].
  - rewrite Hrl, Hlen. unfold MAX_REQUEST_RECORD_BYTES, MAX_ENCODED_REQUEST_BYTES,
      ServerEnvelope.METADATA_LENGTH_BYTES, ServerEnvelope.MAX_METADATA_BYTES,
      ServerEnvelope.MAX_BODY_BYTES, ServerCrypto.MIN_REQUEST_RECORD_BYTES,
      ServerCrypto.REQUEST_ID_BYTES, ServerCrypto.RECORD_TAG_BYTES. lia.
  - apply HJ in Hj. unfold bytes.
    rewrite (decode_parts rid md _ (server_metadata (SdkEnvelope.metadata_of r))); [|done..].
    change (server_metadata (SdkEnvelope.metadata_of r))
      with (ServerEnvelope.metadata_of (server_envelope rid r)).
    change (default [] (lr_body r)) with (body_bytes_of (server_envelope rid r)).
    rewrite body_of_metadata. bsimpl. by apply (from_parts_fields (server_envelope rid r)).
Qed.
End Requests.

(** ** Responses *)
Section Responses.
Context {P : CryptoPrims} {HP : CryptoLaws P} {H : HttpCrate}.
Context {SerStart : JsonSer ServerFraming.ResponseStart} {SerFail : JsonSer ServerFraming.ResponseFailure}.
Context {DeStart : JsonDe SdkFraming.ResponseStart} {DeFail : JsonDe SdkFraming.ResponseFailure}.
Context {HStart : JsonCompat SerStart DeStart sdk_start} {HFail : JsonCompat SerFail DeFail sdk_failure}.

Lemma revalidated hs :
  Forall (fun h => ServerEnvelope.validate_header h = Ok tt) hs ->
  SdkFraming.revalidate_headers (sdk_header <$> hs) = Ok tt.
Proof.
  induction 1 as [|h hs Hh _ IH]; [done|]. rewrite fmap_cons. cbn [SdkFraming.revalidate_headers].
  unfold SdkEnvelope.logical_header_new.
  assert (SdkEnvelope.validate_header (SdkEnvelope.MkLogicalHeader (SdkEnvelope.lh_name (sdk_header h))
    (SdkEnvelope.lh_value (sdk_header h))) = Ok tt) as ->.
  { apply header_agree. by destruct h. }
  bsimpl. done.
Qed.

(** The client reads back what the enclave wrote. *)
Lemma decode_encoded r pt :
  ServerFraming.record_encode r = Ok pt -> decode_plaintext_record pt = Ok (event_of r).
Proof.
  destruct r as [st|b| |code]; cbn [ServerFraming.record_encode].
  - intros E. result_inv. match goal with u : unit |- _ => destruct u end.
    match goal with H : response_start_validate _ = _ |- _ =>
      apply response_start_validate_ok in H as (Hs & Hc & Hh) end.
    match goal with H : encode_metadata _ _ = _ |- _ =>
      apply encode_metadata_inv in H as (md & Hj & -> & Hl) end.
    apply HStart in Hj. unfold decode_plaintext_record. cbn [decide byte_eq_dec].
    rewrite decide_True by done. rewrite (proj2 (Z.ltb_ge _ _)) by done. rewrite Hj. bsimpl.
    cbn [SdkFraming.rst_status SdkFraming.rst_headers sdk_start].
    rewrite (proj2 (Z.leb_le 200 _)), (proj2 (Z.leb_le _ 599)) by lia. cbn [andb negb orb].
    rewrite (proj2 (Z.ltb_ge _ _)) by (unfold len in *; by rewrite length_fmap).
    rewrite revalidated by done. done.
  - destruct (Z.ltb_spec ServerFraming.MAX_RESPONSE_CHUNK_BYTES (len b)) as [|Hl]; [done|].
    intros [= <-]. unfold decode_plaintext_record. rewrite decide_False by done.
    rewrite bool_decide_true by done. rewrite (proj2 (Z.leb_le _ _)) by done. done.
  - intros [= <-]. done.
  - intros E. result_inv. match goal with u : unit |- _ => destruct u end.
    match goal with H : encode_metadata _ _ = _ |- _ =>
      apply encode_metadata_inv in H as (md & Hj & -> & Hl) end.
    apply HFail in Hj. unfold decode_plaintext_record. rewrite decide_False by done.
    rewrite !bool_decide_false by done. cbn [andb]. rewrite decide_True by done.
    rewrite (proj2 (Z.ltb_ge _ _)) by done. rewrite Hj. bsimpl.
    cbn [SdkFraming.rf_code sdk_failure ServerFraming.rf_code].
    match goal with H : validate_error_code _ = _ |- _ => unfold validate_error_code in H;
      unfold SdkFraming.MAX_RESPONSE_ERROR_CODE_BYTES;
      unfold ServerFraming.MAX_RESPONSE_ERROR_CODE_BYTES in H end.
    change SdkFraming.is_code_byte with ServerFraming.is_code_byte. by destruct (_ || _).
Qed.

(** The decoder between two records. *)
Definition boundary (o : ResponseOpener) (st : DecodeState) (prefix : list byte) : ResponseDecoder :=
  MkResponseDecoder o st prefix 0 None [].

Lemma boundary_wf o st prefix : length prefix = 4%nat -> decoder_wf (boundary o st prefix).
Proof. intros Hp. split; cbn; [done|]. split; [lia|done]. Qed.

Lemma frame_iteration o st prefix ct rest :
  length prefix = 4%nat -> 16 <= len ct <= SdkFraming.MAX_RESPONSE_RECORD_CIPHERTEXT_BYTES ->
  push_iteration (boundary o st prefix) ((to_be_bytes 4 (len ct) ++ ct) ++ rest)
  = complete_record (boundary o st (to_be_bytes 4 (len ct))) ct rest.
Proof.
  intros Hp Hl. unfold push_iteration, take_prefix, boundary. dsimpl.
  unfold SdkFraming.CIPHERTEXT_LENGTH_BYTES. rewrite <-app_assoc, Nat.sub_0_r.
  rewrite Nat.min_l by (rewrite length_app, length_to_be_bytes; lia).
  destruct (take_drop_app_len 4 (to_be_bytes 4 (len ct)) (ct ++ rest)) as [E1 E2];
    [by rewrite length_to_be_bytes|].
  rewrite E1, E2, Nat.add_0_l, take_0, app_nil_l.
  rewrite drop_ge, app_nil_r by lia. cbn [Nat.ltb Nat.leb].
  unfold SdkFraming.MAX_RESPONSE_RECORD_CIPHERTEXT_BYTES, SdkFraming.MAX_RESPONSE_RECORD_PLAINTEXT_BYTES,
    SdkFraming.MAX_RESPONSE_CHUNK_BYTES, SdkCrypto.RECORD_TAG_BYTES in *.
  rewrite from_to_be_bytes_small by (change (256 ^ Z.of_nat 4) with 4294967296; lia).
  rewrite (proj2 (Z.leb_le 16 _)), (proj2 (Z.leb_le (len ct) _)) by lia. cbn [andb negb].
  unfold take_ciphertext. dsimpl. cbn [length].
  assert (Z.to_nat (len ct) = length ct) as -> by (unfold len; lia).
  rewrite (proj2 (Nat.ltb_ge (length ct) 0)) by lia.
  rewrite Nat.sub_0_r, Nat.min_l by (rewrite length_app; lia).
  rewrite app_nil_l, take_app_length, drop_app_length.
  by rewrite (proj2 (Nat.ltb_ge _ _)) by lia.
Qed.

(** One record of the sealer, read in a state that admits it. *)
Lemma frame_read w r pt st prefix rest ev :
  sealer_wf w -> ServerCrypto.rs_next_sequence w < U64_MAX -> ServerFraming.record_encode r = Ok pt ->
  length prefix = 4%nat -> active (boundary (opener_of w) st prefix) ->
  match st, event_of r with
  | AwaitingStart, SdkFraming.Start _ _ | Open, SdkFraming.Chunk _ =>
      exists prefix', length prefix' = 4%nat /\
        run (boundary (opener_of w) st prefix) (frame_of w 0 pt ++ rest) ev
        = run (boundary (opener_of (advance w 1)) Open prefix') rest (ev ++ [event_of r])
  | Open, SdkFraming.End | Open, SdkFraming.Error _ =>
      exists prefix', length prefix' = 4%nat /\
        run (boundary (opener_of w) st prefix) (frame_of w 0 pt) ev
        = Some (boundary (opener_of (advance w 1)) (PendingTerminal (event_of r)) prefix', Ok ev)
  | _, _ => True
  end.
Proof.
  intros Hw Hn Hr Hp Ha. pose proof (ServerFraming.record_encode_len _ _ Hr) as Hl.
  destruct (record_seal_ok w 0 pt Hw) as (ct & Ec & Hct); [lia|].
  pose proof (open_next_sealed w 0 pt ct ltac:(lia) Ec) as Ho.
  assert (advance w (Z.of_nat 0) = w) as Hw0.
  { unfold advance. rewrite Z.add_0_r. by destruct w. }
  rewrite Hw0, Z.add_0_l in Ho. unfold frame_of. rewrite Ec.
  assert (16 <= len ct <= SdkFraming.MAX_RESPONSE_RECORD_CIPHERTEXT_BYTES) as Hlc.
  { unfold ServerFraming.MAX_RESPONSE_RECORD_PLAINTEXT_BYTES, ServerFraming.MAX_RESPONSE_CHUNK_BYTES in Hl.
    unfold SdkFraming.MAX_RESPONSE_RECORD_CIPHERTEXT_BYTES, SdkFraming.MAX_RESPONSE_RECORD_PLAINTEXT_BYTES,
      SdkFraming.MAX_RESPONSE_CHUNK_BYTES, SdkCrypto.RECORD_TAG_BYTES. lia. }
  assert (forall rest, run (boundary (opener_of w) st prefix) ((to_be_bytes 4 (len ct) ++ ct) ++ rest) ev
    = match complete_record (boundary (opener_of w) st (to_be_bytes 4 (len ct))) ct rest with
      | Continue d' r e => run d' r (ev ++ option_list e)
      | Return d' e => Some (d', Err e) | Panic => None end) as Hrun.
  { intros rest'. rewrite run_step; [by rewrite frame_iteration|by apply boundary_wf|].
    intros E%(f_equal length). rewrite !length_app, length_to_be_bytes in E. cbn in E. lia. }
  pose proof (Hrun []) as Hrun0. rewrite app_nil_r in Hrun0. specialize (Hrun rest).
  unfold complete_record, decode_record, boundary in Hrun, Hrun0. revert Hrun Hrun0. dsimpl.
  rewrite Ho. bsimpl. rewrite (decode_encoded r pt Hr). bsimpl. unfold active, boundary in Ha.
  revert Ha. dsimpl. intros Ha Hrun Hrun0.
  destruct st; try (by destruct Ha); destruct (event_of r) eqn:Ee; try done; cbn [is_terminal] in *.
  - exists (to_be_bytes 4 (len ct)). split; [by rewrite length_to_be_bytes|]. exact Hrun.
  - exists (to_be_bytes 4 (len ct)). split; [by rewrite length_to_be_bytes|]. exact Hrun.
  - exists (to_be_bytes 4 (len ct)). split; [by rewrite length_to_be_bytes|].
    etrans; [exact Hrun0|]. unfold run. cbn. by rewrite app_nil_r.
  - exists (to_be_bytes 4 (len ct)). split; [by rewrite length_to_be_bytes|].
    etrans; [exact Hrun0|]. unfold run. cbn. by rewrite app_nil_r.
Qed.

Lemma imap_frames_cons w pt pts :
  imap (frame_of w) (pt :: pts) = frame_of w 0 pt :: imap (frame_of (advance w 1)) pts.
Proof.
  cbn [imap]. f_equal. apply imap_ext. intros i x _. unfold frame_of, record_seal, advance. cbn.
  by rewrite Nat2Z.inj_succ, <-Z.add_assoc, Z.add_1_l.
Qed.

Lemma advance_wf w : sealer_wf w -> sealer_wf (advance w 1).
Proof. intros (? & ? & ? & ?). split_and!; try done. cbn. lia. Qed.

(** A whole response: records in a legal order, ending with a terminal one. *)
Lemma frames_read init t w st prefix pts ev :
  sealer_wf w -> ServerCrypto.rs_next_sequence w + len (init ++ [t]) <= U64_MAX ->
  Forall2 (fun r pt => ServerFraming.record_encode r = Ok pt) (init ++ [t]) pts ->
  length prefix = 4%nat -> st = AwaitingStart \/ st = Open ->
  deliver st (event_of <$> init) = Some Open -> is_terminal (event_of t) = true ->
  exists o prefix', length prefix' = 4%nat /\
    run (boundary (opener_of w) st prefix) (concat (imap (frame_of w) pts)) ev
    = Some (boundary o (PendingTerminal (event_of t)) prefix', Ok (ev ++ (event_of <$> init))).
Proof.
  revert w st prefix pts ev. induction init as [|r init IH];
    intros w st prefix pts ev Hw Hn Hf Hp Hst Hd Ht; rewrite ?len_app, ?len_cons, ?len_nil in Hn;
    cbn [app] in Hf; inversion Hf as [|? pt ? pts' Hr Hf']; subst; rewrite imap_frames_cons; cbn [concat].
  - inversion Hf'; subst. cbn [imap concat]. rewrite app_nil_r.
    cbn in Hd. injection Hd as ->.
    pose proof (frame_read w t pt Open prefix [] ev Hw ltac:(lia) Hr Hp ltac:(by right)) as Hx.
    destruct (event_of t) eqn:Et; try done; destruct Hx as (prefix' & Hp' & E); eexists _, _;
      (split; [exact Hp'|]); rewrite E; cbn; by rewrite app_nil_r.
  - pose proof (len_nonneg init).
    pose proof (frame_read w r pt st prefix (concat (imap (frame_of (advance w 1)) pts')) ev Hw
      ltac:(lia) Hr Hp Hst) as Hx.
    rewrite fmap_cons in Hd |- *. cbn [deliver] in Hd.
    destruct st; try (by destruct Hst); destruct (event_of r) eqn:Er; try done;
      destruct Hx as (prefix' & Hp' & E);
      (edestruct (IH (advance w 1) Open prefix' pts' (ev ++ [event_of r])) as (o & prefix'' & Hp'' & E');
        [by apply advance_wf|cbn; rewrite len_app, len_cons, len_nil; lia|done|done|by right|done|done|]);
      exists o, prefix''; (split; [done|]); rewrite Er in *; rewrite E, E'; by rewrite <-app_assoc.
Qed.
End Responses.

(** ** Responses of the gateway *)

(** The data of a body up to its first irregular frame, and the terminal record it deserves. *)
Fixpoint body_data (body : list BodyFrame) : list byte :=
  match body with Data bytes :: body => bytes ++ body_data body | _ => [] end.

Fixpoint body_end (body : list BodyFrame) : ServerFraming.ResponseRecord :=
  match body with
  | [] => ServerFraming.End
  | Data _ :: body => body_end body
  | BodyFailed :: _ => ServerFraming.Error "application_body_failed"
  | Trailers :: _ => ServerFraming.Error "application_trailers_unsupported"
  | OtherFrame :: _ => ServerFraming.Error "application_frame_unsupported"
  end.

Lemma body_records_shape body :
  exists data, body_records body = (ServerFraming.Chunk <$> data) ++ [body_end body] /\
    concat data = body_data body.
Proof.
  induction body as [|f body (data & E & Ed)]; [by exists []|].
  destruct f as [bytes| | |]; try by exists [].
  destruct (chunks_spec bytes) as [Hc _]. cbn [body_records body_data body_end]. rewrite E.
  exists (chunks ServerFraming.MAX_RESPONSE_CHUNK_BYTES bytes ++ data). rewrite fmap_app, app_assoc. split; [done|].
  by rewrite concat_app, Hc, Ed.
Qed.

Lemma body_end_terminal body : is_terminal (event_of (body_end body)) = true.
Proof. induction body as [|[]]; done. Qed.

Lemma deliver_chunks data : deliver Open (SdkFraming.Chunk <$> data) = Some Open.
Proof. by induction data. Qed.

Lemma finish_boundary o t prefix :
  (finish (boundary o (PendingTerminal t) prefix)).2 = Ok t.
Proof. done. Qed.

Section ResponseTunnel.
Context {P : CryptoPrims} {HP : CryptoLaws P} {H : HttpCrate} {T : HeaderText}.
Context {SerStart : JsonSer ServerFraming.ResponseStart} {SerFail : JsonSer ServerFraming.ResponseFailure}.
Context {DeStart : JsonDe SdkFraming.ResponseStart} {DeFail : JsonDe SdkFraming.ResponseFailure}.

(** A proper prefix of an accepted stream is never accepted as complete. *)
Lemma prefix_not_finished o a x b d es :
  push (decoder_new o) (a ++ x :: b) = Some (d, Ok es) ->
  exists d1 e1, push (decoder_new o) a = Some (d1, Ok e1) /\ (finish d1).2 = Err TruncatedResponse.
Proof.
  intros Hp. rewrite push_app in Hp by apply decoder_new_wf.
  destruct (push (decoder_new o) a) as [[d1 [e1|e1]]|] eqn:Ea; [|done..].
  exists d1, e1. split; [done|].
  assert (forall t, rd_state d1 <> PendingTerminal t) as Hnt.
  { intros t Ht. unfold push in Hp at 1. by rewrite Ht in Hp. }
  assert (rd_state d1 <> Finished) as Hnf.
  { intros Ht. unfold push in Hp at 1. by rewrite Ht in Hp. }
  unfold finish. destruct (_ || _); [done|]. cbn. destruct (rd_state d1) eqn:Es; naive_solver.
Qed.

(** The client's reading of the records of one response. *)
Lemma response_read response w pts :
  JsonCompat SerStart DeStart sdk_start -> JsonCompat SerFail DeFail sdk_failure ->
  sealer_wf w -> ServerCrypto.rs_next_sequence w = 0 ->
  Forall2 (fun r pt => ServerFraming.record_encode r = Ok pt) (response_records response) pts ->
  len (response_records response) <= U64_MAX ->
  exists o prefix data, concat data = body_data (response_head response).2 /\
    push (decoder_new (opener_of w)) (concat (imap (frame_of w) pts))
    = Some (boundary o (PendingTerminal (event_of (body_end (response_head response).2))) prefix,
            Ok (event_of (ServerFraming.Start (response_head response).1)
                :: (SdkFraming.Chunk <$> data))).
Proof.
  intros HS HF Hw Hseq Hpts Hn.
  destruct (body_records_shape (response_head response).2) as (data & Eb & Ed).
  unfold response_records in Hpts, Hn. rewrite Eb, app_comm_cons in Hpts, Hn.
  destruct (frames_read (ServerFraming.Start (response_head response).1 :: (ServerFraming.Chunk <$> data))
    (body_end (response_head response).2) w AwaitingStart (replicate 4 x00) pts [])
    as (o & prefix & _ & Erun); try done.
  - by rewrite Hseq.
  - by left.
  - rewrite fmap_cons. cbn [deliver event_of]. rewrite <-list_fmap_compose. apply deliver_chunks.
  - apply body_end_terminal.
  - exists o, prefix, data. split; [done|]. rewrite push_run by by left. etrans; [exact Erun|].
    rewrite fmap_cons, <-list_fmap_compose. done.
Qed.

(** What the gateway keeps of a head: all of a representable one, with the headers that pass the envelope's
    validation; of any other, and of its body, nothing. *)
Definition representable (response : AppResponse) : bool :=
  (200 <=? resp_status response) && (resp_status response <=? 599)
  && (len (logical_response_headers (resp_headers response)) <=? ServerFraming.MAX_RESPONSE_HEADER_COUNT).

Definition sent_start (response : AppResponse) : ServerFraming.ResponseStart :=
  if representable response
  then ServerFraming.MkResponseStart (resp_status response) (logical_response_headers (resp_headers response))
  else ServerFraming.MkResponseStart 500 [].

Definition sent_body (response : AppResponse) : list BodyFrame :=
  if representable response then resp_body response else [].

Lemma logical_headers_valid headers :
  Forall (fun h => ServerEnvelope.validate_header h = Ok tt) (logical_response_headers headers).
Proof.
  apply Forall_forall. intros h Hin. unfold logical_response_headers, filter_map in Hin.
  apply list_elem_of_omap in Hin as ([name value] & _ & Hh). cbn [fst snd] in Hh.
  destruct (header_to_str value) as [v|]; [|done]. cbn [mbind option_bind] in Hh.
  destruct (ServerEnvelope.logical_header_new name v) as [h'|] eqn:E; [|done]. injection Hh as ->.
  unfold ServerEnvelope.logical_header_new in E. apply result_bind_ok in E as ([] & E & [= <-]). exact E.
Qed.

Lemma response_head_sent response : response_head response = (sent_start response, sent_body response).
Proof.
  unfold response_head, sent_start, sent_body, ServerFraming.response_start_new.
  set (headers := logical_response_headers _). set (start := ServerFraming.MkResponseStart (resp_status response) headers).
  pose proof (ServerFraming.response_start_validate_ok start) as Hok. cbn [ServerFraming.rst_status ServerFraming.rst_headers start] in Hok.
  pose proof (logical_headers_valid (resp_headers response)) as Hv. unfold representable. fold headers. fold headers in Hv.
  destruct (ServerFraming.response_start_validate start) as [[]|e] eqn:E; cbn [mbind result_bind].
  - apply proj1 in Hok. destruct (Hok eq_refl) as (Hs & Hl & _). by rewrite !(proj2 (Z.leb_le _ _)) by lia.
  - destruct (_ && _) eqn:Er; [|done]. bool_to_prop. exfalso. enough (Err e = Ok tt) by done. apply Hok. by split_and!.
Qed.

(** A head that does not fit its record: the answer leaves the channel. *)
Lemma unsealed_head p a s response :
  session_at p (ar_session a) = Some s ->
  match json_to_vec (sent_start response) with
  | Some md => ServerFraming.MAX_RESPONSE_METADATA_BYTES < len md
  | None => True
  end ->
  exists p', encrypted_response p a response = Some (Err Unavailable, p').
Proof.
  intros Hs Hj. rewrite encrypted_response_head, response_head_sent. cbn [fst snd]. unfold begin_response. rewrite Hs.
  cbn [mbind option_bind]. destruct (ServerCrypto.response_sealer _ _) as [w|e]; [|by eexists].
  assert (exists e, ServerFraming.record_encode (ServerFraming.Start (sent_start response)) = Err e) as [e E].
  { pose proof (response_head_valid response) as Hv. rewrite response_head_sent in Hv. cbn [fst] in Hv.
    cbn [ServerFraming.record_encode]. rewrite Hv. bsimpl. unfold ServerFraming.encode_metadata.
    destruct (json_to_vec _) as [md|]; bsimpl; [|by eexists]. by rewrite (proj2 (Z.ltb_lt _ _)) by done; eexists. }
  unfold seal_framed. rewrite E. by eexists.
Qed.

End ResponseTunnel.

(** ** Witnesses *)
#[local] Existing Instances Toy.toy_crypto Toy.toy_crypto_laws ToyHttp.toy_http ToyHttp.toy_http_laws
  ToyHttp.toy_header_text.

Lemma handshake_interop_witness :
  let t := ServerCrypto.MkHandshakeTranscript (replicate 32 x09) (to_be_bytes 32 5) (to_be_bytes 32 11) in
  SdkCrypto.derive_client_session (5 : @EphemeralSecret Toy.toy_crypto) (sdk_transcript t)
  = sdk_secrets <$> map_err sdk_error
      (ServerCrypto.derive_server_session (11 : @EphemeralSecret Toy.toy_crypto) t).
Proof.
  apply (handshake_interop (11 : @EphemeralSecret Toy.toy_crypto) (5 : @EphemeralSecret Toy.toy_crypto));
    reflexivity.
Defined.

Lemma post_nonempty : "POST"%string <> EmptyString.
Proof. discriminate. Qed.

Definition post : Method := dexist (P := fun s : string => s <> EmptyString) "POST"%string post_nonempty.

Definition sample_request : LogicalRequest :=
  MkLogicalRequest (Some (SdkEnvelope.MkCredential SdkEnvelope.ApiKey "key")) None post "/v1/models"
    [SdkEnvelope.MkLogicalHeader "accept" "text/plain"] (Some []).

#[local] Instance sdk_kind_eq_dec : EqDecision SdkEnvelope.CredentialKind.
Proof. solve_decision. Defined.
#[local] Instance sdk_credential_eq_dec : EqDecision SdkEnvelope.Credential.
Proof. solve_decision. Defined.
#[local] Instance sdk_header_eq_dec : EqDecision SdkEnvelope.LogicalHeader.
Proof. solve_decision. Defined.
#[local] Instance sdk_metadata_eq_dec : EqDecision SdkEnvelope.RequestMetadata.
Proof. solve_decision. Defined.

(** Codecs that know one document. *)
Definition sample_sdk_ser : JsonSer SdkEnvelope.RequestMetadata := fun m =>
  if decide (m = SdkEnvelope.metadata_of sample_request) then Some [x7b; x7d] else None.
Definition sample_server_de : JsonDe ServerEnvelope.RequestMetadata := fun bs =>
  if decide (bs = [x7b; x7d]) then Some (server_metadata (SdkEnvelope.metadata_of sample_request)) else None.

Lemma sample_request_compat : JsonCompat sample_sdk_ser sample_server_de server_metadata.
Proof.
  intros m bs. unfold json_to_vec, sample_sdk_ser. case_decide; [|done]. intros [= <-]. by subst.
Qed.

Lemma request_tunnel_witness :
  exists record bytes, ServerCrypto.decrypt_request sample_secrets record = Ok (replicate 16 x07, bytes) /\
    @decode_bytes _ sample_server_de (replicate 16 x07) bytes
    = Ok (server_envelope (replicate 16 x07) sample_request).
Proof.
  destruct (request_tunnel (Ser := sample_sdk_ser) (De := sample_server_de) sample_secrets
    (replicate 16 x07) sample_request [x00; x00; x00; x02; x7b; x7d] sample_request_compat)
    as (record & _ & _ & D & E); [repeat split|reflexivity| |vm_compute; reflexivity|].
  - intros c [= <-]. vm_compute. reflexivity.
  - exists record, [x00; x00; x00; x02; x7b; x7d]. split; [exact D|exact E].
Defined.

(** A head codec that writes the status and drops headers, for the head of [sample_answer]. *)
Definition sample_answer : AppResponse := MkAppResponse 204 [] [Data [x68; x69]; BodyFailed].
Definition sample_ser_head : JsonSer ServerFraming.ResponseStart := fun s =>
  match ServerFraming.rst_headers s with
  | [] => Some (to_be_bytes 2 (ServerFraming.rst_status s))
  | _ => None
  end.
Definition sample_de_head : JsonDe SdkFraming.ResponseStart := fun bs =>
  Some (SdkFraming.MkResponseStart (from_be_bytes bs) []).
Definition sample_de_failure : JsonDe SdkFraming.ResponseFailure := fun bs =>
  Some (SdkFraming.MkResponseFailure (String.string_of_list_byte bs)).

(** The same with the status kept within two bytes, as a [u16] is. *)
Definition sample_ser_head16 : JsonSer ServerFraming.ResponseStart := fun s =>
  if (0 <=? ServerFraming.rst_status s) && (ServerFraming.rst_status s <? 65536)
  then sample_ser_head s else None.

Lemma sample_head_compat : JsonCompat sample_ser_head16 sample_de_head sdk_start.
Proof.
  intros [st hs] bs. unfold json_to_vec, sample_ser_head16, sample_ser_head. cbn [ServerFraming.rst_status ServerFraming.rst_headers].
  destruct (_ && _) eqn:Eb; [|done]. bool_to_prop. destruct hs; [|done]. intros E%(inj Some). subst bs.
  unfold json_from_slice, sample_de_head, sdk_start. cbn [ServerFraming.rst_status ServerFraming.rst_headers].
  rewrite from_to_be_bytes_small; [done|]. change (256 ^ Z.of_nat 2) with 65536. lia.
Qed.

Lemma sample_failure_compat : JsonCompat sample_ser_fail sample_de_failure sdk_failure.
Proof.
  intros [code] bs. unfold json_to_vec, sample_ser_fail. intros [= <-].
  unfold json_from_slice, sample_de_failure, sdk_failure, as_bytes. cbn.
  by rewrite String.string_of_list_byte_of_string.
Qed.

