(* ===== verification/Registry.v ===== *)
(** * Provider registry: provider_registry.rs and the model identifiers of model_config.rs

    The credential-free topology of completion routing: providers with their weights, the routes
    of every completion and decision model, and the production tables.  [registry_wf] is what
    planning, health and routing rely on; [PROVIDER_REGISTRY_wf] discharges it for production. *)
From S2P Require Import Prelude.

(** ** Public model identifiers (model_config.rs) *)

Definition AUTO_QUICK_MODEL_ID : string := "auto:quick".
Definition AUTO_POWERFUL_MODEL_ID : string := "auto:powerful".
Definition GPT_OSS_120B_MODEL_ID : string := "gpt-oss-120b".
Definition GLM_5_3_MODEL_ID : string := "glm-5-3".
Definition GLM_5_3_FLASH_MODEL_ID : string := "glm-5-3-flash".
Definition POWERFUL_MODEL_ID : string := GLM_5_3_MODEL_ID.
Definition KIMI_K3_MODEL_ID : string := "kimi-k3".
Definition KIMI_K3_1_PRO_MODEL_ID : string := "kimi-k3-1-pro".
Definition DEEPSEEK_V4_1_FLASH_MODEL_ID : string := "deepseek-v4-1-flash".
Definition QUICK_MODEL_ID : string := DEEPSEEK_V4_1_FLASH_MODEL_ID.
Definition DEEPSEEK_V4_1_FLASH_UNCENSORED_MODEL_ID : string := "deepseek-v4-1-flash-1017-uncensored".
Definition DECISION_SMALL_MODEL_ID : string := "decision-small".
Definition DECISION_MEDIUM_MODEL_ID : string := "decision-medium".
Definition DECISION_LARGE_MODEL_ID : string := "decision-large".

(** ** Providers *)

Definition SHADOW_ROUTING_POLICY_VERSION : string := "routing-v2-weighted-v6".
Definition MAPLE_ROUTING_POLICY_VERSION : string := "routing-v2-maple-instances-v9".

Inductive MapleInstanceId :=
| I01
| I02.

#[global] Instance MapleInstanceId_eq_dec : EqDecision MapleInstanceId.
Proof. solve_decision. Defined.

Definition ALL : list MapleInstanceId := [I01; I02].

Inductive ProviderId :=
| Tinfoil
| Continuum
| Maple (instance : MapleInstanceId).

#[global] Instance ProviderId_eq_dec : EqDecision ProviderId.
Proof. solve_decision. Defined.

Definition as_str (p : ProviderId) : string :=
  match p with
  | Tinfoil => "tinfoil"
  | Continuum => "continuum"
  | Maple I01 => "maple-i01"
  | Maple I02 => "maple-i02"
  end.

Definition family_name (p : ProviderId) : string :=
  match p with
  | Maple _ => "maple"
  | _ => as_str p
  end.

Definition is_maple (p : ProviderId) : bool :=
  match p with Maple _ => true | _ => false end.

Definition from_name (name : string) : option ProviderId :=
  if String.eqb name "tinfoil" then Some Tinfoil
  else if String.eqb name "continuum" then Some Continuum
  else if String.eqb name "maple-i01" then Some (Maple I01)
  else if String.eqb name "maple-i02" then Some (Maple I02)
  else None.

Lemma from_name_as_str p : from_name (as_str p) = Some p.
Proof. by destruct p as [| |[]]. Qed.

Lemma from_name_Some name p : from_name name = Some p -> name = as_str p.
Proof.
  unfold from_name. intros H.
  repeat match type of H with
  | (if String.eqb ?a ?b then _ else _) = _ => destruct (String.eqb_spec a b); [naive_solver|]
  end. done.
Qed.

#[global] Instance ProviderId_countable : Countable ProviderId.
Proof. apply (inj_countable as_str from_name). apply from_name_as_str. Defined.

Inductive RouteSelectionSource :=
| StaticSplit
| Fallback
| Sticky.

#[global] Instance RouteSelectionSource_eq_dec : EqDecision RouteSelectionSource.
Proof. solve_decision. Defined.

(** ** Specifications *)

Record ProviderSpec := MkProviderSpec {
  ps_id : ProviderId;
  ps_weight : Z;   (** u16 *)
  ps_enabled : bool;
}.

Record ModelRouteSpec := MkModelRouteSpec {
  rs_provider : ProviderId;
  rs_provider_model_id : string;
  rs_response_model_id : string;
  rs_weight : Z;   (** u16 *)
  rs_enabled : bool;
}.

Record CompletionModelSpec := MkCompletionModelSpec {
  cm_public_model_id : string;
  cm_routes : list ModelRouteSpec;
}.

(** The constructor function of the source, [const fn completion_model]. *)
Definition completion_model_spec (public_model_id : string) (routes : list ModelRouteSpec)
    : CompletionModelSpec := MkCompletionModelSpec public_model_id routes.

Record DecisionModelSpec := MkDecisionModelSpec {
  dm_public_model_id : string;
  dm_routes : list ModelRouteSpec;
}.

Record ProviderRegistry := MkProviderRegistry {
  providers : list ProviderSpec;
  completion_models : list CompletionModelSpec;
  decision_models : list DecisionModelSpec;
}.

(** ** Look-ups: [Iterator::find] *)

Definition provider (reg : ProviderRegistry) (id : ProviderId) : option ProviderSpec :=
  find (fun p => bool_decide (ps_id p = id)) (providers reg).

Definition completion_model (reg : ProviderRegistry) (public_model_id : string)
    : option CompletionModelSpec :=
  find (fun m => String.eqb (cm_public_model_id m) public_model_id) (completion_models reg).

Definition decision_model (reg : ProviderRegistry) (public_model_id : string)
    : option DecisionModelSpec :=
  find (fun m => String.eqb (dm_public_model_id m) public_model_id) (decision_models reg).

(** ** The production tables *)

Definition PROVIDERS : list ProviderSpec := [
  MkProviderSpec Tinfoil 70 true;
  MkProviderSpec Continuum 30 true;
  MkProviderSpec (Maple I01) 100 true;
  MkProviderSpec (Maple I02) 100 true].

Definition GPT_OSS_120B_ROUTES : list ModelRouteSpec :=
  [MkModelRouteSpec Tinfoil GPT_OSS_120B_MODEL_ID GPT_OSS_120B_MODEL_ID 100 true].

Definition GEMMA4_31B_ROUTES : list ModelRouteSpec :=
  [MkModelRouteSpec Tinfoil "gemma4-31b" "gemma4-31b" 100 true].

Definition KIMI_K3_1_PRO_ROUTES : list ModelRouteSpec :=
  [MkModelRouteSpec Tinfoil KIMI_K3_1_PRO_MODEL_ID KIMI_K3_1_PRO_MODEL_ID 100 true].

Definition KIMI_K3_ROUTES : list ModelRouteSpec :=
  [MkModelRouteSpec Tinfoil KIMI_K3_MODEL_ID KIMI_K3_MODEL_ID 100 true].

Definition GLM_5_3_ROUTES : list ModelRouteSpec := [
  MkModelRouteSpec Continuum "glm-5.3" GLM_5_3_MODEL_ID 700 true;
  MkModelRouteSpec Tinfoil GLM_5_3_MODEL_ID GLM_5_3_MODEL_ID 100 true].

Definition GLM_5_3_FLASH_ROUTES : list ModelRouteSpec :=
  [MkModelRouteSpec Continuum "glm-5.3-flash" GLM_5_3_FLASH_MODEL_ID 700 true].

Definition DEEPSEEK_V4_1_FLASH_ROUTES : list ModelRouteSpec := [
  MkModelRouteSpec Tinfoil DEEPSEEK_V4_1_FLASH_MODEL_ID DEEPSEEK_V4_1_FLASH_MODEL_ID 10 true;
  MkModelRouteSpec (Maple I02) DEEPSEEK_V4_1_FLASH_MODEL_ID DEEPSEEK_V4_1_FLASH_MODEL_ID 693 true].

Definition DEEPSEEK_V4_1_FLASH_UNCENSORED_ROUTES : list ModelRouteSpec :=
  [MkModelRouteSpec (Maple I01) DEEPSEEK_V4_1_FLASH_UNCENSORED_MODEL_ID
     DEEPSEEK_V4_1_FLASH_UNCENSORED_MODEL_ID 100 true].

Definition LLAMA3_3_70B_ROUTES : list ModelRouteSpec :=
  [MkModelRouteSpec Tinfoil "llama3-3-70b" "llama3-3-70b" 100 true].

Definition GPT_OSS_SAFEGUARD_120B_ROUTES : list ModelRouteSpec :=
  [MkModelRouteSpec Tinfoil "gpt-oss-safeguard-120b" "gpt-oss-safeguard-120b" 100 true].

Definition COMPLETION_MODELS : list CompletionModelSpec := [
  completion_model_spec GPT_OSS_120B_MODEL_ID GPT_OSS_120B_ROUTES;
  completion_model_spec "gemma4-31b" GEMMA4_31B_ROUTES;
  completion_model_spec KIMI_K3_1_PRO_MODEL_ID KIMI_K3_1_PRO_ROUTES;
  completion_model_spec KIMI_K3_MODEL_ID KIMI_K3_ROUTES;
  completion_model_spec GLM_5_3_MODEL_ID GLM_5_3_ROUTES;
  completion_model_spec GLM_5_3_FLASH_MODEL_ID GLM_5_3_FLASH_ROUTES;
  completion_model_spec DEEPSEEK_V4_1_FLASH_MODEL_ID DEEPSEEK_V4_1_FLASH_ROUTES;
  completion_model_spec DEEPSEEK_V4_1_FLASH_UNCENSORED_MODEL_ID
    DEEPSEEK_V4_1_FLASH_UNCENSORED_ROUTES;
  completion_model_spec "llama3-3-70b" LLAMA3_3_70B_ROUTES;
  completion_model_spec "gpt-oss-safeguard-120b" GPT_OSS_SAFEGUARD_120B_ROUTES].

Definition tinfoil_decision_route (model : string) : ModelRouteSpec :=
  MkModelRouteSpec Tinfoil model model 100 true.

Definition DECISION_SMALL_ROUTES : list ModelRouteSpec :=
  [tinfoil_decision_route DECISION_SMALL_MODEL_ID].
Definition DECISION_MEDIUM_ROUTES : list ModelRouteSpec :=
  [tinfoil_decision_route DECISION_MEDIUM_MODEL_ID].
Definition DECISION_LARGE_ROUTES : list ModelRouteSpec :=
  [tinfoil_decision_route DECISION_LARGE_MODEL_ID].

Definition DECISION_MODELS : list DecisionModelSpec := [
  MkDecisionModelSpec DECISION_SMALL_MODEL_ID DECISION_SMALL_ROUTES;
  MkDecisionModelSpec DECISION_MEDIUM_MODEL_ID DECISION_MEDIUM_ROUTES;
  MkDecisionModelSpec DECISION_LARGE_MODEL_ID DECISION_LARGE_ROUTES].

Definition PROVIDER_REGISTRY : ProviderRegistry :=
  MkProviderRegistry PROVIDERS COMPLETION_MODELS DECISION_MODELS.

(** ** Well-formedness *)

Definition U16_MAX : Z := 65535.

(** Weights fit a [u16], providers and public models are listed once, and a model has at most one
    route per provider. *)
Record registry_wf (reg : ProviderRegistry) : Prop := {
  wf_provider_weights : Forall (fun p => 0 <= ps_weight p <= U16_MAX) (providers reg);
  wf_route_weights :
    Forall (fun m => Forall (fun r => 0 <= rs_weight r <= U16_MAX) (cm_routes m))
      (completion_models reg);
  wf_providers : NoDup (ps_id <$> providers reg);
  wf_models : NoDup (cm_public_model_id <$> completion_models reg);
  wf_model_routes : Forall (fun m => NoDup (rs_provider <$> cm_routes m)) (completion_models reg);
}.

Lemma PROVIDER_REGISTRY_wf : registry_wf PROVIDER_REGISTRY.
Proof.
  split.
  - repeat constructor; cbn; unfold U16_MAX; lia.
  - repeat constructor; cbn; unfold U16_MAX; lia.
  - apply (bool_decide_unpack _). vm_compute. done.
  - apply (bool_decide_unpack _). vm_compute. done.
  - apply (bool_decide_unpack _). vm_compute. done.
Qed.

Lemma completion_model_In reg id m :
  completion_model reg id = Some m -> m ∈ completion_models reg /\ cm_public_model_id m = id.
Proof.
  intros H. apply find_some in H as [Hin He].
  split; [by apply list_elem_of_In|]. by apply String.eqb_eq.
Qed.

Lemma provider_In reg id p :
  provider reg id = Some p -> p ∈ providers reg /\ ps_id p = id.
Proof.
  intros H. apply find_some in H as [Hin He].
  split; [by apply list_elem_of_In|]. by bool_to_prop.
Qed.
