(* ===== verification/Inference.v ===== *)
(** * Inference contracts: inference.rs, the Auto decision types and provider diagnostics

    The values that routing, health and the provider client exchange: selection modes, intents,
    route identities and keys, attempts, failures and terminals.  [Uuid::new_v4] is an argument
    of the operations that draw an identifier. *)
From S2P Require Import Prelude Registry.

(** ** Selection modes *)

Inductive ModelSelectionMode :=
| AutoQuick
| AutoPowerful
| Explicit.

#[global] Instance ModelSelectionMode_eq_dec : EqDecision ModelSelectionMode.
Proof. solve_decision. Defined.

Definition from_requested_model (model : string) : ModelSelectionMode :=
  if String.eqb model AUTO_QUICK_MODEL_ID then AutoQuick
  else if String.eqb model AUTO_POWERFUL_MODEL_ID then AutoPowerful
  else Explicit.

Definition is_auto (mode : ModelSelectionMode) : bool :=
  match mode with AutoQuick | AutoPowerful => true | Explicit => false end.

Definition alias (mode : ModelSelectionMode) : option string :=
  match mode with
  | AutoQuick => Some AUTO_QUICK_MODEL_ID
  | AutoPowerful => Some AUTO_POWERFUL_MODEL_ID
  | Explicit => None
  end.

(** [alias] is the inverse of [from_requested_model] on the Auto modes. *)
Lemma alias_from_requested_model mode s : alias mode = Some s -> from_requested_model s = mode.
Proof. by destruct mode; intros [= <-]. Qed.

Lemma from_requested_model_alias s :
  is_auto (from_requested_model s) = true -> alias (from_requested_model s) = Some s.
Proof.
  unfold from_requested_model.
  destruct (String.eqb_spec s AUTO_QUICK_MODEL_ID) as [->|]; [done|].
  by destruct (String.eqb_spec s AUTO_POWERFUL_MODEL_ID) as [->|].
Qed.

Inductive InferenceSurface :=
| ChatCompletions
| Responses
| Internal.

#[global] Instance InferenceSurface_eq_dec : EqDecision InferenceSurface.
Proof. solve_decision. Defined.

Inductive WorkloadClass :=
| Interactive
| Background.

Inductive ModelPlan :=
| Free
| Paid.

#[global] Instance ModelPlan_eq_dec : EqDecision ModelPlan.
Proof. solve_decision. Defined.

(** ** Identifiers: [uuid::Uuid] is its sixteen bytes *)

Record Uuid := MkUuid { uuid_as_bytes : list byte }.

#[global] Instance Uuid_eq_dec : EqDecision Uuid.
Proof. solve_decision. Defined.

Record InferenceRequestId := MkInferenceRequestId { request_uuid : Uuid }.
Record InferenceExecutionId := MkInferenceExecutionId { execution_uuid : Uuid }.
Record InferenceAttemptId := MkInferenceAttemptId { attempt_uuid : Uuid }.

(** ** The Auto decision (inference/auto_model.rs) *)

Inductive AutoModelReason :=
| Primary
| RetainedHealthyChoice
| HealthFallback.

#[global] Instance AutoModelReason_eq_dec : EqDecision AutoModelReason.
Proof. solve_decision. Defined.

Inductive AutoCandidateRejection :=
| PlanDenied
| NotConfigured
| Unavailable (retry_after : Duration)
| IncompatibleVision
| IncompatibleContext (required available : Z)
| ContextOverflow
| IncompatibleToolHistory.

#[global] Instance AutoCandidateRejection_eq_dec : EqDecision AutoCandidateRejection.
Proof. solve_decision. Defined.

Record AutoModelDecision := MkAutoModelDecision {
  amd_selector : string;
  amd_preferred_model_id : string;
  amd_chosen_model_id : string;
  amd_reason : AutoModelReason;
  amd_rejected : list (string * AutoCandidateRejection);
  amd_policy_version : string;
}.

Definition changed_model (d : AutoModelDecision) : bool :=
  negb (String.eqb (amd_chosen_model_id d) (amd_preferred_model_id d)).

(** ** Intents *)

Record InferenceIntent := MkInferenceIntent {
  ii_request_id : InferenceRequestId;
  ii_account_uuid : Uuid;
  ii_requested_model_id : string;
  ii_public_model_id : string;
  ii_auto_model : option AutoModelDecision;
  ii_selection_mode : ModelSelectionMode;
  ii_model_plan : ModelPlan;
  ii_surface : InferenceSurface;
  ii_workload_class : WorkloadClass;
}.

Definition intent_new (fresh account_uuid : Uuid) (requested_model_id public_model_id : string)
    (model_plan : ModelPlan) (surface : InferenceSurface) (workload_class : WorkloadClass)
    : InferenceIntent := {|
  ii_request_id := MkInferenceRequestId fresh;
  ii_account_uuid := account_uuid;
  ii_selection_mode := from_requested_model requested_model_id;
  ii_requested_model_id := requested_model_id;
  ii_public_model_id := public_model_id;
  ii_auto_model := None;
  ii_model_plan := model_plan;
  ii_surface := surface;
  ii_workload_class := workload_class;
|}.

Definition with_auto_model_decision (self : InferenceIntent) (decision : AutoModelDecision)
    : InferenceIntent := {|
  ii_request_id := ii_request_id self;
  ii_account_uuid := ii_account_uuid self;
  ii_requested_model_id := ii_requested_model_id self;
  ii_public_model_id := amd_chosen_model_id decision;
  ii_auto_model := Some decision;
  ii_selection_mode := ii_selection_mode self;
  ii_model_plan := ii_model_plan self;
  ii_surface := ii_surface self;
  ii_workload_class := ii_workload_class self;
|}.

Definition preferred_model_id (self : InferenceIntent) : string :=
  map_or (ii_public_model_id self) amd_preferred_model_id (ii_auto_model self).

Definition auto_model_reason (self : InferenceIntent) : option AutoModelReason :=
  amd_reason <$> ii_auto_model self.

(** ** Routes *)

Record RouteKey := MkRouteKey {
  rk_provider : ProviderId;
  rk_provider_model_id : string;
}.

#[global] Instance RouteKey_eq_dec : EqDecision RouteKey.
Proof. solve_decision. Defined.
#[global] Instance RouteKey_countable : Countable RouteKey.
Proof.
  apply (inj_countable' (fun k => (rk_provider k, rk_provider_model_id k))
           (fun p => MkRouteKey p.1 p.2)). by intros [].
Defined.

Record RouteIdentity := MkRouteIdentity {
  ri_provider : ProviderId;
  ri_public_model_id : string;
  ri_provider_model_id : string;
  ri_response_model_id : string;
  ri_selection_source : RouteSelectionSource;
  ri_bucket : option Z;   (** u8 *)
}.

#[global] Instance RouteIdentity_eq_dec : EqDecision RouteIdentity.
Proof. solve_decision. Defined.

Definition route_identity_new (provider : ProviderId)
    (public_model_id provider_model_id response_model_id : string)
    (selection_source : RouteSelectionSource) (bucket : option Z) : RouteIdentity :=
  MkRouteIdentity provider public_model_id provider_model_id response_model_id
    selection_source bucket.

Definition route_key (self : RouteIdentity) : RouteKey :=
  MkRouteKey (ri_provider self) (ri_provider_model_id self).

(** ** Executions and attempts *)

Record InferenceExecution := MkInferenceExecution {
  ie_request_id : InferenceRequestId;
  ie_execution_id : InferenceExecutionId;
}.

Definition begin_execution (fresh : Uuid) (self : InferenceIntent) : InferenceExecution :=
  MkInferenceExecution (ii_request_id self) (MkInferenceExecutionId fresh).

Record InferenceAttempt := MkInferenceAttempt {
  ia_request_id : InferenceRequestId;
  ia_execution_id : InferenceExecutionId;
  ia_attempt_id : InferenceAttemptId;
  ia_route : RouteIdentity;
}.

Definition begin_attempt (fresh : Uuid) (self : InferenceExecution) (route : RouteIdentity)
    : InferenceAttempt :=
  MkInferenceAttempt (ie_request_id self) (ie_execution_id self) (MkInferenceAttemptId fresh) route.

Inductive AttemptStage :=
| BeforeSend
| AwaitingResponse
| ResponseBodyStage
| Stream.

Inductive ReplaySafety :=
| ProvenPreAcceptance
| NotProvenPreAcceptance.

Inductive AttemptFailureKind :=
| ProviderUnavailable
| RequestBuild
| Connect
| Transport
| ResponseStartTimeout
| HttpStatus
| CapacityRejected
| ResponseBody
| InvalidResponse
| UpstreamResponseError
| UpstreamStreamError
| StreamTimeout
| UnexpectedEof
| ConsumerDropped.

#[global] Instance AttemptFailureKind_eq_dec : EqDecision AttemptFailureKind.
Proof. solve_decision. Defined.

(** ** Provider diagnostics (provider_client/diagnostics.rs) *)

Inductive DiagnosticBodyState :=
| Complete
| Empty
| Truncated
| InvalidEncoding
| InvalidJson
| ReadError
| DeadlineExceeded.

#[global] Instance DiagnosticBodyState_eq_dec : EqDecision DiagnosticBodyState.
Proof. solve_decision. Defined.

Record UpstreamDiagnostic := MkUpstreamDiagnostic {
  ud_body_state : DiagnosticBodyState;
  ud_code : option string;
  ud_error_type : option string;
  ud_summary : option string;
  ud_input_context_overflow : bool;
  ud_proxy_context_overflow : bool;
}.

Definition is_proxy_context_overflow (self : UpstreamDiagnostic) : bool :=
  bool_decide (ud_body_state self = Complete) && ud_proxy_context_overflow self.

(** ** Failures and terminals *)

Record AttemptFailure := MkAttemptFailure {
  af_kind : AttemptFailureKind;
  af_stage : AttemptStage;
  af_replay_safety : ReplaySafety;
  af_status : option Z;   (** u16 *)
  af_retry_after : option Duration;
  af_upstream_request_id : option string;
  af_upstream_code : option string;
  af_upstream_diagnostic : option UpstreamDiagnostic;
}.

Definition failure_new (kind : AttemptFailureKind) (stage : AttemptStage)
    (replay_safety : ReplaySafety) : AttemptFailure :=
  MkAttemptFailure kind stage replay_safety None None None None None.

Definition with_upstream_response (self : AttemptFailure) (status : Z)
    (retry_after : option Duration) (upstream_request_id : option string) : AttemptFailure :=
  MkAttemptFailure (af_kind self) (af_stage self) (af_replay_safety self) (Some status) retry_after
    upstream_request_id (af_upstream_code self) (af_upstream_diagnostic self).

Definition with_upstream_code (self : AttemptFailure) (upstream_code : option string)
    : AttemptFailure :=
  MkAttemptFailure (af_kind self) (af_stage self) (af_replay_safety self) (af_status self)
    (af_retry_after self) (af_upstream_request_id self) upstream_code (af_upstream_diagnostic self).

Definition with_upstream_diagnostic (self : AttemptFailure) (diagnostic : option UpstreamDiagnostic)
    : AttemptFailure :=
  MkAttemptFailure (af_kind self) (af_stage self) (af_replay_safety self) (af_status self)
    (af_retry_after self) (af_upstream_request_id self) (af_upstream_code self) diagnostic.

Definition client_message (self : AttemptFailure) : string :=
  match af_kind self with
  | InvalidResponse => "Invalid response from inference provider"
  | StreamTimeout => "Inference provider stream timed out"
  | UnexpectedEof => "Inference provider stream ended unexpectedly"
  | _ => "Inference provider request failed"
  end.

Inductive CompletionEvidence :=
| NonStreamingResponse
| ProviderDone
| FinishSignalThenEof.

Inductive AttemptTerminal :=
| Completed (attempt : InferenceAttempt) (evidence : CompletionEvidence)
| Failed (attempt : InferenceAttempt) (failure : AttemptFailure).

Definition attempt (self : AttemptTerminal) : InferenceAttempt :=
  match self with Completed a _ | Failed a _ => a end.
