(* ===== verification/Reasoning.v ===== *)
(** * Reasoning efforts: model_config.rs (ReasoningEffort, ReasoningEffortSet, ModelReasoning)

    The seven efforts in their [repr(u8)] order, sets of efforts as the bits of a [u8], and the
    rule that moves a requested effort to the nearest one a model accepts. *)
From S2P Require Import Prelude.

Inductive ReasoningEffort :=
| EffortNone
| Minimal
| Low
| Medium
| High
| XHigh
| Max.

#[global] Instance ReasoningEffort_eq_dec : EqDecision ReasoningEffort.
Proof. solve_decision. Defined.

(** [effort as u8]; the derived order compares it. *)
Definition as_u8 (effort : ReasoningEffort) : Z :=
  match effort with
  | EffortNone => 0 | Minimal => 1 | Low => 2 | Medium => 3 | High => 4 | XHigh => 5 | Max => 6
  end.

Definition ALL : list ReasoningEffort := [EffortNone; Minimal; Low; Medium; High; XHigh; Max].

Definition effort_as_str (effort : ReasoningEffort) : string :=
  match effort with
  | EffortNone => "none"
  | Minimal => "minimal"
  | Low => "low"
  | Medium => "medium"
  | High => "high"
  | XHigh => "xhigh"
  | Max => "max"
  end.

Definition effort_parse (value : string) : option ReasoningEffort :=
  find (fun effort => String.eqb (effort_as_str effort) value) ALL.

(** ** Sets: the bits of a [u8] *)

Definition ReasoningEffortSet : Type := Z.

Definition bit_u8 (effort : ReasoningEffort) : Z := Z.shiftl 1 (as_u8 effort) mod 256.

Definition set_of (efforts : list ReasoningEffort) : ReasoningEffortSet :=
  fold_left (fun bits effort => Z.lor bits (bit_u8 effort)) efforts 0.

Definition contains (self : ReasoningEffortSet) (effort : ReasoningEffort) : bool :=
  negb (Z.land self (bit_u8 effort) =? 0).

Definition intersection (self other : ReasoningEffortSet) : ReasoningEffortSet := Z.land self other.

Definition set_iter (self : ReasoningEffortSet) : list ReasoningEffort := List.filter (contains self) ALL.

(** ** What a model accepts *)

Record ModelReasoning := MkModelReasoning {
  mr_mandatory : bool;
  mr_default_enabled : bool;
  mr_supported_efforts : option ReasoningEffortSet;
  mr_default_effort : option ReasoningEffort;
}.

Definition tiers (mandatory : bool) (supported_efforts : ReasoningEffortSet)
    (default_effort : ReasoningEffort) : ModelReasoning :=
  MkModelReasoning mandatory true (Some supported_efforts) (Some default_effort).

Definition toggle (default_enabled : bool) : ModelReasoning :=
  MkModelReasoning false default_enabled None None.

Definition accepts (self : ModelReasoning) (effort : ReasoningEffort) : bool :=
  if bool_decide (effort = EffortNone) then negb (mr_mandatory self)
  else is_none_or (fun efforts => contains efforts effort) (mr_supported_efforts self).

Definition accepted_efforts (self : ModelReasoning) : list ReasoningEffort :=
  List.filter (accepts self) ALL.

Definition clamp (self : ModelReasoning) (requested : ReasoningEffort) : ReasoningEffort :=
  if accepts self requested then requested
  else
    let accepted := accepted_efforts self in
    match find (fun effort => as_u8 requested <? as_u8 effort) accepted with
    | Some effort => effort
    | None =>
        default requested (find (fun effort => as_u8 effort <? as_u8 requested) (rev accepted))
    end.

Definition intersect (self other : ModelReasoning) : ModelReasoning :=
  MkModelReasoning (mr_mandatory self || mr_mandatory other) (mr_default_enabled self)
    match mr_supported_efforts self, mr_supported_efforts other with
    | Some mine, Some theirs => Some (intersection mine theirs)
    | Some efforts, None | None, Some efforts => Some efforts
    | None, None => None
    end
    (mr_default_effort self).

(** ** Sets behave as sets *)

Lemma contains_testbit s e : contains s e = Z.testbit s (as_u8 e).
Proof.
  unfold contains, bit_u8.
  rewrite (Z.mod_small (Z.shiftl 1 (as_u8 e))) by (destruct e; vm_compute; by split).
  destruct (Z.testbit s (as_u8 e)) eqn:E.
  - apply negb_true_iff, Z.eqb_neq. intros H.
    assert (Z.testbit (Z.land s (Z.shiftl 1 (as_u8 e))) (as_u8 e) = false) as Hb
      by by rewrite H, Z.bits_0.
    by rewrite Z.land_spec, E in Hb; destruct e.
  - apply negb_false_iff, Z.eqb_eq, Z.bits_inj_0. intros n.
    rewrite Z.land_spec.
    destruct (Z.lt_ge_cases n 0) as [|Hn]; [by rewrite !Z.testbit_neg_r|].
    rewrite Z.shiftl_1_l, Z.pow2_bits_eqb by (destruct e; done).
    destruct (Z.eqb_spec (as_u8 e) n) as [<-|]; [by rewrite E | by rewrite andb_false_r].
Qed.

Lemma contains_intersection s t e : contains (intersection s t) e = contains s e && contains t e.
Proof. rewrite !contains_testbit. apply Z.land_spec. Qed.

Lemma in_ALL e : In e ALL.
Proof. destruct e; simpl; tauto. Qed.

Lemma set_of_contains efforts e : contains (set_of efforts) e = bool_decide (e ∈ efforts).
Proof.
  enough (forall bits, contains (fold_left (fun b x => Z.lor b (bit_u8 x)) efforts bits) e
            = contains bits e || bool_decide (e ∈ efforts)) as H.
  { unfold set_of. by rewrite H, (contains_testbit 0), Z.bits_0. }
  induction efforts as [|x efforts IH]; intros bits; simpl.
  - by rewrite orb_false_r.
  - rewrite IH, !contains_testbit, Z.lor_spec, <-orb_assoc. f_equal.
    assert (Z.testbit (bit_u8 x) (as_u8 e) = bool_decide (e = x)) as -> by (destruct x, e; done).
    rewrite <-bool_decide_or. apply bool_decide_ext. set_solver.
Qed.

Lemma effort_parse_spec value e : effort_parse value = Some e <-> value = effort_as_str e.
Proof.
  split.
  - intros [_ ->%String.eqb_eq]%find_some. done.
  - intros ->. by destruct e.
Qed.

(** ** Acceptance *)

Lemma accepted_efforts_spec r e : In e (accepted_efforts r) <-> accepts r e = true.
Proof. unfold accepted_efforts. rewrite filter_In. pose proof (in_ALL e). tauto. Qed.

(** An intersection accepts what both accept. *)
Lemma accepts_intersect r r' e : accepts (intersect r r') e = accepts r e && accepts r' e.
Proof.
  unfold accepts. case_bool_decide; simpl; [by rewrite negb_orb|].
  destruct (mr_supported_efforts r), (mr_supported_efforts r'); simpl; try done.
  - apply contains_intersection.
  - by rewrite andb_true_r.
Qed.

(** ** [find] on a sorted list *)

Lemma StronglySorted_filter_b {A} (R : A -> A -> Prop) f l :
  StronglySorted R l -> StronglySorted R (List.filter f l).
Proof.
  induction 1 as [|x l _ IH Hall]; simpl; [constructor|].
  destruct (f x); [|done]. constructor; [done|].
  rewrite List.Forall_forall in *. intros y [Hy _]%filter_In. by apply Hall.
Qed.

Lemma find_first {A} (R : A -> A -> Prop) p l x :
  StronglySorted R l -> find p l = Some x ->
  In x l /\ p x = true /\ forall y, In y l -> p y = true -> x = y \/ R x y.
Proof.
  induction 1 as [|z l _ IH Hall]; [done|]. simpl. destruct (p z) eqn:E.
  - intros [= <-]. split_and!; [by left|done|]. intros y [->|Hy] _; [by left|].
    right. rewrite List.Forall_forall in Hall. by apply Hall.
  - intros (Hin & Hx & Hleast)%IH. split_and!; [by right|done|].
    intros y [->|Hy] Hp; [congruence|]. by apply Hleast.
Qed.

Lemma find_none_iff {A} (p : A -> bool) l : find p l = None <-> forall y, In y l -> p y = false.
Proof.
  split; [apply find_none|]. induction l as [|x l IH]; [done|]. simpl. intros H.
  rewrite (H x) by tauto. apply IH. auto.
Qed.

Definition effort_lt (a b : ReasoningEffort) : Prop := as_u8 a < as_u8 b.

Lemma StronglySorted_accepted r : StronglySorted effort_lt (accepted_efforts r).
Proof.
  apply StronglySorted_filter_b. repeat constructor.
Qed.

Lemma accepted_below r e :
  accepts r e = false ->
  find (fun effort => as_u8 e <? as_u8 effort) (accepted_efforts r) = None ->
  forall x, accepts r x = true -> as_u8 x < as_u8 e.
Proof.
  rewrite find_none_iff. intros He Hup x Hx. assert (x <> e) as Hne by congruence.
  specialize (Hup x (proj2 (accepted_efforts_spec r x) Hx)) as Hge%Z.ltb_ge.
  destruct (decide (as_u8 x = as_u8 e)) as [Heq|]; [|lia]. by destruct x, e.
Qed.

(** A model that accepts some effort accepts the clamped one. *)
Lemma clamp_accepts r e x : accepts r x = true -> accepts r (clamp r e) = true.
Proof.
  intros Hx. unfold clamp. destruct (accepts r e) eqn:He; [done|].
  destruct (find _ (accepted_efforts r)) as [up|] eqn:Hup.
  { apply find_some in Hup as [Hin _]. by apply accepted_efforts_spec. }
  destruct (find _ (rev _)) as [down|] eqn:Hdown; cbn [from_option id].
  { apply find_some in Hdown as [Hin _]. by apply in_rev, accepted_efforts_spec in Hin. }
  rewrite find_none_iff in Hdown. specialize (Hdown x).
  rewrite <-in_rev, accepted_efforts_spec in Hdown.
  pose proof (Hdown Hx) as Hge%Z.ltb_ge. pose proof (accepted_below r e He Hup x Hx). lia.
Qed.

Lemma clamp_accepted r e : accepts r e = true -> clamp r e = e.
Proof. unfold clamp. by intros ->. Qed.

(** the effort a request is moved to.  An accepted effort is kept.  Otherwise, when the model
    accepts any effort, the result is accepted and is the nearest by the code's rule: the least
    accepted effort above the request if there is one, else the greatest accepted effort below.
    A model that accepts nothing leaves the request as it is. *)
Theorem clamp_nearest (r : ModelReasoning) (e : ReasoningEffort) :
  (if accepts r e then clamp r e = e
   else if existsb (fun x => accepts r x && (as_u8 e <? as_u8 x)) ALL then
     accepts r (clamp r e) = true /\ as_u8 e < as_u8 (clamp r e)
     /\ (forall x, ~ (accepts r x = true /\ as_u8 e < as_u8 x < as_u8 (clamp r e)))
   else if existsb (accepts r) ALL then
     accepts r (clamp r e) = true /\ as_u8 (clamp r e) < as_u8 e
     /\ (forall x, ~ (accepts r x = true /\ as_u8 (clamp r e) < as_u8 x))
   else clamp r e = e).
Proof.
  unfold clamp. destruct (accepts r e) eqn:He; [done|].
  destruct (find _ (accepted_efforts r)) as [up|] eqn:Hup.
  - apply (find_first effort_lt) in Hup as (Hin & Hlt%Z.ltb_lt & Hleast);
      [|apply StronglySorted_accepted].
    apply accepted_efforts_spec in Hin.
    replace (existsb _ ALL) with true; last first.
    { symmetry. apply existsb_exists. exists up. split; [apply in_ALL|].
      apply andb_true_iff. by rewrite Z.ltb_lt. }
    split_and!; [done..|]. intros x (Hx & H1 & H2).
    destruct (Hleast x) as [->|Hl];
      [by apply accepted_efforts_spec|by apply Z.ltb_lt|lia|unfold effort_lt in Hl; lia].
  - pose proof (accepted_below r e He Hup) as Hbelow.
    replace (existsb _ ALL) with false; last first.
    { symmetry. apply not_true_is_false. intros (x & _ & [Hx ?%Z.ltb_lt]%andb_true_iff)%existsb_exists.
      specialize (Hbelow x Hx). lia. }
    destruct (find _ (rev _)) as [down|] eqn:Hdown; cbn [from_option id].
    + apply (find_first (fun a b => effort_lt b a)) in Hdown as (Hin & Hlt%Z.ltb_lt & Hmax);
        [|apply StronglySorted_rev_rel, StronglySorted_accepted].
      apply in_rev, accepted_efforts_spec in Hin.
      replace (existsb (accepts r) ALL) with true; last first.
      { symmetry. apply existsb_exists. exists down. split; [apply in_ALL|done]. }
      split; [done|]. split; [lia|]. intros x (Hx & H1).
      destruct (Hmax x) as [->|Hl];
        [by rewrite <-in_rev; apply accepted_efforts_spec|apply Z.ltb_lt; auto|lia|
         unfold effort_lt in Hl; lia].
    + rewrite find_none_iff in Hdown.
      replace (existsb (accepts r) ALL) with false; [done|].
      symmetry. apply not_true_is_false. intros (x & _ & Hx)%existsb_exists.
      specialize (Hdown x) as Hge. rewrite <-in_rev, accepted_efforts_spec in Hge.
      specialize (Hbelow x Hx). specialize (Hge Hx). apply Z.ltb_ge in Hge. lia.
Qed.
