(* ===== verification/Catalog.v ===== *)
(** * Model catalog: model_config.rs

    The part of the public model catalog that routing and request decisions read: identifiers,
    access tiers, capabilities, listing flags, context windows, reasoning settings and the
    reasoning-history rule; aliases and their targets per plan; decision models.  Presentation
    fields (names, badges, catalog metadata) and floating-point sampling are left out. *)
From S2P Require Import Prelude Registry Inference Reasoning.

(** ** Reasoning history *)

Inductive ReasoningHistoryStrategy :=
| Omit
| StrategyCurrentTurn
| KimiPreserveThinking
| GlmClearThinking
| DeepSeekToolsOnly.

Inductive ReasoningReplay :=
| ReplayNone
| CurrentTurn
| ReplayAll.

Definition replay (self : ReasoningHistoryStrategy) (tools_enabled : bool) : ReasoningReplay :=
  match self with
  | Omit => ReplayNone
  | StrategyCurrentTurn | GlmClearThinking => CurrentTurn
  | KimiPreserveThinking => ReplayAll
  | DeepSeekToolsOnly => if tools_enabled then ReplayAll else ReplayNone
  end.

Definition before_new_user_message (self : ReasoningReplay) : ReasoningReplay :=
  match self with CurrentTurn => ReplayNone | other => other end.

Record ResponsesModelConfig := MkResponsesModelConfig {
  rc_include_reasoning : bool;
  rc_enable_thinking : bool;
  rc_reasoning_history : ReasoningHistoryStrategy;
}.

Definition recommended (reasoning_history : ReasoningHistoryStrategy) : ResponsesModelConfig :=
  MkResponsesModelConfig false false reasoning_history.

Definition with_thinking_enabled (self : ResponsesModelConfig) : ResponsesModelConfig :=
  MkResponsesModelConfig true true (rc_reasoning_history self).

Definition UNCATALOGED_RESPONSES_MODEL_CONFIG : ResponsesModelConfig :=
  MkResponsesModelConfig false false Omit.

Record ModelConfig := MkModelConfig {
  mcfg_context_window : Z;   (** usize *)
  mcfg_responses : ResponsesModelConfig;
  mcfg_reasoning : option ModelReasoning;
  mcfg_developer_role_as_system : bool;
}.

(** ** Entries *)

Inductive ModelAccessTier :=
| FreeTier
| Pro.

Record ModelCapabilities := MkModelCapabilities {
  mc_chat : bool;
  mc_vision : bool;
  mc_reasoning : bool;
  mc_tool_use : bool;
}.

(** [ModelCapabilities::chat(reasoning, vision)] *)
Definition capabilities_chat (reasoning vision : bool) : ModelCapabilities :=
  MkModelCapabilities true vision reasoning true.

Definition chat_with_tool_use (reasoning vision tool_use : bool) : ModelCapabilities :=
  MkModelCapabilities true vision reasoning tool_use.

Record ModelConfigEntry := MkModelConfigEntry {
  me_id : string;
  me_access : ModelAccessTier;
  me_capabilities : ModelCapabilities;
  me_listed : bool;
  me_paid_catalog_only : bool;
  me_api_listed : bool;
  me_available_in_agent : bool;
  me_enabled : bool;
  me_deprecated : bool;
  me_sort_order : Z;   (** u16 *)
  me_config : ModelConfig;
}.

Definition entry_new (id : string) (access : ModelAccessTier) (capabilities : ModelCapabilities)
    (listed enabled deprecated : bool) (sort_order context_window : Z)
    (responses : ResponsesModelConfig) : ModelConfigEntry :=
  MkModelConfigEntry id access capabilities listed false listed listed enabled deprecated sort_order
    (MkModelConfig context_window responses None false).

Definition api_only (id : string) (access : ModelAccessTier) (capabilities : ModelCapabilities)
    (enabled deprecated : bool) (sort_order context_window : Z)
    (responses : ResponsesModelConfig) : ModelConfigEntry :=
  MkModelConfigEntry id access capabilities false false true false enabled deprecated sort_order
    (MkModelConfig context_window responses None false).

Definition with_config (f : ModelConfig -> ModelConfig) (e : ModelConfigEntry) : ModelConfigEntry :=
  MkModelConfigEntry (me_id e) (me_access e) (me_capabilities e) (me_listed e)
    (me_paid_catalog_only e) (me_api_listed e) (me_available_in_agent e) (me_enabled e)
    (me_deprecated e) (me_sort_order e) (f (me_config e)).

Definition with_reasoning (reasoning : ModelReasoning) : ModelConfigEntry -> ModelConfigEntry :=
  with_config (fun c => MkModelConfig (mcfg_context_window c) (mcfg_responses c) (Some reasoning)
                          (mcfg_developer_role_as_system c)).

Definition with_developer_role_as_system : ModelConfigEntry -> ModelConfigEntry :=
  with_config (fun c => MkModelConfig (mcfg_context_window c) (mcfg_responses c)
                          (mcfg_reasoning c) true).

Definition unavailable_in_agent (e : ModelConfigEntry) : ModelConfigEntry :=
  MkModelConfigEntry (me_id e) (me_access e) (me_capabilities e) (me_listed e)
    (me_paid_catalog_only e) (me_api_listed e) false (me_enabled e) (me_deprecated e)
    (me_sort_order e) (me_config e).

Definition paid_catalog_only (e : ModelConfigEntry) : ModelConfigEntry :=
  MkModelConfigEntry (me_id e) (me_access e) (me_capabilities e) (me_listed e) true
    (me_api_listed e) (me_available_in_agent e) (me_enabled e) (me_deprecated e)
    (me_sort_order e) (me_config e).

Definition DEFAULT_CONTEXT_WINDOW : Z := 64000.

Definition DEFAULT_MODEL_CONFIG : ModelConfig :=
  MkModelConfig DEFAULT_CONTEXT_WINDOW UNCATALOGED_RESPONSES_MODEL_CONFIG None false.

(** ** The catalog *)

Definition GPT_OSS_REASONING : ModelReasoning := tiers true (set_of [Low; Medium; High]) Medium.
Definition GEMMA4_REASONING : ModelReasoning := toggle false.
Definition KIMI_K3_REASONING : ModelReasoning := tiers false (set_of [Low; High; Max]) Max.
Definition KIMI_K3_1_PRO_REASONING : ModelReasoning := tiers true (set_of [Low; High; Max]) Max.
Definition GLM_5_3_REASONING : ModelReasoning := tiers true (set_of [Low; High; Max]) Max.
Definition DEEPSEEK_V4_1_FLASH_REASONING : ModelReasoning :=
  tiers false (set_of [Low; High; XHigh; Max]) High.

Definition GPT_OSS_RESPONSES_MODEL_CONFIG := recommended StrategyCurrentTurn.
Definition GEMMA4_RESPONSES_MODEL_CONFIG := with_thinking_enabled (recommended StrategyCurrentTurn).
Definition GLM_5_3_RESPONSES_MODEL_CONFIG := recommended GlmClearThinking.
Definition KIMI_K3_RESPONSES_MODEL_CONFIG := recommended KimiPreserveThinking.
Definition KIMI_K3_1_PRO_RESPONSES_MODEL_CONFIG := recommended KimiPreserveThinking.
Definition DEEPSEEK_V4_1_FLASH_RESPONSES_MODEL_CONFIG := recommended DeepSeekToolsOnly.
Definition LLAMA3_3_70B_RESPONSES_MODEL_CONFIG := recommended Omit.

Definition MODEL_CONFIGS : list ModelConfigEntry := [
  paid_catalog_only (unavailable_in_agent (with_reasoning GPT_OSS_REASONING
    (entry_new GPT_OSS_120B_MODEL_ID Pro (capabilities_chat true false) true true false 10 131072
       GPT_OSS_RESPONSES_MODEL_CONFIG)));
  with_reasoning GEMMA4_REASONING
    (entry_new "gemma4-31b" Pro (capabilities_chat true true) true true false 20 262144
       GEMMA4_RESPONSES_MODEL_CONFIG);
  with_reasoning GLM_5_3_REASONING
    (entry_new GLM_5_3_FLASH_MODEL_ID Pro (capabilities_chat true true) true true false 25 1048576
       GLM_5_3_RESPONSES_MODEL_CONFIG);
  with_developer_role_as_system (with_reasoning KIMI_K3_1_PRO_REASONING
    (entry_new KIMI_K3_1_PRO_MODEL_ID Pro (capabilities_chat true true) true true false 28 262144
       KIMI_K3_1_PRO_RESPONSES_MODEL_CONFIG));
  with_developer_role_as_system (with_reasoning KIMI_K3_REASONING
    (entry_new KIMI_K3_MODEL_ID Pro (capabilities_chat true true) true true false 30 262144
       KIMI_K3_RESPONSES_MODEL_CONFIG));
  with_reasoning GLM_5_3_REASONING
    (entry_new GLM_5_3_MODEL_ID Pro (capabilities_chat true false) true true false 50 262144
       GLM_5_3_RESPONSES_MODEL_CONFIG);
  with_reasoning DEEPSEEK_V4_1_FLASH_REASONING
    (entry_new DEEPSEEK_V4_1_FLASH_MODEL_ID FreeTier (capabilities_chat true true) true true false
       65 1048576 DEEPSEEK_V4_1_FLASH_RESPONSES_MODEL_CONFIG);
  with_reasoning DEEPSEEK_V4_1_FLASH_REASONING
    (entry_new DEEPSEEK_V4_1_FLASH_UNCENSORED_MODEL_ID Pro (capabilities_chat true true) true true
       false 66 1048576 DEEPSEEK_V4_1_FLASH_RESPONSES_MODEL_CONFIG);
  paid_catalog_only (unavailable_in_agent
    (entry_new "llama3-3-70b" Pro (capabilities_chat false false) true true false 80 131072
       LLAMA3_3_70B_RESPONSES_MODEL_CONFIG));
  with_reasoning GPT_OSS_REASONING
    (api_only "gpt-oss-safeguard-120b" Pro (chat_with_tool_use true false false) true false 900
       131072 GPT_OSS_RESPONSES_MODEL_CONFIG)].

(** ** Decision models *)

Record DecisionModel := MkDecisionModel {
  dec_id : string;
  dec_access : ModelAccessTier;
  dec_context_window : Z;
  dec_max_choice_options : Z;
}.

Definition decision_pro (id : string) : DecisionModel := MkDecisionModel id Pro 32768 26.

Definition DECISION_MODELS : list DecisionModel :=
  [decision_pro DECISION_SMALL_MODEL_ID; decision_pro DECISION_MEDIUM_MODEL_ID;
   decision_pro DECISION_LARGE_MODEL_ID].

Definition decision_model (model : string) : option DecisionModel :=
  find (fun entry => String.eqb (dec_id entry) model) DECISION_MODELS.

(** ** Aliases and plans *)

Record ModelAliasTargets := MkModelAliasTargets {
  mat_quick : string;
  mat_powerful : string;
}.

Definition FREE_MODEL_ALIAS_TARGETS : ModelAliasTargets :=
  MkModelAliasTargets QUICK_MODEL_ID POWERFUL_MODEL_ID.
Definition PAID_MODEL_ALIAS_TARGETS : ModelAliasTargets :=
  MkModelAliasTargets QUICK_MODEL_ID POWERFUL_MODEL_ID.

Definition for_plan (plan : ModelPlan) : ModelAliasTargets :=
  match plan with Free => FREE_MODEL_ALIAS_TARGETS | Paid => PAID_MODEL_ALIAS_TARGETS end.

Definition resolve (self : ModelAliasTargets) (model : string) : string :=
  if String.eqb model AUTO_QUICK_MODEL_ID then mat_quick self
  else if String.eqb model AUTO_POWERFUL_MODEL_ID then mat_powerful self
  else model.

Definition target_for (self : ModelAliasTargets) (alias : string) : option string :=
  if String.eqb alias AUTO_QUICK_MODEL_ID then Some (mat_quick self)
  else if String.eqb alias AUTO_POWERFUL_MODEL_ID then Some (mat_powerful self)
  else None.

(** [ModelAliasTargets::default().target_for(model)] *)
Definition alias_target (model : string) : option string := target_for (for_plan Free) model.

Definition model_entry (model : string) : option ModelConfigEntry :=
  find (fun entry => String.eqb (me_id entry) model) MODEL_CONFIGS.

Definition model_capabilities (model : string) : option ModelCapabilities :=
  me_capabilities <$> model_entry (default model (alias_target model)).

Definition resolve_public_model_id (model : string) : option string :=
  let canonical := default model (alias_target model) in
  me_id <$> find (fun entry => String.eqb (me_id entry) canonical && me_api_listed entry && me_enabled entry)
    MODEL_CONFIGS.

Definition model_config (model : string) : ModelConfig :=
  let canonical := default model (alias_target model) in
  match model_entry canonical with
  | Some entry => me_config entry
  | None =>
      match find (fun entry => String.prefix (me_id entry) canonical) MODEL_CONFIGS with
      | Some entry => me_config entry
      | None => DEFAULT_MODEL_CONFIG
      end
  end.

Definition model_context_window (model : string) : Z := mcfg_context_window (model_config model).

Definition model_reasoning_history_strategy (model : string) : ReasoningHistoryStrategy :=
  rc_reasoning_history (mcfg_responses (model_config model)).

Definition model_reasoning_replay (model : string) (tools_enabled : bool) : ReasoningReplay :=
  replay (model_reasoning_history_strategy model) tools_enabled.

Definition model_reasoning (model : string) : option ModelReasoning :=
  entry ← model_entry model; mcfg_reasoning (me_config entry).

Definition is_available_to (tier : ModelAccessTier) (plan : ModelPlan) : bool :=
  match tier, plan with FreeTier, _ => true | _, Paid => true | _, _ => false end.

Definition from_is_paid (is_paid : bool) : ModelPlan := if is_paid then Paid else Free.

Definition is_paid (plan : ModelPlan) : bool := match plan with Paid => true | Free => false end.

Definition allows_model (plan : ModelPlan) (model : string) : bool :=
  let canonical := default model (alias_target model) in
  match decision_model canonical with
  | Some decision => is_available_to (dec_access decision) plan
  | None => is_none_or (fun entry => is_available_to (me_access entry) plan) (model_entry canonical)
  end.

(** ** Kimi tool-call identifiers (web/responses/context_builder.rs) *)

(** [str::to_ascii_lowercase] *)
Fixpoint to_ascii_lowercase (s : string) : string :=
  match s with
  | EmptyString => EmptyString
  | String c s =>
      let n := Ascii.N_of_ascii c in
      String (if (65 <=? Z.of_N n) && (Z.of_N n <=? 90) then Ascii.ascii_of_N (n + 32) else c)
        (to_ascii_lowercase s)
  end.

(** [str::contains] of a substring. *)
Fixpoint str_contains (s pat : string) : bool :=
  String.prefix pat s
  || match s with EmptyString => false | String _ s => str_contains s pat end.

Definition model_uses_kimi_tool_call_ids (model : string) : bool :=
  str_contains (to_ascii_lowercase model) "kimi".

(** ** Facts about the catalog *)

Lemma model_entry_in model entry :
  model_entry model = Some entry -> In entry MODEL_CONFIGS /\ me_id entry = model.
Proof. intros [Hin ->%String.eqb_eq]%find_some. done. Qed.

(** Every model that reasons accepts some effort. *)
Lemma model_reasoning_accepts model r :
  model_reasoning model = Some r -> exists e, accepts r e = true.
Proof.
  unfold model_reasoning. destruct (model_entry model) as [entry|] eqn:E; [|done]. simpl. intros Hr.
  apply model_entry_in in E as [Hin _].
  assert (forallb (fun e => is_none_or (fun r => existsb (accepts r) ALL) (mcfg_reasoning (me_config e)))
            MODEL_CONFIGS = true) as Hall by reflexivity.
  rewrite forallb_forall in Hall. specialize (Hall entry Hin). rewrite Hr in Hall.
  apply existsb_exists in Hall as (e & _ & He). by exists e.
Qed.
