(* ===== verification/Json.v ===== *)
(** * JSON values: the parts of serde_json the handlers use

    [serde_json::Value] is its six constructors over an abstract type of numbers; a
    [serde_json::Map] is its entries in order.  Parsing, printing and the views of numbers belong to
    the crate and are the fields of [JsonCrate]. *)
From Stdlib Require Import Strings.Byte.
From stdpp Require pretty.
From S2P Require Import Prelude.

(** ** JSON values *)

Inductive Value (Number : Type) :=
| Null
| Bool (b : bool)
| Num (n : Number)
| Str (s : string)
| Array (vs : list (Value Number))
| Object (m : list (string * Value Number)).
Arguments Null {_}.
Arguments Bool {_}.
Arguments Num {_}.
Arguments Str {_}.
Arguments Array {_}.
Arguments Object {_}.

(** ** Maps: [get], [insert] and [remove] of [serde_json::Map] *)

Section Maps.
Context {V : Type}.

Fixpoint map_get (m : list (string * V)) (key : string) : option V :=
  match m with
  | [] => None
  | (k, v) :: m => if String.eqb k key then Some v else map_get m key
  end.

Fixpoint map_insert (m : list (string * V)) (key : string) (v : V) : list (string * V) :=
  match m with
  | [] => [(key, v)]
  | (k, w) :: m => if String.eqb k key then (k, v) :: m else (k, w) :: map_insert m key v
  end.

Definition map_remove (m : list (string * V)) (key : string) : list (string * V) :=
  List.filter (fun e => negb (String.eqb e.1 key)) m.

Lemma map_get_insert m key v k :
  map_get (map_insert m key v) k = if String.eqb key k then Some v else map_get m k.
Proof.
  induction m as [|[k' w] m IH]; simpl; [done|].
  destruct (String.eqb_spec k' key) as [->|Hne]; simpl.
  - by destruct (String.eqb key k).
  - destruct (String.eqb_spec k' k) as [->|]; [|done].
    by destruct (String.eqb_spec key k) as [->|].
Qed.

Lemma map_get_remove m key k :
  map_get (map_remove m key) k = if String.eqb key k then None else map_get m k.
Proof.
  unfold map_remove. induction m as [|[k' w] m IH]; simpl; [by destruct (String.eqb key k)|].
  destruct (String.eqb_spec k' key) as [->|Hne]; simpl; rewrite ?IH.
  - by destruct (String.eqb key k).
  - destruct (String.eqb_spec k' k) as [->|]; [|done].
    by destruct (String.eqb_spec key k) as [->|].
Qed.
End Maps.

(** ** Views: [Value::get], [as_str], [as_array], [as_object], [as_bool], [is_null] *)

Section Views.
Context {Number : Type}.

Definition value_get (v : Value Number) (key : string) : option (Value Number) :=
  match v with Object m => map_get m key | _ => None end.

Definition value_as_str (v : Value Number) : option string :=
  match v with Str s => Some s | _ => None end.

Definition value_as_array (v : Value Number) : option (list (Value Number)) :=
  match v with Array vs => Some vs | _ => None end.

Definition value_as_object (v : Value Number) : option (list (string * Value Number)) :=
  match v with Object m => Some m | _ => None end.

Definition value_as_bool (v : Value Number) : option bool :=
  match v with Bool b => Some b | _ => None end.

Definition value_is_null (v : Value Number) : bool :=
  match v with Null => true | _ => false end.
End Views.

(** ** The crate *)

(** [Number::as_i64], [Number::to_string], [Value::to_string] and [serde_json::from_slice]. *)
Class JsonCrate (Number : Type) := {
  number_as_i64 : Number -> option Z;
  number_to_string : Number -> string;
  value_to_string : Value Number -> string;
  value_from_slice : list byte -> option (Value Number);
}.

(** [as_i64] answers within the range of an [i64]. *)
Class JsonLaws (Number : Type) {J : JsonCrate Number} : Prop :=
  number_as_i64_range n z : number_as_i64 n = Some z -> -9223372036854775808 <= z <= 9223372036854775807.

Definition value_as_i64 {Number} {J : JsonCrate Number} (v : Value Number) : option Z :=
  match v with Num n => number_as_i64 n | _ => None end.

(** [Value]'s [PartialEq]: an equivalence that ignores the order of an object's entries. *)
Class JsonEq (Number : Type) := value_eqb : Value Number -> Value Number -> bool.

Class JsonEqLaws (Number : Type) {E : JsonEq Number} : Prop :=
  value_eqb_equivalence : Equivalence (fun v w : Value Number => value_eqb v w = true).

(** A concrete crate: numbers are integers, and nothing parses. *)
#[global] Instance json_integers : JsonCrate Z := {|
  number_as_i64 n := if (-9223372036854775808 <=? n) && (n <=? 9223372036854775807) then Some n else None;
  number_to_string n := pretty.pretty n;
  value_to_string _ := "";
  value_from_slice _ := None;
|}.

(** Numbers are compared by a given test, and entries in order. *)
Section Value_eqb.
Context {Number : Type} (number_eqb : Number -> Number -> bool).

Fixpoint value_eqb_with (v w : Value Number) : bool :=
  let fix list_eqb (vs ws : list (Value Number)) : bool :=
    match vs, ws with
    | [], [] => true
    | v :: vs, w :: ws => value_eqb_with v w && list_eqb vs ws
    | _, _ => false
    end in
  let fix entries_eqb (vs ws : list (string * Value Number)) : bool :=
    match vs, ws with
    | [], [] => true
    | (j, v) :: vs, (k, w) :: ws => String.eqb j k && value_eqb_with v w && entries_eqb vs ws
    | _, _ => false
    end in
  match v, w with
  | Null, Null => true
  | Bool b, Bool c => Bool.eqb b c
  | Num n, Num m => number_eqb n m
  | Str s, Str t => String.eqb s t
  | Array vs, Array ws => list_eqb vs ws
  | Object vs, Object ws => entries_eqb vs ws
  | _, _ => false
  end.
End Value_eqb.

#[global] Instance json_eq_Z : JsonEq Z := value_eqb_with Z.eqb.

(** Induction through arrays and objects. *)
Section Value_induction.
Context {Number : Type} (P : Value Number -> Prop).
Hypothesis (HNull : P Null) (HBool : forall b, P (Bool b)) (HNum : forall n, P (Num n))
  (HStr : forall s, P (Str s)) (HArray : forall vs, Forall P vs -> P (Array vs))
  (HObject : forall vs, Forall (fun e => P e.2) vs -> P (Object vs)).

Fixpoint value_nested_ind (v : Value Number) : P v :=
  match v with
  | Null => HNull
  | Bool b => HBool b
  | Num n => HNum n
  | Str s => HStr s
  | Array vs =>
      HArray vs ((fix all vs : Forall P vs :=
        match vs with [] => List.Forall_nil _ | v :: vs => List.Forall_cons _ v vs (value_nested_ind v) (all vs) end) vs)
  | Object vs =>
      HObject vs ((fix all vs : Forall (fun e => P e.2) vs :=
        match vs with
        | [] => List.Forall_nil _
        | e :: vs => List.Forall_cons _ e vs (value_nested_ind e.2) (all vs)
        end) vs)
  end.
End Value_induction.

Lemma value_eqb_with_eq {Number : Type} (number_eqb : Number -> Number -> bool)
    (Heqb : forall n m, number_eqb n m = true <-> n = m) v w :
  value_eqb_with number_eqb v w = true <-> v = w.
Proof.
  revert w. induction v as [|b|n|s|vs IH|vs IH] using value_nested_ind; intros w; destruct w as [|c|m|t|ws|ws];
    try (by split).
  - cbn. rewrite Bool.eqb_true_iff. naive_solver.
  - cbn. rewrite Heqb. naive_solver.
  - cbn. rewrite String.eqb_eq. naive_solver.
  - cbn. revert ws. induction IH as [|v vs Hv _ IH]; intros [|w ws]; try (by split).
    rewrite andb_true_iff, Hv, IH. naive_solver.
  - cbn. revert ws. induction IH as [|[j v] vs Hv _ IH]; intros [|[k w] ws]; try (by split).
    rewrite !andb_true_iff, String.eqb_eq, Hv, IH. naive_solver.
Qed.

Lemma json_eq_laws_of {Number : Type} (number_eqb : Number -> Number -> bool)
    (Heqb : forall n m, number_eqb n m = true <-> n = m) :
  JsonEqLaws (E := value_eqb_with number_eqb) Number.
Proof.
  split; [intros v|intros v w|intros u v w]; unfold value_eqb; rewrite ?(value_eqb_with_eq _ Heqb); congruence || idtac.
Qed.

#[global] Instance json_eq_laws_Z : JsonEqLaws Z := json_eq_laws_of Z.eqb Z.eqb_eq.
