(* ===== verification/RequestPolicy.v ===== *)
(** * Request policy: web/model_request_policy.rs

    What the server does to a client's request before a provider sees it: the reasoning effort is
    validated or moved, switches that turn a mandatory reasoning off are dropped, and roles the
    model's renderer rejects are renamed. *)
From Stdlib Require Import Strings.Ascii Strings.String.
From S2P Require Import Prelude Json Registry Inference Reasoning Catalog.

(** ** Data *)

Definition CHAT_REASONING_EFFORT_PARAM : string := "reasoning_effort".
Definition RESPONSES_REASONING_EFFORT_PARAM : string := "reasoning.effort".
Definition THINKING_OFF_SWITCHES : list string := ["enable_thinking"; "thinking"].
Definition MAX_ECHOED_VALUE_CHARS : nat := 32.

Inductive ModelSelection :=
| SelectionExplicit
| SelectionAlias.

#[global] Instance ModelSelection_eq_dec : EqDecision ModelSelection.
Proof. solve_decision. Defined.

Definition for_request (requested_model alias_target : string) : ModelSelection :=
  if String.eqb requested_model alias_target then SelectionExplicit else SelectionAlias.

Inductive EffectiveReasoningEffort :=
| Unchanged
| SetEffort (effort : ReasoningEffort).

Record UnsupportedReasoningEffort := MkUnsupportedReasoningEffort {
  ure_param : string;
  ure_model : string;
  ure_value : string;
  ure_supported : list string;
}.

(** ** Operations *)

(** [c.is_ascii_graphic() || *c == ' '] *)
Definition is_echoed (c : Ascii.ascii) : bool :=
  let n := Z.of_N (Ascii.N_of_ascii c) in (33 <=? n) && (n <=? 126) || (n =? 32).

Section Policy.
Context {Number : Type} {J : JsonCrate Number}.

Definition describe_value (value : Value Number) : string :=
  let raw := match value with Str text => text | other => value_to_string other end in
  string_of_list_ascii
    (take MAX_ECHOED_VALUE_CHARS (List.filter is_echoed (list_ascii_of_string raw))).

Definition resolve_reasoning_effort (model : string) (requested : option (Value Number))
    (selection : ModelSelection) (param : string)
    : result UnsupportedReasoningEffort EffectiveReasoningEffort :=
  match requested with
  | None | Some Null => Ok Unchanged
  | Some requested =>
      match model_reasoning model with
      | None => Ok Unchanged
      | Some reasoning =>
          let unsupported :=
            Err (MkUnsupportedReasoningEffort param model (describe_value requested)
                   (effort_as_str <$> accepted_efforts reasoning)) in
          match text ← value_as_str requested; effort_parse text with
          | Some effort =>
              if accepts reasoning effort then Ok (SetEffort effort)
              else match selection with
                   | SelectionAlias => Ok (SetEffort (clamp reasoning effort))
                   | SelectionExplicit => unsupported
                   end
          | None => unsupported
          end
      end
  end.

Definition clamp_reasoning_effort (model : string) (requested : option (Value Number))
    (param : string) : EffectiveReasoningEffort :=
  match resolve_reasoning_effort model requested SelectionAlias param with
  | Ok effort => effort
  | Err _ => Unchanged
  end.

Definition is_off (value : option (Value Number)) : bool :=
  match value with Some (Bool b) => negb b | _ => false end.

Definition strip_thinking_off_switches (body : list (string * Value Number))
    : list (string * Value Number) :=
  match map_get body "chat_template_kwargs" with
  | Some (Object kwargs) =>
      let kwargs :=
        fold_left (fun kwargs key => if is_off (map_get kwargs key) then map_remove kwargs key else kwargs)
          THINKING_OFF_SWITCHES kwargs in
      match kwargs with
      | [] => map_remove body "chat_template_kwargs"
      | _ => map_insert body "chat_template_kwargs" (Object kwargs)
      end
  | _ => body
  end.

Definition rename_message (message : Value Number) : Value Number :=
  match message with
  | Object fields =>
      match map_get fields "role" with
      | Some (Str role) =>
          if String.eqb role "developer" then Object (map_insert fields "role" (Str "system")) else message
      | _ => message
      end
  | _ => message
  end.

Definition rename_developer_role (body : list (string * Value Number))
    : list (string * Value Number) :=
  match map_get body "messages" with
  | Some (Array messages) => map_insert body "messages" (Array (rename_message <$> messages))
  | _ => body
  end.

Definition apply_model_request_policy (body : list (string * Value Number)) (model : string)
    (effort : EffectiveReasoningEffort) : list (string * Value Number) :=
  let body :=
    match effort with
    | SetEffort effort => map_insert body CHAT_REASONING_EFFORT_PARAM (Str (effort_as_str effort))
    | Unchanged => body
    end in
  let config := model_config model in
  let body :=
    if map_or false mr_mandatory (mcfg_reasoning config) then strip_thinking_off_switches body else body in
  if mcfg_developer_role_as_system config then rename_developer_role body else body.
End Policy.

(** ** What the rewriting guarantees *)

Section Policy_facts.
Context {Number : Type} {J : JsonCrate Number}.
Implicit Types body kwargs : list (string * Value Number).

Lemma strip_switches_get keys kwargs key :
  map_get (fold_left (fun kwargs key => if is_off (map_get kwargs key) then map_remove kwargs key else kwargs)
             keys kwargs) key
  = if is_off (map_get kwargs key) && existsb (String.eqb key) keys then None else map_get kwargs key.
Proof.
  revert kwargs. induction keys as [|k keys IH]; intros kwargs; simpl; [by rewrite andb_false_r|].
  rewrite IH. destruct (is_off (map_get kwargs k)) eqn:Hk.
  - rewrite !map_get_remove. rewrite (String.eqb_sym k key).
    destruct (String.eqb_spec key k) as [->|]; simpl; [by rewrite Hk|done].
  - destruct (String.eqb_spec key k) as [->|]; simpl; [by rewrite Hk|done].
Qed.

Lemma strip_get_other body key :
  key <> "chat_template_kwargs" -> map_get (strip_thinking_off_switches body) key = map_get body key.
Proof.
  intros Hne. unfold strip_thinking_off_switches.
  destruct (map_get body "chat_template_kwargs") as [[]|]; try done.
  destruct (fold_left _ _ m); rewrite ?map_get_remove, ?map_get_insert;
    by rewrite (proj2 (String.eqb_neq _ _) (not_eq_sym Hne)).
Qed.

(** After stripping, no switch of the request turns thinking off. *)
Lemma strip_removes body kwargs key :
  key ∈ THINKING_OFF_SWITCHES ->
  map_get (strip_thinking_off_switches body) "chat_template_kwargs" = Some (Object kwargs) ->
  map_get kwargs key <> Some (Bool false).
Proof.
  intros Hkey. unfold strip_thinking_off_switches.
  destruct (map_get body "chat_template_kwargs") as [v|] eqn:E; [|by rewrite E].
  destruct v; try by rewrite E.
  pose proof (strip_switches_get THINKING_OFF_SWITCHES m key) as Hget.
  destruct (fold_left _ _ m) as [|e kw]; rewrite ?map_get_remove, ?map_get_insert; simpl; [done|].
  intros [= <-]. rewrite Hget.
  replace (existsb (String.eqb key) THINKING_OFF_SWITCHES) with true; last first.
  { symmetry. apply existsb_exists. exists key. by rewrite String.eqb_refl, <-list_elem_of_In. }
  rewrite andb_true_r. destruct (is_off (map_get m key)) eqn:Hoff; [done|]. intros H. by rewrite H in Hoff.
Qed.

Lemma rename_get_other body key :
  key <> "messages" -> map_get (rename_developer_role body) key = map_get body key.
Proof.
  intros Hne. unfold rename_developer_role.
  destruct (map_get body "messages") as [[]|]; try done.
  by rewrite map_get_insert, (proj2 (String.eqb_neq _ _) (not_eq_sym Hne)).
Qed.

Lemma rename_message_role message fields :
  rename_message message = Object fields -> map_get fields "role" <> Some (Str (Number := Number) "developer").
Proof.
  destruct message as [| | | | |m]; try done. simpl.
  destruct (map_get m "role") as [[| | |s| |]|] eqn:E; try (intros [= <-]; by rewrite E).
  destruct (String.eqb_spec s "developer") as [->|Hne]; intros [= <-].
  - by rewrite map_get_insert.
  - rewrite E. by intros [= ->].
Qed.

Lemma rename_removes body messages fields :
  map_get (rename_developer_role body) "messages" = Some (Array messages) ->
  Object fields ∈ messages -> map_get fields "role" <> Some (Str "developer").
Proof.
  unfold rename_developer_role.
  destruct (map_get body "messages") as [v|] eqn:E; [|by rewrite E].
  destruct v; try by rewrite E. rewrite map_get_insert. simpl.
  intros [= <-] (message & Hm & _)%list_elem_of_fmap. by apply (rename_message_role message).
Qed.

(** Fields the policy does not own keep their value. *)
Lemma policy_get_other body model effort key :
  key ∉ ["reasoning_effort"; "chat_template_kwargs"; "messages"] ->
  map_get (apply_model_request_policy body model effort) key = map_get body key.
Proof.
  intros (H1 & (H2 & (H3 & _)%not_elem_of_cons)%not_elem_of_cons)%not_elem_of_cons.
  unfold apply_model_request_policy, CHAT_REASONING_EFFORT_PARAM.
  destruct (mcfg_developer_role_as_system _); [rewrite rename_get_other by done|];
    (destruct (map_or _ _ _); [rewrite strip_get_other by done|]);
    (destruct effort; [done|]; by rewrite map_get_insert, (proj2 (String.eqb_neq _ _) (not_eq_sym H1))).
Qed.

Lemma policy_get_effort body model effort :
  map_get (apply_model_request_policy body model effort) CHAT_REASONING_EFFORT_PARAM
  = match effort with
    | SetEffort e => Some (Str (effort_as_str e))
    | Unchanged => map_get body CHAT_REASONING_EFFORT_PARAM
    end.
Proof.
  unfold apply_model_request_policy.
  destruct (mcfg_developer_role_as_system _); [rewrite rename_get_other by done|];
    (destruct (map_or _ _ _); [rewrite strip_get_other by done|]);
    (destruct effort; [done|]; by rewrite map_get_insert, String.eqb_refl).
Qed.

Lemma policy_strips body model effort kwargs key :
  map_or false mr_mandatory (mcfg_reasoning (model_config model)) = true ->
  key ∈ THINKING_OFF_SWITCHES ->
  map_get (apply_model_request_policy body model effort) "chat_template_kwargs" = Some (Object kwargs) ->
  map_get kwargs key <> Some (Bool false).
Proof.
  intros Hm Hkey. unfold apply_model_request_policy. rewrite Hm.
  destruct (mcfg_developer_role_as_system _); [rewrite rename_get_other by done|]; by apply strip_removes.
Qed.

Lemma policy_renames body model effort messages fields :
  mcfg_developer_role_as_system (model_config model) = true ->
  map_get (apply_model_request_policy body model effort) "messages" = Some (Array messages) ->
  Object fields ∈ messages -> map_get fields "role" <> Some (Str "developer").
Proof. intros Hd. unfold apply_model_request_policy. rewrite Hd. apply rename_removes. Qed.

(** The outcomes of resolving an effort. *)
Lemma resolve_ok model v selection param effort r :
  resolve_reasoning_effort model (Some v) selection param = Ok effort ->
  model_reasoning model = Some r -> v <> Null ->
  exists requested, v = Str (effort_as_str requested) /\ effort = SetEffort (clamp r requested)
    /\ (selection = SelectionExplicit -> accepts r requested = true).
Proof.
  unfold resolve_reasoning_effort. intros Hres Hr Hv. rewrite Hr in Hres.
  destruct v as [| | |s| |]; try done. simpl in Hres.
  destruct (effort_parse s) as [requested|] eqn:Hp; [|done].
  apply effort_parse_spec in Hp as ->. exists requested. split; [done|].
  destruct (accepts r requested) eqn:Ha.
  - injection Hres as <-. by rewrite clamp_accepted.
  - by destruct selection; simplify_eq.
Qed.
End Policy_facts.

(** ** What is left of a request, field by field *)

Section Policy_kept.
Context {Number : Type} {J : JsonCrate Number}.
Implicit Types body kwargs fields : list (string * Value Number).

(** What is left of a switch: nothing of a thinking switch set to false, and every other entry. *)
Definition kept_switch kwargs (key : string) : option (Value Number) :=
  match map_get kwargs key with
  | Some (Bool false) => if bool_decide (key ∈ ["enable_thinking"; "thinking"]) then None else Some (Bool false)
  | other => other
  end.

(** The template arguments of a model whose reasoning is mandatory: those left, and no empty object. *)
Definition kept_kwargs (before after : option (Value Number)) : Prop :=
  match before with
  | Some (Object kwargs) =>
      (after = None /\ forall key, kept_switch kwargs key = None)
      \/ exists kwargs', after = Some (Object kwargs') /\ kwargs' <> []
           /\ forall key, map_get kwargs' key = kept_switch kwargs key
  | _ => after = before
  end.

(** A message under a renderer that rejects developer messages: it is a system message then, and otherwise the same. *)
Definition kept_message (before after : Value Number) : Prop :=
  match before with
  | Object fields =>
      match map_get fields "role" with
      | Some (Str "developer") =>
          exists fields', after = Object fields' /\ map_get fields' "role" = Some (Str "system")
            /\ fields'.*1 = fields.*1
            /\ forall key, key <> "role" -> map_get fields' key = map_get fields key
      | _ => after = before
      end
  | _ => after = before
  end.

Definition kept_messages (before after : option (Value Number)) : Prop :=
  match before with
  | Some (Array messages) => exists messages', after = Some (Array messages') /\ Forall2 kept_message messages messages'
  | _ => after = before
  end.

Lemma map_insert_keys fields key v w : map_get fields key = Some w -> (map_insert fields key v).*1 = fields.*1.
Proof.
  induction fields as [|[k x] fields IH]; simpl; [done|].
  destruct (String.eqb_spec k key) as [->|]; simpl; [done|]. intros H%IH. f_equal. exact H.
Qed.

Lemma rename_message_kept message : kept_message message (rename_message message).
Proof.
  destruct message as [| | | | |fields]; try done. cbn [kept_message rename_message].
  destruct (map_get fields "role") as [[| | |role| |]|] eqn:E; try done.
  destruct (String.eqb_spec role "developer") as [->|Hne].
  - eexists. split; [done|]. rewrite map_get_insert. split; [done|]. split; [by eapply map_insert_keys|].
    intros key Hk. by rewrite map_get_insert, (proj2 (String.eqb_neq _ _) (not_eq_sym Hk)).
  - by repeat (case_match; try done; simplify_eq).
Qed.

Lemma rename_messages_kept body :
  kept_messages (map_get body "messages") (map_get (rename_developer_role body) "messages").
Proof.
  unfold kept_messages, rename_developer_role. destruct (map_get body "messages") as [v|] eqn:E; [|done].
  destruct v as [| | | |messages|]; try done. rewrite map_get_insert. eexists. split; [done|].
  apply Forall2_fmap_r, Forall_Forall2_diag, Forall_true. exact rename_message_kept.
Qed.

Lemma switches_kept kwargs key :
  map_get (fold_left (fun kwargs key => if is_off (map_get kwargs key) then map_remove kwargs key else kwargs)
             THINKING_OFF_SWITCHES kwargs) key = kept_switch kwargs key.
Proof.
  rewrite strip_switches_get. unfold kept_switch.
  assert (existsb (String.eqb key) THINKING_OFF_SWITCHES = bool_decide (key ∈ ["enable_thinking"; "thinking"])) as ->.
  { apply eq_bool_prop_intro. rewrite bool_decide_spec, Is_true_true, existsb_exists. split.
    - intros (x & Hx & ->%String.eqb_eq). by apply list_elem_of_In.
    - intros H. exists key. by rewrite String.eqb_refl, <- list_elem_of_In. }
  destruct (map_get kwargs key) as [[|[]| | | |]|]; try done.
Qed.

Lemma strip_kwargs_kept body :
  kept_kwargs (map_get body "chat_template_kwargs")
    (map_get (strip_thinking_off_switches body) "chat_template_kwargs").
Proof.
  unfold kept_kwargs, strip_thinking_off_switches.
  destruct (map_get body "chat_template_kwargs") as [v|] eqn:E; [|done].
  destruct v as [| | | | |kwargs]; try done. pose proof (switches_kept kwargs) as Hkept.
  destruct (fold_left _ _ kwargs) as [|e kwargs'] eqn:Ef.
  - left. rewrite map_get_remove. split; [done|]. intros key. by rewrite <- Hkept.
  - right. rewrite map_get_insert. by eexists.
Qed.

Lemma policy_get_kwargs body model effort :
  let before := map_get body "chat_template_kwargs" in
  let after := map_get (apply_model_request_policy body model effort) "chat_template_kwargs" in
  if map_or false mr_mandatory (mcfg_reasoning (model_config model)) then kept_kwargs before after else after = before.
Proof.
  cbn zeta. unfold apply_model_request_policy, CHAT_REASONING_EFFORT_PARAM.
  destruct (mcfg_developer_role_as_system _); [rewrite rename_get_other by done|];
    (destruct (map_or _ _ _);
      [assert (map_get body "chat_template_kwargs" = map_get (match effort with
           | SetEffort effort => map_insert body "reasoning_effort" (Str (effort_as_str effort))
           | Unchanged => body end) "chat_template_kwargs") as -> by (destruct effort; [done|by rewrite map_get_insert]);
        apply strip_kwargs_kept|]);
    (destruct effort; [done|by rewrite map_get_insert]).
Qed.

Lemma policy_get_messages body model effort :
  let before := map_get body "messages" in
  let after := map_get (apply_model_request_policy body model effort) "messages" in
  if mcfg_developer_role_as_system (model_config model) then kept_messages before after else after = before.
Proof.
  cbn zeta. unfold apply_model_request_policy, CHAT_REASONING_EFFORT_PARAM.
  destruct (mcfg_developer_role_as_system _), (map_or _ _ _), effort as [|e];
    try (match goal with |- kept_messages _ (map_get (rename_developer_role ?b) _) =>
           pose proof (rename_messages_kept b) as Hkept end;
         rewrite ?strip_get_other, ?map_get_insert in Hkept by done; exact Hkept);
    by rewrite ?strip_get_other, ?map_get_insert by done.
Qed.
End Policy_kept.

(** C29: A request that passes the policy reaches a provider in a form the model can serve, and otherwise as it was
    sent.  The effort: when the request names one and the model reasons, the body names one the model accepts, the
    requested one for an explicit model and the nearest for an alias; otherwise that field is unchanged.  The template
    arguments: of a model whose reasoning is mandatory they lose exactly the switches that turn thinking off, and the
    field itself is dropped exactly when nothing is left; of any other model they are unchanged.  The messages: where
    the renderer rejects developer messages, each of them becomes a system message with its other fields unchanged,
    and every other message is unchanged, in the same order; for any other model all are unchanged.  Every other field
    keeps its value. *)
Theorem request_policy_enforced {Number : Type} {J : JsonCrate Number}
    (body : list (string * Value Number)) (model : string) (selection : ModelSelection)
    (effort : EffectiveReasoningEffort)
    (Hok : resolve_reasoning_effort model (map_get body CHAT_REASONING_EFFORT_PARAM) selection
             CHAT_REASONING_EFFORT_PARAM = Ok effort) :
  let sent := apply_model_request_policy body model effort in
  (match map_get body "reasoning_effort", model_reasoning model with
   | None, _ | Some Null, _ | Some _, None => map_get sent "reasoning_effort" = map_get body "reasoning_effort"
   | Some v, Some r =>
       exists requested, v = Str (effort_as_str requested)
         /\ map_get sent "reasoning_effort" = Some (Str (effort_as_str (clamp r requested)))
         /\ accepts r (clamp r requested) = true
         /\ (selection = SelectionExplicit -> clamp r requested = requested)
   end)
  /\ (if map_or false mr_mandatory (mcfg_reasoning (model_config model))
      then kept_kwargs (map_get body "chat_template_kwargs") (map_get sent "chat_template_kwargs")
      else map_get sent "chat_template_kwargs" = map_get body "chat_template_kwargs")
  /\ (if mcfg_developer_role_as_system (model_config model)
      then kept_messages (map_get body "messages") (map_get sent "messages")
      else map_get sent "messages" = map_get body "messages")
  /\ (map_or false mr_mandatory (mcfg_reasoning (model_config model)) = true ->
      forall kwargs key, map_get sent "chat_template_kwargs" = Some (Object kwargs) ->
        key ∈ ["enable_thinking"; "thinking"] -> map_get kwargs key <> Some (Bool false))
  /\ (mcfg_developer_role_as_system (model_config model) = true ->
      forall messages fields, map_get sent "messages" = Some (Array messages) ->
        Object fields ∈ messages -> map_get fields "role" <> Some (Str "developer"))
  /\ (forall key, key ∉ ["reasoning_effort"; "chat_template_kwargs"; "messages"] ->
        map_get sent key = map_get body key).
Proof.
  intros sent. split; [|split_and!].
  - change "reasoning_effort"%string with CHAT_REASONING_EFFORT_PARAM. subst sent. rewrite policy_get_effort.
    destruct (map_get body CHAT_REASONING_EFFORT_PARAM) as [v|]; [|by injection Hok as <-].
    destruct (model_reasoning model) as [r|] eqn:Hr; last first.
    { unfold resolve_reasoning_effort in Hok. rewrite Hr in Hok. by destruct v; injection Hok as <-. }
    assert (v = Null \/ v <> Null) as [->|Hnull] by (by destruct v; [left|right..]); [by injection Hok as <-|].
    destruct (resolve_ok _ _ _ _ _ _ Hok Hr Hnull) as (requested & -> & -> & Hexp).
    exists requested. destruct (model_reasoning_accepts _ _ Hr) as [x Hx].
    split_and!; [done|done|by apply (clamp_accepts r requested x)|intros Hs; by apply clamp_accepted, Hexp].
  - apply policy_get_kwargs.
  - apply policy_get_messages.
  - intros Hm kwargs key Hget Hkey. by apply (policy_strips body model effort kwargs key).
  - intros Hd messages fields. by apply policy_renames.
  - intros key. apply policy_get_other.
Qed.

Lemma request_policy_enforced_witness :
  let body : list (string * Value Z) :=
    [("reasoning_effort", Str "none");
     ("chat_template_kwargs", Object [("thinking", Bool false); ("style", Num 3)]);
     ("messages", Array [Object [("role", Str "developer")]])] in
  resolve_reasoning_effort KIMI_K3_1_PRO_MODEL_ID (map_get body CHAT_REASONING_EFFORT_PARAM) SelectionAlias
    CHAT_REASONING_EFFORT_PARAM = Ok (SetEffort Low)
  /\ apply_model_request_policy body KIMI_K3_1_PRO_MODEL_ID (SetEffort Low)
     = [("reasoning_effort", Str "low"); ("chat_template_kwargs", Object [("style", Num 3)]);
        ("messages", Array [Object [("role", Str "system")]])]
  /\ forall key, key ∉ ["reasoning_effort"; "chat_template_kwargs"; "messages"] ->
       map_get (apply_model_request_policy body KIMI_K3_1_PRO_MODEL_ID (SetEffort Low)) key
       = map_get body key.
Proof.
  intros body. split; [reflexivity|]. split; [reflexivity|].
  apply (request_policy_enforced body KIMI_K3_1_PRO_MODEL_ID SelectionAlias
           (SetEffort Low) eq_refl).
Defined.
