(* ===== verification/ApiErrors.v ===== *)
(** * Errors a client sees: ApiError (main.rs), web/provider_error.rs, and the classification of
    provider failures in web/openai.rs

    Every way a completion can fail maps to an HTTP status, a stable error code and two optional
    headers.  [Display] texts are not modelled, except those of a provider failure, whose point is
    that they come from a finite vocabulary.  Status codes are their numbers. *)
From S2P Require Import Prelude Registry Inference Reasoning Catalog Json RequestPolicy.

(** ** Public provider errors (provider_error.rs) *)

Inductive Detail :=
| InvalidRequest
| InvalidParameter
| UnsupportedParameter
| InvalidMessages
| ContextLimit
| DetailPayloadTooLarge
| DetailProviderError
| DetailTimeout.

Record PublicProviderError := MkPublicProviderError {
  ppe_status : Z;
  ppe_detail : Detail;
}.

(** The label of a diagnostic summary. *)
Definition summary_detail (summary : option string) : Detail :=
  match summary with
  | None => InvalidRequest
  | Some s =>
      if String.eqb s "upstream rejected a parameter value" then InvalidParameter
      else if String.eqb s "upstream does not support a request parameter" then UnsupportedParameter
      else if String.eqb s "upstream rejected the message structure" then InvalidMessages
      else if String.eqb s "upstream context or token limit exceeded" then ContextLimit
      else InvalidRequest
  end.

(** [PublicProviderError::from_failure] *)
Definition from_failure (failure : AttemptFailure) : option PublicProviderError :=
  match af_kind failure with
  | HttpStatus =>
      Some match af_status failure with
      | Some status =>
          if (status =? 400) || (status =? 422) then
            MkPublicProviderError status
              (summary_detail (diagnostic ← af_upstream_diagnostic failure; ud_summary diagnostic))
          else if status =? 413 then MkPublicProviderError 413 DetailPayloadTooLarge
          else if (status =? 408) || (status =? 504) then MkPublicProviderError 504 DetailTimeout
          else MkPublicProviderError 502 DetailProviderError
      | None => MkPublicProviderError 502 DetailProviderError
      end
  | ResponseStartTimeout | StreamTimeout => Some (MkPublicProviderError 504 DetailTimeout)
  | Connect | Transport | ResponseBody | InvalidResponse | UpstreamResponseError
  | UpstreamStreamError | UnexpectedEof => Some (MkPublicProviderError 502 DetailProviderError)
  | CapacityRejected | ProviderUnavailable | RequestBuild | ConsumerDropped => None
  end.

(** [PublicProviderError::code] *)
Definition ppe_code (self : PublicProviderError) : string :=
  match ppe_detail self with
  | InvalidRequest => "upstream_invalid_request"
  | InvalidParameter => "upstream_invalid_parameter"
  | UnsupportedParameter => "upstream_unsupported_parameter"
  | InvalidMessages => "upstream_invalid_messages"
  | ContextLimit => "upstream_context_limit"
  | DetailPayloadTooLarge => "upstream_payload_too_large"
  | DetailProviderError => "upstream_provider_error"
  | DetailTimeout => "upstream_timeout"
  end.

(** [PublicProviderError::message] *)
Definition ppe_message (self : PublicProviderError) : string :=
  match ppe_detail self with
  | InvalidRequest => "Upstream provider rejected the request. Check that the message format and parameters are supported by this model."
  | InvalidParameter => "Upstream provider rejected a parameter value. Check the parameters supported by this model."
  | UnsupportedParameter => "Upstream provider does not support a request parameter. Check the parameters supported by this model."
  | InvalidMessages => "Upstream provider rejected the message structure. Check the message roles and ordering supported by this model."
  | ContextLimit => "Upstream provider rejected the context or token limit. Reduce the input or requested output tokens."
  | DetailPayloadTooLarge => "Upstream provider rejected the request size. Reduce the request payload."
  | DetailProviderError => "Upstream provider could not complete the request."
  | DetailTimeout => "Upstream provider timed out while processing the request."
  end.

(** ** Errors of the System One and transcription endpoints *)

Inductive SystemOneRequestError :=
| UnknownField (detail : string)
| MissingField (detail : string)
| UnknownQuestionType
| MalformedBody
| SystemOneUnsupportedModel
| MissingState
| StateTooLarge
| NoQuestions
| TooManyQuestions
| EmptyQuestionName
| DuplicateQuestion
| QuestionTooLarge
| BadOptionCount (max : Z)
| EmptyOptionLabel
| DuplicateOption
| BadLevelCount
| TooManyImages
| ImageNotDataUrl
| ImageTooLarge
| PromptBudgetExceeded
| BadTemperature
| ImagesUnsupported
| ContextExceeded (limit : Z).

Definition system_one_status (self : SystemOneRequestError) : Z :=
  match self with
  | StateTooLarge | QuestionTooLarge | ImageTooLarge | PromptBudgetExceeded | ContextExceeded _ => 413
  | _ => 422
  end.

Definition system_one_code (self : SystemOneRequestError) : string :=
  match self with
  | UnknownField _ => "system_one_unknown_field"
  | MissingField _ => "system_one_missing_field"
  | UnknownQuestionType => "system_one_unknown_question_type"
  | MalformedBody => "system_one_malformed_body"
  | SystemOneUnsupportedModel => "system_one_unsupported_model"
  | MissingState => "system_one_missing_state"
  | StateTooLarge => "system_one_state_too_large"
  | NoQuestions => "system_one_no_questions"
  | TooManyQuestions => "system_one_too_many_questions"
  | EmptyQuestionName => "system_one_empty_question_name"
  | DuplicateQuestion => "system_one_duplicate_question"
  | QuestionTooLarge => "system_one_question_too_large"
  | BadOptionCount _ => "system_one_bad_option_count"
  | EmptyOptionLabel => "system_one_empty_option_label"
  | DuplicateOption => "system_one_duplicate_option"
  | BadLevelCount => "system_one_bad_level_count"
  | TooManyImages => "system_one_too_many_images"
  | ImageNotDataUrl => "system_one_image_not_data_url"
  | ImageTooLarge => "system_one_image_too_large"
  | PromptBudgetExceeded => "system_one_prompt_budget_exceeded"
  | BadTemperature => "system_one_bad_temperature"
  | ImagesUnsupported => "system_one_images_unsupported"
  | ContextExceeded _ => "system_one_context_exceeded"
  end.

Inductive TranscriptionError :=
| AppOnly
| PaidRequired
| InvalidAudio
| UnsupportedAudio
| AudioTooLarge
| AudioTooLong
| InvalidParameters
| TranscriptionUnsupportedModel
| NoSpeech
| TranscriptionInvalidResponse
| ResponseTooLarge
| TranscriptionUnavailable
| RateLimited
| Upstream
| TranscriptionTimeout.

Definition transcription_status (self : TranscriptionError) : Z :=
  match self with
  | AppOnly | PaidRequired => 403
  | InvalidAudio | InvalidParameters | TranscriptionUnsupportedModel => 400
  | UnsupportedAudio | AudioTooLong | NoSpeech => 422
  | AudioTooLarge => 413
  | RateLimited => 429
  | TranscriptionUnavailable => 503
  | TranscriptionTimeout => 504
  | TranscriptionInvalidResponse | ResponseTooLarge | Upstream => 502
  end.

Definition transcription_code (self : TranscriptionError) : string :=
  match self with
  | AppOnly => "transcription_app_only"
  | PaidRequired => "transcription_paid_required"
  | InvalidAudio => "transcription_invalid_audio"
  | UnsupportedAudio => "transcription_unsupported_audio"
  | AudioTooLarge => "transcription_audio_too_large"
  | AudioTooLong => "transcription_audio_too_long"
  | InvalidParameters => "transcription_invalid_parameters"
  | TranscriptionUnsupportedModel => "transcription_unsupported_model"
  | NoSpeech => "transcription_no_speech"
  | TranscriptionInvalidResponse => "transcription_invalid_response"
  | ResponseTooLarge => "transcription_response_too_large"
  | TranscriptionUnavailable => "transcription_unavailable"
  | RateLimited => "transcription_rate_limited"
  | Upstream => "transcription_upstream_error"
  | TranscriptionTimeout => "transcription_timeout"
  end.

(** ** ApiError (main.rs) *)

Inductive ApiError :=
| InvalidUsernameOrPassword
| InvalidJwt
| AccessTokenExpired
| InternalServerError
| BillingCleanupUnavailable
| ServiceUnavailable
| ImageDescriptionUnavailable
| InferenceCapacity (status : Z) (retry_after : option Duration) (client_replay_safe : bool)
| InferenceRateLimited (retry_after : Duration)
| InferenceProvider (error : PublicProviderError)
| SystemOneRequest (error : SystemOneRequestError)
| ApiUnsupportedReasoningEffort (error : UnsupportedReasoningEffort)
| Transcription (error : TranscriptionError)
| BadRequest
| SessionNotFound
| Conflict
| EncryptionError
| Unauthorized
| InvalidInviteCode
| RefreshFailed
| UserAlreadyVerified
| NoEmailFound
| UserExistsNotLinked
| UserNotFound
| EmailAlreadyExists
| UsageLimitReached
| FreeTokenLimitExceeded
| ModelNotAvailableOnPlan
| ModelNotAvailable
| MessageExceedsContextLimit
| NotFound
| UnprocessableEntity
| ApiPayloadTooLarge
| TooManyRequests
| InternalAccountRequired
| PasswordTooShort
| PasswordTooLong.

Definition with_client_replay_safe (self : ApiError) : ApiError :=
  match self with
  | InferenceCapacity status retry_after _ => InferenceCapacity status retry_after true
  | error => error
  end.

Definition api_status (self : ApiError) : Z :=
  match self with
  | InvalidUsernameOrPassword | InvalidJwt | AccessTokenExpired | Unauthorized => 401
  | InternalServerError => 500
  | ServiceUnavailable | BillingCleanupUnavailable | ImageDescriptionUnavailable => 503
  | InferenceCapacity status _ _ => status
  | InferenceRateLimited _ => 429
  | InferenceProvider error => ppe_status error
  | Transcription error => transcription_status error
  | SystemOneRequest error => system_one_status error
  | ApiUnsupportedReasoningEffort _ => 400
  | BadRequest | PasswordTooShort | PasswordTooLong | SessionNotFound => 400
  | Conflict => 409
  | InvalidInviteCode | RefreshFailed => 401
  | UserAlreadyVerified | EncryptionError | NoEmailFound => 400
  | UserExistsNotLinked => 409
  | UserNotFound => 404
  | EmailAlreadyExists => 409
  | UsageLimitReached | FreeTokenLimitExceeded | ModelNotAvailableOnPlan => 403
  | ModelNotAvailable => 404
  | MessageExceedsContextLimit => 413
  | NotFound => 404
  | UnprocessableEntity => 422
  | ApiPayloadTooLarge => 413
  | TooManyRequests => 429
  | InternalAccountRequired => 403
  end.

Definition openai_error_code (self : ApiError) : option string :=
  match self with
  | InferenceRateLimited _ => Some "rate_limit_exceeded"
  | UsageLimitReached => Some "usage_limit_reached"
  | FreeTokenLimitExceeded => Some "free_tier_token_limit_exceeded"
  | ModelNotAvailableOnPlan => Some "model_not_available_on_plan"
  | ModelNotAvailable => Some "model_not_found"
  | MessageExceedsContextLimit => Some "message_exceeds_context_limit"
  | SystemOneRequest error => Some (system_one_code error)
  | Transcription error => Some (transcription_code error)
  | ApiUnsupportedReasoningEffort _ => Some "unsupported_value"
  | _ => None
  end%string.

Definition error_type_and_param (self : ApiError) : option string * option string :=
  match self with
  | InferenceRateLimited _ => (Some "rate_limit_error", None)
  | ApiUnsupportedReasoningEffort error => (Some "invalid_request_error", Some (ure_param error))
  | _ => (None, None)
  end%string.

Definition api_error_code (self : ApiError) : option string :=
  match self with
  | SessionNotFound => Some "session_not_found"
  | BillingCleanupUnavailable => Some "billing_account_deletion_failed"
  | AccessTokenExpired => Some "access_token_expired"
  | ImageDescriptionUnavailable => Some "image_description_unavailable"
  | InferenceCapacity _ _ _ => Some "inference_capacity"
  | InferenceProvider error => Some (ppe_code error)
  | SystemOneRequest error => Some (system_one_code error)
  | Transcription error => Some (transcription_code error)
  | _ => openai_error_code self
  end%string.

(** The response without its message: the body's [error] object is its code, type and parameter; the
    contract header is on every error; [retry-after] is in whole seconds. *)
Record ErrorResponse := MkErrorResponse {
  er_status : Z;
  er_openai : option (string * (option string * option string));
  er_error_contract : string;
  er_error_code : option string;
  er_client_replay : option string;
  er_retry_after : option Z;
}.

Definition as_secs (d : Duration) : Z := d / 1000000000.

Definition into_response (self : ApiError) : ErrorResponse := {|
  er_status := api_status self;
  er_openai := (fun code => (code, error_type_and_param self)) <$> openai_error_code self;
  er_error_contract := "1";
  er_error_code := api_error_code self;
  er_client_replay :=
    match self with InferenceCapacity _ _ true => Some "safe"%string | _ => None end;
  er_retry_after :=
    match self with
    | InferenceRateLimited retry_after => Some (as_secs retry_after)
    | InferenceCapacity _ retry_after _ => as_secs <$> retry_after
    | _ => None
    end;
|}.

(** ** Provider failures (provider_client.rs, openai.rs) *)

Record UpstreamProviderError := MkUpstreamProviderError {
  upe_status : Z;
  upe_retry_after : option Duration;
  upe_upstream_request_id : option string;
  upe_diagnostic : option UpstreamDiagnostic;
}.

Inductive ProviderRequestError :=
| TinfoilUnavailable
| MapleUnavailable
| ProviderTimeout (after : Duration)
| Build (text : string)
| ProviderConnect (text : string)
| Send (text : string)
| ProviderUpstream (upstream : UpstreamProviderError).

(** [impl From<ProviderRequestError> for ApiError] *)
Definition api_error_from_provider (error : ProviderRequestError) : ApiError :=
  match error with
  | TinfoilUnavailable | MapleUnavailable => ServiceUnavailable
  | _ => InternalServerError
  end.

Definition public_capacity_status (upstream_status : Z) : option Z :=
  if upstream_status =? 429 then Some 429
  else if (upstream_status =? 503) || (upstream_status =? 529) then Some 503
  else None.

Definition attempt_failure_from_provider_error (error : ProviderRequestError) : AttemptFailure :=
  match error with
  | TinfoilUnavailable | MapleUnavailable => failure_new ProviderUnavailable BeforeSend ProvenPreAcceptance
  | Build _ => failure_new RequestBuild BeforeSend ProvenPreAcceptance
  | ProviderConnect _ => failure_new Connect BeforeSend ProvenPreAcceptance
  | ProviderTimeout _ => failure_new ResponseStartTimeout AwaitingResponse NotProvenPreAcceptance
  | Send _ => failure_new Transport AwaitingResponse NotProvenPreAcceptance
  | ProviderUpstream upstream =>
      let is_capacity_rejection := is_some (public_capacity_status (upe_status upstream)) in
      with_upstream_diagnostic
        (with_upstream_response
           (failure_new (if is_capacity_rejection then CapacityRejected else HttpStatus) AwaitingResponse
              NotProvenPreAcceptance)
           (upe_status upstream) (upe_retry_after upstream) (upe_upstream_request_id upstream))
        (upe_diagnostic upstream)
  end.

(** [None] is the panic of the [expect]. *)
Definition public_completion_error (error : ProviderRequestError) (failure : AttemptFailure)
    : option ApiError :=
  match af_kind failure with
  | CapacityRejected =>
      status ← af_status failure; status ← public_capacity_status status;
      Some (InferenceCapacity status (af_retry_after failure) false)
  | _ =>
      Some match from_failure failure with
      | Some public => InferenceProvider public
      | None => api_error_from_provider error
      end
  end.

(** ** Execution errors *)

Inductive CompletionExecutionError :=
| Request (error : ApiError)
| Attempt (terminal : AttemptTerminal) (public_error : ApiError).

Definition terminal (self : CompletionExecutionError) : option AttemptTerminal :=
  match self with Request _ => None | Attempt terminal _ => Some terminal end.

Definition into_api_error (self : CompletionExecutionError) : ApiError :=
  match self with Request error => error | Attempt _ public_error => public_error end.

Definition into_pre_persistence_api_error (self : CompletionExecutionError) : ApiError :=
  let replay_safe :=
    match self with
    | Request _ => true
    | Attempt (Failed _ failure) _ =>
        match af_replay_safety failure with ProvenPreAcceptance => true | NotProvenPreAcceptance => false end
    | Attempt _ _ => false
    end in
  let error := into_api_error self in
  if replay_safe then with_client_replay_safe error else error.

(** ** What provider failures reveal *)

(** All a client can learn from a provider error: its kind, the class of its status, the label of its
    diagnostic, and for a capacity rejection the retry hint. *)
Inductive ErrorClass :=
| ClassUnavailable
| ClassTimeout
| ClassBuild
| ClassTransport
| ClassCapacity (status : Z) (retry_after : option Z)
| ClassStatus (status : Z) (detail : Detail).

Definition classify (error : ProviderRequestError) : ErrorClass :=
  match error with
  | TinfoilUnavailable | MapleUnavailable => ClassUnavailable
  | ProviderTimeout _ => ClassTimeout
  | Build _ => ClassBuild
  | ProviderConnect _ | Send _ => ClassTransport
  | ProviderUpstream u =>
      match public_capacity_status (upe_status u) with
      | Some status => ClassCapacity status (as_secs <$> upe_retry_after u)
      | None =>
          if (upe_status u =? 400) || (upe_status u =? 422)
          then ClassStatus (upe_status u) (summary_detail (d ← upe_diagnostic u; ud_summary d))
          else if upe_status u =? 413 then ClassStatus 413 DetailPayloadTooLarge
          else if (upe_status u =? 408) || (upe_status u =? 504) then ClassTimeout
          else ClassStatus 502 DetailProviderError
      end
  end.

Definition class_response (class : ErrorClass) : ErrorResponse :=
  match class with
  | ClassUnavailable => into_response ServiceUnavailable
  | ClassTimeout => into_response (InferenceProvider (MkPublicProviderError 504 DetailTimeout))
  | ClassBuild => into_response InternalServerError
  | ClassTransport => into_response (InferenceProvider (MkPublicProviderError 502 DetailProviderError))
  | ClassCapacity status retry_after =>
      MkErrorResponse status None "1" (Some "inference_capacity"%string) None retry_after
  | ClassStatus status detail => into_response (InferenceProvider (MkPublicProviderError status detail))
  end.

Lemma public_capacity_status_range status s : public_capacity_status status = Some s -> s = 429 \/ s = 503.
Proof. unfold public_capacity_status. repeat case_match; intros ?; simplify_eq; auto. Qed.

Definition client_statuses : list Z := [400; 413; 422; 429; 500; 502; 503; 504].

Lemma in_client_statuses z : existsb (Z.eqb z) client_statuses = true -> z ∈ client_statuses.
Proof. intros (x & Hx & ->%Z.eqb_eq)%existsb_exists. by apply list_elem_of_In. Qed.

(** C30: A failed attempt is answered from a closed vocabulary.  Every provider error has a public
    error (the [expect] on the capacity status never fires), and the response it becomes is a function
    of the error's class alone: no text, identifier or header of the provider reaches the client.  The
    status is one of eight, so an upstream 401, 403 or 404 is never passed on as the client's own; and
    no attempt that reached a provider client is ever marked safe for the client to replay. *)
Theorem provider_errors_closed (attempt : InferenceAttempt) (error : ProviderRequestError) :
  let failure := attempt_failure_from_provider_error error in
  exists public, public_completion_error error failure = Some public
    /\ into_response public = class_response (classify error)
    /\ er_status (into_response public) ∈ client_statuses
    /\ er_client_replay (into_response (into_pre_persistence_api_error (Attempt (Failed attempt failure) public)))
       = None.
Proof.
  intros failure. destruct error as [| |after|text|text|text|u];
    try (eexists; split; [reflexivity|]; split; [reflexivity|];
         split; [by apply in_client_statuses|reflexivity]).
  subst failure. unfold attempt_failure_from_provider_error, public_completion_error, from_failure, classify.
  destruct (public_capacity_status (upe_status u)) as [status|] eqn:Ecap; cbn.
  - rewrite Ecap. cbn. eexists. split; [reflexivity|]. split; [reflexivity|]. split; [|reflexivity].
    apply public_capacity_status_range in Ecap as [-> | ->]; by apply in_client_statuses.
  - destruct ((upe_status u =? 400) || (upe_status u =? 422)) eqn:E4; cbn.
    + eexists. split; [reflexivity|]. split; [reflexivity|]. split; [|reflexivity]. cbn.
      apply orb_true_iff in E4 as [->%Z.eqb_eq| ->%Z.eqb_eq]; by apply in_client_statuses.
    + destruct (upe_status u =? 413); cbn;
        [eexists; split; [reflexivity|]; split; [reflexivity|]; split; [by apply in_client_statuses|done]|].
      destruct ((upe_status u =? 408) || (upe_status u =? 504)); cbn;
        (eexists; split; [reflexivity|]; split; [reflexivity|]; split; [by apply in_client_statuses|done]).
Qed.
