(* ===== verification/Health.v ===== *)
(** * Route health: inference/health.rs

    The enclave-local circuit breakers of inference routes.  [ShadowHealthInner] is the state
    under the mutex, every operation takes the instant its caller read under the lock, and the
    non-cloneable [ProbeLease] is a value owned by one attempt.  [Process] runs the operations of
    concurrent attempts as interleaved steps over the state and the live leases. *)
From S2P Require Import Prelude Registry Inference.

Definition SHADOW_HEALTH_POLICY_VERSION : string := "routing-v2-health-shadow-v2".
Definition ROUTE_FAILURE_WINDOW : Duration := from_secs 60.
Definition ROUTE_FAILURES_TO_OPEN : Z := 3.
Definition ROUTE_OPEN_COOLDOWN : Duration := from_secs 30.
Definition MIN_CAPACITY_COOLDOWN : Duration := from_secs 30.
Definition MAX_CAPACITY_COOLDOWN : Duration := from_secs (60 * 60).

(** ** Data *)

Inductive ShadowObservationMode :=
| Update
| TelemetryOnly.

#[global] Instance ShadowObservationMode_eq_dec : EqDecision ShadowObservationMode.
Proof. solve_decision. Defined.

Inductive CapacityPoolKey :=
| ProviderModel (key : RouteKey).

#[global] Instance CapacityPoolKey_eq_dec : EqDecision CapacityPoolKey.
Proof. solve_decision. Defined.
#[global] Instance CapacityPoolKey_countable : Countable CapacityPoolKey.
Proof.
  apply (inj_countable' (fun k => match k with ProviderModel r => r end) ProviderModel). by intros [].
Defined.

Inductive ShadowDisposition :=
| Healthy
| Watch (consecutive_failures : Z)   (** u8 *)
| WouldOpen (remaining : Duration)
| WouldProbe
| ProbeInFlight (retry_after : Duration).

#[global] Instance ShadowDisposition_eq_dec : EqDecision ShadowDisposition.
Proof. solve_decision. Defined.

Record ShadowRouteSnapshot := MkShadowRouteSnapshot {
  srs_route_health : ShadowDisposition;
  srs_deployment_capacity : ShadowDisposition;
  srs_rate_limit_capacity : ShadowDisposition;
  srs_effective : ShadowDisposition;
}.

Inductive ShadowSignal :=
| SignalCompleted
| SignalCapacityRejected (status : Z)
| SignalRouteFailure (kind : AttemptFailureKind) (status : option Z)
| SignalNeutral (kind : AttemptFailureKind) (status : option Z)
| SignalUnknownRoute.

Record ShadowObservationReport := MkShadowObservationReport {
  sor_policy_version : string;
  sor_mode : ShadowObservationMode;
  sor_route : RouteKey;
  sor_signal : ShadowSignal;
  sor_capacity_pool : option CapacityPoolKey;
  sor_snapshot : option ShadowRouteSnapshot;
  sor_mutated : bool;
}.

Inductive ProbeRejectionReason :=
| RejectCircuitOpen
| RejectProbeInFlight
| RejectUnknownRoute.

Record ShadowHealthPolicy := MkShadowHealthPolicy {
  hp_route_failure_window : Duration;
  hp_route_failures_to_open : Z;   (** u8 *)
  hp_route_open_cooldown : Duration;
  hp_minimum_capacity_cooldown : Duration;
  hp_max_capacity_cooldown : Duration;
}.

Definition policy_default : ShadowHealthPolicy :=
  MkShadowHealthPolicy ROUTE_FAILURE_WINDOW ROUTE_FAILURES_TO_OPEN ROUTE_OPEN_COOLDOWN
    MIN_CAPACITY_COOLDOWN MAX_CAPACITY_COOLDOWN.

(** [ProbeLeaseId(u64)] *)
Abbreviation ProbeLeaseId := Z (only parsing).

Record ActiveProbe := MkActiveProbe {
  ap_lease_id : ProbeLeaseId;
  ap_generation_at_claim : Z;   (** u64 *)
}.

#[global] Instance ActiveProbe_eq_dec : EqDecision ActiveProbe.
Proof. solve_decision. Defined.

Record RouteHealthState := MkRouteHealthState {
  rh_failure_times : list Instant;
  rh_open_until : option Instant;
  rh_generation : Z;   (** u64 *)
  rh_active_probe : option ActiveProbe;
}.

Record CapacityState := MkCapacityState {
  cs_open_until : option Instant;
  cs_generation : Z;   (** u64 *)
  cs_active_probe : option ActiveProbe;
}.

(** [#[derive(Default)]] *)
Definition route_health_default : RouteHealthState := MkRouteHealthState [] None 0 None.
Definition capacity_default : CapacityState := MkCapacityState None 0 None.

Record ShadowHealthInner := MkShadowHealthInner {
  si_route_health : gmap RouteKey RouteHealthState;
  si_capacity : gmap CapacityPoolKey CapacityState;
  si_next_probe_lease_id : Z;   (** u64 *)
}.

Definition with_route_health (i : ShadowHealthInner) (m : gmap RouteKey RouteHealthState) :=
  MkShadowHealthInner m (si_capacity i) (si_next_probe_lease_id i).
Definition with_capacity (i : ShadowHealthInner) (m : gmap CapacityPoolKey CapacityState) :=
  MkShadowHealthInner (si_route_health i) m (si_next_probe_lease_id i).

Inductive ProbeGateKey :=
| RouteHealth (route : RouteKey)
| Capacity (pool : CapacityPoolKey).

#[global] Instance ProbeGateKey_eq_dec : EqDecision ProbeGateKey.
Proof. solve_decision. Defined.

Record ProbeGateClaim := MkProbeGateClaim {
  pc_gate : ProbeGateKey;
  pc_generation_at_claim : Z;
}.

#[global] Instance ProbeGateClaim_eq_dec : EqDecision ProbeGateClaim.
Proof. solve_decision. Defined.

(** [inner: Arc<Mutex<..>>] is the address of the state the lease was claimed from. *)
Record ProbeLease := MkProbeLease {
  pl_inner : nat;
  pl_route : RouteKey;
  pl_lease_id : ProbeLeaseId;
  pl_claims : option (list ProbeGateClaim);
}.

Inductive ProbeClaimResult :=
| Ready (lease : option ProbeLease)
| Rejected (reason : ProbeRejectionReason) (retry_after : Duration).

Record ShadowHealthState := MkShadowHealthState {
  sh_policy : ShadowHealthPolicy;
  sh_inner : nat;
}.

Inductive ProbeGateStatus :=
| GateHealthy
| GateStillOpen (remaining : Duration)
| GateExpiredOpen
| GateProbeInFlight.

#[global] Instance ProbeGateStatus_eq_dec : EqDecision ProbeGateStatus.
Proof. solve_decision. Defined.

Inductive Mutation :=
| MutCompleted
| MutCapacity (pool : CapacityPoolKey) (retry_after : option Duration)
| MutRouteFailure
| MutNone.

(** ** Construction *)

Definition registry_routes (reg : ProviderRegistry) : list ModelRouteSpec :=
  (completion_models reg ≫= cm_routes) ++ (decision_models reg ≫= dm_routes).

Definition spec_route_key (r : ModelRouteSpec) : RouteKey :=
  MkRouteKey (rs_provider r) (rs_provider_model_id r).

(** [entry(k).or_default()] *)
Definition or_default {K A} `{Countable K} (d : A) (k : K) (m : gmap K A) : gmap K A :=
  match m !! k with Some _ => m | None => <[k := d]> m end.

Definition new_with_policy (reg : ProviderRegistry) (policy : ShadowHealthPolicy) (address : nat)
    : ShadowHealthState * ShadowHealthInner :=
  let '(route_health, capacity) :=
    fold_left (fun '(rh, cap) route =>
        let key := spec_route_key route in
        (or_default route_health_default key rh, or_default capacity_default (ProviderModel key) cap))
      (registry_routes reg) (∅, ∅) in
  (MkShadowHealthState policy address, MkShadowHealthInner route_health capacity 0).

Definition new (reg : ProviderRegistry) (address : nat) : ShadowHealthState * ShadowHealthInner :=
  new_with_policy reg policy_default address.

(** ** Gates *)

Definition advance_generation (generation : Z) : Z :=
  let g := wrapping_add_u64 generation 1 in if g =? 0 then 1 else g.

Definition active_probe_matches (active : option ActiveProbe) (lease_id : ProbeLeaseId)
    (generation_at_claim : Z) : bool :=
  is_some_and (fun a => (ap_lease_id a =? lease_id) && (ap_generation_at_claim a =? generation_at_claim))
    active.

Definition extend_open_until (open_until : option Instant) (now : Instant) (cooldown : Duration)
    : option Instant :=
  let candidate := default now (instant_checked_add now cooldown) in
  Some (map_or candidate (fun current => Z.max current candidate) open_until).

Definition probe_gate_status (inner : ShadowHealthInner) (gate : ProbeGateKey) (now : Instant)
    : option ProbeGateStatus :=
  '(open_until, active) ← match gate with
    | RouteHealth route =>
        state ← si_route_health inner !! route; Some (rh_open_until state, rh_active_probe state)
    | Capacity pool =>
        state ← si_capacity inner !! pool; Some (cs_open_until state, cs_active_probe state)
    end;
  if is_some active then Some GateProbeInFlight
  else match open_until with
    | Some until =>
        if now <? until then Some (GateStillOpen (duration_since until now)) else Some GateExpiredOpen
    | None => Some GateHealthy
    end.

(** One pass over the values of both maps: is the candidate identifier carried by an active probe? *)
Definition lease_id_in_use (inner : ShadowHealthInner) (candidate : ProbeLeaseId) : bool :=
  existsb (fun p => is_some_and (fun a => ap_lease_id a =? candidate) (rh_active_probe p.2))
    (map_to_list (si_route_health inner))
  || existsb (fun p => is_some_and (fun a => ap_lease_id a =? candidate) (cs_active_probe p.2))
       (map_to_list (si_capacity inner)).

(** The [loop], [fuel] bounding its iterations. *)
Fixpoint next_probe_lease_id_loop (fuel : nat) (inner : ShadowHealthInner)
    : option (ProbeLeaseId * ShadowHealthInner) :=
  match fuel with
  | O => None
  | S fuel =>
      let next := wrapping_add_u64 (si_next_probe_lease_id inner) 1 in
      let inner := MkShadowHealthInner (si_route_health inner) (si_capacity inner) next in
      if next =? 0 then next_probe_lease_id_loop fuel inner
      else if lease_id_in_use inner next then next_probe_lease_id_loop fuel inner
      else Some (next, inner)
  end.

Definition probe_loop_bound (inner : ShadowHealthInner) : nat :=
  size (si_route_health inner) + size (si_capacity inner) + 2.

Definition next_probe_lease_id (inner : ShadowHealthInner)
    : option (ProbeLeaseId * ShadowHealthInner) :=
  next_probe_lease_id_loop (probe_loop_bound inner) inner.

Definition claim_probe_gate (inner : ShadowHealthInner) (gate : ProbeGateKey) (lease_id : ProbeLeaseId)
    : option (Z * ShadowHealthInner) :=
  match gate with
  | RouteHealth route =>
      state ← si_route_health inner !! route;
      let generation := advance_generation (rh_generation state) in
      Some (generation, with_route_health inner (<[route := MkRouteHealthState (rh_failure_times state)
        (rh_open_until state) generation (Some (MkActiveProbe lease_id generation))]>
        (si_route_health inner)))
  | Capacity pool =>
      state ← si_capacity inner !! pool;
      let generation := advance_generation (cs_generation state) in
      Some (generation, with_capacity inner (<[pool := MkCapacityState (cs_open_until state)
        generation (Some (MkActiveProbe lease_id generation))]> (si_capacity inner)))
  end.

(** One iteration of the loop of [release_probe_claims]. *)
Definition release_probe_claim (lease_id : ProbeLeaseId) (inner : ShadowHealthInner)
    (claim : ProbeGateClaim) : ShadowHealthInner :=
  match pc_gate claim with
  | RouteHealth route =>
      match si_route_health inner !! route with
      | Some state =>
          if active_probe_matches (rh_active_probe state) lease_id (pc_generation_at_claim claim)
          then with_route_health inner (<[route := MkRouteHealthState (rh_failure_times state)
                 (rh_open_until state) (rh_generation state) None]> (si_route_health inner))
          else inner
      | None => inner
      end
  | Capacity pool =>
      match si_capacity inner !! pool with
      | Some state =>
          if active_probe_matches (cs_active_probe state) lease_id (pc_generation_at_claim claim)
          then with_capacity inner (<[pool := MkCapacityState
                 (cs_open_until state) (cs_generation state) None]> (si_capacity inner))
          else inner
      | None => inner
      end
  end.

Definition release_probe_claims (inner : ShadowHealthInner) (lease_id : ProbeLeaseId)
    (claims : list ProbeGateClaim) : ShadowHealthInner :=
  fold_left (release_probe_claim lease_id) claims inner.

(** One iteration of the loop of [resolve_probe_success]. *)
Definition resolve_probe_claim (lease_id : ProbeLeaseId) (inner : ShadowHealthInner)
    (claim : ProbeGateClaim) : ShadowHealthInner :=
  match pc_gate claim with
  | RouteHealth route =>
      match si_route_health inner !! route with
      | Some state =>
          let matching_active :=
            active_probe_matches (rh_active_probe state) lease_id (pc_generation_at_claim claim) in
          if matching_active && (rh_generation state =? pc_generation_at_claim claim)
          then with_route_health inner (<[route := MkRouteHealthState [] None
                 (advance_generation (rh_generation state)) None]> (si_route_health inner))
          else if matching_active
          then with_route_health inner (<[route := MkRouteHealthState (rh_failure_times state)
                 (rh_open_until state) (rh_generation state) None]> (si_route_health inner))
          else inner
      | None => inner
      end
  | Capacity pool =>
      match si_capacity inner !! pool with
      | Some state =>
          let matching_active :=
            active_probe_matches (cs_active_probe state) lease_id (pc_generation_at_claim claim) in
          if matching_active && (cs_generation state =? pc_generation_at_claim claim)
          then with_capacity inner (<[pool := MkCapacityState None
                 (advance_generation (cs_generation state)) None]> (si_capacity inner))
          else if matching_active
          then with_capacity inner (<[pool := MkCapacityState
                 (cs_open_until state) (cs_generation state) None]> (si_capacity inner))
          else inner
      | None => inner
      end
  end.

Definition resolve_probe_success (inner : ShadowHealthInner) (lease_id : ProbeLeaseId)
    (claims : list ProbeGateClaim) : ShadowHealthInner :=
  fold_left (resolve_probe_claim lease_id) claims inner.

(** ** Leases *)

(** The result carries the lease as [&mut self] leaves it. *)
Definition take_matching_claims (lease : ProbeLease) (owner : nat) (route : RouteKey)
    : option (ProbeLeaseId * list ProbeGateClaim) * ProbeLease :=
  if negb (Nat.eqb (pl_inner lease) owner) || negb (bool_decide (pl_route lease = route))
  then (None, lease)
  else ((fun claims => (pl_lease_id lease, claims)) <$> pl_claims lease,
        MkProbeLease (pl_inner lease) (pl_route lease) (pl_lease_id lease) None).

(** [Drop for ProbeLease], acting on the state at the address [pl_inner lease]. *)
Definition drop_lease (lease : ProbeLease) (inner : ShadowHealthInner) : ShadowHealthInner :=
  match pl_claims lease with
  | Some claims => release_probe_claims inner (pl_lease_id lease) claims
  | None => inner
  end.

(** ** Failure accounting *)

Definition is_route_health_failure (kind : AttemptFailureKind) : bool :=
  match kind with
  | Connect | Transport | ResponseStartTimeout | ResponseBody | InvalidResponse
  | UpstreamResponseError | UpstreamStreamError | StreamTimeout | UnexpectedEof => true
  | ProviderUnavailable | RequestBuild | HttpStatus | CapacityRejected | ConsumerDropped => false
  end.

(** [now.checked_duration_since(failure_at).is_none_or(|age| age <= window)] *)
Definition failure_is_recent (window : Duration) (now failure_at : Instant) : bool :=
  is_none_or (fun age => age <=? window) (checked_duration_since now failure_at).

(** [while queue.len() > threshold { queue.pop_front(); }] *)
Definition truncate_front (threshold : nat) (queue : list Instant) : list Instant :=
  drop (length queue - threshold) queue.

Definition apply_route_failure (state : RouteHealthState) (policy : ShadowHealthPolicy) (now : Instant)
    : RouteHealthState :=
  let generation := advance_generation (rh_generation state) in
  if is_some (rh_open_until state) then
    MkRouteHealthState (rh_failure_times state)
      (extend_open_until (rh_open_until state) now (hp_route_open_cooldown policy))
      generation (rh_active_probe state)
  else
    let retained :=
      filter (fun t => failure_is_recent (hp_route_failure_window policy) now t = true)
        (rh_failure_times state) in
    let threshold := Z.to_nat (Z.max (hp_route_failures_to_open policy) 1) in
    let failure_times := truncate_front threshold (retained ++ [now]) in
    let open_until :=
      if (threshold <=? length failure_times)%nat
      then extend_open_until (rh_open_until state) now (hp_route_open_cooldown policy)
      else None in
    MkRouteHealthState failure_times open_until generation (rh_active_probe state).

Definition apply_route_success (state : RouteHealthState) (_now : Instant) : RouteHealthState :=
  if is_some (rh_open_until state) then state
  else
    MkRouteHealthState [] (rh_open_until state)
      (match rh_failure_times state with
       | [] => rh_generation state
       | _ => advance_generation (rh_generation state)
       end)
      (rh_active_probe state).

Definition apply_mutation (self : ShadowHealthState) (inner : ShadowHealthInner) (route : RouteKey)
    (mutation : Mutation) (now : Instant) : ShadowHealthInner :=
  match mutation with
  | MutCompleted =>
      match si_route_health inner !! route with
      | Some state =>
          with_route_health inner (<[route := apply_route_success state now]> (si_route_health inner))
      | None => inner
      end
  | MutCapacity pool retry_after =>
      match si_capacity inner !! pool with
      | Some state =>
          let cooldown :=
            Z.min (Z.max (default (hp_minimum_capacity_cooldown (sh_policy self)) retry_after)
                     (hp_minimum_capacity_cooldown (sh_policy self)))
              (hp_max_capacity_cooldown (sh_policy self)) in
          with_capacity inner (<[pool := MkCapacityState
            (extend_open_until (cs_open_until state) now cooldown)
            (advance_generation (cs_generation state)) (cs_active_probe state)]> (si_capacity inner))
      | None => inner
      end
  | MutRouteFailure =>
      match si_route_health inner !! route with
      | Some state =>
          with_route_health inner
            (<[route := apply_route_failure state (sh_policy self) now]> (si_route_health inner))
      | None => inner
      end
  | MutNone => inner
  end.

(** ** Dispositions and snapshots *)

Definition route_health_disposition (state : RouteHealthState)
    (failure_window probe_retry_after : Duration) (now : Instant) : ShadowDisposition :=
  if is_some (rh_active_probe state) then ProbeInFlight probe_retry_after
  else match rh_open_until state with
  | Some until => if now <? until then WouldOpen (duration_since until now) else WouldProbe
  | None =>
      let current_failures :=
        len (filter (fun t => failure_is_recent failure_window now t = true) (rh_failure_times state)) in
      if 0 <? current_failures then Watch (if current_failures <=? U8_MAX then current_failures else U8_MAX)
      else Healthy
  end.

Definition capacity_disposition (state : CapacityState) (probe_retry_after : Duration) (now : Instant)
    : ShadowDisposition :=
  if is_some (cs_active_probe state) then ProbeInFlight probe_retry_after
  else match cs_open_until state with
  | Some until => if now <? until then WouldOpen (duration_since until now) else WouldProbe
  | None => Healthy
  end.

Definition stronger_disposition (left right : ShadowDisposition) : ShadowDisposition :=
  match left, right with
  | ProbeInFlight l, ProbeInFlight r => ProbeInFlight (Z.max l r)
  | ProbeInFlight retry_after, WouldOpen remaining
  | WouldOpen remaining, ProbeInFlight retry_after => ProbeInFlight (Z.max retry_after remaining)
  | ProbeInFlight l, _ => ProbeInFlight l
  | _, ProbeInFlight r => ProbeInFlight r
  | WouldOpen l, WouldOpen r => WouldOpen (Z.max l r)
  | WouldOpen l, _ => WouldOpen l
  | _, WouldOpen r => WouldOpen r
  | WouldProbe, _ | _, WouldProbe => WouldProbe
  | Watch l, Watch r => Watch (Z.max l r)
  | Watch l, _ => Watch l
  | _, Watch r => Watch r
  | Healthy, Healthy => Healthy
  end.

Definition strongest_disposition (dispositions : list ShadowDisposition) : ShadowDisposition :=
  fold_left stronger_disposition dispositions Healthy.

Definition snapshot_locked (self : ShadowHealthState) (inner : ShadowHealthInner) (route : RouteKey)
    (now : Instant) : option ShadowRouteSnapshot :=
  state ← si_route_health inner !! route;
  let route_health := route_health_disposition state
    (hp_route_failure_window (sh_policy self)) (hp_minimum_capacity_cooldown (sh_policy self)) now in
  let pool := ProviderModel route in
  capacity ← si_capacity inner !! pool;
  let deployment_capacity :=
    capacity_disposition capacity (hp_minimum_capacity_cooldown (sh_policy self)) now in
  let rate_limit_capacity := deployment_capacity in
  let effective := strongest_disposition [route_health; deployment_capacity] in
  Some (MkShadowRouteSnapshot route_health deployment_capacity rate_limit_capacity effective).

Definition snapshot_routes (self : ShadowHealthState) (inner : ShadowHealthInner)
    (routes : list RouteKey) (now : Instant) : option (list ShadowRouteSnapshot) :=
  collect_option (fun route => snapshot_locked self inner route now) routes.

Definition snapshot_route_groups (self : ShadowHealthState) (inner : ShadowHealthInner)
    (groups : list (list RouteKey)) (now : Instant) : list (option (list ShadowRouteSnapshot)) :=
  (fun routes => collect_option (fun route => snapshot_locked self inner route now) routes) <$> groups.

(** ** Claiming a half-open probe *)

(** The accumulators of the loop over the two gates. *)
Record GateScan := MkGateScan {
  gs_expired : list ProbeGateKey;
  gs_open_remaining : option Duration;
  gs_probe_in_flight : bool;
}.

(** [None] is the early return for an unknown gate. *)
Definition scan_gate (inner : ShadowHealthInner) (now : Instant) (scan : GateScan) (gate : ProbeGateKey)
    : option GateScan :=
  status ← probe_gate_status inner gate now;
  Some match status with
  | GateHealthy => scan
  | GateExpiredOpen =>
      MkGateScan (gs_expired scan ++ [gate]) (gs_open_remaining scan) (gs_probe_in_flight scan)
  | GateStillOpen remaining =>
      MkGateScan (gs_expired scan)
        (Some (map_or remaining (fun current => Z.max current remaining) (gs_open_remaining scan)))
        (gs_probe_in_flight scan)
  | GateProbeInFlight => MkGateScan (gs_expired scan) (gs_open_remaining scan) true
  end.

Fixpoint scan_gates (inner : ShadowHealthInner) (now : Instant) (scan : GateScan)
    (gates : list ProbeGateKey) : option GateScan :=
  match gates with
  | [] => Some scan
  | gate :: gates => scan ← scan_gate inner now scan gate; scan_gates inner now scan gates
  end.

(** The loop that claims the expired gates; [None] is the failed [expect]. *)
Fixpoint claim_gates (inner : ShadowHealthInner) (lease_id : ProbeLeaseId) (gates : list ProbeGateKey)
    : option (list ProbeGateClaim * ShadowHealthInner) :=
  match gates with
  | [] => Some ([], inner)
  | gate :: gates =>
      '(generation_at_claim, inner) ← claim_probe_gate inner gate lease_id;
      '(claims, inner) ← claim_gates inner lease_id gates;
      Some (MkProbeGateClaim gate generation_at_claim :: claims, inner)
  end.

(** [None]: the call does not return (it panics or its identifier loop runs on). *)
Definition try_claim_probe_locked (self : ShadowHealthState) (inner : ShadowHealthInner)
    (route : RouteKey) (now : Instant) : option (ProbeClaimResult * ShadowHealthInner) :=
  let minimum := hp_minimum_capacity_cooldown (sh_policy self) in
  let gates := [RouteHealth route; Capacity (ProviderModel route)] in
  match scan_gates inner now (MkGateScan [] None false) gates with
  | None => Some (Rejected RejectUnknownRoute minimum, inner)
  | Some scan =>
      if gs_probe_in_flight scan then
        Some (Rejected RejectProbeInFlight
                (Z.max (default minimum (gs_open_remaining scan)) minimum), inner)
      else match gs_open_remaining scan with
      | Some retry_after => Some (Rejected RejectCircuitOpen retry_after, inner)
      | None =>
          match gs_expired scan with
          | [] => Some (Ready None, inner)
          | expired =>
              '(lease_id, inner) ← next_probe_lease_id inner;
              '(claims, inner) ← claim_gates inner lease_id expired;
              Some (Ready (Some (MkProbeLease (sh_inner self) route lease_id (Some claims))), inner)
          end
      end
  end.

(** ** Observing terminals *)

(** The classification of a terminal: signal, capacity pool and mutation. *)
Definition classify_terminal (route : RouteKey) (terminal : AttemptTerminal)
    : ShadowSignal * option CapacityPoolKey * Mutation :=
  match terminal with
  | Completed _ _ => (SignalCompleted, None, MutCompleted)
  | Failed _ failure =>
      let status := af_status failure in
      let neutral := (SignalNeutral (af_kind failure) status, None, MutNone) in
      let route_failure := (SignalRouteFailure (af_kind failure) status, None, MutRouteFailure) in
      if bool_decide (af_kind failure = CapacityRejected) then
        match status with
        | Some code =>
            if (code =? 429) || (code =? 503) || (code =? 529) then
              let pool := ProviderModel route in
              (SignalCapacityRejected code, Some pool, MutCapacity pool (af_retry_after failure))
            else neutral
        | None => neutral
        end
      else if bool_decide (af_kind failure = HttpStatus) then
        let refused_for_size :=
          is_some_and is_proxy_context_overflow (af_upstream_diagnostic failure) in
        if negb refused_for_size && is_some_and (fun s => (500 <=? s) && (s <=? 599)) status
        then route_failure else neutral
      else if is_route_health_failure (af_kind failure) then route_failure
      else neutral
  end.

(** The [probe] argument is [Option<&mut ProbeLease>]: the result carries the lease back. *)
Definition observe_terminal_locked (self : ShadowHealthState) (inner : ShadowHealthInner)
    (terminal : AttemptTerminal) (mode : ShadowObservationMode) (probe : option ProbeLease)
    (now : Instant) : ShadowObservationReport * ShadowHealthInner * option ProbeLease :=
  let route := route_key (ia_route (attempt terminal)) in
  match si_route_health inner !! route with
  | None =>
      (MkShadowObservationReport SHADOW_HEALTH_POLICY_VERSION mode route SignalUnknownRoute None None
         false, inner, probe)
  | Some _ =>
      let '(signal, capacity_pool, mutation) := classify_terminal route terminal in
      let mutating := match mutation with MutNone => false | _ => true end in
      let '(mutated, inner, probe) :=
        match mode with
        | TelemetryOnly => (false, inner, probe)
        | Update =>
            let '(probe_claims, probe) :=
              match probe with
              | Some lease =>
                  let '(claims, lease) := take_matching_claims lease (sh_inner self) route in
                  (claims, Some lease)
              | None => (None, None)
              end in
            match probe_claims with
            | Some (lease_id, claims) =>
                let inner :=
                  match mutation with
                  | MutCompleted =>
                      let inner := resolve_probe_success inner lease_id claims in
                      match si_route_health inner !! route with
                      | Some state =>
                          with_route_health inner
                            (<[route := apply_route_success state now]> (si_route_health inner))
                      | None => inner
                      end
                  | MutNone => release_probe_claims inner lease_id claims
                  | _ =>
                      release_probe_claims (apply_mutation self inner route mutation now) lease_id claims
                  end in
                (true, inner, probe)
            | None =>
                (mutating, if mutating then apply_mutation self inner route mutation now else inner, probe)
            end
        end in
      (MkShadowObservationReport SHADOW_HEALTH_POLICY_VERSION mode route signal capacity_pool
         (snapshot_locked self inner route now) mutated, inner, probe)
  end.

(** ** The common view of a gate

    Route-health and capacity gates share their circuit fields; every operation is described once
    by its effect on this view. *)

Record Gate := MkGate {
  g_open_until : option Instant;
  g_generation : Z;
  g_active : option ActiveProbe;
}.

Definition gate_of (inner : ShadowHealthInner) (g : ProbeGateKey) : option Gate :=
  match g with
  | RouteHealth r =>
      (fun s => MkGate (rh_open_until s) (rh_generation s) (rh_active_probe s))
        <$> si_route_health inner !! r
  | Capacity p =>
      (fun s => MkGate (cs_open_until s) (cs_generation s) (cs_active_probe s))
        <$> si_capacity inner !! p
  end.

Definition active_of (inner : ShadowHealthInner) (g : ProbeGateKey) : option ActiveProbe :=
  gate_of inner g ≫= g_active.

Definition clear_probe (x : Gate) : Gate := MkGate (g_open_until x) (g_generation x) None.
Definition heal (x : Gate) : Gate := MkGate None (advance_generation (g_generation x)) None.

(** The status [probe_gate_status] reports for a gate. *)
Definition gate_status (now : Instant) (x : Gate) : ProbeGateStatus :=
  if is_some (g_active x) then GateProbeInFlight
  else match g_open_until x with
  | Some until => if now <? until then GateStillOpen (duration_since until now) else GateExpiredOpen
  | None => GateHealthy
  end.

(** Two states with the same gates and no others. *)
Definition same_topology (i j : ShadowHealthInner) : Prop :=
  dom (si_route_health i) = dom (si_route_health j) /\ dom (si_capacity i) = dom (si_capacity j).

#[global] Instance same_topology_preorder : PreOrder same_topology.
Proof.
  split.
  - by split.
  - intros i j k [] []. split; congruence.
Qed.

Lemma dom_update {K A} `{Countable K} (m : gmap K A) k a b :
  m !! k = Some a -> dom m = dom (<[k:=b]> m).
Proof. intros Hk. apply elem_of_dom_2 in Hk. set_solver. Qed.

(** Updating the entry of one gate. *)
Ltac gate_update :=
  repeat match goal with
  | |- context [(<[?k:=?a]> ?m) !! ?j] =>
      destruct (decide (k = j)) as [->|?];
      [rewrite lookup_insert_eq|rewrite (lookup_insert_ne m k j a) by done]
  end.

Lemma probe_gate_status_of inner g now :
  probe_gate_status inner g now = gate_status now <$> gate_of inner g.
Proof.
  unfold probe_gate_status, gate_of, gate_status.
  destruct g as [r|p]; [destruct (_ !! r) as [s|]|destruct (_ !! p) as [s|]]; cbn; try done;
    destruct (is_some _); try done; destruct (_ : option Instant); try done; by destruct (_ <? _).
Qed.

Lemma claim_probe_gate_of inner g id x :
  gate_of inner g = Some x ->
  exists inner',
    claim_probe_gate inner g id = Some (advance_generation (g_generation x), inner') /\
    same_topology inner inner' /\
    (forall h, gate_of inner' h =
       if decide (h = g)
       then Some (MkGate (g_open_until x) (advance_generation (g_generation x))
                    (Some (MkActiveProbe id (advance_generation (g_generation x)))))
       else gate_of inner h).
Proof.
  unfold claim_probe_gate, gate_of. destruct g as [r|p]; cbn.
  - destruct (_ !! r) as [s|] eqn:E; cbn; [|done]. intros [= <-]. cbn.
    eexists. split; [done|]. split; [split; cbn; [by eapply dom_update|done]|].
    intros [r'|p']; cbn; [|done]. gate_update.
    + by rewrite decide_True.
    + by rewrite decide_False by congruence.
  - destruct (_ !! p) as [s|] eqn:E; cbn; [|done]. intros [= <-]. cbn.
    eexists. split; [done|]. split; [split; cbn; [done|by eapply dom_update]|].
    intros [r'|p']; cbn; [done|]. gate_update.
    + by rewrite decide_True.
    + by rewrite decide_False by congruence.
Qed.

(** The effect of releasing, or resolving, one claim on the gate it names. *)
Definition release_gate (id : ProbeLeaseId) (c : ProbeGateClaim) (x : Gate) : Gate :=
  if active_probe_matches (g_active x) id (pc_generation_at_claim c) then clear_probe x else x.

Definition resolve_gate (id : ProbeLeaseId) (c : ProbeGateClaim) (x : Gate) : Gate :=
  if active_probe_matches (g_active x) id (pc_generation_at_claim c)
  then if g_generation x =? pc_generation_at_claim c then heal x else clear_probe x
  else x.

Lemma release_probe_claim_of id inner c h :
  gate_of (release_probe_claim id inner c) h =
    if decide (h = pc_gate c) then release_gate id c <$> gate_of inner h else gate_of inner h.
Proof.
  unfold release_probe_claim, release_gate, gate_of.
  destruct (pc_gate c) as [r|p] eqn:E; destruct (_ !! _) as [s|] eqn:Es; try destruct active_probe_matches eqn:Em;
    destruct h as [r'|p']; cbn; gate_update; case_decide; simplify_eq; cbn; rewrite ?Es; cbn; rewrite ?Em; try done; congruence.
Qed.

Lemma resolve_probe_claim_of id inner c h :
  gate_of (resolve_probe_claim id inner c) h =
    if decide (h = pc_gate c) then resolve_gate id c <$> gate_of inner h else gate_of inner h.
Proof.
  unfold resolve_probe_claim, resolve_gate, gate_of.
  destruct (pc_gate c) as [r|p] eqn:E; destruct (_ !! _) as [s|] eqn:Es; try destruct active_probe_matches eqn:Em;
    try destruct (_ =? _) eqn:Eg;
    destruct h as [r'|p']; cbn; gate_update; case_decide; simplify_eq; cbn; rewrite ?Es; cbn;
    rewrite ?Em; cbn; rewrite ?Eg; try done; congruence.
Qed.

Lemma topology_route_update i r s s' :
  si_route_health i !! r = Some s ->
  same_topology i (with_route_health i (<[r:=s']> (si_route_health i))).
Proof. intros. split; cbn; [by eapply dom_update|done]. Qed.

Lemma topology_capacity_update i p s s' :
  si_capacity i !! p = Some s ->
  same_topology i (with_capacity i (<[p:=s']> (si_capacity i))).
Proof. intros. split; cbn; [done|by eapply dom_update]. Qed.

#[export] Hint Resolve topology_route_update topology_capacity_update : maple.
#[export] Hint Extern 1 (same_topology ?x ?x) => reflexivity : maple.

(** Destructs the look-ups and tests an operation on the state performs. *)
Ltac op_cases :=
  repeat match goal with
  | |- context [match ?m !! ?k with _ => _ end] => destruct (m !! k) eqn:?
  | |- context [if ?b then _ else _] => destruct b eqn:?
  end.

Lemma release_probe_claim_topology id i c : same_topology i (release_probe_claim id i c).
Proof. unfold release_probe_claim. destruct (pc_gate c); op_cases; eauto with maple. Qed.

Lemma resolve_probe_claim_topology id i c : same_topology i (resolve_probe_claim id i c).
Proof. unfold resolve_probe_claim. destruct (pc_gate c); op_cases; eauto with maple. Qed.

Lemma apply_mutation_topology self i r m now : same_topology i (apply_mutation self i r m now).
Proof. unfold apply_mutation. destruct m; op_cases; eauto with maple. Qed.

Lemma fold_topology {A} (f : ShadowHealthInner -> A -> ShadowHealthInner) (l : list A) i :
  (forall i a, same_topology i (f i a)) -> same_topology i (fold_left f l i).
Proof.
  intros Hf. revert i. induction l as [|a l IH]; intros i; cbn; [reflexivity|].
  etrans; [apply Hf|apply IH].
Qed.

Lemma release_probe_claims_topology id i cs : same_topology i (release_probe_claims i id cs).
Proof. apply fold_topology, release_probe_claim_topology. Qed.

Lemma resolve_probe_success_topology id i cs : same_topology i (resolve_probe_success i id cs).
Proof. apply fold_topology, resolve_probe_claim_topology. Qed.

#[export] Hint Resolve release_probe_claims_topology resolve_probe_success_topology
  apply_mutation_topology : maple.

(** *** Effects on a single gate, for whole operations *)

(** The claims of a list that name a gate, applied in order. *)
Definition apply_claims (f : ProbeGateClaim -> Gate -> Gate) (cs : list ProbeGateClaim)
    (h : ProbeGateKey) (x : Gate) : Gate :=
  fold_left (fun x c => f c x) (filter (fun c => pc_gate c = h) cs) x.

Lemma fold_claims_of (op : ShadowHealthInner -> ProbeGateClaim -> ShadowHealthInner)
    (f : ProbeGateClaim -> Gate -> Gate) cs i h :
  (forall i c h, gate_of (op i c) h =
     if decide (h = pc_gate c) then f c <$> gate_of i h else gate_of i h) ->
  gate_of (fold_left op cs i) h = apply_claims f cs h <$> gate_of i h.
Proof.
  intros Hop. unfold apply_claims. revert i. induction cs as [|c cs IH]; intros i; cbn [fold_left].
  - by destruct (gate_of i h).
  - rewrite IH, Hop, filter_cons. destruct (decide (h = pc_gate c)) as [->|Hne].
    + rewrite decide_True by done. cbn. by destruct (gate_of i _).
    + by rewrite decide_False by congruence.
Qed.

Lemma release_probe_claims_of id cs i h :
  gate_of (release_probe_claims i id cs) h = apply_claims (release_gate id) cs h <$> gate_of i h.
Proof. apply fold_claims_of, release_probe_claim_of. Qed.

Lemma resolve_probe_success_of id cs i h :
  gate_of (resolve_probe_success i id cs) h = apply_claims (resolve_gate id) cs h <$> gate_of i h.
Proof. apply fold_claims_of, resolve_probe_claim_of. Qed.

(** The claims of one lease name each gate at most once. *)
Lemma apply_claims_unique f cs c x :
  NoDup (pc_gate <$> cs) -> c ∈ cs -> apply_claims f cs (pc_gate c) x = f c x.
Proof.
  unfold apply_claims. intros Hnd Hc.
  assert (filter (fun d => pc_gate d = pc_gate c) cs = [c]) as ->; [|done].
  induction cs as [|d cs IH]; [by apply not_elem_of_nil in Hc|].
  apply NoDup_cons in Hnd as [Hd Hnd]. rewrite filter_cons.
  apply elem_of_cons in Hc as [<-|Hc].
  - rewrite decide_True by done. f_equal. apply filter_none, Forall_forall.
    intros e He Heq. apply Hd. rewrite <-Heq. by apply list_elem_of_fmap_2.
  - rewrite decide_False; [by apply IH|]. intros Heq. apply Hd. rewrite Heq.
    by apply list_elem_of_fmap_2.
Qed.

Lemma apply_claims_other f cs h x :
  h ∉ pc_gate <$> cs -> apply_claims f cs h x = x.
Proof.
  unfold apply_claims. intros Hh. rewrite filter_none; [done|]. apply Forall_forall.
  intros c Hc <-. apply Hh. by apply list_elem_of_fmap_2.
Qed.

(** A mutation never touches the probe of a gate, and never lowers an opened deadline. *)
Definition deadline_le (x y : Gate) : Prop :=
  match g_open_until x with
  | Some t => exists t', g_open_until y = Some t' /\ t <= t'
  | None => True
  end.

Lemma deadline_le_refl x : deadline_le x x.
Proof. unfold deadline_le. destruct (g_open_until x); eauto with lia. Qed.

Lemma extend_open_until_le t now d : exists t', extend_open_until (Some t) now d = Some t' /\ t <= t'.
Proof. unfold extend_open_until. cbn. eexists. split; [done|]. lia. Qed.

Lemma gate_of_route_update i r s h :
  gate_of (with_route_health i (<[r:=s]> (si_route_health i))) h =
    if decide (h = RouteHealth r)
    then Some (MkGate (rh_open_until s) (rh_generation s) (rh_active_probe s)) else gate_of i h.
Proof.
  unfold gate_of. destruct h as [r'|p]; cbn; [|by rewrite decide_False by congruence]. gate_update.
  - by rewrite decide_True.
  - by rewrite decide_False by congruence.
Qed.

Lemma gate_of_capacity_update i p s h :
  gate_of (with_capacity i (<[p:=s]> (si_capacity i))) h =
    if decide (h = Capacity p)
    then Some (MkGate (cs_open_until s) (cs_generation s) (cs_active_probe s)) else gate_of i h.
Proof.
  unfold gate_of. destruct h as [r|p']; cbn; [by rewrite decide_False by congruence|]. gate_update.
  - by rewrite decide_True.
  - by rewrite decide_False by congruence.
Qed.

Lemma gate_of_route i r s :
  si_route_health i !! r = Some s ->
  gate_of i (RouteHealth r) = Some (MkGate (rh_open_until s) (rh_generation s) (rh_active_probe s)).
Proof. intros E. unfold gate_of. by rewrite E. Qed.

Lemma gate_of_capacity i p s :
  si_capacity i !! p = Some s ->
  gate_of i (Capacity p) = Some (MkGate (cs_open_until s) (cs_generation s) (cs_active_probe s)).
Proof. intros E. unfold gate_of. by rewrite E. Qed.

Lemma route_success_gate s now :
  rh_active_probe (apply_route_success s now) = rh_active_probe s /\
  rh_open_until (apply_route_success s now) = rh_open_until s.
Proof. unfold apply_route_success. by destruct (rh_open_until s) eqn:E; cbn; rewrite ?E. Qed.

Lemma route_failure_active s p now :
  rh_active_probe (apply_route_failure s p now) = rh_active_probe s.
Proof. unfold apply_route_failure. by destruct (is_some _). Qed.

Lemma apply_mutation_of self i r m now h x :
  gate_of i h = Some x ->
  exists y, gate_of (apply_mutation self i r m now) h = Some y /\
    g_active y = g_active x /\ deadline_le x y.
Proof.
  intros Hx. unfold apply_mutation. destruct m as [|p retry| |]; op_cases; eauto using deadline_le_refl.
  - rewrite gate_of_route_update. case_decide as Eh; [subst|by eauto using deadline_le_refl].
    erewrite gate_of_route in Hx by done. simplify_eq. eexists. split; [done|]. unfold deadline_le. cbn.
    destruct (route_success_gate r0 now) as [-> ->]. destruct (rh_open_until r0); eauto with lia.
  - rewrite gate_of_capacity_update. case_decide as Eh; [subst|by eauto using deadline_le_refl].
    erewrite gate_of_capacity in Hx by done. simplify_eq. eexists. split; [done|]. unfold deadline_le. cbn.
    destruct (cs_open_until _); split; try done. apply extend_open_until_le.
  - rewrite gate_of_route_update. case_decide as Eh; [subst|by eauto using deadline_le_refl].
    erewrite gate_of_route in Hx by done. simplify_eq. eexists. split; [done|]. unfold deadline_le. cbn.
    rewrite route_failure_active. split; [done|]. unfold apply_route_failure.
    destruct (rh_open_until r0); [|done]. cbn. apply extend_open_until_le.
Qed.

Lemma same_topology_gate i j h : same_topology i j -> is_Some (gate_of i h) <-> is_Some (gate_of j h).
Proof.
  intros [Hr Hc]. unfold gate_of.
  destruct h; rewrite !fmap_is_Some, <-!elem_of_dom; set_solver.
Qed.

Lemma apply_mutation_active self i r m now h :
  active_of (apply_mutation self i r m now) h = active_of i h.
Proof.
  unfold active_of. destruct (gate_of i h) as [x|] eqn:E.
  - destruct (apply_mutation_of self i r m now h x E) as (y & -> & Hy & _). done.
  - apply eq_None_not_Some in E.
    rewrite (same_topology_gate _ _ h (apply_mutation_topology self i r m now)) in E.
    apply eq_None_not_Some in E. by rewrite E.
Qed.

(** *** The identifier loop *)

(** The identifiers carried by active probes. *)
Definition active_ids (i : ShadowHealthInner) : list Z :=
  omap (fun p => ap_lease_id <$> rh_active_probe p.2) (map_to_list (si_route_health i))
  ++ omap (fun p => ap_lease_id <$> cs_active_probe p.2) (map_to_list (si_capacity i)).

Lemma existsb_omap_id {A} (f : A -> option ActiveProbe) (l : list A) id :
  existsb (fun p => is_some_and (fun a => ap_lease_id a =? id) (f p)) l = true <->
  id ∈ omap (fun p => ap_lease_id <$> f p) l.
Proof.
  rewrite existsb_exists, list_elem_of_omap. split.
  - intros (p & Hp & Hf). exists p. split; [by apply list_elem_of_In|].
    destruct (f p); cbn in *; [|done]. bool_to_prop. by subst.
  - intros (p & Hp & Hf). exists p. split; [by apply list_elem_of_In|].
    destruct (f p); cbn in *; simplify_eq. by rewrite Z.eqb_refl.
Qed.

Lemma lease_id_in_use_iff i id : lease_id_in_use i id = true <-> id ∈ active_ids i.
Proof.
  unfold lease_id_in_use, active_ids. rewrite orb_true_iff, elem_of_app.
  by rewrite (existsb_omap_id (fun p => rh_active_probe p.2)),
    (existsb_omap_id (fun p => cs_active_probe p.2)).
Qed.

Lemma active_of_ids i g a : active_of i g = Some a -> ap_lease_id a ∈ active_ids i.
Proof.
  unfold active_of, gate_of, active_ids. rewrite elem_of_app, !list_elem_of_omap. intros Ha.
  destruct g as [r|p]; simplify_option_eq.
  - left. eexists (r, _). rewrite elem_of_map_to_list. split; [done|]. cbn. by rewrite Ha.
  - right. eexists (p, _). rewrite elem_of_map_to_list. split; [done|]. cbn. by rewrite Ha.
Qed.

Lemma length_omap_le {A B} (f : A -> option B) (l : list A) : (length (omap f l) <= length l)%nat.
Proof. induction l as [|x l IH]; cbn; [done|]. destruct (f x); cbn; lia. Qed.

Lemma length_active_ids i :
  (length (active_ids i) <= size (si_route_health i) + size (si_capacity i))%nat.
Proof.
  unfold active_ids. rewrite length_app, <-!length_map_to_list.
  apply Nat.add_le_mono; apply length_omap_le.
Qed.

Lemma next_loop_some fuel i id i' :
  next_probe_lease_id_loop fuel i = Some (id, i') ->
  id <> 0 /\ id ∉ active_ids i /\ si_route_health i' = si_route_health i /\
  si_capacity i' = si_capacity i /\ si_next_probe_lease_id i' = id.
Proof.
  revert i. induction fuel as [|fuel IH]; intros i; cbn [next_probe_lease_id_loop]; [done|].
  destruct (_ =? 0) eqn:E0; [intros H; apply IH in H; exact H|].
  destruct (lease_id_in_use _ _) eqn:Eu; [intros H; apply IH in H; exact H|].
  intros [= <- <-]. bool_to_prop. split; [done|]. split; [|done].
  intros Hin. apply lease_id_in_use_iff in Hin. unfold lease_id_in_use in *. cbn in *. congruence.
Qed.

(** The candidates tried by [fuel] iterations that all fail are zero or in use. *)
Lemma next_loop_none fuel i :
  next_probe_lease_id_loop fuel i = None ->
  forall k, (k < fuel)%nat ->
    wrap_u64 (si_next_probe_lease_id i + 1 + Z.of_nat k) ∈ 0 :: active_ids i.
Proof.
  revert i. induction fuel as [|fuel IH]; intros i; cbn [next_probe_lease_id_loop]; [lia|].
  set (next := wrapping_add_u64 _ 1). set (i1 := MkShadowHealthInner _ _ next).
  intros Hn k Hk.
  assert (Hrec : next_probe_lease_id_loop fuel i1 = None /\ next ∈ 0 :: active_ids i).
  { destruct (next =? 0) eqn:E0; [bool_to_prop; rewrite E0; split; [done|by left]|].
    destruct (lease_id_in_use i1 next) eqn:Eu; [|done]. split; [done|].
    right. by apply lease_id_in_use_iff in Eu. }
  destruct Hrec as [Hrec Hnext]. destruct k as [|k].
  - by rewrite Z.add_0_r.
  - specialize (IH i1 Hrec k ltac:(lia)). cbn in IH.
    replace (wrap_u64 (next + 1 + Z.of_nat k))
      with (wrap_u64 (si_next_probe_lease_id i + 1 + Z.of_nat (S k))) in IH; [done|].
    unfold next, wrapping_add_u64, wrap_u64. rewrite <-!Z.add_assoc, Zplus_mod_idemp_l. f_equal. lia.
Qed.

Lemma wrap_u64_inj_near s a b :
  wrap_u64 (s + a) = wrap_u64 (s + b) -> 0 <= a <= U64_MAX -> 0 <= b <= U64_MAX -> a = b.
Proof.
  unfold wrap_u64, U64_MAX. intros E Ha Hb.
  pose proof (Z.div_mod (s + a) 18446744073709551616 ltac:(lia)).
  pose proof (Z.div_mod (s + b) 18446744073709551616 ltac:(lia)). lia.
Qed.

(** Enough iterations to pass zero and every identifier in use always find a fresh one. *)
Lemma next_probe_lease_id_total i :
  Z.of_nat (probe_loop_bound i) <= U64_MAX -> is_Some (next_probe_lease_id i).
Proof.
  intros Hb. unfold next_probe_lease_id.
  destruct (next_probe_lease_id_loop _ i) eqn:E; [by eexists|exfalso].
  pose proof (next_loop_none _ _ E) as Hall. set (n := probe_loop_bound i) in *.
  set (cands := (fun k => wrap_u64 (si_next_probe_lease_id i + 1 + Z.of_nat k)) <$> seq 0 n).
  assert (Hnd : NoDup cands).
  { apply NoDup_fmap_2_strong; [|apply NoDup_seq]. intros x y Hx%elem_of_seq Hy%elem_of_seq Heq.
    apply Nat2Z.inj, (wrap_u64_inj_near (si_next_probe_lease_id i + 1)); [done|lia|lia]. }
  assert (Hsub : cands ⊆ 0 :: active_ids i).
  { intros z (k & -> & Hk%elem_of_seq)%list_elem_of_fmap. apply Hall. lia. }
  pose proof (submseteq_length _ _ (NoDup_submseteq _ _ Hnd Hsub)) as Hlen.
  unfold cands in Hlen. rewrite length_fmap, length_seq in Hlen. cbn in Hlen.
  pose proof (length_active_ids i). unfold n, probe_loop_bound in Hlen. lia.
Qed.

Lemma next_probe_lease_id_some i id i' :
  next_probe_lease_id i = Some (id, i') ->
  id <> 0 /\ id ∉ active_ids i /\ (forall h, gate_of i' h = gate_of i h) /\ same_topology i i'.
Proof.
  intros (Hz & Hf & Hr & Hc & _)%next_loop_some. split; [done|]. split; [done|].
  unfold gate_of, same_topology. rewrite Hr, Hc. done.
Qed.

(** *** Claiming *)

(** What claiming the expired gates of a route does to every gate. *)
Record claimed (i i' : ShadowHealthInner) (id : ProbeLeaseId) (cs : list ProbeGateClaim) : Prop := {
  claimed_gate c : c ∈ cs -> exists x, gate_of i (pc_gate c) = Some x /\
    pc_generation_at_claim c = advance_generation (g_generation x) /\
    gate_of i' (pc_gate c) = Some (MkGate (g_open_until x) (pc_generation_at_claim c)
      (Some (MkActiveProbe id (pc_generation_at_claim c))));
  claimed_other h : h ∉ pc_gate <$> cs -> gate_of i' h = gate_of i h;
  claimed_topology : same_topology i i';
}.

Lemma claim_gates_spec id gates i :
  NoDup gates -> (forall g, g ∈ gates -> is_Some (gate_of i g)) ->
  exists cs i', claim_gates i id gates = Some (cs, i') /\ pc_gate <$> cs = gates /\ claimed i i' id cs.
Proof.
  revert i. induction gates as [|g gates IH]; intros i Hnd Hex; cbn [claim_gates].
  - exists [], i. split; [done|]. split; [done|]. by split; [intros c ?%not_elem_of_nil| |].
  - apply NoDup_cons in Hnd as [Hg Hnd]. destruct (Hex g ltac:(by left)) as [x Hx].
    destruct (claim_probe_gate_of i g id x Hx) as (i1 & -> & Ht & Hi1). cbn [mbind option_bind].
    destruct (IH i1 Hnd) as (cs & i2 & -> & Hgs & Hc).
    { intros h Hh. rewrite <-(same_topology_gate _ _ _ Ht). apply Hex. by right. }
    cbn [mbind option_bind]. eexists _, i2. split; [done|]. split; [cbn; by rewrite Hgs|].
    assert (Hfst : gate_of i2 g = gate_of i1 g) by (apply (claimed_other _ _ _ _ Hc); by rewrite Hgs).
    split.
    + intros c [->|Hin]%elem_of_cons; cbn.
      * exists x. split; [done|]. split; [done|]. by rewrite Hfst, Hi1, decide_True.
      * destruct (claimed_gate _ _ _ _ Hc c Hin) as (y & Hy & E1 & E2). exists y.
        rewrite Hi1, decide_False in Hy; [done|].
        intros <-. apply Hg. rewrite <-Hgs. by apply list_elem_of_fmap_2.
    + intros h Hh. rewrite fmap_cons, not_elem_of_cons in Hh. destruct Hh as [Hne Hh].
      by rewrite (claimed_other _ _ _ _ Hc h Hh), Hi1, decide_False.
    + etrans; [done|]. apply (claimed_topology _ _ _ _ Hc).
Qed.

Definition route_gates (r : RouteKey) : list ProbeGateKey :=
  [RouteHealth r; Capacity (ProviderModel r)].

(** The two gates of a route, scanned. *)
Lemma scan_gates_route i r now :
  scan_gates i now (MkGateScan [] None false) (route_gates r) =
    x ← gate_of i (RouteHealth r); y ← gate_of i (Capacity (ProviderModel r));
    let a := gate_status now x in let b := gate_status now y in
    Some (MkGateScan
      (filter (fun g => gate_status now <$> gate_of i g = Some GateExpiredOpen) (route_gates r))
      (match a, b with
       | GateStillOpen s, GateStillOpen t => Some (Z.max s t)
       | GateStillOpen s, _ | _, GateStillOpen s => Some s
       | _, _ => None
       end)
      (match a, b with GateProbeInFlight, _ | _, GateProbeInFlight => true | _, _ => false end)).
Proof.
  unfold route_gates, scan_gates, scan_gate. rewrite !probe_gate_status_of.
  destruct (gate_of i (RouteHealth r)) as [x|] eqn:Ex; [|done].
  destruct (gate_of i (Capacity _)) as [y|] eqn:Ey; cbn [mbind option_bind fmap option_fmap option_map];
    [|by destruct (gate_status now x)].
  rewrite !filter_cons, filter_nil, Ex, Ey. cbn [fmap option_fmap option_map].
  destruct (gate_status now x), (gate_status now y); reflexivity.
Qed.

Lemma gate_status_expired now x :
  gate_status now x = GateExpiredOpen ->
  g_active x = None /\ exists t, g_open_until x = Some t /\ t <= now.
Proof.
  unfold gate_status. destruct (g_active x); [done|]. cbn. destruct (g_open_until x) as [t|]; [|done].
  destruct (now <? t) eqn:E; [done|]. intros _. bool_to_prop. eauto.
Qed.

(** A claim that hands out a lease took a fresh identifier, and its claims are the expired gates. *)
Lemma try_claim_lease self i r now lease i' :
  try_claim_probe_locked self i r now = Some (Ready (Some lease), i') ->
  exists id cs, lease = MkProbeLease (sh_inner self) r id (Some cs) /\
    id ∉ active_ids i /\ cs <> [] /\ NoDup (pc_gate <$> cs) /\
    (forall g, g ∈ pc_gate <$> cs -> g ∈ route_gates r /\ active_of i g = None) /\ claimed i i' id cs.
Proof.
  unfold try_claim_probe_locked. fold (route_gates r). rewrite scan_gates_route.
  destruct (gate_of i (RouteHealth r)) as [x|] eqn:Ex; [|done].
  destruct (gate_of i (Capacity _)) as [y|] eqn:Ey; [|done]. cbn [mbind option_bind gs_probe_in_flight].
  destruct (match gate_status now x with GateProbeInFlight => _ | _ => _ end); [done|].
  cbn [gs_open_remaining]. destruct (match gate_status now x with GateStillOpen _ => _ | _ => _ end); [done|].
  cbn [gs_expired]. set (expired := filter _ _).
  assert (Hnd : NoDup expired).
  { apply NoDup_filter. repeat constructor; set_solver. }
  assert (Hexp : forall g, g ∈ expired ->
    (g ∈ route_gates r /\ active_of i g = None) /\ is_Some (gate_of i g)).
  { intros g [Hg Hr]%list_elem_of_filter. unfold active_of.
    destruct (gate_of i g) as [z|]; [|done]. cbn in Hg. injection Hg as Hg.
    destruct (gate_status_expired _ _ Hg) as [Hz _]. split; [done|by eexists]. }
  destruct expired as [|g gates]; [done|].
  destruct (next_probe_lease_id i) as [[id i1]|] eqn:En; [|done]. cbn [mbind option_bind].
  apply next_probe_lease_id_some in En as (_ & Hfresh & Hg1 & Ht1).
  destruct (claim_gates_spec id (g :: gates) i1 Hnd) as (cs & i2 & -> & Hgs & Hc).
  { intros h Hh. rewrite Hg1. by apply Hexp. }
  cbn [mbind option_bind]. intros [= <- <-]. exists id, cs. split; [done|]. split; [done|].
  split; [by intros ->|]. rewrite Hgs. split; [done|]. split; [intros h Hh; by apply Hexp|].
  destruct Hc as [Hc1 Hc2 Hc3]. split.
  - intros c Hc. destruct (Hc1 c Hc) as (z & Hz & ?). exists z. by rewrite <-Hg1.
  - intros h Hh. rewrite <-Hg1. by apply Hc2.
  - by etrans.
Qed.

(** A call that hands out no lease leaves every gate as it was. *)
Lemma try_claim_no_lease self i r now res i' :
  try_claim_probe_locked self i r now = Some (res, i') ->
  (forall lease, res <> Ready (Some lease)) -> i' = i.
Proof.
  unfold try_claim_probe_locked. intros H Hres.
  destruct (scan_gates _ _ _ _) as [scan|]; [|by simplify_eq].
  destruct (gs_probe_in_flight scan); [by simplify_eq|].
  destruct (gs_open_remaining scan); [by simplify_eq|].
  destruct (gs_expired scan); [by simplify_eq|].
  destruct (next_probe_lease_id i) as [[]|]; [|done]. cbn [mbind option_bind] in H.
  destruct (claim_gates _ _ _) as [[]|]; [|done]. cbn [mbind option_bind] in H. simplify_eq.
  by edestruct Hres.
Qed.
