(* ===== verification/HealthProcess.v ===== *)
(** * Concurrent attempts over route health

    The probe leases that running attempts own, the steps by which they use the health state, and
    what holds in every interleaving: probe ownership, fencing, totality of the claim, circuits
    that open on the third failure and capacity cooldowns that are enforced. *)
From S2P Require Import Prelude Registry Inference Health.

(** ** The process *)

Record Process := MkProcess {
  p_inner : ShadowHealthInner;
  (** Every [ProbeLease] value that exists, in no particular order. *)
  p_leases : list ProbeLease;
}.

(** One locked operation, with the instant read under the lock.  A lease is named by its place. *)
Inductive Event :=
| Claim (route : RouteKey) (now : Instant)
| Observe (terminal : AttemptTerminal) (mode : ShadowObservationMode) (now : Instant)
| ObserveWithProbe (lease : nat) (terminal : AttemptTerminal) (mode : ShadowObservationMode)
    (now : Instant)
| DropLease (lease : nat).

(** [None] when the event names no lease, or the operation does not return. *)
Definition step (self : ShadowHealthState) (ev : Event) (p : Process) : option Process :=
  match ev with
  | Claim route now =>
      '(res, inner) ← try_claim_probe_locked self (p_inner p) route now;
      Some match res with
      | Ready (Some lease) => MkProcess inner (lease :: p_leases p)
      | _ => MkProcess inner (p_leases p)
      end
  | Observe terminal mode now =>
      let '(_, inner, _) := observe_terminal_locked self (p_inner p) terminal mode None now in
      Some (MkProcess inner (p_leases p))
  | ObserveWithProbe j terminal mode now =>
      lease ← p_leases p !! j;
      let '(_, inner, probe) :=
        observe_terminal_locked self (p_inner p) terminal mode (Some lease) now in
      (** The lease stays owned by the call until its argument is dropped, after the lock. *)
      Some (MkProcess inner (<[j := default lease probe]> (p_leases p)))
  | DropLease j =>
      lease ← p_leases p !! j;
      Some (MkProcess (drop_lease lease (p_inner p)) (delete j (p_leases p)))
  end.

Definition steps (self : ShadowHealthState) : Process -> Process -> Prop :=
  rtc (fun p q => exists ev, step self ev p = Some q).

(** The process before any request, for a registry and an address. *)
Definition initial (reg : ProviderRegistry) (address : nat) : Process :=
  MkProcess (new reg address).2 [].

Definition reachable (reg : ProviderRegistry) (address : nat) (p : Process) : Prop :=
  steps (new reg address).1 (initial reg address) p.

(** ** Releasing the claims of a lease *)

Record releases (i i' : ShadowHealthInner) (cs : list ProbeGateClaim) : Prop := {
  releases_gate h : h ∈ pc_gate <$> cs -> active_of i' h = None;
  releases_other h : h ∉ pc_gate <$> cs -> active_of i' h = active_of i h;
}.

(** Claims whose probes are the active ones of their gates. *)
Definition claims_active (i : ShadowHealthInner) (id : ProbeLeaseId) (cs : list ProbeGateClaim) : Prop :=
  NoDup (pc_gate <$> cs) /\
  (forall c, c ∈ cs -> active_of i (pc_gate c) = Some (MkActiveProbe id (pc_generation_at_claim c))).

Lemma matches_self id g : active_probe_matches (Some (MkActiveProbe id g)) id g = true.
Proof. cbn. by rewrite !Z.eqb_refl. Qed.

Lemma claims_release (f : ProbeLeaseId -> ProbeGateClaim -> Gate -> Gate) i i' id cs :
  (forall c x, active_probe_matches (g_active x) id (pc_generation_at_claim c) = true ->
     g_active (f id c x) = None) ->
  (forall h, gate_of i' h = apply_claims (f id) cs h <$> gate_of i h) ->
  claims_active i id cs -> releases i i' cs.
Proof.
  intros Hf Hi [Hnd Hact]. split; intros h Hh; unfold active_of in *; rewrite Hi.
  - apply list_elem_of_fmap in Hh as (c & -> & Hc). specialize (Hact c Hc).
    destruct (gate_of i (pc_gate c)) as [x|]; [|done]. cbn in *.
    rewrite apply_claims_unique by done. apply Hf. rewrite Hact. apply matches_self.
  - destruct (gate_of i h) as [x|]; [|done]. cbn. by rewrite apply_claims_other.
Qed.

Lemma release_releases i id cs :
  claims_active i id cs -> releases i (release_probe_claims i id cs) cs.
Proof.
  apply (claims_release release_gate); [|apply release_probe_claims_of].
  intros c x Hm. unfold release_gate. by rewrite Hm.
Qed.

Lemma resolve_releases i id cs :
  claims_active i id cs -> releases i (resolve_probe_success i id cs) cs.
Proof.
  apply (claims_release resolve_gate); [|apply resolve_probe_success_of].
  intros c x Hm. unfold resolve_gate. rewrite Hm. by destruct (_ =? _).
Qed.

Lemma releases_active_l i0 i i' cs :
  (forall h, active_of i0 h = active_of i h) -> releases i i' cs -> releases i0 i' cs.
Proof. intros E [H1 H2]. split; intros h Hh; [by apply H1|]. by rewrite E, H2. Qed.

Lemma releases_active_r i i' i'' cs :
  (forall h, active_of i'' h = active_of i' h) -> releases i i' cs -> releases i i'' cs.
Proof. intros E [H1 H2]. split; intros h Hh; rewrite E; auto. Qed.

Lemma claims_active_mono i j id cs :
  (forall h, active_of j h = active_of i h) -> claims_active i id cs -> claims_active j id cs.
Proof. intros E [H1 H2]. split; [done|]. intros c Hc. by rewrite E, H2. Qed.

(** ** What an observation does *)

Definition spent (l : ProbeLease) : ProbeLease :=
  MkProbeLease (pl_inner l) (pl_route l) (pl_lease_id l) None.

(** The state a resolved lease leaves, for each mutation. *)
Definition resolved_state (self : ShadowHealthState) (i : ShadowHealthInner) (route : RouteKey)
    (m : Mutation) (now : Instant) (id : ProbeLeaseId) (cs : list ProbeGateClaim) : ShadowHealthInner :=
  match m with
  | MutCompleted => apply_mutation self (resolve_probe_success i id cs) route MutCompleted now
  | MutNone => release_probe_claims i id cs
  | _ => release_probe_claims (apply_mutation self i route m now) id cs
  end.

Definition terminal_route (t : AttemptTerminal) : RouteKey := route_key (ia_route (attempt t)).

(** The four outcomes of an observation. *)
Inductive observed (self : ShadowHealthState) (i : ShadowHealthInner) (t : AttemptTerminal)
    (now : Instant) (probe : option ProbeLease) : ShadowHealthInner -> option ProbeLease -> Prop :=
| observed_inert : observed self i t now probe i probe
| observed_plain m :
    m = (classify_terminal (terminal_route t) t).2 ->
    observed self i t now probe (apply_mutation self i (terminal_route t) m now) probe
| observed_resolved l cs m :
    probe = Some l -> pl_claims l = Some cs -> pl_inner l = sh_inner self ->
    pl_route l = terminal_route t -> m = (classify_terminal (terminal_route t) t).2 ->
    observed self i t now probe
      (resolved_state self i (terminal_route t) m now (pl_lease_id l) cs) (Some (spent l)).

Lemma observe_observed self i t mode probe now rep i' probe' :
  observe_terminal_locked self i t mode probe now = (rep, i', probe') ->
  observed self i t now probe i' probe'.
Proof.
  unfold observe_terminal_locked. fold (terminal_route t).
  destruct (si_route_health i !! terminal_route t) as [s|]; [|intros; simplify_eq; constructor].
  destruct (classify_terminal (terminal_route t) t) as [[sig pool] m] eqn:Ec.
  destruct mode; [|intros; simplify_eq; constructor].
  assert (Hplain : forall pr, observed self i t now pr
    (if match m with MutNone => false | _ => true end
     then apply_mutation self i (terminal_route t) m now else i) pr).
  { intros pr. destruct m; try constructor; by rewrite Ec. }
  destruct probe as [l|]; [|intros; simplify_eq; apply Hplain].
  unfold take_matching_claims.
  destruct (negb (Nat.eqb (pl_inner l) _) || _) eqn:Em; [intros; simplify_eq; apply Hplain|].
  bool_to_prop. destruct (Nat.eqb_spec (pl_inner l) (sh_inner self)) as [Hi|]; [|done].
  destruct (pl_claims l) as [cs|] eqn:El; cbn [fmap option_fmap option_map].
  - intros Hres. apply (f_equal (fun x => (x.1.2, x.2))) in Hres. cbn [fst snd] in Hres.
    assert (E : (resolved_state self i (terminal_route t) m now (pl_lease_id l) cs, Some (spent l))
                = (i', probe')) by (rewrite <-Hres; by destruct m).
    injection E as <- <-. eapply observed_resolved; eauto. by rewrite Ec.
  - intros; simplify_eq.
    replace (MkProbeLease (pl_inner l) (pl_route l) (pl_lease_id l) None) with l;
      [apply Hplain|]. destruct l; cbn in *. by subst.
Qed.

Lemma resolved_topology self i r m now id cs : same_topology i (resolved_state self i r m now id cs).
Proof.
  unfold resolved_state. destruct m as [|p retry| |].
  - etrans; [|apply apply_mutation_topology]. apply resolve_probe_success_topology.
  - etrans; [|apply release_probe_claims_topology]. apply apply_mutation_topology.
  - etrans; [|apply release_probe_claims_topology]. apply apply_mutation_topology.
  - apply release_probe_claims_topology.
Qed.

Lemma observed_topology self i t now probe i' probe' :
  observed self i t now probe i' probe' -> same_topology i i'.
Proof. destruct 1; [reflexivity|apply apply_mutation_topology|apply resolved_topology]. Qed.

Lemma resolved_releases self i r m now id cs :
  claims_active i id cs -> releases i (resolved_state self i r m now id cs) cs.
Proof.
  intros Hc. assert (Hm : forall m h, active_of (apply_mutation self i r m now) h = active_of i h)
    by (intros; apply apply_mutation_active).
  unfold resolved_state. destruct m as [|p retry| |].
  - eapply releases_active_r; [apply apply_mutation_active|]. by apply resolve_releases.
  - eapply (releases_active_l _ _ _ _ (fun h => eq_sym (Hm _ h))), release_releases.
    eapply claims_active_mono; [|exact Hc]. apply apply_mutation_active.
  - eapply (releases_active_l _ _ _ _ (fun h => eq_sym (Hm _ h))), release_releases.
    eapply claims_active_mono; [|exact Hc]. apply apply_mutation_active.
  - by apply release_releases.
Qed.

Lemma drop_lease_topology l i : same_topology i (drop_lease l i).
Proof. unfold drop_lease. destruct (pl_claims l); eauto with maple. Qed.

Lemma step_topology self ev p q : step self ev p = Some q -> same_topology (p_inner p) (p_inner q).
Proof.
  destruct ev as [r now|t m now|j t m now|j]; cbn [step].
  - destruct (try_claim_probe_locked self (p_inner p) r now) as [[res i']|] eqn:E; [|done].
    cbn [mbind option_bind]. intros [= <-]. destruct res as [[l|]|].
    + apply try_claim_lease in E as (id & cs & -> & _ & _ & _ & _ & Hc).
      apply (claimed_topology _ _ _ _ Hc).
    + by rewrite (try_claim_no_lease _ _ _ _ _ _ E).
    + by rewrite (try_claim_no_lease _ _ _ _ _ _ E).
  - destruct (observe_terminal_locked _ _ _ _ _ _) as [[rep i'] pr] eqn:E. intros [= <-].
    by eapply observed_topology, observe_observed.
  - destruct (p_leases p !! j) as [l|]; [|done]. cbn [mbind option_bind].
    destruct (observe_terminal_locked _ _ _ _ _ _) as [[rep i'] pr] eqn:E. intros [= <-].
    by eapply observed_topology, observe_observed.
  - destruct (p_leases p !! j) as [l|]; [|done]. cbn [mbind option_bind]. intros [= <-].
    apply drop_lease_topology.
Qed.

(** ** Ownership of probes *)

(** The lease carries the claim recorded in an active probe of the gate. *)
Definition owns_gate (l : ProbeLease) (g : ProbeGateKey) (a : ActiveProbe) : Prop :=
  exists cs, pl_claims l = Some cs /\ MkProbeGateClaim g (ap_generation_at_claim a) ∈ cs /\
    pl_lease_id l = ap_lease_id a.

Definition live_ids (ls : list ProbeLease) : list ProbeLeaseId :=
  omap (fun l => if is_some (pl_claims l) then Some (pl_lease_id l) else None) ls.

Definition lease_wf (self : ShadowHealthState) (l : ProbeLease) : Prop :=
  pl_inner l = sh_inner self /\
  match pl_claims l with Some cs => cs <> [] /\ NoDup (pc_gate <$> cs) | None => True end.

Lemma claim_gate_elem g n (cs : list ProbeGateClaim) : MkProbeGateClaim g n ∈ cs -> g ∈ pc_gate <$> cs.
Proof. intros Hin. apply list_elem_of_fmap. by exists (MkProbeGateClaim g n). Qed.

(** Active probes are exactly the claims of live leases, and live leases have distinct identifiers. *)
Record owned (self : ShadowHealthState) (i : ShadowHealthInner) (ls : list ProbeLease) : Prop := {
  owned_active g a : active_of i g = Some a <-> exists l, l ∈ ls /\ owns_gate l g a;
  owned_ids : NoDup (live_ids ls);
  owned_wf l : l ∈ ls -> lease_wf self l;
}.

Lemma delete_insert_id {A} (ls : list A) j x : delete j (<[j:=x]> ls) = delete j ls.
Proof. revert j. induction ls as [|y ls IH]; intros [|j]; cbn; try done. by f_equal. Qed.

Lemma owned_perm self i ls ks : ls ≡ₚ ks -> owned self i ls -> owned self i ks.
Proof.
  intros E [H1 H2 H3]. split.
  - intros g a. rewrite H1. by setoid_rewrite E.
  - unfold live_ids in *. by rewrite <-E.
  - intros l. rewrite <-E. apply H3.
Qed.

Lemma owned_same self i j ls :
  (forall g, active_of j g = active_of i g) -> owned self i ls -> owned self j ls.
Proof. intros E [H1 H2 H3]. split; [|done|done]. intros g a. by rewrite E. Qed.

Lemma live_ids_elem ls l cs : l ∈ ls -> pl_claims l = Some cs -> pl_lease_id l ∈ live_ids ls.
Proof. intros Hl Hcs. apply list_elem_of_omap. exists l. by rewrite Hcs. Qed.

(** A live lease owns every gate it claims. *)
Lemma owned_claims_active self i ls l cs :
  owned self i ls -> l ∈ ls -> pl_claims l = Some cs -> claims_active i (pl_lease_id l) cs.
Proof.
  intros H Hl Hcs. split.
  - pose proof (owned_wf _ _ _ H l Hl) as [_ Hw]. rewrite Hcs in Hw. apply Hw.
  - intros c Hc. apply (owned_active _ _ _ H). exists l. split; [done|]. exists cs. by destruct c.
Qed.

Lemma owned_fresh self i ls id : owned self i ls -> id ∉ active_ids i -> id ∉ live_ids ls.
Proof.
  intros H Hid (l & Hl & Hsome)%list_elem_of_omap. apply Hid.
  destruct (pl_claims l) as [cs|] eqn:Hcs; [|done]. cbn in Hsome. injection Hsome as <-.
  pose proof (owned_wf _ _ _ H l Hl) as [_ Hw]. rewrite Hcs in Hw. destruct Hw as [Hne _].
  destruct cs as [|c cs]; [done|].
  eapply (active_of_ids i (pc_gate c) (MkActiveProbe (pl_lease_id l) (pc_generation_at_claim c))).
  apply (owned_claims_active self i ls l (c :: cs)); [done|done|done|by left].
Qed.

(** Two leases with the same identifier, one of them live, are not both in the process. *)
Lemma live_ids_cons l cs ls : pl_claims l = Some cs -> live_ids (l :: ls) = pl_lease_id l :: live_ids ls.
Proof. intros Hcs. unfold live_ids. cbn. by rewrite Hcs. Qed.

Lemma owned_release self i i' l cs ls :
  owned self i (l :: ls) -> pl_claims l = Some cs -> releases i i' cs -> owned self i' ls.
Proof.
  intros H Hcs [Hr1 Hr2].
  pose proof (owned_claims_active _ _ _ l cs H ltac:(by left) Hcs) as [_ Hact].
  pose proof (owned_ids _ _ _ H) as Hnd. rewrite (live_ids_cons l cs) in Hnd by done.
  apply NoDup_cons in Hnd as [Hl Hnd]. split.
  - intros g a. destruct (decide (g ∈ pc_gate <$> cs)) as [Hg|Hg].
    + rewrite Hr1 by done. split; [done|]. intros (k & Hk & ks & Hks & Hin & Hid).
      assert (active_of i g = Some a) as Ha.
      { apply (owned_active _ _ _ H). exists k. split; [by right|]. by exists ks. }
      apply list_elem_of_fmap in Hg as (c & -> & Hc). rewrite (Hact c Hc) in Ha. injection Ha as <-.
      cbn in Hid. exfalso. apply Hl. rewrite <-Hid. by eapply live_ids_elem.
    + rewrite Hr2, (owned_active _ _ _ H) by done. split.
      * intros (k & [->|Hk]%elem_of_cons & Ho); [|by eauto].
        destruct Ho as (ks & Hks & Hin & _). rewrite Hcs in Hks. injection Hks as <-.
        exfalso. by eapply Hg, claim_gate_elem.
      * intros (k & Hk & Ho). exists k. split; [by right|done].
  - done.
  - intros k Hk. apply (owned_wf _ _ _ H). by right.
Qed.

Lemma owned_inert self i l ls :
  pl_claims l = None -> pl_inner l = sh_inner self -> owned self i (l :: ls) <-> owned self i ls.
Proof.
  intros Hcs Hi. assert (Eids : live_ids (l :: ls) = live_ids ls) by (unfold live_ids; cbn; by rewrite Hcs).
  split; intros [H1 H2 H3]; split; rewrite ?Eids in *; try done.
  - intros g a. rewrite H1. split; [|intros (k & ? & ?); exists k; by split; [right|]].
    intros (k & [->|Hk]%elem_of_cons & Ho); [|by eauto]. by destruct Ho as (? & ? & _); simplify_eq.
  - intros k Hk. apply H3. by right.
  - intros g a. rewrite H1. split; [intros (k & ? & ?); exists k; by split; [right|]|].
    intros (k & [->|Hk]%elem_of_cons & Ho); [|by eauto]. by destruct Ho as (? & ? & _); simplify_eq.
  - intros k [->|Hk]%elem_of_cons; [|by apply H3]. split; [done|]. by rewrite Hcs.
Qed.

Lemma owned_claim self i i' id cs r ls :
  owned self i ls -> id ∉ active_ids i -> cs <> [] -> NoDup (pc_gate <$> cs) ->
  (forall g, g ∈ pc_gate <$> cs -> g ∈ route_gates r /\ active_of i g = None) ->
  claimed i i' id cs ->
  owned self i' (MkProbeLease (sh_inner self) r id (Some cs) :: ls).
Proof.
  intros H Hid Hne Hnd Hfree Hc. pose proof (owned_fresh _ _ _ _ H Hid) as Hfresh. split.
  - intros g a. destruct (decide (g ∈ pc_gate <$> cs)) as [Hg|Hg].
    + split.
      * apply list_elem_of_fmap in Hg as (c & -> & Hin).
        destruct (claimed_gate _ _ _ _ Hc c Hin) as (x & _ & _ & Hx). unfold active_of. rewrite Hx.
        cbn. intros [= <-]. eexists. split; [by left|]. exists cs. cbn. by destruct c.
      * intros (k & [->|Hk]%elem_of_cons & ks & Hks & Hin & Hk').
        -- cbn in Hks, Hk'. simplify_eq. unfold active_of.
           destruct (claimed_gate _ _ _ _ Hc _ Hin) as (x & _ & _ & Hx). cbn in Hx. rewrite Hx.
           by destruct a.
        -- exfalso. destruct (Hfree g Hg) as [_ Hna].
           assert (active_of i g = Some a); [|congruence].
           apply (owned_active _ _ _ H). exists k. split; [done|]. by exists ks.
    + unfold active_of. rewrite (claimed_other _ _ _ _ Hc g Hg). fold (active_of i g).
      rewrite (owned_active _ _ _ H). split; [intros (k & ? & ?); exists k; by split; [right|]|].
      intros (k & [->|Hk]%elem_of_cons & Ho); [|by eauto]. destruct Ho as (ks & Hks & Hin & _).
      cbn in Hks. injection Hks as <-. exfalso. by eapply Hg, claim_gate_elem.
  - rewrite (live_ids_cons _ cs) by done. apply NoDup_cons. split; [done|]. apply (owned_ids _ _ _ H).
  - intros k [->|Hk]%elem_of_cons; [by split|]. by apply (owned_wf _ _ _ H).
Qed.

(** An observation, for the lease at the head of the list. *)
Lemma owned_observed self i t now l ls i' l' :
  owned self i (l :: ls) -> observed self i t now (Some l) i' (Some l') -> owned self i' (l' :: ls).
Proof.
  intros H Ho. inversion Ho as [| |k cs m Hk Hcs Hin Hr Hm]; subst; [done| |].
  - eapply owned_same; [|done]. intros. apply apply_mutation_active.
  - simplify_eq. apply owned_inert; [done|done|]. eapply owned_release; [done|done|].
    apply resolved_releases. eapply owned_claims_active; [done|by left|done].
Qed.

Lemma observed_probe_some self i t now l i' pr :
  observed self i t now (Some l) i' pr -> exists l', pr = Some l'.
Proof. inversion 1; eauto. Qed.

Lemma owned_drop self i l ls : owned self i (l :: ls) -> owned self (drop_lease l i) ls.
Proof.
  intros H. unfold drop_lease. destruct (pl_claims l) as [cs|] eqn:Hcs.
  - eapply owned_release; [done|done|]. apply release_releases.
    eapply owned_claims_active; [done|by left|done].
  - apply (owned_inert self i l ls); [done| |done]. apply (owned_wf _ _ _ H). by left.
Qed.

Lemma step_owned self ev p q :
  step self ev p = Some q -> owned self (p_inner p) (p_leases p) -> owned self (p_inner q) (p_leases q).
Proof.
  destruct ev as [r now|t m now|j t m now|j]; cbn [step]; intros Hs H.
  - destruct (try_claim_probe_locked self (p_inner p) r now) as [[res i']|] eqn:E; [|done].
    cbn [mbind option_bind] in Hs. injection Hs as <-. destruct res as [[l|]|].
    + apply try_claim_lease in E as (id & cs & -> & ? & ? & ? & ? & ?). by eapply owned_claim.
    + by rewrite (try_claim_no_lease _ _ _ _ _ _ E).
    + by rewrite (try_claim_no_lease _ _ _ _ _ _ E).
  - destruct (observe_terminal_locked _ _ _ _ _ _) as [[rep i'] pr] eqn:E. injection Hs as <-.
    apply observe_observed in E. inversion E; subst; [done| |done].
    eapply owned_same; [|done]. intros. apply apply_mutation_active.
  - destruct (p_leases p !! j) as [l|] eqn:Ej; [|done]. cbn [mbind option_bind] in Hs.
    destruct (observe_terminal_locked _ _ _ _ _ _) as [[rep i'] pr] eqn:E. injection Hs as <-.
    apply observe_observed in E. destruct (observed_probe_some _ _ _ _ _ _ _ E) as [l' ->]. cbn.
    eapply owned_perm; [symmetry; apply (delete_Permutation _ j l')|].
    { apply list_lookup_insert_eq. by eapply lookup_lt_Some. }
    rewrite delete_insert_id. eapply owned_observed; [|done].
    eapply owned_perm; [by apply delete_Permutation|done].
  - destruct (p_leases p !! j) as [l|] eqn:Ej; [|done]. cbn [mbind option_bind] in Hs.
    injection Hs as <-. cbn. apply owned_drop. eapply owned_perm; [by apply delete_Permutation|done].
Qed.

(** ** The initial state *)

Definition route_keys (reg : ProviderRegistry) : list RouteKey := spec_route_key <$> registry_routes reg.

Lemma or_default_dom {K A} `{Countable K} (d : A) k (m : gmap K A) :
  dom (or_default d k m) = {[k]} ∪ dom m.
Proof.
  unfold or_default. destruct (m !! k) eqn:E; [|apply dom_insert_L].
  apply elem_of_dom_2 in E. set_solver.
Qed.

Lemma or_default_all {K A} `{Countable K} (d : A) k (m : gmap K A) :
  map_Forall (fun _ a => a = d) m -> map_Forall (fun _ a => a = d) (or_default d k m).
Proof. intros Hm. unfold or_default. destruct (m !! k); [done|]. by apply map_Forall_insert_2. Qed.

Lemma new_spec reg address :
  let i := (new reg address).2 in
  dom (si_route_health i) = list_to_set (route_keys reg) /\
  dom (si_capacity i) = list_to_set (ProviderModel <$> route_keys reg) /\
  map_Forall (fun _ s => s = route_health_default) (si_route_health i) /\
  map_Forall (fun _ s => s = capacity_default) (si_capacity i).
Proof.
  unfold new, new_with_policy, route_keys. set (f := fun '(rh, cap) route => _).
  assert (Hf : forall l rh cap,
    map_Forall (fun _ s => s = route_health_default) rh ->
    map_Forall (fun _ s => s = capacity_default) cap ->
    let r := fold_left f l (rh, cap) in
    dom r.1 = list_to_set (spec_route_key <$> l) ∪ dom rh /\
    dom r.2 = list_to_set (ProviderModel <$> (spec_route_key <$> l)) ∪ dom cap /\
    map_Forall (fun _ s => s = route_health_default) r.1 /\
    map_Forall (fun _ s => s = capacity_default) r.2).
  { clear reg address. induction l as [|s l IH]; intros rh cap Hrh Hcap; cbn [fold_left].
    - cbn. split; [set_solver|]. split; [set_solver|done].
    - destruct (IH _ _ (or_default_all route_health_default (spec_route_key s) rh Hrh)
        (or_default_all capacity_default (ProviderModel (spec_route_key s)) cap Hcap))
        as (E1 & E2 & E3 & E4).
      change (f (rh, cap) s) with
        (or_default route_health_default (spec_route_key s) rh,
         or_default capacity_default (ProviderModel (spec_route_key s)) cap).
      split; [|split; [|done]].
      + rewrite E1, or_default_dom, fmap_cons, list_to_set_cons. clear. set_solver.
      + rewrite E2, or_default_dom, !fmap_cons, list_to_set_cons. clear. set_solver. }
  destruct (Hf (registry_routes reg) ∅ ∅ (map_Forall_empty _) (map_Forall_empty _)) as (E1 & E2 & E3 & E4).
  destruct (fold_left f _ _) as [rh cap]. cbn in *. rewrite E1, E2. split; [set_solver|].
  split; [set_solver|done].
Qed.

Lemma new_gates reg address g x :
  gate_of (new reg address).2 g = Some x -> x = MkGate None 0 None.
Proof.
  destruct (new_spec reg address) as (_ & _ & Hr & Hc). unfold gate_of.
  destruct g as [r|p]; intros (s & Hs & ->)%fmap_Some.
  - by rewrite (Hr r s Hs).
  - by rewrite (Hc p s Hs).
Qed.

Lemma initial_owned reg address : owned (new reg address).1 (initial reg address).(p_inner) [].
Proof.
  split; [|constructor|by intros l ?%not_elem_of_nil]. intros g a. split.
  - unfold active_of, initial. cbn. destruct (gate_of _ g) as [x|] eqn:E; [|done].
    apply new_gates in E as ->. done.
  - by intros (l & ?%not_elem_of_nil & _).
Qed.

Lemma reachable_owned reg address p :
  reachable reg address p -> owned (new reg address).1 (p_inner p) (p_leases p).
Proof.
  intros H. eapply (rtc_invariant _ (fun p => owned (new reg address).1 (p_inner p) (p_leases p)));
    [|exact H|apply initial_owned].
  intros x y (ev & Hs) Hx. by eapply step_owned.
Qed.

Lemma reachable_topology reg address p :
  reachable reg address p -> same_topology (new reg address).2 (p_inner p).
Proof.
  intros H.
  eapply (rtc_invariant _ (fun p => same_topology (new reg address).2 (p_inner p)));
    [|exact H|reflexivity].
  intros x y (ev & Hs) Hx. etrans; [done|]. by eapply step_topology.
Qed.

Lemma live_ids_lookup ls j k l m :
  NoDup (live_ids ls) -> ls !! j = Some l -> ls !! k = Some m ->
  is_Some (pl_claims l) -> is_Some (pl_claims m) -> pl_lease_id l = pl_lease_id m -> j = k.
Proof.
  intros Hnd Hj Hk [cs Hl] [ds Hm] E. destruct (decide (j = k)) as [|Hne]; [done|exfalso].
  pose proof (delete_Permutation _ _ _ Hj) as Ej. unfold live_ids in Hnd. rewrite Ej in Hnd.
  fold (live_ids (l :: delete j ls)) in Hnd. rewrite (live_ids_cons _ cs) in Hnd by done.
  apply NoDup_cons in Hnd as [Hn _]. apply Hn. rewrite E. eapply live_ids_elem; [|done].
  assert (Hin : m ∈ l :: delete j ls) by (rewrite <-Ej; by eapply list_elem_of_lookup_2).
  apply elem_of_cons in Hin as [->|]; [|done].
  destruct (decide (k < j)%nat) as [Hlt|Hge].
  - eapply list_elem_of_lookup_2. by rewrite list_lookup_delete_lt.
  - eapply (list_elem_of_lookup_2 _ (k - 1)). rewrite list_lookup_delete_ge by lia.
    by replace (S (k - 1)) with k by lia.
Qed.

(** ** The claim agrees with the snapshot *)

Lemma snapshot_gates self i r now :
  is_Some (snapshot_locked self i r now) <->
  is_Some (gate_of i (RouteHealth r)) /\ is_Some (gate_of i (Capacity (ProviderModel r))).
Proof.
  unfold snapshot_locked, gate_of.
  destruct (si_route_health i !! r), (si_capacity i !! ProviderModel r); cbn;
    split; intros; repeat match goal with
    | H : is_Some None |- _ => by destruct H
    | H : _ /\ _ |- _ => destruct H
    end; repeat split; by eexists.
Qed.

(** The disposition class of a gate, as far as admission is concerned. *)
Definition admission (minimum : Duration) (st : ProbeGateStatus) : ShadowDisposition :=
  match st with
  | GateHealthy => Healthy
  | GateStillOpen d => WouldOpen d
  | GateExpiredOpen => WouldProbe
  | GateProbeInFlight => ProbeInFlight minimum
  end.

(** [Watch] admits requests just as [Healthy] does. *)
Definition forget_watch (d : ShadowDisposition) : ShadowDisposition :=
  match d with Watch _ => Healthy | d => d end.

Lemma forget_watch_stronger a b :
  forget_watch (stronger_disposition a b) = stronger_disposition (forget_watch a) (forget_watch b).
Proof. by destruct a, b. Qed.

Lemma route_disposition_admission s window minimum now :
  forget_watch (route_health_disposition s window minimum now) =
    admission minimum (gate_status now (MkGate (rh_open_until s) (rh_generation s) (rh_active_probe s))).
Proof.
  unfold route_health_disposition, gate_status. cbn. destruct (is_some _); [done|].
  destruct (rh_open_until s) as [u|]; [by destruct (now <? u)|]. by destruct (0 <? _).
Qed.

Lemma capacity_disposition_admission s minimum now :
  forget_watch (capacity_disposition s minimum now) =
    admission minimum (gate_status now (MkGate (cs_open_until s) (cs_generation s) (cs_active_probe s))).
Proof.
  unfold capacity_disposition, gate_status. cbn. destruct (is_some _); [done|].
  destruct (cs_open_until s) as [u|]; [by destruct (now <? u)|done].
Qed.

(** The effective disposition of a route, from its two gates. *)
Lemma snapshot_effective self i r now snap :
  snapshot_locked self i r now = Some snap ->
  exists x y, gate_of i (RouteHealth r) = Some x /\ gate_of i (Capacity (ProviderModel r)) = Some y /\
    forget_watch (srs_effective snap) =
      stronger_disposition
        (admission (hp_minimum_capacity_cooldown (sh_policy self)) (gate_status now x))
        (admission (hp_minimum_capacity_cooldown (sh_policy self)) (gate_status now y)).
Proof.
  unfold snapshot_locked, gate_of. destruct (si_route_health i !! r) as [s|]; [|done].
  destruct (si_capacity i !! ProviderModel r) as [c|]; [|done]. cbn [mbind option_bind].
  intros [= <-]. eexists _, _. split; [done|]. split; [done|]. cbn [srs_effective].
  unfold strongest_disposition. cbn [fold_left].
  rewrite !forget_watch_stronger, route_disposition_admission, capacity_disposition_admission.
  by destruct (gate_status now (MkGate (rh_open_until s) _ _)).
Qed.

Lemma try_claim_hang self i r now :
  Z.of_nat (probe_loop_bound i) <= U64_MAX -> is_Some (try_claim_probe_locked self i r now).
Proof.
  intros Hb. unfold try_claim_probe_locked. fold (route_gates r).
  destruct (scan_gates _ _ _ _) as [scan|] eqn:Es; [|by eexists].
  destruct (gs_probe_in_flight scan); [by eexists|].
  destruct (gs_open_remaining scan); [by eexists|].
  destruct (gs_expired scan) as [|g gs] eqn:Ee; [by eexists|].
  destruct (next_probe_lease_id_total i Hb) as [[id i1] En]. rewrite En. cbn [mbind option_bind].
  apply next_probe_lease_id_some in En as (_ & _ & Hg & _).
  rewrite scan_gates_route in Es. destruct (gate_of i (RouteHealth r)) as [x|] eqn:Ex; [|done].
  destruct (gate_of i (Capacity _)) as [y|] eqn:Ey; [|done]. cbn [mbind option_bind] in Es.
  injection Es as <-. cbn [gs_expired] in Ee.
  destruct (claim_gates_spec id (g :: gs) i1) as (cs & i2 & -> & _).
  - rewrite <-Ee. apply NoDup_filter. repeat constructor; set_solver.
  - intros h Hh. rewrite Hg. rewrite <-Ee in Hh. apply list_elem_of_filter in Hh as [Hh _].
    destruct (gate_of i h); [by eexists|done].
  - cbn [mbind option_bind]. by eexists.
Qed.

(** While a gate of the route is probed, every other claim is rejected. *)
Lemma in_flight_rejects self i r now g :
  is_Some (gate_of i (RouteHealth r)) -> is_Some (gate_of i (Capacity (ProviderModel r))) ->
  g ∈ route_gates r -> is_Some (active_of i g) ->
  exists d, try_claim_probe_locked self i r now = Some (Rejected RejectProbeInFlight d, i).
Proof.
  intros [x Hx] [y Hy] Hg [a Ha]. unfold try_claim_probe_locked. fold (route_gates r).
  rewrite scan_gates_route, Hx, Hy. cbn [mbind option_bind gs_probe_in_flight].
  assert (Hst : forall z, g_active z = Some a -> gate_status now z = GateProbeInFlight).
  { intros z Hz. unfold gate_status. by rewrite Hz. }
  assert (gate_status now x = GateProbeInFlight \/ gate_status now y = GateProbeInFlight) as Hor.
  { unfold active_of in Ha. apply elem_of_cons in Hg as [->|Hg%list_elem_of_singleton]; subst.
    - left. apply Hst. by rewrite Hx in Ha.
    - right. apply Hst. by rewrite Hy in Ha. }
  destruct Hor as [-> | ->]; [by eexists|]. destruct (gate_status now x); by eexists.
Qed.

(** A lease that was just granted keeps every other claim on its route out. *)
Lemma granted_rejects self i r now lease i' t :
  try_claim_probe_locked self i r now = Some (Ready (Some lease), i') ->
  exists d, try_claim_probe_locked self i' r t = Some (Rejected RejectProbeInFlight d, i').
Proof.
  intros H. pose proof H as (id & cs & -> & _ & Hne & _ & Hcs & Hc)%try_claim_lease.
  assert (Hex : is_Some (gate_of i (RouteHealth r)) /\ is_Some (gate_of i (Capacity (ProviderModel r)))).
  { unfold try_claim_probe_locked in H. fold (route_gates r) in H. rewrite scan_gates_route in H.
    destruct (gate_of i (RouteHealth r)); [|done]. destruct (gate_of i (Capacity _)); [|done].
    split; by eexists. }
  destruct Hex as [H1 H2]. pose proof (claimed_topology _ _ _ _ Hc) as Ht.
  rewrite (same_topology_gate _ _ _ Ht) in H1.
  rewrite (same_topology_gate _ _ _ Ht) in H2. destruct cs as [|c cs]; [done|].
  destruct (Hcs (pc_gate c) ltac:(by left)) as [Hg _].
  apply (in_flight_rejects self i' r t (pc_gate c)); [done|done|done|].
  destruct (claimed_gate _ _ _ _ Hc c ltac:(by left)) as (x & _ & _ & Hx).
  unfold active_of. rewrite Hx. by eexists.
Qed.

(** The verdict a claim must give for the effective disposition of its route's snapshot. *)
Definition claim_follows (self : ShadowHealthState) (i : ShadowHealthInner) (r : RouteKey)
    (disposition : option ShadowDisposition) (res : ProbeClaimResult) (i' : ShadowHealthInner) : Prop :=
  match disposition with
  | None =>
      res = Rejected RejectUnknownRoute (hp_minimum_capacity_cooldown (sh_policy self)) /\ i' = i
  | Some (Healthy | Watch _) => res = Ready None /\ i' = i
  | Some (WouldOpen d) => res = Rejected RejectCircuitOpen d /\ i' = i
  | Some (ProbeInFlight d) => res = Rejected RejectProbeInFlight d /\ i' = i
  | Some WouldProbe =>
      exists lease, res = Ready (Some lease) /\
        forall t, exists d, try_claim_probe_locked self i' r t = Some (Rejected RejectProbeInFlight d, i')
  end.

(** C33: Claiming the probe of a route always returns, and decides exactly as the snapshot taken at
    the same instant does: an unknown route is rejected; a healthy or watched route is admitted
    without a probe; an open circuit or a running probe is rejected with the reason and the very
    retry hint of the snapshot; an expired circuit hands out a lease, after which every other claim
    on the route is rejected for as long as nothing else happens. *)
Theorem claim_agrees_with_snapshot self i r now :
  Z.of_nat (probe_loop_bound i) <= U64_MAX ->
  exists res i', try_claim_probe_locked self i r now = Some (res, i') /\
    claim_follows self i r (srs_effective <$> snapshot_locked self i r now) res i'.
Proof.
  intros Hb. destruct (try_claim_hang self i r now Hb) as [[res i'] H]. exists res, i'.
  split; [done|]. unfold claim_follows. destruct (snapshot_locked self i r now) as [snap|] eqn:Es; cbn [fmap option_fmap option_map].
  - destruct (snapshot_effective _ _ _ _ _ Es) as (x & y & Hx & Hy & Heff).
    pose proof H as Hgrant. unfold try_claim_probe_locked in H. fold (route_gates r) in H.
    rewrite scan_gates_route, Hx, Hy in H. cbn [mbind option_bind] in H.
    unfold route_gates in H. rewrite !filter_cons, filter_nil, Hx, Hy in H.
    cbn [fmap option_fmap option_map] in H.
    destruct (gate_status now x), (gate_status now y), (srs_effective snap); cbn in Heff; simplify_eq;
      repeat (case_decide; [try done|try done]);
      cbn [gs_probe_in_flight gs_open_remaining gs_expired default] in H; simplify_eq; try done;
      try (split; [cbn; f_equal; lia|done]).
    all: destruct (next_probe_lease_id i) as [[id i1]|]; [|done]; cbn [mbind option_bind] in H;
      destruct (claim_gates _ _ _) as [[cs i2]|]; [|done];
      cbn [mbind option_bind] in H; simplify_eq; eexists; (split; [done|]); intros t; by eapply granted_rejects.
  - unfold try_claim_probe_locked in H. fold (route_gates r) in H. rewrite scan_gates_route in H.
    destruct (gate_of i (RouteHealth r)) as [x|] eqn:Ex; [|by cbn in H; simplify_eq].
    destruct (gate_of i (Capacity _)) as [y|] eqn:Ey; [|by cbn in H; simplify_eq].
    exfalso. apply (is_Some_None (A:=ShadowRouteSnapshot)). rewrite <-Es. apply snapshot_gates.
    rewrite Ex, Ey. split; by eexists.
Qed.

(** C4: In every interleaving of claims, observations and lease drops, a gate has an active probe
    exactly when a live lease claims it under that lease identifier and generation, and no two
    leases do: half-open probes are mutually exclusive, and no gate is left waiting for a probe
    that nobody can resolve any more. *)
Theorem probe_ownership reg address p :
  reachable reg address p ->
  (forall g a, active_of (p_inner p) g = Some a <-> exists l, l ∈ p_leases p /\ owns_gate l g a) /\
  (forall g a j k l m, p_leases p !! j = Some l -> p_leases p !! k = Some m ->
     owns_gate l g a -> owns_gate m g a -> j = k).
Proof.
  intros [H1 H2 _]%reachable_owned. split; [done|].
  intros g a j k l m Hj Hk (cs & Hl & _ & El) (ds & Hm & _ & Em).
  eapply (live_ids_lookup (p_leases p)); eauto. congruence.
Qed.

(** ** Only a probe heals *)

Lemma release_claims_deadline id cs h x : g_open_until (apply_claims (release_gate id) cs h x) = g_open_until x.
Proof.
  unfold apply_claims. generalize (filter (fun c => pc_gate c = h) cs). intros l. revert x.
  induction l as [|c l IH]; intros x; cbn [fold_left]; [done|]. rewrite IH.
  unfold release_gate. by destruct (active_probe_matches _ _ _).
Qed.

Lemma release_gate_idle id c x : g_active x = None -> release_gate id c x = x.
Proof. intros H. unfold release_gate. by rewrite H. Qed.

Lemma resolve_gate_idle id c x : g_active x = None -> resolve_gate id c x = x.
Proof. intros H. unfold resolve_gate. by rewrite H. Qed.

(** The claim and the active probe a successful probe must present to heal a gate. *)
Definition heals (id : ProbeLeaseId) (cs : list ProbeGateClaim) (h : ProbeGateKey) (x : Gate) : Prop :=
  MkProbeGateClaim h (g_generation x) ∈ cs /\ g_active x = Some (MkActiveProbe id (g_generation x)).

Lemma resolve_claims_deadline id cs h x :
  g_open_until (apply_claims (resolve_gate id) cs h x) = g_open_until x \/
  (heals id cs h x /\ g_open_until (apply_claims (resolve_gate id) cs h x) = None).
Proof.
  unfold apply_claims, heals.
  assert (Hin : forall c, c ∈ filter (fun c => pc_gate c = h) cs -> pc_gate c = h /\ c ∈ cs)
    by (intros c; by rewrite list_elem_of_filter).
  revert Hin. generalize (filter (fun c => pc_gate c = h) cs). intros l Hin.
  assert (Hidle : forall l y, g_active y = None -> fold_left (fun y c => resolve_gate id c y) l y = y).
  { clear. intros l. induction l as [|c l IH]; intros y Hy; cbn [fold_left]; [done|].
    rewrite resolve_gate_idle by done. by apply IH. }
  revert Hin. induction l as [|c l IH]; intros Hin; cbn [fold_left]; [by left|].
  unfold resolve_gate at 2 4. destruct (active_probe_matches (g_active x) id _) eqn:Em.
  - destruct (g_generation x =? pc_generation_at_claim c) eqn:Eg; rewrite Hidle by done; [right|by left].
    bool_to_prop. destruct (Hin c ltac:(by left)) as [Hg Hc]. split; [|done].
    destruct (g_active x) as [[aid ag]|]; [|done]. cbn in Em. bool_to_prop. subst.
    rewrite Eg. by destruct c.
  - apply IH. intros d Hd. apply Hin. by right.
Qed.

Lemma deadline_eq_le x y : g_open_until y = g_open_until x -> deadline_le x y.
Proof. unfold deadline_le. intros ->. destruct (g_open_until x); eauto with lia. Qed.

Lemma resolved_deadline self i r m now id cs h x :
  gate_of i h = Some x ->
  exists y, gate_of (resolved_state self i r m now id cs) h = Some y /\
    (deadline_le x y \/ (m = MutCompleted /\ heals id cs h x)).
Proof.
  intros Hx. unfold resolved_state. destruct m as [|p retry| |].
  - destruct (apply_mutation_of self (resolve_probe_success i id cs) r MutCompleted now h
      (apply_claims (resolve_gate id) cs h x)) as (y & Hy & _ & Hle).
    { by rewrite resolve_probe_success_of, Hx. }
    exists y. split; [done|].
    destruct (resolve_claims_deadline id cs h x) as [E|[? _]]; [left|by right].
    unfold deadline_le in *. by rewrite E in Hle.
  - destruct (apply_mutation_of self i r (MutCapacity p retry) now h x Hx) as (y & Hy & _ & Hle).
    rewrite release_probe_claims_of, Hy. eexists. split; [done|]. left.
    unfold deadline_le in *. by rewrite release_claims_deadline.
  - destruct (apply_mutation_of self i r MutRouteFailure now h x Hx) as (y & Hy & _ & Hle).
    rewrite release_probe_claims_of, Hy. eexists. split; [done|]. left.
    unfold deadline_le in *. by rewrite release_claims_deadline.
  - rewrite release_probe_claims_of, Hx. eexists. split; [done|]. left.
    apply deadline_eq_le, release_claims_deadline.
Qed.

Lemma classify_completed r t : (classify_terminal r t).2 = MutCompleted -> exists a e, t = Completed a e.
Proof.
  destruct t as [a e|a f]; [by eauto|]. unfold classify_terminal. cbn.
  repeat case_bool_decide; try destruct (af_status f); repeat match goal with
  | |- context [if ?b then _ else _] => destruct b
  end; done.
Qed.

Lemma drop_deadline l i h x :
  gate_of i h = Some x -> exists y, gate_of (drop_lease l i) h = Some y /\ deadline_le x y.
Proof.
  intros Hx. unfold drop_lease. destruct (pl_claims l) as [cs|]; [|eauto using deadline_le_refl].
  rewrite release_probe_claims_of, Hx. eexists. split; [done|].
  apply deadline_eq_le, release_claims_deadline.
Qed.

Lemma claim_deadline self i r now res i' h x :
  try_claim_probe_locked self i r now = Some (res, i') -> gate_of i h = Some x ->
  exists y, gate_of i' h = Some y /\ deadline_le x y.
Proof.
  intros H Hx. destruct res as [[l|]|].
  - apply try_claim_lease in H as (id & cs & _ & _ & _ & _ & _ & Hc).
    destruct (decide (h ∈ pc_gate <$> cs)) as [Hh|Hh].
    + apply list_elem_of_fmap in Hh as (c & -> & Hin).
      destruct (claimed_gate _ _ _ _ Hc c Hin) as (z & Hz & _ & ->). simplify_eq.
      eexists. split; [done|]. by apply deadline_eq_le.
    + rewrite (claimed_other _ _ _ _ Hc h Hh). eauto using deadline_le_refl.
  - rewrite (try_claim_no_lease _ _ _ _ _ _ H) by done. eauto using deadline_le_refl.
  - rewrite (try_claim_no_lease _ _ _ _ _ _ H) by done. eauto using deadline_le_refl.
Qed.

(** C7: No operation closes an open gate or brings its deadline forward, with one exception: the
    completion of an attempt on the gate's own route that presents a live lease of this health
    state claiming the gate at its current generation, while that lease's probe is the active one. *)
Theorem only_matching_probe_heals self ev p q g x :
  step self ev p = Some q -> gate_of (p_inner p) g = Some x ->
  exists y, gate_of (p_inner q) g = Some y /\
    (deadline_le x y \/
     exists j l cs a e mode now, ev = ObserveWithProbe j (Completed a e) mode now /\
       p_leases p !! j = Some l /\ pl_claims l = Some cs /\ pl_inner l = sh_inner self /\
       pl_route l = route_key (ia_route a) /\ heals (pl_lease_id l) cs g x).
Proof.
  intros Hs Hx. destruct ev as [r now|t m now|j t m now|j]; cbn [step] in Hs.
  - destruct (try_claim_probe_locked self (p_inner p) r now) as [[res i']|] eqn:E; [|done].
    cbn [mbind option_bind] in Hs. destruct (claim_deadline _ _ _ _ _ _ _ _ E Hx) as (y & Hy & ?).
    exists y. injection Hs as <-. split; [|by left]. by destruct res as [[l|]|].
  - destruct (observe_terminal_locked _ _ _ _ _ _) as [[rep i'] pr] eqn:E. injection Hs as <-.
    apply observe_observed in E. inversion E; subst; [by eauto using deadline_le_refl| |done].
    edestruct apply_mutation_of as (y & ? & _ & ?); [exact Hx|]. eauto.
  - destruct (p_leases p !! j) as [l|] eqn:Ej; [|done]. cbn [mbind option_bind] in Hs.
    destruct (observe_terminal_locked _ _ _ _ _ _) as [[rep i'] pr] eqn:E. injection Hs as <-.
    apply observe_observed in E. inversion E as [| |k cs mu Hk Hcs Hin Hr Hm]; subst.
    + eauto using deadline_le_refl.
    + edestruct apply_mutation_of as (y & ? & _ & ?); [exact Hx|]. eauto.
    + injection Hk as <-. edestruct resolved_deadline as (y & Hy & Hd); [exact Hx|].
      exists y. split; [exact Hy|]. destruct Hd as [Hd|[Hm Hh]]; [by left|right].
      apply classify_completed in Hm as (a & e & ->). exists j, l, cs, a, e, m, now. done.
  - destruct (p_leases p !! j) as [l|] eqn:Ej; [|done]. cbn [mbind option_bind] in Hs.
    injection Hs as <-. destruct (drop_deadline l _ _ _ Hx) as (y & ? & ?). eauto.
Qed.

(** ** Totality and the fixed topology *)

Definition lease_index (ev : Event) : option nat :=
  match ev with ObserveWithProbe j _ _ _ | DropLease j => Some j | _ => None end.

Lemma size_dom_le {K A} `{Countable K} (m : gmap K A) (l : list K) :
  dom m = list_to_set l -> (size m <= length l)%nat.
Proof.
  intros E. rewrite <-size_dom, E. clear E m. induction l as [|k l IH].
  - by rewrite list_to_set_nil, size_empty.
  - rewrite list_to_set_cons. cbn [length]. pose proof (size_union_alt {[k]} (list_to_set l : gset K)).
    rewrite size_singleton in *.
    pose proof (subseteq_size (list_to_set l ∖ {[k]} : gset K) (list_to_set l) ltac:(clear; set_solver)). lia.
Qed.

(** The health state keeps exactly the gates of the registry's routes for ever, whatever routes
    are observed or claimed, so its memory is fixed; and every operation of every reachable process
    returns: the search for a lease identifier ends and the claim's [expect] never fails. *)
Theorem fixed_topology_and_total reg address p :
  reachable reg address p ->
  Z.of_nat (length (registry_routes reg)) <= 1000000 ->
  dom (si_route_health (p_inner p)) = list_to_set (route_keys reg) /\
  dom (si_capacity (p_inner p)) = list_to_set (ProviderModel <$> route_keys reg) /\
  forall ev, (forall j, lease_index ev = Some j -> (j < length (p_leases p))%nat) ->
    is_Some (step (new reg address).1 ev p).
Proof.
  intros Hp Hlen. destruct (reachable_topology _ _ _ Hp) as [Hr Hc].
  destruct (new_spec reg address) as (E1 & E2 & _). rewrite E1 in Hr. rewrite E2 in Hc.
  split; [done|]. split; [done|]. intros ev Hev.
  assert (Hj : forall j, lease_index ev = Some j -> is_Some (p_leases p !! j)).
  { intros j Hj. by apply lookup_lt_is_Some_2, Hev. }
  destruct ev as [r now|t m now|j t m now|j]; cbn [step].
  - destruct (try_claim_hang (new reg address).1 (p_inner p) r now) as [[res i'] ->];
      [|cbn [mbind option_bind]; by eexists].
    pose proof (size_dom_le _ _ (eq_sym Hr)) as S1. pose proof (size_dom_le _ _ (eq_sym Hc)) as S2.
    unfold route_keys in S1, S2. rewrite !length_fmap in S2. rewrite length_fmap in S1.
    unfold probe_loop_bound, U64_MAX. lia.
  - destruct (observe_terminal_locked _ _ _ _ _ _) as [[rep i'] pr]. by eexists.
  - destruct (Hj j eq_refl) as [l ->]. cbn [mbind option_bind].
    destruct (observe_terminal_locked _ _ _ _ _ _) as [[rep i'] pr]. by eexists.
  - destruct (Hj j eq_refl) as [l ->]. by eexists.
Qed.

(** ** Opening on the third failure *)

(** Some failure of the run was the third within the window, itself included. *)
Definition third_in_window (ts : list Instant) : Prop :=
  exists pre t post, ts = pre ++ t :: post /\
    3 <= len (filter (fun u => failure_is_recent ROUTE_FAILURE_WINDOW t u = true) (pre ++ [t])).

(** The health of a route after a run of failures, from a fresh state. *)
Definition failure_run (ts : list Instant) : RouteHealthState :=
  fold_left (fun s t => apply_route_failure s policy_default t) ts route_health_default.

Lemma failure_run_snoc ts t :
  failure_run (ts ++ [t]) = apply_route_failure (failure_run ts) policy_default t.
Proof. unfold failure_run. by rewrite fold_left_app. Qed.

Lemma third_in_window_snoc ts t :
  third_in_window (ts ++ [t]) <-> third_in_window ts \/
    3 <= len (filter (fun u => failure_is_recent ROUTE_FAILURE_WINDOW t u = true) (ts ++ [t])).
Proof.
  split.
  - intros (pre & u & post & E & H). destruct post as [|v post' _] using rev_ind.
    + apply app_inj_tail in E as [-> ->]. by right.
    + left. exists pre, u, post'. split; [|done].
      rewrite app_comm_cons, app_assoc in E. by apply app_inj_tail in E as [-> _].
  - intros [(pre & u & post & -> & H)|H].
    + exists pre, u, (post ++ [t]). by rewrite <-app_assoc.
    + by exists ts, t, [].
Qed.

Lemma recent_mono window t u v :
  t <= u -> failure_is_recent window u v = true -> failure_is_recent window t v = true.
Proof.
  unfold failure_is_recent, checked_duration_since. intros Htu.
  destruct (v <=? u) eqn:E1, (v <=? t) eqn:E2; cbn; intros; bool_to_prop; try done.
  - apply Z.leb_le. lia.
  - lia.
Qed.

Lemma recent_self t : failure_is_recent ROUTE_FAILURE_WINDOW t t = true.
Proof.
  unfold failure_is_recent, checked_duration_since. rewrite Z.leb_refl, Z.sub_diag. reflexivity.
Qed.

(** A stricter filter after a laxer one. *)
Lemma filter_filter_implied {A} (P Q : A -> Prop) `{!forall x, Decision (P x), !forall x, Decision (Q x)} (l : list A) :
  (forall x, P x -> Q x) -> filter P (filter Q l) = filter P l.
Proof.
  intros HPQ. induction l as [|x l IH]; [done|]. rewrite !filter_cons.
  destruct (decide (Q x)) as [HQ|HQ]; [rewrite filter_cons|rewrite (decide_False (P := P x)) by auto];
    by rewrite IH.
Qed.

(** While a circuit is closed, it remembers the failures recent at the last one, at most two. *)
Definition run_inv (ts : list Instant) (last : Instant) (s : RouteHealthState) : Prop :=
  (third_in_window ts /\ rh_open_until s = Some (last + ROUTE_OPEN_COOLDOWN)) \/
  (~ third_in_window ts /\ rh_open_until s = None /\
   rh_failure_times s = filter (fun u => failure_is_recent ROUTE_FAILURE_WINDOW last u = true) ts /\
   len (rh_failure_times s) < 3).

Lemma extend_from_none now d : now + d <= INSTANT_MAX -> extend_open_until None now d = Some (now + d).
Proof. intros H. unfold extend_open_until, instant_checked_add. rewrite (proj2 (Z.leb_le _ _) H). done. Qed.

Lemma extend_later last now d :
  last <= now -> now + d <= INSTANT_MAX -> extend_open_until (Some (last + d)) now d = Some (now + d).
Proof.
  intros Hl H. unfold extend_open_until, instant_checked_add. rewrite (proj2 (Z.leb_le _ _) H). cbn.
  f_equal. lia.
Qed.

Lemma run_inv_step ts last s t :
  last <= t -> t + ROUTE_OPEN_COOLDOWN <= INSTANT_MAX -> (length (rh_failure_times s) <= 3)%nat ->
  run_inv ts last s ->
  run_inv (ts ++ [t]) t (apply_route_failure s policy_default t) /\
  (length (rh_failure_times (apply_route_failure s policy_default t)) <= 3)%nat.
Proof.
  intros Hlt Hmax Hlen [[H3 Ho]|(H3 & Ho & Hf & Hl)]; unfold apply_route_failure; rewrite Ho; cbn [is_some].
  - split; [|done]. left. rewrite third_in_window_snoc. split; [by left|]. cbn. by apply extend_later.
  - change (Z.to_nat (Z.max _ 1)) with 3%nat. cbn [hp_route_failure_window policy_default rh_open_until rh_failure_times].
    set (R := fun u => failure_is_recent ROUTE_FAILURE_WINDOW t u = true).
    assert (Hq : filter R (rh_failure_times s) ++ [t] = filter R (ts ++ [t])).
    { rewrite Hf, filter_filter_implied by (intros x; by apply recent_mono).
      rewrite filter_app. f_equal. by rewrite filter_cons_True by apply recent_self. }
    assert (Hle : (length (filter R (rh_failure_times s) ++ [t]) <= 3)%nat).
    { rewrite length_app. cbn. pose proof (length_filter R (rh_failure_times s)). unfold len in Hl. lia. }
    unfold truncate_front. replace (length _ - 3)%nat with 0%nat by lia. rewrite drop_0.
    split; [|done]. unfold run_inv. rewrite third_in_window_snoc. fold R. cbn [rh_open_until rh_failure_times].
    destruct (Nat.leb_spec 3 (length (filter R (rh_failure_times s) ++ [t]))) as [Hge|Hlt3].
    + left. rewrite <-Hq. split; [right; unfold len; lia|]. by apply extend_from_none.
    + right. rewrite <-Hq. split; [intros [?|Hc]; [done|unfold len in Hc; lia]|]. split; [done|].
      split; [done|]. unfold len. lia.
Qed.

Lemma failure_run_inv ts last :
  StronglySorted Z.le (ts ++ [last]) -> last + ROUTE_OPEN_COOLDOWN <= INSTANT_MAX ->
  run_inv (ts ++ [last]) last (failure_run (ts ++ [last])) /\
  (length (rh_failure_times (failure_run (ts ++ [last]))) <= 3)%nat.
Proof.
  revert last. induction ts as [|u ts IH] using rev_ind; intros t Hs Hmax.
  - apply (run_inv_step [] t route_health_default t); [lia|done|cbn; lia|].
    right. split; [by intros ([] & ? & ? & ? & _)|]. done.
  - assert (Hut : u <= t).
    { rewrite <-app_assoc in Hs. clear -Hs. induction ts as [|x ts IH]; cbn in Hs.
      - inversion Hs as [|? ? _ Hf]; subst. by inversion Hf.
      - inversion Hs; auto. }
    rewrite (failure_run_snoc (ts ++ [u]) t).
    destruct (IH u) as [Hi Hlen]; [by eapply StronglySorted_app_l|lia|]. by eapply run_inv_step.
Qed.

(** C37: A route that only fails opens its circuit exactly when some failure is the third within
    sixty seconds of itself, and from then on stays open until thirty seconds after the latest
    failure; before that it stays closed.  It never remembers more than three instants. *)
Theorem circuit_opens_on_third_failure ts last :
  StronglySorted Z.le (ts ++ [last]) -> last + ROUTE_OPEN_COOLDOWN <= INSTANT_MAX ->
  let s := failure_run (ts ++ [last]) in
  (third_in_window (ts ++ [last]) <-> rh_open_until s = Some (last + ROUTE_OPEN_COOLDOWN)) /\
  (~ third_in_window (ts ++ [last]) <-> rh_open_until s = None) /\
  (length (rh_failure_times s) <= 3)%nat.
Proof.
  intros Hs Hmax. cbn zeta. destruct (failure_run_inv ts last Hs Hmax) as [[[H3 Ho]|(H3 & Ho & _)] Hlen];
    rewrite Ho; (split; [|split; [|done]]); by split.
Qed.

(** ** Capacity rejections *)

Definition capacity_cooldown (retry_after : option Duration) : Duration :=
  Z.min (Z.max (default MIN_CAPACITY_COOLDOWN retry_after) MIN_CAPACITY_COOLDOWN) MAX_CAPACITY_COOLDOWN.

Lemma new_self reg address : (new reg address).1 = MkShadowHealthState policy_default address.
Proof. unfold new, new_with_policy. by destruct (fold_left _ _ _). Qed.

(** A gate that is open past an instant is not admitted at it. *)
Lemma open_gate_rejected self i r t x y u :
  gate_of i (RouteHealth r) = Some x -> gate_of i (Capacity (ProviderModel r)) = Some y ->
  g_open_until y = Some u -> t < u ->
  exists reason d, try_claim_probe_locked self i r t = Some (Rejected reason d, i) /\
    ((reason = RejectCircuitOpen /\ u - t <= d) \/ reason = RejectProbeInFlight).
Proof.
  intros Hx Hy Hu Ht. unfold try_claim_probe_locked. fold (route_gates r).
  rewrite scan_gates_route, Hx, Hy. cbn [mbind option_bind gs_probe_in_flight].
  assert (gate_status t y = GateProbeInFlight \/ gate_status t y = GateStillOpen (u - t)) as [-> | ->].
  { unfold gate_status. destruct (is_some (g_active y)); [by left|right]. rewrite Hu.
    rewrite (proj2 (Z.ltb_lt _ _) Ht). unfold duration_since. f_equal. lia. }
  - destruct (gate_status t x); eexists _, _; (split; [done|]); by right.
  - destruct (gate_status t x); eexists _, _; (split; [done|]); (try by right);
      left; (split; [done|lia]).
Qed.

(** After a 429, 503 or 529 capacity rejection is recorded for a route, no claim on that route
    is admitted until the upstream's retry hint, raised to thirty seconds and lowered to one hour,
    has passed: with or without a probe, whatever state the route was in.  A claim refused because
    the circuit is open is told to wait at least the remaining time. *)
Theorem capacity_rejection_enforced reg address i att failure probe now rep i' probe' status t :
  let self := (new reg address).1 in
  let r := route_key (ia_route att) in
  observe_terminal_locked self i (Failed att failure) Update probe now = (rep, i', probe') ->
  af_kind failure = CapacityRejected -> af_status failure = Some status ->
  status = 429 \/ status = 503 \/ status = 529 ->
  is_Some (gate_of i (RouteHealth r)) -> is_Some (gate_of i (Capacity (ProviderModel r))) ->
  now + capacity_cooldown (af_retry_after failure) <= INSTANT_MAX ->
  t < now + capacity_cooldown (af_retry_after failure) ->
  exists reason d, try_claim_probe_locked self i' r t = Some (Rejected reason d, i') /\
    ((reason = RejectCircuitOpen /\ now + capacity_cooldown (af_retry_after failure) - t <= d) \/
     reason = RejectProbeInFlight).
Proof.
  intros self r Hobs Hk Hst Hcode Hr Hc Hmax Ht.
  set (cd := capacity_cooldown (af_retry_after failure)) in *.
  assert (Hm : classify_terminal r (Failed att failure) =
    (SignalCapacityRejected status, Some (ProviderModel r),
     MutCapacity (ProviderModel r) (af_retry_after failure))).
  { unfold classify_terminal. rewrite Hk, Hst. cbn [bool_decide]. rewrite bool_decide_true by done.
    by destruct Hcode as [->|[->| ->]]. }
  assert (Hmut : exists y u,
    gate_of (apply_mutation self i r (MutCapacity (ProviderModel r) (af_retry_after failure)) now)
      (Capacity (ProviderModel r)) = Some y /\ g_open_until y = Some u /\ now + cd <= u).
  { destruct Hc as [z Hz]. unfold gate_of in Hz. apply fmap_Some in Hz as (s & Hs & _).
    unfold apply_mutation, self. rewrite Hs, new_self, gate_of_capacity_update, decide_True by done.
    eexists _, _. split; [done|]. split; [done|].
    change (Z.min (Z.max (default _ _) _) _) with cd.
    unfold instant_checked_add. rewrite (proj2 (Z.leb_le _ _) Hmax). cbn.
    destruct (cs_open_until s); cbn; lia. }
  assert (Hend : exists y u, gate_of i' (Capacity (ProviderModel r)) = Some y /\
    g_open_until y = Some u /\ now + cd <= u).
  { unfold observe_terminal_locked in Hobs. cbn [attempt] in Hobs. fold r in Hobs.
    destruct (si_route_health i !! r) eqn:Er; [|unfold gate_of in Hr; rewrite Er in Hr; by destruct Hr].
    rewrite Hm in Hobs.
    destruct Hmut as (y & u & Hy & Hu & Hle).
    destruct probe as [l|]; [destruct (take_matching_claims l _ _) as [[[id cs]|] l']|];
      simplify_eq; eauto.
    rewrite release_probe_claims_of, Hy. eexists _, u. split; [done|].
    by rewrite release_claims_deadline. }
  destruct Hend as (y & u & Hy & Hu & Hle).
  assert (Ht' : same_topology i i') by (eapply observed_topology, observe_observed, Hobs).
  rewrite (same_topology_gate _ _ _ Ht') in Hr. destruct Hr as [x Hx].
  destruct (open_gate_rejected self i' r t x y u Hx Hy Hu ltac:(lia)) as (reason & d & E & Hd).
  exists reason, d. split; [done|]. destruct Hd as [[-> Hd]| ->]; [left; split; [done|lia]|by right].
Qed.

(** ** Observations without authority *)

Definition mutation_of (t : AttemptTerminal) : Mutation := (classify_terminal (terminal_route t) t).2.

(** An observation reported as not mutating leaves the state and the presented lease exactly as
    they were; telemetry-only observations, observations of unknown routes, and neutral failures
    without a probe are all reported so, while a neutral failure that presents a matching lease
    releases it without moving any deadline. *)
Theorem unmutated_observation_inert self i t mode probe now rep i' probe' :
  observe_terminal_locked self i t mode probe now = (rep, i', probe') ->
  (sor_mutated rep = false -> i' = i /\ probe' = probe) /\
  (mode = TelemetryOnly \/ si_route_health i !! terminal_route t = None \/
   (mutation_of t = MutNone /\ probe = None) -> sor_mutated rep = false) /\
  (mutation_of t = MutNone ->
     forall g, g_open_until <$> gate_of i' g = g_open_until <$> gate_of i g).
Proof.
  unfold observe_terminal_locked, mutation_of. fold (terminal_route t).
  destruct (si_route_health i !! terminal_route t) as [s|]; [|by intros; simplify_eq].
  destruct (classify_terminal (terminal_route t) t) as [[sig pool] m]. cbn [snd].
  destruct mode; [|by intros; simplify_eq].
  assert (Hno : forall A (P : A -> Prop), (@Update = TelemetryOnly \/ Some s = None \/ m = MutNone /\ probe = None) ->
    m = MutNone /\ probe = None) by naive_solver.
  destruct probe as [l|].
  - unfold take_matching_claims. destruct (negb (Nat.eqb _ _) || _).
    + intros; simplify_eq. cbn. split; [|split]; destruct m; naive_solver.
    + destruct (pl_claims l) as [cs|] eqn:Ecs; cbn [fmap option_fmap option_map].
      * intros; simplify_eq. cbn. split; [done|]. split; [naive_solver|]. intros -> g.
        rewrite release_probe_claims_of. destruct (gate_of i g); cbn; [|done].
        by rewrite release_claims_deadline.
      * intros; simplify_eq. cbn. assert (MkProbeLease (pl_inner l) (pl_route l) (pl_lease_id l) None = l)
          as -> by (destruct l; cbn in *; by subst).
        split; [|split]; destruct m; naive_solver.
  - intros; simplify_eq. cbn. split; [|split]; destruct m; naive_solver.
Qed.

(** ** Witnesses, on the production registry *)

Definition sample_self : ShadowHealthState := (new PROVIDER_REGISTRY 1).1.
Definition sample_key : RouteKey := MkRouteKey Tinfoil KIMI_K3_MODEL_ID.
Definition sample_attempt : InferenceAttempt :=
  MkInferenceAttempt (MkInferenceRequestId (MkUuid [])) (MkInferenceExecutionId (MkUuid []))
    (MkInferenceAttemptId (MkUuid []))
    (MkRouteIdentity Tinfoil KIMI_K3_MODEL_ID KIMI_K3_MODEL_ID KIMI_K3_MODEL_ID StaticSplit None).
Definition sample_failure : AttemptTerminal :=
  Failed sample_attempt (failure_new Connect BeforeSend ProvenPreAcceptance).
Definition sample_rejection : AttemptFailure :=
  with_upstream_response (failure_new CapacityRejected AwaitingResponse ProvenPreAcceptance) 429 None None.

(** Runs a list of events. *)
Fixpoint run (self : ShadowHealthState) (evs : list Event) (p : Process) : option Process :=
  match evs with
  | [] => Some p
  | ev :: evs => p ← step self ev p; run self evs p
  end.

Lemma run_steps self evs p q : run self evs p = Some q -> steps self p q.
Proof.
  revert p. induction evs as [|ev evs IH]; intros p; cbn [run].
  - intros [= ->]. constructor.
  - destruct (step self ev p) as [p'|] eqn:E; [|done]. cbn [mbind option_bind]. intros H.
    eapply rtc_l; [by exists ev|]. by apply IH.
Qed.

(** Three connection failures open the circuit; half a minute later an attempt probes it. *)
Definition sample_events : list Event :=
  [Observe sample_failure Update (from_secs 100); Observe sample_failure Update (from_secs 101);
   Observe sample_failure Update (from_secs 102); Claim sample_key (from_secs 140)].

Definition sample_process : Process :=
  default (initial PROVIDER_REGISTRY 1) (run sample_self sample_events (initial PROVIDER_REGISTRY 1)).

Lemma is_some_default {A} (d : A) (o : option A) : is_some o = true -> o = Some (default d o).
Proof. by destruct o. Qed.

Lemma process_sample_reachable : reachable PROVIDER_REGISTRY 1 sample_process.
Proof.
  apply (run_steps sample_self sample_events). apply is_some_default. vm_compute. reflexivity.
Qed.

Lemma probe_ownership_witness :
  length (p_leases sample_process) = 1%nat /\
  (forall g a, active_of (p_inner sample_process) g = Some a <->
     exists l, l ∈ p_leases sample_process /\ owns_gate l g a).
Proof.
  split; [vm_compute; reflexivity|].
  destruct (probe_ownership PROVIDER_REGISTRY 1 sample_process process_sample_reachable) as [H _]. exact H.
Defined.

Lemma sample_snapshot :
  srs_effective <$> snapshot_locked sample_self (p_inner sample_process) sample_key (from_secs 141) =
    Some (ProbeInFlight (from_secs 30)).
Proof. vm_compute. reflexivity. Qed.

Lemma claim_agrees_with_snapshot_witness :
  exists res i', try_claim_probe_locked sample_self (p_inner sample_process) sample_key (from_secs 141)
    = Some (res, i') /\ res = Rejected RejectProbeInFlight (from_secs 30).
Proof.
  destruct (claim_agrees_with_snapshot sample_self (p_inner sample_process) sample_key (from_secs 141))
    as (res & i' & H & Hres).
  - vm_compute. discriminate.
  - exists res, i'. split; [exact H|]. rewrite sample_snapshot in Hres. destruct Hres as [Hres _]. exact Hres.
Defined.

Definition sample_completion : Event :=
  ObserveWithProbe 0 (Completed sample_attempt ProviderDone) Update (from_secs 150).
Definition sample_healed : Process :=
  default sample_process (step sample_self sample_completion sample_process).
Definition sample_gate : Gate :=
  MkGate (Some (from_secs 132)) 4 (Some (MkActiveProbe 1 4)).

Lemma sample_step : step sample_self sample_completion sample_process = Some sample_healed.
Proof. apply is_some_default. vm_compute. reflexivity. Qed.

Lemma sample_gate_before : gate_of (p_inner sample_process) (RouteHealth sample_key) = Some sample_gate.
Proof. vm_compute. reflexivity. Qed.

Lemma sample_gate_after :
  gate_of (p_inner sample_healed) (RouteHealth sample_key) = Some (MkGate None 5 None).
Proof. vm_compute. reflexivity. Qed.

Lemma only_matching_probe_heals_witness :
  gate_of (p_inner sample_healed) (RouteHealth sample_key) = Some (MkGate None 5 None) /\
  exists j l cs a e mode now, sample_completion = ObserveWithProbe j (Completed a e) mode now /\
    p_leases sample_process !! j = Some l /\ pl_claims l = Some cs /\ pl_inner l = sh_inner sample_self /\
    pl_route l = route_key (ia_route a) /\ heals (pl_lease_id l) cs (RouteHealth sample_key) sample_gate.
Proof.
  split; [exact sample_gate_after|].
  destruct (only_matching_probe_heals sample_self sample_completion sample_process sample_healed
    (RouteHealth sample_key) sample_gate sample_step sample_gate_before) as (y & Hy & Hd).
  rewrite sample_gate_after in Hy. injection Hy as <-. destruct Hd as [Hd|Hd]; [|exact Hd].
  cbn in Hd. destruct Hd as (t & Ht & _). discriminate Ht.
Defined.

Lemma fixed_topology_and_total_witness :
  size (si_route_health (p_inner sample_process)) = 15%nat /\
  is_Some (step sample_self (DropLease 0) sample_process).
Proof.
  split; [vm_compute; reflexivity|].
  destruct (fixed_topology_and_total PROVIDER_REGISTRY 1 sample_process process_sample_reachable) as (_ & _ & H).
  - vm_compute. discriminate.
  - apply H. intros j [= <-]. apply Nat.ltb_lt. vm_compute. reflexivity.
Defined.

Lemma circuit_opens_on_third_failure_witness :
  rh_open_until (failure_run [from_secs 100; from_secs 101; from_secs 160]) = Some (from_secs 190).
Proof.
  apply (circuit_opens_on_third_failure [from_secs 100; from_secs 101] (from_secs 160)).
  - cbn. repeat constructor; vm_compute; discriminate.
  - vm_compute. discriminate.
  - exists [from_secs 100; from_secs 101], (from_secs 160), []. split; [reflexivity|].
    vm_compute. discriminate.
Defined.

Lemma sample_gates_exist g :
  g ∈ route_gates sample_key -> is_Some (gate_of (p_inner sample_process) g).
Proof.
  intros Hg. assert (is_some (gate_of (p_inner sample_process) g) = true) as Hs.
  { apply elem_of_cons in Hg as [->|Hg%list_elem_of_singleton]; subst; vm_compute; reflexivity. }
  destruct (gate_of _ g); [by eexists|done].
Qed.

Lemma capacity_rejection_enforced_witness :
  let out := observe_terminal_locked sample_self (p_inner sample_process)
    (Failed sample_attempt sample_rejection) Update None (from_secs 200) in
  exists reason d,
    try_claim_probe_locked sample_self out.1.2 sample_key (from_secs 220) = Some (Rejected reason d, out.1.2).
Proof.
  destruct (observe_terminal_locked sample_self (p_inner sample_process)
    (Failed sample_attempt sample_rejection) Update None (from_secs 200)) as [[rep i'] pr] eqn:E.
  destruct (capacity_rejection_enforced PROVIDER_REGISTRY 1 (p_inner sample_process) sample_attempt
    sample_rejection None (from_secs 200) rep i' pr 429 (from_secs 220) E) as (reason & d & H & _).
  - reflexivity.
  - reflexivity.
  - by left.
  - apply sample_gates_exist. by left.
  - apply sample_gates_exist. right. by left.
  - vm_compute. discriminate.
  - vm_compute. reflexivity.
  - exists reason, d. exact H.
Defined.

Lemma unmutated_observation_inert_witness :
  (observe_terminal_locked sample_self (p_inner sample_process) sample_failure TelemetryOnly None
     (from_secs 200)).1.2 = p_inner sample_process.
Proof.
  destruct (observe_terminal_locked sample_self (p_inner sample_process) sample_failure TelemetryOnly
    None (from_secs 200)) as [[rep i'] pr] eqn:E.
  destruct (unmutated_observation_inert sample_self (p_inner sample_process) sample_failure TelemetryOnly
    None (from_secs 200) rep i' pr E) as (H1 & H2 & _).
  apply H1, H2. by left.
Defined.
