(* ===== verification/StickyRoutes.v ===== *)
(** * Sticky route memory: inference/sticky_routes.rs

    The process-local memory of the route an account last executed for one surface and selector:
    a [BoundedTtlCache] behind a mutex, keyed by account, surface and selector. *)
From S2P Require Import Prelude Clru BoundedTtlCache Registry Inference.

Definition STICKY_ROUTE_IDLE_TTL : Duration := from_secs (60 * 60).
Definition STICKY_ROUTE_CAPACITY : Z := 50000.

Record StickyRouteKey := MkStickyRouteKey {
  srk_account_uuid : Uuid;
  srk_surface : InferenceSurface;
  srk_selector : string;
}.

#[global] Instance StickyRouteKey_eq_dec : EqDecision StickyRouteKey.
Proof. solve_decision. Defined.

Record StickyRoute := MkStickyRoute {
  sr_public_model_id : string;
  sr_provider : ProviderId;
  sr_provider_model_id : string;
}.

#[global] Instance StickyRoute_eq_dec : EqDecision StickyRoute.
Proof. solve_decision. Defined.

Section Memory.
Context {C : CLru StickyRouteKey (TimedEntry StickyRoute)}.

Record StickyRouteMemory := MkStickyRouteMemory {
  srm_entries : BoundedTtlCache StickyRouteKey StickyRoute;
  srm_idle_ttl : Duration;
}.

Definition memory_new (capacity : Z) (idle_ttl : Duration) : StickyRouteMemory :=
  MkStickyRouteMemory (BoundedTtlCache.new capacity idle_ttl) idle_ttl.

Definition memory_default : StickyRouteMemory :=
  memory_new STICKY_ROUTE_CAPACITY STICKY_ROUTE_IDLE_TTL.

(** The look-up of the cache drops the entry it finds expired. *)
Definition lookup_at (self : StickyRouteMemory) (account_uuid : Uuid) (surface : InferenceSurface)
    (selector : string) (now : Instant) : option StickyRoute * StickyRouteMemory :=
  let key := MkStickyRouteKey account_uuid surface selector in
  let '(found, entries) := get_live_at (srm_entries self) key now in
  (found, MkStickyRouteMemory entries (srm_idle_ttl self)).

(** [None] is the panic of the cache when the deadline overflows an [Instant]. *)
Definition record_at (self : StickyRouteMemory) (account_uuid : Uuid) (surface : InferenceSurface)
    (selector : string) (route : StickyRoute) (now : Instant) : option StickyRouteMemory :=
  let key := MkStickyRouteKey account_uuid surface selector in
  '(_, entries) ← insert_evicting_at (srm_entries self) key route now;
  Some (MkStickyRouteMemory entries (srm_idle_ttl self)).
End Memory.
Arguments StickyRouteMemory {C}.

(** ** The memory as a client sees it *)
Section Theory.
Context {C : CLru StickyRouteKey (TimedEntry StickyRoute)}.
Context {HC : CLruLaws StickyRouteKey (TimedEntry StickyRoute) C}.
Implicit Types (m : StickyRouteMemory).

Definition memory_wf m : Prop :=
  cache_wf (srm_entries m) /\ btc_ttl (srm_entries m) = srm_idle_ttl m.

(** What a client reads of a key at an instant. *)
Definition remembered m (a : Uuid) (su : InferenceSurface) (se : string) (now : Instant)
    : option StickyRoute :=
  live_lookup (srm_entries m) (MkStickyRouteKey a su se) now.

(** A look-up reads the memory, and leaves what can be read from then on. *)
Lemma lookup_at_spec m a su se now :
  memory_wf m ->
  (lookup_at m a su se now).1 = remembered m a su se now /\
  memory_wf (lookup_at m a su se now).2 /\
  (forall a' su' se' t, now <= t ->
     remembered (lookup_at m a su se now).2 a' su' se' t = remembered m a' su' se' t).
Proof.
  intros [Hwf Httl]. unfold lookup_at, remembered, memory_wf.
  destruct (get_live_items (srm_entries m) (MkStickyRouteKey a su se) now Hwf) as (H1 & H2 & H3 & H4).
  destruct (get_live_at _ _ _) as [found entries]. cbn [fst snd srm_entries srm_idle_ttl] in *.
  split; [done|]. split; [by rewrite H3|]. intros a' su' se' t Ht. unfold live_lookup. rewrite H4.
  set (k := MkStickyRouteKey a su se) in *. set (k' := MkStickyRouteKey a' su' se').
  destruct (alookup k (items (srm_entries m))) as [e|] eqn:Ek; cbn; [|done].
  destruct (te_expires_at e <=? now) eqn:Ee; [|done]. rewrite alookup_aremove.
  case_decide as Hk; [|done]. rewrite Hk, Ek. bool_to_prop.
  by rewrite (proj2 (Z.leb_le _ _)) by lia.
Qed.

Lemma record_at_spec m a su se r now :
  memory_wf m -> now + srm_idle_ttl m <= INSTANT_MAX ->
  exists m', record_at m a su se r now = Some m' /\ memory_wf m' /\ srm_idle_ttl m' = srm_idle_ttl m /\
    clru_capacity (btc_entries (srm_entries m')) = clru_capacity (btc_entries (srm_entries m)) /\
    items (srm_entries m') = (MkStickyRouteKey a su se, MkTimedEntry r (now + srm_idle_ttl m))
      :: insert_rest (srm_entries m) (MkStickyRouteKey a su se).
Proof.
  intros [Hwf Httl] Hmax. unfold record_at. rewrite <-Httl in *.
  destruct (insert_items (srm_entries m) (MkStickyRouteKey a su se) r now Hwf Hmax)
    as (c' & -> & Hwf' & Ht & Hc & Hi).
  cbn [mbind option_bind]. eexists. split; [done|]. unfold memory_wf. cbn [srm_entries srm_idle_ttl].
  by rewrite Ht.
Qed.

(** A recorded route is what every look-up of the same account, surface and selector finds
    until the idle time has passed since the record, and not after; records under any other
    account, surface or selector, and look-ups, leave it alone, except that a full memory may
    forget its oldest entry; and the memory never exceeds its capacity. *)
Theorem sticky_record_remembered m a su se r now :
  memory_wf m -> now + srm_idle_ttl m <= INSTANT_MAX ->
  exists m', record_at m a su se r now = Some m' /\ memory_wf m' /\
    len (items (srm_entries m')) <= clru_capacity (btc_entries (srm_entries m)) /\
    (forall t, (lookup_at m' a su se t).1 = if now + srm_idle_ttl m <=? t then None else Some r) /\
    (forall a' su' se' t, (a', su', se') <> (a, su, se) ->
       displaced (srm_entries m) (MkStickyRouteKey a su se) <> Some (MkStickyRouteKey a' su' se') ->
       (lookup_at m' a' su' se' t).1 = (lookup_at m a' su' se' t).1) /\
    (forall a' su' se' t t', t <= t' ->
       (lookup_at (lookup_at m' a' su' se' t).2 a su se t').1 = (lookup_at m' a su se t').1).
Proof.
  intros Hm Hmax. destruct (record_at_spec m a su se r now Hm Hmax) as (m' & E & Hm' & Ht & Hc & Hi).
  exists m'. split; [done|]. split; [done|].
  split; [rewrite <-Hc; apply clru_bound, Hm'|].
  assert (Hl : forall a' su' se' t, (lookup_at m' a' su' se' t).1 =
    if decide (MkStickyRouteKey a' su' se' = MkStickyRouteKey a su se)
    then (if now + srm_idle_ttl m <=? t then None else Some r)
    else if decide (Some (MkStickyRouteKey a' su' se') =
                    displaced (srm_entries m) (MkStickyRouteKey a su se))
         then None else remembered m a' su' se' t).
  { intros a' su' se' t. destruct (lookup_at_spec m' a' su' se' t Hm') as [-> _]. unfold remembered.
    apply (insert_lookup _ _ _ r (MkTimedEntry r (now + srm_idle_ttl m)) t); [apply Hm|done|done]. }
  split; [intros t; by rewrite Hl, decide_True|]. split.
  - intros a' su' se' t Hne Hd. rewrite Hl, decide_False by congruence.
    rewrite decide_False by congruence. by destruct (lookup_at_spec m a' su' se' t Hm) as [-> _].
  - intros a' su' se' t t' Htt. destruct (lookup_at_spec m' a' su' se' t Hm') as (_ & Hw & Hsame).
    destruct (lookup_at_spec _ a su se t' Hw) as [-> _].
    destruct (lookup_at_spec m' a su se t' Hm') as [-> _]. by apply Hsame.
Qed.
End Theory.

(** ** Witness: the list-backed cache *)
#[local] Existing Instances ListClru.list_clru ListClru.list_clru_laws.

Definition sample_account : Uuid := MkUuid [].
Definition sample_route : StickyRoute := MkStickyRoute KIMI_K3_MODEL_ID Tinfoil KIMI_K3_MODEL_ID.

Lemma memory_default_wf : memory_wf memory_default.
Proof. split; [|done]. by apply clru_new_wf. Qed.

Lemma sticky_record_remembered_witness :
  exists m', record_at memory_default sample_account Responses AUTO_QUICK_MODEL_ID sample_route 0 = Some m' /\
    (lookup_at m' sample_account Responses AUTO_QUICK_MODEL_ID (from_secs 3599)).1 = Some sample_route /\
    (lookup_at m' sample_account Responses AUTO_QUICK_MODEL_ID (from_secs 3600)).1 = None.
Proof.
  destruct (sticky_record_remembered memory_default sample_account Responses AUTO_QUICK_MODEL_ID
    sample_route 0 memory_default_wf) as (m' & E & _ & _ & H & _).
  - vm_compute. discriminate.
  - exists m'. split; [exact E|]. split; [rewrite (H (from_secs 3599))|rewrite (H (from_secs 3600))]; reflexivity.
Defined.
