(* ===== verification/Planning.v ===== *)
(** * Route planning: inference_planning.rs

    The deterministic, credential-free choice of one provider route for a resolved public model:
    eligibility, weighted account buckets, the remembered provider, and the plan that records the
    decision.  Weights are [u32] products of two [u16]s; sums and the scaled weight wrap as the
    release build does. *)
From Stdlib Require Import Strings.Byte.
From S2P Require Import Prelude Registry Inference.

(** ** Data *)

Record ConfiguredProviders := MkConfiguredProviders {
  cp_tinfoil : bool;
  cp_continuum : bool;
  cp_maple_i01 : bool;
  cp_maple_i02 : bool;
}.

#[global] Instance ConfiguredProviders_eq_dec : EqDecision ConfiguredProviders.
Proof. solve_decision. Defined.

Definition none : ConfiguredProviders := MkConfiguredProviders false false false false.

Definition with_provider (self : ConfiguredProviders) (provider : ProviderId) : ConfiguredProviders :=
  match provider with
  | Tinfoil => MkConfiguredProviders true (cp_continuum self) (cp_maple_i01 self) (cp_maple_i02 self)
  | Continuum => MkConfiguredProviders (cp_tinfoil self) true (cp_maple_i01 self) (cp_maple_i02 self)
  | Maple I01 => MkConfiguredProviders (cp_tinfoil self) (cp_continuum self) true (cp_maple_i02 self)
  | Maple I02 => MkConfiguredProviders (cp_tinfoil self) (cp_continuum self) (cp_maple_i01 self) true
  end.

Definition contains (self : ConfiguredProviders) (provider : ProviderId) : bool :=
  match provider with
  | Tinfoil => cp_tinfoil self
  | Continuum => cp_continuum self
  | Maple I01 => cp_maple_i01 self
  | Maple I02 => cp_maple_i02 self
  end.

Record RoutePlanningInput := MkRoutePlanningInput {
  rpi_intent : InferenceIntent;
  rpi_configured_providers : ConfiguredProviders;
  rpi_remembered_provider : option ProviderId;
}.

Record RouteCandidate := MkRouteCandidate {
  rc_provider : ProviderId;
  rc_public_model_id : string;
  rc_provider_model_id : string;
  rc_response_model_id : string;
  rc_effective_weight : Z;   (** u32 *)
}.

Inductive PlanDecision :=
| FixedRoute
| StaticBucket
| RememberedRoute.

#[global] Instance PlanDecision_eq_dec : EqDecision PlanDecision.
Proof. solve_decision. Defined.

Inductive CandidateScope :=
| SamePublicModelOnly.

Record RoutePlan := MkRoutePlan {
  rp_selected : RouteIdentity;
  rp_eligible_routes : list RouteCandidate;
  rp_decision : PlanDecision;
  rp_candidate_scope : CandidateScope;
  rp_policy_version : string;
}.

Inductive RoutePlanningError :=
| PlanUnsupportedModel (model : string)
| PlanNoEligibleRoute (model : string).

Record EligibleRoute := MkEligibleRoute { er_candidate : RouteCandidate }.

(** ** Weighted selection *)

(** [u32] multiplication as the release build performs it. *)
Definition mul_u32 (a b : Z) : Z := wrap_u32 (a * b).

(** [Iterator::sum::<u32>()] *)
Definition sum_u32 (l : list Z) : Z := fold_left (fun acc w => wrap_u32 (acc + w)) l 0.

(** The loop over the routes; [last] is [routes.len() - 1]. *)
Fixpoint select_weighted_loop (bucket total_weight cumulative : Z) (index last : nat)
    (routes : list EligibleRoute) : option EligibleRoute :=
  match routes with
  | [] => None
  | route :: routes =>
      let bucket_span :=
        if Nat.eqb index last then saturating_sub_u32 100 cumulative
        else mul_u32 (rc_effective_weight (er_candidate route)) 100 / total_weight in
      let cumulative := saturating_add_u32 cumulative bucket_span in
      if (bucket <? cumulative) || Nat.eqb index last then Some route
      else select_weighted_loop bucket total_weight cumulative (S index) last routes
  end.

Definition select_weighted_route (bucket : Z) (routes : list EligibleRoute) : option EligibleRoute :=
  let total_weight := sum_u32 ((fun r => rc_effective_weight (er_candidate r)) <$> routes) in
  if total_weight =? 0 then None
  else select_weighted_loop bucket total_weight 0 0 (length routes - 1) routes.

Definition stable_account_bucket (account_uuid : Uuid) : Z :=
  from_be_bytes (uuid_as_bytes account_uuid) mod 100.

(** ** Planning *)

Definition build_plan (selected : EligibleRoute) (eligible_routes : list EligibleRoute)
    (selection_source : RouteSelectionSource) (bucket : option Z) (decision : PlanDecision)
    (policy_version : string) : RoutePlan :=
  let selected := er_candidate selected in {|
    rp_selected := route_identity_new (rc_provider selected) (rc_public_model_id selected)
      (rc_provider_model_id selected) (rc_response_model_id selected) selection_source bucket;
    rp_eligible_routes := er_candidate <$> eligible_routes;
    rp_decision := decision;
    rp_candidate_scope := SamePublicModelOnly;
    rp_policy_version := policy_version;
  |}.

(** The closure of the [filter_map] that keeps the eligible routes. *)
Definition eligible_route (registry : ProviderRegistry) (configured : ConfiguredProviders)
    (model : CompletionModelSpec) (route : ModelRouteSpec) : option EligibleRoute :=
  if negb (rs_enabled route) || (rs_weight route =? 0) then None
  else
    provider ← provider registry (rs_provider route);
    if negb (ps_enabled provider) || (ps_weight provider =? 0)
       || negb (contains configured (rs_provider route)) then None
    else Some (MkEligibleRoute (MkRouteCandidate (rs_provider route) (cm_public_model_id model)
      (rs_provider_model_id route) (rs_response_model_id route)
      (mul_u32 (ps_weight provider) (rs_weight route)))).

(** The closure of the filter that counts the enabled routes. *)
Definition route_is_enabled (registry : ProviderRegistry) (route : ModelRouteSpec) : bool :=
  rs_enabled route && (0 <? rs_weight route)
  && is_some_and (fun p => ps_enabled p && (0 <? ps_weight p)) (provider registry (rs_provider route)).

Definition plan_completion_route (registry : ProviderRegistry) (input : RoutePlanningInput)
    : result RoutePlanningError RoutePlan :=
  let public_model_id := ii_public_model_id (rpi_intent input) in
  model ← ok_or (completion_model registry public_model_id) (PlanUnsupportedModel public_model_id);
  let policy_version :=
    if existsb (fun route => is_maple (rs_provider route)) (cm_routes model)
    then MAPLE_ROUTING_POLICY_VERSION else SHADOW_ROUTING_POLICY_VERSION in
  let eligible_routes :=
    filter_map (eligible_route registry (rpi_configured_providers input) model) (cm_routes model) in
  match eligible_routes with
  | [] => Err (PlanNoEligibleRoute (cm_public_model_id model))
  | first :: others =>
      let enabled_route_count := len (filter (fun r => route_is_enabled registry r = true) (cm_routes model)) in
      let selection_source :=
        if len eligible_routes <? enabled_route_count then Fallback else StaticSplit in
      match others with
      | [] => Ok (build_plan first eligible_routes selection_source None FixedRoute policy_version)
      | _ =>
          let bucket := stable_account_bucket (ii_account_uuid (rpi_intent input)) in
          selected ← ok_or (select_weighted_route bucket eligible_routes)
            (PlanNoEligibleRoute (cm_public_model_id model));
          let remembered :=
            provider ← rpi_remembered_provider input;
            if bool_decide (provider = rc_provider (er_candidate selected)) then None
            else find (fun r => bool_decide (rc_provider (er_candidate r) = provider)) eligible_routes in
          match remembered with
          | Some route =>
              Ok (build_plan route eligible_routes Sticky None RememberedRoute policy_version)
          | None =>
              Ok (build_plan selected eligible_routes selection_source (Some bucket) StaticBucket
                    policy_version)
          end
      end
  end.

(** ** Weighted shares *)

Definition weight_of (r : EligibleRoute) : Z := rc_effective_weight (er_candidate r).
Definition total_of (routes : list EligibleRoute) : Z := sum_Z (weight_of <$> routes).

(** The percentage of buckets the weight earns, rounded down. *)
Definition share (total : Z) (r : EligibleRoute) : Z := weight_of r * 100 / total.

(** The first bucket of the route at an index. *)
Definition share_start (total : Z) (routes : list EligibleRoute) (i : nat) : Z :=
  sum_Z (share total <$> take i routes).

Lemma share_start_0 total routes : share_start total routes 0 = 0.
Proof. reflexivity. Qed.

Lemma share_start_S total r routes i :
  share_start total (r :: routes) (S i) = share total r + share_start total routes i.
Proof. reflexivity. Qed.

Lemma sum_Z_app l k : sum_Z (l ++ k) = sum_Z l + sum_Z k.
Proof. induction l as [|x l IH]; cbn; unfold sum_Z in *; cbn; lia. Qed.

Lemma sum_Z_nonneg l : Forall (fun z => 0 <= z) l -> 0 <= sum_Z l.
Proof. induction 1; cbn; unfold sum_Z in *; lia. Qed.

Lemma wrap_u32_small z : 0 <= z <= U32_MAX -> wrap_u32 z = z.
Proof. unfold wrap_u32, U32_MAX. intros. apply Z.mod_small. lia. Qed.

Lemma sum_u32_exact l :
  Forall (fun z => 0 <= z) l -> sum_Z l <= U32_MAX -> sum_u32 l = sum_Z l.
Proof.
  intros Hl Hs. unfold sum_u32. assert (H : forall a, 0 <= a -> a + sum_Z l <= U32_MAX ->
    fold_left (fun acc w => wrap_u32 (acc + w)) l a = a + sum_Z l); [|apply H; lia].
  clear Hs. induction Hl as [|z l Hz Hl IH]; intros a Ha Hs; cbn [fold_left].
  - cbn. lia.
  - pose proof (sum_Z_nonneg l Hl). change (sum_Z (z :: l)) with (z + sum_Z l) in *.
    rewrite wrap_u32_small by lia. rewrite IH by lia. lia.
Qed.

Lemma sum_shares_le total routes :
  0 < total -> sum_Z (share total <$> routes) <= total_of routes * 100 / total.
Proof.
  intros Ht. unfold total_of. induction routes as [|r routes IH]; cbn [fmap list_fmap].
  - cbn. by rewrite Z.div_0_l by lia.
  - change (sum_Z (?x :: ?l)) with (x + sum_Z l). unfold share at 1.
    rewrite Z.mul_add_distr_r.
    assert (weight_of r * 100 / total + sum_Z (weight_of <$> routes) * 100 / total <=
      (weight_of r * 100 + sum_Z (weight_of <$> routes) * 100) / total); [|lia].
    apply Z.div_le_lower_bound; [done|].
    pose proof (Z.mul_div_le (weight_of r * 100) total Ht).
    pose proof (Z.mul_div_le (sum_Z (weight_of <$> routes) * 100) total Ht). lia.
Qed.

Lemma weight_le_total r routes :
  Forall (fun r => 0 <= weight_of r) routes -> r ∈ routes -> 0 <= weight_of r <= total_of routes.
Proof.
  unfold total_of. induction 1 as [|x routes Hx Hr IH]; [by intros ?%not_elem_of_nil|].
  intros Hin. cbn [fmap list_fmap]. change (sum_Z (?x :: ?l)) with (x + sum_Z l).
  pose proof (sum_Z_nonneg (weight_of <$> routes) ltac:(by apply Forall_fmap)).
  apply elem_of_cons in Hin as [->|Hin]; [lia|]. specialize (IH Hin). lia.
Qed.

Lemma select_loop_exact bucket total cumulative index last routes :
  0 < total -> 0 <= cumulative <= bucket -> bucket < 100 ->
  Forall (fun r => 0 <= weight_of r /\ weight_of r * 100 <= U32_MAX) routes ->
  cumulative + sum_Z (share total <$> routes) <= 100 -> routes <> [] ->
  (index + length routes = S last)%nat ->
  exists i r, routes !! i = Some r /\
    select_weighted_loop bucket total cumulative index last routes = Some r /\
    cumulative + share_start total routes i <= bucket /\
    (S i = length routes \/ bucket < cumulative + share_start total routes (S i)).
Proof.
  intros Ht. revert cumulative index. induction routes as [|r routes IH]; intros c index Hc Hb Hw Hs Hne Hl; [done|].
  apply Forall_cons in Hw as [[Hr1 Hr2] Hw]. cbn [select_weighted_loop].
  fold (weight_of r). unfold mul_u32. rewrite wrap_u32_small by (unfold U32_MAX in *; lia). fold (share total r).
  cbn [fmap list_fmap] in Hs. change (sum_Z (?x :: ?l)) with (x + sum_Z l) in Hs.
  assert (0 <= share total r) by (apply Z.div_pos; lia).
  assert (0 <= sum_Z (share total <$> routes)).
  { apply sum_Z_nonneg, Forall_fmap. eapply Forall_impl; [exact Hw|]. intros x [Hx _].
    apply Z.div_pos; cbn; lia. }
  destruct (Nat.eqb_spec index last) as [->|Hil].
  - rewrite orb_true_r. exists 0%nat, r. split; [done|]. split; [done|]. rewrite share_start_0.
    split; [lia|]. left. cbn [length] in *. lia.
  - rewrite orb_false_r. unfold saturating_add_u32. rewrite Z.min_l by (unfold U32_MAX; lia).
    destruct (bucket <? c + share total r) eqn:E; bool_to_prop.
    + exists 0%nat, r. split; [done|]. split; [done|].
      rewrite share_start_S, !share_start_0. split; [lia|right; lia].
    + cbn [length] in Hl. destruct (IH (c + share total r) (S index)) as (i & q & Hi & Hsel & H1 & H2);
        [lia|done|done|lia|by intros ->; cbn in Hl; lia|lia|].
      exists (S i), q. split; [done|]. split; [done|].
      rewrite !share_start_S. split; [lia|]. cbn [length]. destruct H2; [left; lia|right; lia].
Qed.

Definition routes_bounded (routes : list EligibleRoute) : Prop :=
  Forall (fun r => 0 < weight_of r) routes /\ total_of routes * 100 <= U32_MAX.

(** As long as the scaled weights fit a [u32], weighted selection cuts the hundred account
    buckets into consecutive intervals, one per route in table order, whose lengths are the routes'
    percentage shares rounded down, the last route taking the remainder: every bucket is served,
    by the route whose interval holds it. *)
Theorem weighted_selection_exact bucket routes :
  routes_bounded routes -> routes <> [] -> 0 <= bucket < 100 ->
  exists i r, routes !! i = Some r /\ select_weighted_route bucket routes = Some r /\
    share_start (total_of routes) routes i <= bucket /\
    (S i = length routes \/ bucket < share_start (total_of routes) routes (S i)).
Proof.
  intros [Hw Ht] Hne Hb.
  assert (Hw' : Forall (fun r => 0 <= weight_of r) routes) by (eapply Forall_impl; [exact Hw|]; cbn; lia).
  assert (Hpos : 0 < total_of routes).
  { destruct routes as [|r l]; [done|]. apply Forall_cons in Hw as [Hr _].
    pose proof (weight_le_total r (r :: l) Hw' ltac:(by left)). lia. }
  unfold select_weighted_route. rewrite sum_u32_exact.
  - change (sum_Z _) with (total_of routes). rewrite (proj2 (Z.eqb_neq _ _)) by lia.
    apply select_loop_exact; try done; try lia.
    + apply Forall_forall. intros r Hr. pose proof (weight_le_total r routes Hw' Hr). lia.
    + pose proof (sum_shares_le (total_of routes) routes Hpos) as H.
      rewrite Z.mul_comm, Z.div_mul in H by lia. lia.
    + destruct routes; [done|]. cbn. lia.
  - by apply Forall_fmap.
  - fold (total_of routes). change (sum_Z _) with (total_of routes). lia.
Qed.

(** ** What a plan is *)

Definition eligible (registry : ProviderRegistry) (configured : ConfiguredProviders)
    (model : CompletionModelSpec) : list EligibleRoute :=
  filter_map (eligible_route registry configured model) (cm_routes model).

(** The registry entry behind an eligible route. *)
Record route_backed (registry : ProviderRegistry) (configured : ConfiguredProviders)
    (model : CompletionModelSpec) (r : EligibleRoute) (spec : ModelRouteSpec) : Prop := {
  rb_spec : spec ∈ cm_routes model;
  rb_enabled : rs_enabled spec = true;
  rb_configured : contains configured (rs_provider spec) = true;
  rb_provider : rc_provider (er_candidate r) = rs_provider spec;
  rb_public : rc_public_model_id (er_candidate r) = cm_public_model_id model;
  rb_provider_model : rc_provider_model_id (er_candidate r) = rs_provider_model_id spec;
  rb_response_model : rc_response_model_id (er_candidate r) = rs_response_model_id spec;
  rb_weight : 0 < weight_of r;
}.

Lemma eligible_backed registry configured model r :
  registry_wf registry -> model ∈ completion_models registry ->
  r ∈ eligible registry configured model -> exists spec, route_backed registry configured model r spec.
Proof.
  intros Hwf Hm (spec & Hin & He)%list_elem_of_omap. exists spec. unfold eligible_route in He.
  destruct (negb (rs_enabled spec) || (rs_weight spec =? 0)) eqn:E1; [done|].
  destruct (provider registry (rs_provider spec)) as [p|] eqn:Ep; [|done]. cbn [mbind option_bind] in He.
  destruct (negb (ps_enabled p) || (ps_weight p =? 0) || _) eqn:E2; [done|]. injection He as <-.
  bool_to_prop. apply provider_In in Ep as [Hp _].
  pose proof (wf_provider_weights _ Hwf) as W1. eapply Forall_forall in W1; [|exact Hp].
  pose proof (wf_route_weights _ Hwf) as W2. eapply Forall_forall in W2; [|exact Hm].
  eapply Forall_forall in W2; [|exact Hin]. cbn in W1, W2.
  split; cbn; try done; unfold weight_of, mul_u32; cbn.
  rewrite wrap_u32_small; [nia|]. unfold U16_MAX, U32_MAX in *. nia.
Qed.

Lemma find_elem {A} (f : A -> bool) (l : list A) x : find f l = Some x -> x ∈ l /\ f x = true.
Proof. intros H. apply find_some in H as [Hx Hf]. split; [by apply list_elem_of_In|done]. Qed.

Lemma find_none_elem {A} (f : A -> bool) (l : list A) x : find f l = None -> x ∈ l -> f x = false.
Proof. intros H Hx. eapply find_none; [exact H|]. by apply list_elem_of_In. Qed.

(** The decision a plan records, against the eligible routes and the weighted choice. *)
Definition decision_justified (input : RoutePlanningInput) (routes : list EligibleRoute)
    (r : EligibleRoute) (plan : RoutePlan) : Prop :=
  let bucket := stable_account_bucket (ii_account_uuid (rpi_intent input)) in
  match rp_decision plan with
  | FixedRoute => routes = [r] /\ ri_bucket (rp_selected plan) = None
  | StaticBucket =>
      select_weighted_route bucket routes = Some r /\ ri_bucket (rp_selected plan) = Some bucket /\
      (forall p q, rpi_remembered_provider input = Some p -> q ∈ routes ->
         rc_provider (er_candidate q) = p -> p = rc_provider (er_candidate r))
  | RememberedRoute =>
      rpi_remembered_provider input = Some (rc_provider (er_candidate r)) /\
      ri_selection_source (rp_selected plan) = Sticky /\ ri_bucket (rp_selected plan) = None /\
      exists w, select_weighted_route bucket routes = Some w /\
        rc_provider (er_candidate w) <> rc_provider (er_candidate r)
  end.

(** The plan selects an eligible route of the model, lists all of them, and justifies its choice. *)
Definition plan_sound (registry : ProviderRegistry) (input : RoutePlanningInput)
    (model : CompletionModelSpec) (plan : RoutePlan) : Prop :=
  let routes := eligible registry (rpi_configured_providers input) model in
  exists r spec, r ∈ routes /\ route_backed registry (rpi_configured_providers input) model r spec /\
    rp_eligible_routes plan = er_candidate <$> routes /\
    ri_provider (rp_selected plan) = rs_provider spec /\
    ri_public_model_id (rp_selected plan) = cm_public_model_id model /\
    ri_provider_model_id (rp_selected plan) = rs_provider_model_id spec /\
    ri_response_model_id (rp_selected plan) = rs_response_model_id spec /\
    decision_justified input routes r plan.

Lemma plan_sound_intro registry input model r src bucket decision pv :
  registry_wf registry -> model ∈ completion_models registry ->
  let routes := eligible registry (rpi_configured_providers input) model in
  let plan := build_plan r routes src bucket decision pv in
  r ∈ routes -> decision_justified input routes r plan -> plan_sound registry input model plan.
Proof.
  intros Hwf Hm routes plan Hr Hd. destruct (eligible_backed _ _ _ _ Hwf Hm Hr) as [spec Hs].
  exists r, spec. pose proof Hs as [S1 S2 S3 S4 S5 S6 S7 S8]. by split_and!.
Qed.

(** Two or more eligible routes: the remembered provider, or the weighted choice. *)
Lemma find_other_provider (routes : list EligibleRoute) (w : EligibleRoute) (o : option ProviderId) :
  match (p ← o; if bool_decide (p = rc_provider (er_candidate w)) then None
                else find (fun r => bool_decide (rc_provider (er_candidate r) = p)) routes) with
  | Some q => o = Some (rc_provider (er_candidate q)) /\ q ∈ routes /\
      rc_provider (er_candidate w) <> rc_provider (er_candidate q)
  | None => forall p q, o = Some p -> q ∈ routes -> rc_provider (er_candidate q) = p ->
      p = rc_provider (er_candidate w)
  end.
Proof.
  destruct o as [p|]; cbn [mbind option_bind]; [|done].
  case_bool_decide as Hp; [by intros ? ? [= <-]|].
  destruct (find _ _) as [q|] eqn:Eq.
  - apply find_elem in Eq as [Hq Hqp]. bool_to_prop. subst. by split_and!.
  - intros p' q [= <-] Hq Hqp. pose proof (find_none_elem _ _ _ Eq Hq) as Hn. cbn in Hn. by bool_to_prop.
Qed.

(** The outcomes of planning. *)
Definition plan_outcome (registry : ProviderRegistry) (input : RoutePlanningInput)
    (r : result RoutePlanningError RoutePlan) : Prop :=
  let requested := ii_public_model_id (rpi_intent input) in
  match r with
  | Err (PlanUnsupportedModel m) => m = requested /\ completion_model registry requested = None
  | Err (PlanNoEligibleRoute m) => m = requested /\ exists model,
      completion_model registry requested = Some model /\
      eligible registry (rpi_configured_providers input) model = []
  | Ok plan => exists model, completion_model registry requested = Some model /\
      cm_public_model_id model = requested /\ plan_sound registry input model plan
  end.

Lemma plan_completion_route_outcome registry input :
  registry_wf registry ->
  (forall m, completion_model registry (ii_public_model_id (rpi_intent input)) = Some m ->
     total_of (eligible registry (rpi_configured_providers input) m) * 100 <= U32_MAX) ->
  plan_outcome registry input (plan_completion_route registry input).
Proof.
  intros Hwf Hbound. unfold plan_outcome, plan_completion_route.
  set (requested := ii_public_model_id (rpi_intent input)) in *.
  destruct (completion_model registry requested) as [model|] eqn:Em; [|by cbn].
  cbn [ok_or mbind result_bind]. destruct (completion_model_In _ _ _ Em) as [Hin Hid].
  specialize (Hbound model eq_refl).
  pose proof (plan_sound_intro registry input model) as Hok.
  fold (eligible registry (rpi_configured_providers input) model) in *.
  set (routes := eligible registry (rpi_configured_providers input) model) in *.
  destruct routes as [|first others] eqn:Er; [by split; [|exists model]|].
  destruct others as [|second rest].
  { exists model. split; [done|]. split; [done|]. apply Hok; [done|done|by left|done]. }
  destruct (weighted_selection_exact (stable_account_bucket (ii_account_uuid (rpi_intent input)))
    (first :: second :: rest)) as (i & w & Hw & Hsel & _ & _).
  { split; [|done]. rewrite <-Er. apply Forall_forall. intros r Hr.
    destruct (eligible_backed _ _ _ _ Hwf Hin Hr) as [spec Hs]. apply Hs. }
  { done. }
  { unfold stable_account_bucket. apply Z.mod_pos_bound. lia. }
  rewrite Hsel. cbn [ok_or mbind result_bind]. apply list_elem_of_lookup_2 in Hw.
  pose proof (find_other_provider (first :: second :: rest) w (rpi_remembered_provider input)) as Hfind.
  destruct (rpi_remembered_provider input ≫= _) as [q|].
  - destruct Hfind as (Hp & Hq & Hne). exists model. split; [done|]. split; [done|].
    apply Hok; [done|done|done|]. split_and!; try done. by exists w.
  - exists model. split; [done|]. split; [done|]. by apply Hok.
Qed.

(** Planning fails only when the registry does not know the requested model or none of its
    routes is enabled, weighted and configured; otherwise it selects one such route of that very
    model, never of another, lists all of them as candidates, and decides as documented: a lone
    route is fixed, a remembered provider that is still eligible and differs from the weighted
    choice wins, and everything else follows the account's bucket. *)
Theorem plan_selects_eligible_route registry input :
  registry_wf registry ->
  (forall m, completion_model registry (ii_public_model_id (rpi_intent input)) = Some m ->
     total_of (eligible registry (rpi_configured_providers input) m) * 100 <= U32_MAX) ->
  let requested := ii_public_model_id (rpi_intent input) in
  match plan_completion_route registry input with
  | Err (PlanUnsupportedModel m) => m = requested /\ completion_model registry requested = None
  | Err (PlanNoEligibleRoute m) => m = requested /\ exists model,
      completion_model registry requested = Some model /\
      eligible registry (rpi_configured_providers input) model = []
  | Ok plan => exists model, completion_model registry requested = Some model /\
      cm_public_model_id model = requested /\ plan_sound registry input model plan
  end.
Proof.
  intros Hwf Hbound. exact (plan_completion_route_outcome registry input Hwf Hbound).
Qed.

(** ** The production splits *)

Definition all : ConfiguredProviders := MkConfiguredProviders true true true true.

Definition planned_provider (registry : ProviderRegistry) (input : RoutePlanningInput)
    : result RoutePlanningError ProviderId :=
  (fun plan => ri_provider (rp_selected plan)) <$> plan_completion_route registry input.

(** Planning a model with two eligible routes, none remembered. *)
Lemma plan_two_routes registry intent configured model r1 r2 :
  completion_model registry (ii_public_model_id intent) = Some model ->
  eligible registry configured model = [r1; r2] ->
  planned_provider registry (MkRoutePlanningInput intent configured None) =
    (rc_provider ∘ er_candidate) <$>
      ok_or (select_weighted_route (stable_account_bucket (ii_account_uuid intent)) [r1; r2])
        (PlanNoEligibleRoute (cm_public_model_id model)).
Proof.
  intros Hm He. unfold planned_provider, plan_completion_route. cbn [rpi_intent rpi_configured_providers].
  rewrite Hm. cbn [ok_or mbind result_bind].
  fold (eligible registry configured model). rewrite He. by destruct (select_weighted_route _ _).
Qed.

(** Weighted selection between two routes whose weights and shares do not overflow. *)
Lemma select_two b r1 r2 cut :
  sum_u32 [weight_of r1; weight_of r2] <> 0 ->
  saturating_add_u32 0 (mul_u32 (weight_of r1) 100 / sum_u32 [weight_of r1; weight_of r2]) = cut ->
  select_weighted_route b [r1; r2] = Some (if b <? cut then r1 else r2).
Proof.
  intros Hs Hc. unfold select_weighted_route. cbn [fmap list_fmap length Nat.sub].
  fold (weight_of r1) (weight_of r2). rewrite (proj2 (Z.eqb_neq _ _)) by done.
  cbn [select_weighted_loop Nat.eqb]. fold (weight_of r1). rewrite Hc, orb_false_r, orb_true_r.
  by destruct (b <? cut).
Qed.

(** With every provider configured and no remembered route, production sends accounts in the
    first 75 of the hundred buckets of GLM 5.3 to Continuum and the rest to Tinfoil, and the one
    first bucket of stock DeepSeek to Tinfoil and the other 99 to the dedicated instance i02: the
    splits the registry's comments promise. *)
Theorem production_splits intent :
  let bucket := stable_account_bucket (ii_account_uuid intent) in
  (ii_public_model_id intent = GLM_5_3_MODEL_ID ->
   planned_provider PROVIDER_REGISTRY (MkRoutePlanningInput intent all None) =
     Ok (if bucket <? 75 then Continuum else Tinfoil)) /\
  (ii_public_model_id intent = DEEPSEEK_V4_1_FLASH_MODEL_ID ->
   planned_provider PROVIDER_REGISTRY (MkRoutePlanningInput intent all None) =
     Ok (if bucket <? 1 then Tinfoil else Maple I02)).
Proof.
  intros bucket. split; intros Hid.
  - rewrite (plan_two_routes _ _ _ (completion_model_spec GLM_5_3_MODEL_ID GLM_5_3_ROUTES)
      (MkEligibleRoute (MkRouteCandidate Continuum GLM_5_3_MODEL_ID "glm-5.3" GLM_5_3_MODEL_ID 21000))
      (MkEligibleRoute (MkRouteCandidate Tinfoil GLM_5_3_MODEL_ID GLM_5_3_MODEL_ID GLM_5_3_MODEL_ID 7000)));
      [|by rewrite Hid|done].
    rewrite (select_two _ _ _ 75) by done. cbn. fold bucket. by destruct (bucket <? 75).
  - rewrite (plan_two_routes _ _ _
      (completion_model_spec DEEPSEEK_V4_1_FLASH_MODEL_ID DEEPSEEK_V4_1_FLASH_ROUTES)
      (MkEligibleRoute (MkRouteCandidate Tinfoil DEEPSEEK_V4_1_FLASH_MODEL_ID
         DEEPSEEK_V4_1_FLASH_MODEL_ID DEEPSEEK_V4_1_FLASH_MODEL_ID 700))
      (MkEligibleRoute (MkRouteCandidate (Maple I02) DEEPSEEK_V4_1_FLASH_MODEL_ID
         DEEPSEEK_V4_1_FLASH_MODEL_ID DEEPSEEK_V4_1_FLASH_MODEL_ID 69300)));
      [|by rewrite Hid|done].
    rewrite (select_two _ _ _ 1) by done. cbn. fold bucket. by destruct (bucket <? 1).
Qed.

(** ** Witnesses *)

Definition sample_intent : InferenceIntent :=
  intent_new (MkUuid []) (MkUuid [x00; x4c]) GLM_5_3_MODEL_ID GLM_5_3_MODEL_ID Paid Responses Interactive.
Definition sample_routes : list EligibleRoute :=
  filter_map (eligible_route PROVIDER_REGISTRY all (completion_model_spec GLM_5_3_MODEL_ID GLM_5_3_ROUTES))
    GLM_5_3_ROUTES.

Lemma weighted_selection_exact_witness :
  exists i r, sample_routes !! i = Some r /\ select_weighted_route 76 sample_routes = Some r /\
    share_start (total_of sample_routes) sample_routes i <= 76.
Proof.
  destruct (weighted_selection_exact 76 sample_routes) as (i & r & H1 & H2 & H3 & _).
  - split; [|vm_compute; discriminate]. repeat constructor.
  - discriminate.
  - lia.
  - exists i, r. split; [exact H1|]. split; [exact H2|exact H3].
Defined.

Lemma plan_selects_eligible_route_witness :
  exists plan model, plan_completion_route PROVIDER_REGISTRY
      (MkRoutePlanningInput sample_intent all (Some Continuum)) = Ok plan /\
    plan_sound PROVIDER_REGISTRY (MkRoutePlanningInput sample_intent all (Some Continuum)) model plan /\
    rp_decision plan = RememberedRoute.
Proof.
  pose proof (plan_selects_eligible_route PROVIDER_REGISTRY
    (MkRoutePlanningInput sample_intent all (Some Continuum)) PROVIDER_REGISTRY_wf) as H.
  assert (Hb : forall m, completion_model PROVIDER_REGISTRY GLM_5_3_MODEL_ID = Some m ->
    total_of (eligible PROVIDER_REGISTRY all m) * 100 <= U32_MAX).
  { intros m Hm. vm_compute in Hm. injection Hm as <-. vm_compute. discriminate. }
  specialize (H Hb). destruct (plan_completion_route _ _) as [plan|e] eqn:E.
  - destruct H as (model & _ & _ & Hs). exists plan, model. split; [reflexivity|]. split; [exact Hs|].
    vm_compute in E. injection E as <-. reflexivity.
  - exfalso. vm_compute in E. discriminate E.
Defined.
