(* ===== verification/Routing.v ===== *)
(** * Active routing: provider_routing.rs, proxy_config.rs

    The router that turns an intent into an executable provider route: the configured routes of
    the model, one coherent health snapshot, the planner, and the proxy of the selected provider.
    What changes under the router while it runs (verified Maple transports, the clock, the health
    state other threads update) is a [World], read through a counter of consultations. *)
From Stdlib Require Import Strings.Byte.
From S2P Require Import Prelude Clru BoundedTtlCache Registry Inference Health StickyRoutes Planning.

(** ** Proxies (proxy_config.rs) *)

Record ProxyConfig := MkProxyConfig {
  pc_base_url : string;
  pc_api_key : option string;
  pc_provider_name : string;
}.

#[global] Instance MapleInstanceId_countable : Countable MapleInstanceId.
Proof.
  apply (inj_countable' (fun i => match i with I01 => true | I02 => false end)
           (fun b : bool => if b then I01 else I02)). by intros [].
Defined.

(** [maple_readiness: Option<MapleReadiness>] is kept as its presence; what it answers depends on
    live transports and comes from the [World]. *)
Record ProxyRouter := MkProxyRouter {
  px_default_proxy : ProxyConfig;
  px_tinfoil_proxy : ProxyConfig;
  px_maple_proxies : gmap MapleInstanceId ProxyConfig;
  px_maple_readiness : bool;
}.

Record World := MkWorld {
  w_is_ready : nat -> MapleInstanceId -> bool;
  w_now : nat -> Instant;
  w_health : nat -> ShadowHealthInner;
}.

Definition get_maple_proxy (w : World) (n : nat) (self : ProxyRouter) (instance : MapleInstanceId)
    : option ProxyConfig :=
  proxy ← px_maple_proxies self !! instance;
  if px_maple_readiness self then if w_is_ready w n instance then Some proxy else None else None.

Definition get_default_proxy (self : ProxyRouter) : ProxyConfig := px_default_proxy self.
Definition get_tinfoil_proxy (self : ProxyRouter) : ProxyConfig := px_tinfoil_proxy self.

Definition proxy_for_provider (w : World) (n : nat) (proxy_router : ProxyRouter) (provider : ProviderId)
    : option ProxyConfig :=
  match provider with
  | Tinfoil => Some (get_tinfoil_proxy proxy_router)
  | Continuum =>
      let proxy := get_default_proxy proxy_router in
      if String.eqb (pc_provider_name proxy) (as_str Continuum) then Some proxy else None
  | Maple instance => get_maple_proxy w n proxy_router instance
  end.

(** ** Data *)

Record SelectedProviderRoute := MkSelectedProviderRoute {
  sp_provider : ProviderId;
  sp_proxy : ProxyConfig;
  sp_public_model_id : string;
  sp_provider_model_id : string;
  sp_response_model_id : string;
  sp_bucket : option Z;
  sp_selection_source : RouteSelectionSource;
}.

Definition identity (self : SelectedProviderRoute) : RouteIdentity :=
  route_identity_new (sp_provider self) (sp_public_model_id self) (sp_provider_model_id self)
    (sp_response_model_id self) (sp_selection_source self) (sp_bucket self).

Inductive ProviderRoutingError :=
| UnsupportedModel (model : string)
| NoEligibleRoute (model : string)
| CapacityUnavailable (model : string) (retry_after : Duration).

Inductive CredentialFreeRouteOutcome :=
| OutcomeSelected (route : RouteIdentity)
| OutcomeUnsupportedModel
| OutcomeNoEligibleRoute.

#[global] Instance CredentialFreeRouteOutcome_eq_dec : EqDecision CredentialFreeRouteOutcome.
Proof. solve_decision. Defined.

Inductive ShadowRouteComparison :=
| Match (outcome : CredentialFreeRouteOutcome) (decision : option PlanDecision) (candidate_count : Z)
| Mismatch (active shadow : CredentialFreeRouteOutcome) (decision : option PlanDecision)
    (candidate_count : Z).

Inductive ModelAvailability :=
| Available (providers : ConfiguredProviders)
| AvailabilityUnavailable (retry_after : Duration)
| AvailabilityNotConfigured.

(** ** Helpers *)

Definition provider_routing_error_from_plan (error : RoutePlanningError) : ProviderRoutingError :=
  match error with
  | PlanUnsupportedModel model => UnsupportedModel model
  | PlanNoEligibleRoute model => NoEligibleRoute model
  end.

Definition ceil_retry_after (duration : Duration) : Duration :=
  let as_secs := duration / 1000000000 in
  let subsec_nanos := duration mod 1000000000 in
  from_secs (Z.max (saturating_add_u64 as_secs (if 0 <? subsec_nanos then 1 else 0)) 1).

Definition route_is_available_for_new_request (disposition : ShadowDisposition) : bool :=
  match disposition with WouldOpen _ | ProbeInFlight _ => false | _ => true end.

(** [earliest.map_or(d, |current| current.min(d))] *)
Definition earliest (current : option Duration) (d : Duration) : option Duration :=
  Some (map_or d (fun c => Z.min c d) current).

(** The loop over configured routes and snapshots; [None] is the [unreachable!]. *)
Fixpoint available_loop (pairs : list ((ProviderId * RouteKey) * ShadowRouteSnapshot))
    (available : ConfiguredProviders) (recovery : option Duration)
    : option (ConfiguredProviders * option Duration) :=
  match pairs with
  | [] => Some (available, recovery)
  | ((provider, _), snapshot) :: pairs =>
      match srs_effective snapshot with
      | WouldOpen remaining =>
          available_loop pairs available (earliest recovery (ceil_retry_after remaining))
      | ProbeInFlight retry_after =>
          available_loop pairs available (earliest recovery (ceil_retry_after retry_after))
      | disposition =>
          if route_is_available_for_new_request disposition
          then available_loop pairs (with_provider available provider) recovery
          else None
      end
  end.

Definition available_providers_for_model (configured_routes : list (ProviderId * RouteKey))
    (snapshots : list ShadowRouteSnapshot) : option (result Duration ConfiguredProviders) :=
  '(available, recovery) ← available_loop (zip configured_routes snapshots) none None;
  Some (if bool_decide (available = none) then Err (default MIN_CAPACITY_COOLDOWN recovery)
        else Ok available).

(** ** The router *)
Section Router.
Context {C : CLru StickyRouteKey (TimedEntry StickyRoute)}.

(** The health state's mutable part is read from the [World]; the sticky memory is threaded. *)
Record ProviderRouter := MkProviderRouter {
  pr_registry : ProviderRegistry;
  pr_shadow_health : ShadowHealthState;
  pr_sticky_routes : StickyRouteMemory;
}.

Definition with_sticky (self : ProviderRouter) (m : StickyRouteMemory) : ProviderRouter :=
  MkProviderRouter (pr_registry self) (pr_shadow_health self) m.

(** The [filter_map] over the routes; readiness is consulted route by route. *)
Fixpoint configured_route_keys_loop (w : World) (n : nat) (self : ProviderRouter)
    (proxy_router : ProxyRouter) (excluded_routes : gset RouteKey) (routes : list ModelRouteSpec)
    : list (ProviderId * RouteKey) :=
  match routes with
  | [] => []
  | route :: routes =>
      let rest := configured_route_keys_loop w (S n) self proxy_router excluded_routes routes in
      match provider (pr_registry self) (rs_provider route) with
      | None => rest
      | Some provider =>
          if negb (rs_enabled route) || (rs_weight route =? 0) || negb (ps_enabled provider)
             || (ps_weight provider =? 0)
             || is_none (proxy_for_provider w n proxy_router (rs_provider route)) then rest
          else
            let route_key := MkRouteKey (rs_provider route) (rs_provider_model_id route) in
            if bool_decide (route_key ∈ excluded_routes) then rest
            else (rs_provider route, route_key) :: rest
      end
  end.

Definition configured_route_keys (w : World) (n : nat) (self : ProviderRouter)
    (proxy_router : ProxyRouter) (model : CompletionModelSpec) (excluded_routes : gset RouteKey)
    : list (ProviderId * RouteKey) :=
  configured_route_keys_loop w n self proxy_router excluded_routes (cm_routes model).

(** The route remembered for exactly this intent's model, and the memory after the look-up. *)
Definition remembered_provider_for (w : World) (n : nat) (self : ProviderRouter)
    (intent : InferenceIntent) : option ProviderId * ProviderRouter :=
  let '(found, m) := lookup_at (pr_sticky_routes self) (ii_account_uuid intent) (ii_surface intent)
    (ii_requested_model_id intent) (w_now w n) in
  ((route ← found;
    if String.eqb (sr_public_model_id route) (ii_public_model_id intent)
    then Some (sr_provider route) else None), with_sticky self m).

(** One round up to the selected plan, with the router after it. *)
Definition select_round (w : World) (n : nat) (self : ProviderRouter) (proxy_router : ProxyRouter)
    (intent : InferenceIntent) (excluded_routes : gset RouteKey)
    : option (result ProviderRoutingError RoutePlan * ProviderRouter) :=
  match completion_model (pr_registry self) (ii_public_model_id intent) with
  | None => Some (Err (UnsupportedModel (ii_public_model_id intent)), self)
  | Some model =>
      let configured_routes := configured_route_keys w n self proxy_router model excluded_routes in
      let n := (n + length (cm_routes model))%nat in
      match configured_routes with
      | [] => Some (Err (NoEligibleRoute (ii_public_model_id intent)), self)
      | _ =>
          match snapshot_routes (pr_shadow_health self) (w_health w n) configured_routes.*2 (w_now w n) with
          | None => Some (Err (CapacityUnavailable (ii_public_model_id intent) MIN_CAPACITY_COOLDOWN), self)
          | Some snapshots =>
              available ← available_providers_for_model configured_routes snapshots;
              match available with
              | Err retry_after =>
                  Some (Err (CapacityUnavailable (ii_public_model_id intent) retry_after), self)
              | Ok available_providers =>
                  let '(remembered, self) := remembered_provider_for w (S n) self intent in
                  Some (map_err provider_routing_error_from_plan
                    (plan_completion_route (pr_registry self)
                      (MkRoutePlanningInput intent available_providers remembered)), self)
              end
          end
      end
  end.

(** Consultations of one round: the routes, the snapshot, the memory and the final proxy. *)
Definition round_length (self : ProviderRouter) (intent : InferenceIntent) : nat :=
  match completion_model (pr_registry self) (ii_public_model_id intent) with
  | Some model => length (cm_routes model) + 3
  | None => 0
  end.

(** The recursive method, [fuel] bounding its depth; [None]: it panics or recurses on. *)
Fixpoint select_health_aware_route_loop (fuel : nat) (w : World) (n : nat) (self : ProviderRouter)
    (proxy_router : ProxyRouter) (intent : InferenceIntent) (excluded_routes : gset RouteKey)
    : option (result ProviderRoutingError SelectedProviderRoute * ProviderRouter) :=
  match fuel with
  | O => None
  | S fuel =>
      '(planned, self) ← select_round w n self proxy_router intent excluded_routes;
      match planned with
      | Err e => Some (Err e, self)
      | Ok plan =>
          let selected := rp_selected plan in
          let n := (n + round_length self intent)%nat in
          match proxy_for_provider w (pred n) proxy_router (ri_provider selected) with
          | None =>
              select_health_aware_route_loop fuel w n self proxy_router intent
                ({[route_key selected]} ∪ excluded_routes)
          | Some proxy =>
              Some (Ok (MkSelectedProviderRoute (ri_provider selected) proxy
                (ri_public_model_id selected) (ri_provider_model_id selected)
                (ri_response_model_id selected) (ri_bucket selected) (ri_selection_source selected)), self)
          end
      end
  end.

(** Every round but the last excludes one more route of the model. *)
Definition select_fuel (self : ProviderRouter) (intent : InferenceIntent) : nat :=
  S (map_or 0%nat (fun m => length (cm_routes m))
       (completion_model (pr_registry self) (ii_public_model_id intent))).

Definition select_health_aware_route (w : World) (self : ProviderRouter) (proxy_router : ProxyRouter)
    (intent : InferenceIntent) (excluded_routes : gset RouteKey)
    : option (result ProviderRoutingError SelectedProviderRoute * ProviderRouter) :=
  select_health_aware_route_loop (select_fuel self intent) w 0 self proxy_router intent excluded_routes.

Definition select_active_completion_route (w : World) (self : ProviderRouter)
    (proxy_router : ProxyRouter) (intent : InferenceIntent) :=
  select_health_aware_route w self proxy_router intent ∅.

Definition select_active_completion_route_excluding (w : World) (self : ProviderRouter)
    (proxy_router : ProxyRouter) (intent : InferenceIntent) (excluded_routes : gset RouteKey) :=
  select_health_aware_route w self proxy_router intent excluded_routes.

(** [None] is the panic of the sticky memory on an overflowing deadline. *)
Definition remember_route (now : Instant) (self : ProviderRouter) (intent : InferenceIntent)
    (route : SelectedProviderRoute) : option ProviderRouter :=
  m ← record_at (pr_sticky_routes self) (ii_account_uuid intent) (ii_surface intent)
    (ii_requested_model_id intent)
    (MkStickyRoute (sp_public_model_id route) (sp_provider route) (sp_provider_model_id route)) now;
  Some (with_sticky self m).

(** The route the account last used for a surface and selector, whatever its model. *)
Definition sticky_route (w : World) (n : nat) (self : ProviderRouter) (account_uuid : Uuid)
    (surface : InferenceSurface) (selector : string) : option StickyRoute * ProviderRouter :=
  let '(found, m) := lookup_at (pr_sticky_routes self) account_uuid surface selector (w_now w n) in
  (found, with_sticky self m).

(** The [fold] over the registry's providers. *)
Fixpoint configured_fold (w : World) (n : nat) (proxy_router : ProxyRouter) (ps : list ProviderSpec)
    (configured : ConfiguredProviders) : ConfiguredProviders :=
  match ps with
  | [] => configured
  | p :: ps =>
      configured_fold w (S n) proxy_router ps
        (if is_some (proxy_for_provider w n proxy_router (ps_id p))
         then with_provider configured (ps_id p) else configured)
  end.

Definition shadow_completion_plan (w : World) (self : ProviderRouter) (proxy_router : ProxyRouter)
    (intent : InferenceIntent) : result RoutePlanningError RoutePlan * ProviderRouter :=
  let configured := configured_fold w 0 proxy_router (providers (pr_registry self)) none in
  let '(remembered, self) :=
    remembered_provider_for w (length (providers (pr_registry self))) self intent in
  (plan_completion_route (pr_registry self) (MkRoutePlanningInput intent configured remembered), self).

(** The candidates with the routes configured for each, in order. *)
Fixpoint availability_candidates (w : World) (n : nat) (self : ProviderRouter)
    (proxy_router : ProxyRouter) (public_model_ids : list string)
    : list (string * option (list (ProviderId * RouteKey))) :=
  match public_model_ids with
  | [] => []
  | id :: ids =>
      let model := completion_model (pr_registry self) id in
      let configured :=
        model ← model;
        match configured_route_keys w n self proxy_router model ∅ with
        | [] => None
        | routes => Some routes
        end in
      let n := (n + map_or 0%nat (fun m => length (cm_routes m)) model)%nat in
      (id, configured) :: availability_candidates w n self proxy_router ids
  end.

Definition availability_of (configured : option (list (ProviderId * RouteKey)))
    (snapshots : option (list ShadowRouteSnapshot)) : option ModelAvailability :=
  match configured, snapshots with
  | None, _ => Some AvailabilityNotConfigured
  | Some _, None => Some (AvailabilityUnavailable MIN_CAPACITY_COOLDOWN)
  | Some routes, Some snapshots =>
      available ← available_providers_for_model routes snapshots;
      Some match available with
      | Ok providers => Available providers
      | Err retry_after => AvailabilityUnavailable retry_after
      end
  end.

(** The map is collected from the pairs in order; [m] is the consultation of the snapshot. *)
Definition model_availability (w : World) (m : nat) (self : ProviderRouter)
    (proxy_router : ProxyRouter) (public_model_ids : list string)
    : option (gmap string ModelAvailability) :=
  let candidates := availability_candidates w 0 self proxy_router public_model_ids in
  let route_groups := (fun c => map_or [] (fun routes => routes.*2) c.2) <$> candidates in
  let snapshots := snapshot_route_groups (pr_shadow_health self) (w_health w m) route_groups (w_now w m) in
  pairs ← collect_option (fun x : (string * _) * _ =>
      availability ← availability_of x.1.2 x.2; Some (x.1.1, availability)) (zip candidates snapshots);
  Some (fold_left (fun acc p => <[p.1 := p.2]> acc) pairs ∅).
End Router.

(** ** Comparing the active route with the shadow plan *)

Definition compare_shadow_route (active : result ProviderRoutingError SelectedProviderRoute)
    (shadow : result RoutePlanningError RoutePlan) : ShadowRouteComparison :=
  let active_outcome :=
    match active with
    | Ok route => OutcomeSelected (identity route)
    | Err (UnsupportedModel _) => OutcomeUnsupportedModel
    | Err (NoEligibleRoute _) => OutcomeNoEligibleRoute
    | Err (CapacityUnavailable _ _) => OutcomeNoEligibleRoute
    end in
  let '(shadow_outcome, decision, candidate_count) :=
    match shadow with
    | Ok plan => (OutcomeSelected (rp_selected plan), Some (rp_decision plan), len (rp_eligible_routes plan))
    | Err (PlanUnsupportedModel _) => (OutcomeUnsupportedModel, None, 0)
    | Err (PlanNoEligibleRoute _) => (OutcomeNoEligibleRoute, None, 0)
    end in
  if bool_decide (active_outcome = shadow_outcome)
  then Match active_outcome decision candidate_count
  else Mismatch active_outcome shadow_outcome decision candidate_count.

(** ** Availability under the gates *)

Definition admits (s : ShadowRouteSnapshot) : bool := route_is_available_for_new_request (srs_effective s).

(** The recovery hint of a blocked route, in whole seconds. *)
Definition blocked_hint (s : ShadowRouteSnapshot) : Duration :=
  match srs_effective s with
  | WouldOpen d | ProbeInFlight d => ceil_retry_after d
  | _ => 0
  end.

Lemma available_loop_cons p k s pairs cps rec :
  available_loop (((p, k), s) :: pairs) cps rec =
    if admits s then available_loop pairs (with_provider cps p) rec
    else available_loop pairs cps (earliest rec (blocked_hint s)).
Proof. unfold admits, blocked_hint. cbn. by destruct (srs_effective s). Qed.

Lemma contains_with_provider cps p q :
  contains (with_provider cps p) q = bool_decide (q = p) || contains cps q.
Proof. by destruct p as [| |[]], q as [| |[]]. Qed.

Lemma contains_none p : contains none p = false.
Proof. by destruct p as [| |[]]. Qed.

Lemma contains_ext a b : (forall p, contains a p = contains b p) -> a = b.
Proof.
  intros H. pose proof (H Tinfoil). pose proof (H Continuum). pose proof (H (Maple I01)).
  pose proof (H (Maple I02)). destruct a, b. cbn in *. congruence.
Qed.

(** Minimum of the blocked hints seen so far. *)
Definition hints (pairs : list ((ProviderId * RouteKey) * ShadowRouteSnapshot)) : list Duration :=
  (fun x => blocked_hint x.2) <$> filter (fun x => admits x.2 = false) pairs.

(** Some route of the provider is admitted. *)
Definition offered (pairs : list ((ProviderId * RouteKey) * ShadowRouteSnapshot)) (p : ProviderId) : Prop :=
  Exists (fun x => x.1.1 = p /\ admits x.2 = true) pairs.

Lemma available_loop_spec pairs cps rec :
  exists cps', available_loop pairs cps rec = Some (cps', fold_left earliest (hints pairs) rec) /\
    forall p, contains cps' p = true <-> contains cps p = true \/ offered pairs p.
Proof.
  unfold offered. revert cps rec. induction pairs as [|[[p k] s] pairs IH]; intros cps rec.
  - exists cps. split; [done|]. intros p. rewrite Exists_nil. tauto.
  - rewrite available_loop_cons. unfold hints. rewrite filter_cons. cbn [snd].
    destruct (admits s) eqn:Ea.
    + rewrite decide_False by done. destruct (IH (with_provider cps p) rec) as (cps' & -> & H).
      exists cps'. split; [done|]. intros q.
      rewrite H, contains_with_provider, orb_true_iff, bool_decide_eq_true, Exists_cons. cbn [fst snd].
      rewrite Ea. split; [intros [[->|?]|?]|intros [?|[[-> _]|?]]]; tauto.
    + rewrite decide_True by done. destruct (IH cps (earliest rec (blocked_hint s))) as (cps' & -> & H).
      exists cps'. split; [done|]. intros q. rewrite H, Exists_cons. cbn [fst snd]. rewrite Ea.
      split; [intros [?|?]|intros [?|[[_ ?]|?]]]; try tauto. done.
Qed.

Lemma fold_earliest_in l d r :
  fold_left earliest l (Some d) = Some r ->
  (r = d \/ r ∈ l) /\ r <= d /\ Forall (fun h => r <= h) l.
Proof.
  revert d. induction l as [|h l IH]; intros d; cbn [fold_left].
  - intros [= ->]. split; [by left|]. split; [lia|constructor].
  - unfold earliest at 2. cbn [map_or]. intros H. destruct (IH _ H) as (H1 & H2 & H3). split; [|split].
    + rewrite elem_of_cons. destruct H1 as [->|]; [|tauto].
      destruct (Z.min_spec d h) as [[_ ->]|[_ ->]]; tauto.
    + lia.
    + constructor; [lia|done].
Qed.

Lemma fold_earliest_some l d : is_Some (fold_left earliest l (Some d)).
Proof. revert d. induction l as [|h l IH]; intros d; cbn; [by eexists|apply IH]. Qed.

(** Availability under the shared gates is exact: the [unreachable!] arm is never taken; the
    providers returned are exactly those with a route whose snapshot is neither open nor probing;
    and when there is none, the error is the smallest recovery hint of the blocked routes, rounded
    up to whole seconds and never zero, or thirty seconds when there is no route at all. *)
Lemma available_providers_outcome configured snapshots :
  length configured = length snapshots ->
  match available_providers_for_model configured snapshots with
  | None => False
  | Some (Ok cps) =>
      cps <> none /\
      forall p, contains cps p = true <-> offered (zip configured snapshots) p
  | Some (Err d) =>
      Forall (fun s => admits s = false) snapshots /\
      match snapshots with
      | [] => d = MIN_CAPACITY_COOLDOWN
      | _ => d ∈ (blocked_hint <$> snapshots) /\ Forall (fun s => d <= blocked_hint s) snapshots
      end
  end.
Proof.
  intros Hlen. unfold available_providers_for_model.
  destruct (available_loop_spec (zip configured snapshots) none None) as (cps & -> & H).
  cbn [mbind option_bind].
  assert (H' : forall p, contains cps p = true <-> offered (zip configured snapshots) p).
  { intros p. rewrite H, contains_none. split; [by intros [?|?]|by right]. }
  case_bool_decide as Hn; [|done]. subst cps.
  assert (Hall : Forall (fun s => admits s = false) snapshots).
  { apply Forall_forall. intros s Hs. destruct (admits s) eqn:Ea; [exfalso|done].
    apply list_elem_of_lookup in Hs as [i Hi].
    destruct (lookup_lt_is_Some_2 configured i) as [[p k] Hc].
    { rewrite Hlen. by eapply lookup_lt_Some. }
    assert (contains none p = true) as Hp; [|by rewrite contains_none in Hp].
    apply H', Exists_exists. exists (p, k, s). split; [|done]. apply list_elem_of_lookup. exists i.
    apply lookup_zip_Some. done. }
  split; [done|].
  assert (Hh : hints (zip configured snapshots) = blocked_hint <$> snapshots).
  { unfold hints. rewrite filter_all.
    - transitivity (blocked_hint <$> (zip configured snapshots).*2); [by rewrite <-list_fmap_compose|].
      by rewrite snd_zip by lia.
    - apply Forall_forall. intros [x s] Hx. cbn. apply list_elem_of_lookup in Hx as [i Hi].
      apply lookup_zip_Some in Hi as [_ Hi]. eapply Forall_forall in Hall; [exact Hall|].
      by eapply list_elem_of_lookup_2. }
  rewrite Hh. destruct snapshots as [|s0 ss]; [done|]. cbn [fmap list_fmap fold_left].
  change (earliest None (blocked_hint s0)) with (Some (blocked_hint s0)).
  destruct (fold_earliest_some (blocked_hint <$> ss) (blocked_hint s0)) as [r Hr].
  change (fold_left earliest _ _) with (fold_left earliest (blocked_hint <$> ss) (Some (blocked_hint s0))).
  rewrite Hr. cbn [default]. destruct (fold_earliest_in _ _ _ Hr) as (H1 & H2 & H3).
  split; [rewrite elem_of_cons; exact H1|]. constructor; [exact H2|].
  apply (Forall_fmap blocked_hint (fun h => r <= h)) in H3. exact H3.
Qed.

(** ** Selecting a route *)
Section Selection.
Context {C : CLru StickyRouteKey (TimedEntry StickyRoute)}.
Implicit Types (self : ProviderRouter) (excl : gset RouteKey).

(** Weights no reachable sum of which overflows a [u32]. *)
Definition weights_fit (reg : ProviderRegistry) : Prop :=
  forall m cfg, m ∈ completion_models reg -> total_of (eligible reg cfg m) * 100 <= U32_MAX.

(** A route of the model the health state admits at some instant of the run. *)
Definition admitted_route (w : World) self (model : CompletionModelSpec) excl
    (spec : ModelRouteSpec) : Prop :=
  spec ∈ cm_routes model /\ spec_route_key spec ∉ excl /\
  exists k snap, snapshot_locked (pr_shadow_health self) (w_health w k) (spec_route_key spec) (w_now w k)
    = Some snap /\ admits snap = true.

(** A route takes part in a round: it and its provider are enabled and weighted, its provider has a proxy when that is
    consulted, and it is not excluded. *)
Definition takes_part (w : World) (n : nat) self (px : ProxyRouter) excl (spec : ModelRouteSpec) : Prop :=
  rs_enabled spec = true /\ rs_weight spec <> 0
  /\ (exists p, provider (pr_registry self) (rs_provider spec) = Some p /\ ps_enabled p = true /\ ps_weight p <> 0)
  /\ is_Some (proxy_for_provider w n px (rs_provider spec)) /\ spec_route_key spec ∉ excl.

(** The routes of a round that starts at a consultation; the routes of the model are consulted in order. *)
Definition in_round (w : World) (n : nat) self px excl (model : CompletionModelSpec) (spec : ModelRouteSpec) : Prop :=
  exists i, cm_routes model !! i = Some spec /\ takes_part w (n + i) self px excl spec.

Lemma configured_loop_elem w n self px excl routes p key :
  (p, key) ∈ configured_route_keys_loop w n self px excl routes <->
  exists i spec, routes !! i = Some spec /\ takes_part w (n + i) self px excl spec
    /\ p = rs_provider spec /\ key = spec_route_key spec.
Proof.
  revert n. induction routes as [|r routes IH]; intros n; cbn [configured_route_keys_loop].
  { split; [by intros ?%not_elem_of_nil|by intros (? & ? & ? & _)]. }
  assert (Hrest : (p, key) ∈ configured_route_keys_loop w (S n) self px excl routes <->
    exists i spec, (r :: routes) !! S i = Some spec /\ takes_part w (n + S i) self px excl spec
      /\ p = rs_provider spec /\ key = spec_route_key spec).
  { rewrite IH. by setoid_rewrite Nat.add_succ_comm. }
  assert (Hhead : forall b : bool, (b = true <-> takes_part w n self px excl r) ->
    (p, key) ∈ (if b then (rs_provider r, spec_route_key r) :: configured_route_keys_loop w (S n) self px excl routes
                else configured_route_keys_loop w (S n) self px excl routes) <->
    exists i spec, (r :: routes) !! i = Some spec /\ takes_part w (n + i) self px excl spec
      /\ p = rs_provider spec /\ key = spec_route_key spec).
  { intros b Hb. transitivity ((b = true /\ p = rs_provider r /\ key = spec_route_key r)
      \/ (p, key) ∈ configured_route_keys_loop w (S n) self px excl routes).
    { destruct b; rewrite ?elem_of_cons; naive_solver. }
    rewrite Hrest, Hb. split.
    - intros [(Ht & -> & ->)|(i & spec & Ht)]; [exists 0%nat, r; by rewrite Nat.add_0_r|by exists (S i), spec].
    - intros ([|i] & spec & Hi & Ht & E); [left; injection Hi as ->; by rewrite Nat.add_0_r in Ht|right; by exists i, spec]. }
  destruct (provider (pr_registry self) (rs_provider r)) as [q|] eqn:Eq.
  2:{ apply (Hhead false). split; [done|]. intros (_ & _ & (q & E & _) & _). congruence. }
  destruct (_ || _) eqn:Eb.
  { apply (Hhead false). split; [done|]. intros (H1 & H2 & (q' & E & H3 & H4) & [px' H5] & _).
    assert (q' = q) as -> by congruence. rewrite H1, H3, H5 in Eb. cbn in Eb.
    apply Z.eqb_neq in H2, H4. by rewrite H2, H4 in Eb. }
  bool_to_prop. case_bool_decide as Hx.
  - apply (Hhead false). split; [done|]. intros (_ & _ & _ & _ & Hn). exfalso. exact (Hn Hx).
  - apply (Hhead true). split; [|done]. intros _. split_and!; try done.
    + by exists q.
    + by destruct (proxy_for_provider _ _ _ _).
Qed.

Lemma remembered_registry w n self intent :
  pr_registry (remembered_provider_for w n self intent).2 = pr_registry self /\
  pr_shadow_health (remembered_provider_for w n self intent).2 = pr_shadow_health self.
Proof. unfold remembered_provider_for. by destruct (lookup_at _ _ _ _ _). Qed.

Lemma snapshot_routes_elem (health : ShadowHealthState) (i : ShadowHealthInner) keys now snaps j key snap :
  snapshot_routes health i keys now = Some snaps -> keys !! j = Some key -> snaps !! j = Some snap ->
  snapshot_locked health i key now = Some snap.
Proof.
  unfold snapshot_routes, collect_option. intros H%mapM_Some Hk Hs.
  eapply Forall2_lookup_lr in H; [|done|done]. done.
Qed.

(** When a round ends in an error.  An unknown model has no route; a known one has none when none of its routes takes
    part; and when some do, capacity is unavailable exactly because the one snapshot of the round admits none of them,
    with the earliest of their recoveries, or because there is no snapshot of one of them. *)
Definition error_sound (w : World) (n : nat) self px excl (requested : string) (e : ProviderRoutingError) : Prop :=
  match e with
  | UnsupportedModel m => m = requested /\ completion_model (pr_registry self) requested = None
  | NoEligibleRoute m => m = requested /\ exists model, completion_model (pr_registry self) requested = Some model
      /\ forall spec, ~ in_round w n self px excl model spec
  | CapacityUnavailable m d => m = requested /\ from_secs 1 <= d /\ d mod from_secs 1 = 0
      /\ exists model, completion_model (pr_registry self) requested = Some model
      /\ let k := (n + length (cm_routes model))%nat in
         let snapshot spec := snapshot_locked (pr_shadow_health self) (w_health w k) (spec_route_key spec) (w_now w k) in
         (d = MIN_CAPACITY_COOLDOWN /\ exists spec, in_round w n self px excl model spec /\ snapshot spec = None)
         \/ (exists spec snap, in_round w n self px excl model spec /\ snapshot spec = Some snap /\ d = blocked_hint snap)
            /\ forall spec, in_round w n self px excl model spec ->
                 exists snap, snapshot spec = Some snap /\ admits snap = false /\ d <= blocked_hint snap
  end.

Lemma ceil_retry_after_whole d : from_secs 1 <= ceil_retry_after d /\ ceil_retry_after d mod from_secs 1 = 0.
Proof.
  unfold ceil_retry_after, from_secs. split; [lia|].
  rewrite Z.mul_1_l. apply Z.mod_mul. lia.
Qed.

(** Two routes of a model through the same provider are the same route. *)
Lemma spec_unique reg model s t :
  registry_wf reg -> model ∈ completion_models reg -> s ∈ cm_routes model -> t ∈ cm_routes model ->
  rs_provider s = rs_provider t -> s = t.
Proof.
  intros Hwf Hm Hs Ht E. pose proof (wf_model_routes _ Hwf) as H. eapply Forall_forall in H; [|exact Hm].
  apply list_elem_of_lookup in Hs as [i Hi]. apply list_elem_of_lookup in Ht as [j Hj].
  assert (i = j) as <-; [|congruence].
  eapply (NoDup_lookup (rs_provider <$> cm_routes model)); [done|rewrite list_lookup_fmap, Hi; done|].
  rewrite list_lookup_fmap, Hj. cbn. by f_equal.
Qed.

Lemma in_round_configured w n self px excl model p key :
  (p, key) ∈ configured_route_keys w n self px model excl <->
  exists spec, in_round w n self px excl model spec /\ p = rs_provider spec /\ key = spec_route_key spec.
Proof. unfold configured_route_keys, in_round. rewrite configured_loop_elem. naive_solver. Qed.

Lemma contains_some cps : cps <> none -> exists p, contains cps p = true.
Proof.
  intros Hne. destruct (contains cps Tinfoil) eqn:H1; [by exists Tinfoil|].
  destruct (contains cps Continuum) eqn:H2; [by exists Continuum|].
  destruct (contains cps (Maple I01)) eqn:H3; [by exists (Maple I01)|].
  destruct (contains cps (Maple I02)) eqn:H4; [by exists (Maple I02)|].
  exfalso. apply Hne, contains_ext. intros p. rewrite contains_none. by destruct p as [| |[]].
Qed.

(** A route that takes part and whose provider is available is eligible. *)
Lemma takes_part_eligible w n self px excl model spec cps :
  in_round w n self px excl model spec -> contains cps (rs_provider spec) = true ->
  eligible (pr_registry self) cps model <> [].
Proof.
  intros (i & Hi & He & Hw & (q & Hq & Hqe & Hqw) & _) Hc Hnil.
  assert (exists r, r ∈ eligible (pr_registry self) cps model) as [r Hr]; [|rewrite Hnil in Hr; by apply not_elem_of_nil in Hr].
  apply Z.eqb_neq in Hw, Hqw. eexists. apply list_elem_of_omap. exists spec. split; [by eapply list_elem_of_lookup_2|].
  unfold eligible_route. rewrite He, Hw. cbn [negb orb]. rewrite Hq. cbn [mbind option_bind].
  by rewrite Hqe, Hqw, Hc.
Qed.

(** Every route of the round has its snapshot among those taken. *)
Lemma in_round_snapshot w n self px excl model health i now snaps spec :
  snapshot_routes health i (configured_route_keys w n self px model excl).*2 now = Some snaps ->
  in_round w n self px excl model spec ->
  exists snap, snapshot_locked health i (spec_route_key spec) now = Some snap /\ snap ∈ snaps.
Proof.
  intros Es Hin. assert ((rs_provider spec, spec_route_key spec) ∈ configured_route_keys w n self px model excl) as He
    by (apply in_round_configured; by exists spec).
  apply list_elem_of_lookup in He as [j Hj].
  assert ((configured_route_keys w n self px model excl).*2 !! j = Some (spec_route_key spec)) as Hk
    by by rewrite list_lookup_fmap, Hj.
  pose proof Es as Hf. apply mapM_Some in Hf. destruct (Forall2_lookup_l _ _ _ _ _ Hf Hk) as (snap & Hs & E).
  exists snap. split; [done|]. by eapply list_elem_of_lookup_2.
Qed.

(** The snapshots taken are those of the routes of the round. *)
Lemma snapshot_in_round w n self px excl model health i now snaps snap :
  snapshot_routes health i (configured_route_keys w n self px model excl).*2 now = Some snaps -> snap ∈ snaps ->
  exists spec, in_round w n self px excl model spec /\ snapshot_locked health i (spec_route_key spec) now = Some snap.
Proof.
  intros Hf [j Hj]%list_elem_of_lookup. apply mapM_Some in Hf.
  destruct (Forall2_lookup_r _ _ _ _ _ Hf Hj) as (key & Hk & E). rewrite list_lookup_fmap in Hk.
  destruct (configured_route_keys w n self px model excl !! j) as [[p key']|] eqn:Ec; [|done]. injection Hk as <-.
  apply list_elem_of_lookup_2, in_round_configured in Ec as (spec & Hr & -> & ->). by exists spec.
Qed.

Lemma no_snapshot_in_round w n self px excl model health i now :
  snapshot_routes health i (configured_route_keys w n self px model excl).*2 now = None ->
  exists spec, in_round w n self px excl model spec /\ snapshot_locked health i (spec_route_key spec) now = None.
Proof.
  unfold snapshot_routes, collect_option. rewrite eq_None_not_Some. intros Hn.
  destruct (Exists_dec (fun key => snapshot_locked health i key now = None) (configured_route_keys w n self px model excl).*2)
    as [(key & Hk & E)%Exists_exists|Hall%not_Exists_Forall].
  - apply list_elem_of_fmap in Hk as ([p k] & -> & (spec & Hr & -> & ->)%in_round_configured). by exists spec.
  - exfalso. apply Hn, mapM_is_Some_2. eapply Forall_impl; [exact Hall|]. intros key Hk.
    by apply not_eq_None_Some.
  - intros key. destruct (snapshot_locked _ _ _ _); [by right|by left].
Qed.

(** Blocked capacity: the error of a round whose snapshot admits none of its routes. *)
Lemma blocked_round_sound w n self px intent excl model d snaps :
  completion_model (pr_registry self) (ii_public_model_id intent) = Some model ->
  let k := (n + length (cm_routes model))%nat in
  let conf := configured_route_keys w n self px model excl in
  conf <> [] -> snapshot_routes (pr_shadow_health self) (w_health w k) conf.*2 (w_now w k) = Some snaps ->
  available_providers_for_model conf snaps = Some (Err d) ->
  error_sound w n self px excl (ii_public_model_id intent) (CapacityUnavailable (ii_public_model_id intent) d).
Proof.
  intros Hm k conf Hne Es Ea.
  assert (Hlen : length conf = length snaps)
    by (apply mapM_Some, Forall2_length in Es; by rewrite length_fmap in Es).
  pose proof (available_providers_outcome conf snaps Hlen) as Hav. rewrite Ea in Hav. destruct Hav as [Hall Hd].
  destruct snaps as [|s0 ss]; [by destruct conf|]. destruct Hd as [Hin Hmin].
  apply list_elem_of_fmap in Hin as (s & -> & Hs). rewrite Forall_forall in Hall, Hmin.
  assert (from_secs 1 <= blocked_hint s /\ blocked_hint s mod from_secs 1 = 0) as [Hd1 Hd2].
  { specialize (Hall s Hs). unfold admits, blocked_hint in *.
    destruct (srs_effective s); try discriminate Hall; apply ceil_retry_after_whole. }
  split_and!; [done..|]. exists model. split; [done|]. right. split.
  - destruct (snapshot_in_round _ _ _ _ _ _ _ _ _ _ s Es Hs) as (spec & Hr & E). by exists spec, s.
  - intros spec Hr. destruct (in_round_snapshot _ _ _ _ _ _ _ _ _ _ spec Es Hr) as (snap & E & Hsn).
    exists snap. split; [done|]. split; [by apply Hall|by apply Hmin].
Qed.

(** One round never panics; it ends in the error that says how, or in a plan for an admitted route. *)
Lemma select_round_spec w n self px intent excl :
  registry_wf (pr_registry self) -> weights_fit (pr_registry self) ->
  exists r self', select_round w n self px intent excl = Some (r, self') /\
    pr_registry self' = pr_registry self /\ pr_shadow_health self' = pr_shadow_health self /\
    match r with
    | Err e => error_sound w n self px excl (ii_public_model_id intent) e
    | Ok plan => exists model spec,
        completion_model (pr_registry self) (ii_public_model_id intent) = Some model /\
        admitted_route w self model excl spec /\
        route_key (rp_selected plan) = spec_route_key spec /\
        ri_public_model_id (rp_selected plan) = ii_public_model_id intent /\
        ri_response_model_id (rp_selected plan) = rs_response_model_id spec
    end.
Proof.
  intros Hwf Hfit. unfold select_round.
  destruct (completion_model (pr_registry self) (ii_public_model_id intent)) as [model|] eqn:Em;
    [|by eexists _, _].
  destruct (completion_model_In _ _ _ Em) as [Hin Hid].
  set (conf := configured_route_keys w n self px model excl).
  destruct conf as [|c0 cs] eqn:Ec.
  { eexists _, _. split; [done|]. split_and!; try done. cbn. split; [done|]. exists model. split; [done|].
    intros spec Hr. apply (not_elem_of_nil (rs_provider spec, spec_route_key spec)). rewrite <- Ec.
    apply in_round_configured. by exists spec. }
  assert (conf <> []) as Hne by (by rewrite Ec). rewrite <- Ec. clear Ec c0 cs.
  set (k := (n + length (cm_routes model))%nat).
  destruct (snapshot_routes _ (w_health w k) conf.*2 (w_now w k)) as [snaps|] eqn:Es.
  2:{ eexists _, _. split; [done|]. split_and!; try done. cbn [error_sound]. split_and!; [done|by vm_compute|by vm_compute|].
      exists model. split; [done|]. left. split; [done|]. by apply no_snapshot_in_round. }
  assert (Hlen : length conf = length snaps)
    by (pose proof Es as Ef; apply mapM_Some, Forall2_length in Ef; by rewrite length_fmap in Ef).
  pose proof (available_providers_outcome conf snaps Hlen) as Hav.
  destruct (available_providers_for_model conf snaps) as [[cps|d]|] eqn:Ea; [| |done]; cbn [mbind option_bind].
  2:{ eexists _, _. split; [done|]. do 2 (split; [done|]). by eapply blocked_round_sound. }
  pose proof (remembered_registry w (S k) self intent) as [Hreg Hhealth].
  destruct (remembered_provider_for w (S k) self intent) as [rem self']. cbn [snd] in Hreg, Hhealth.
  eexists _, _. split; [done|]. split; [done|]. split; [done|]. rewrite Hreg.
  pose proof (plan_completion_route_outcome (pr_registry self) (MkRoutePlanningInput intent cps rem) Hwf) as Hplan.
  cbn [rpi_intent rpi_configured_providers] in Hplan.
  specialize (Hplan ltac:(intros m Hm; rewrite Em in Hm; injection Hm as <-; by apply Hfit)).
  unfold plan_outcome in Hplan. cbn [rpi_intent rpi_configured_providers] in Hplan.
  destruct (plan_completion_route _ _) as [plan|[m|m]]; cbn [map_err provider_routing_error_from_plan].
  - destruct Hplan as (model' & Hm' & _ & r & spec & Hr & Hback & _ & Hp & Hpub & Hpm & Hresp & _).
    rewrite Em in Hm'. injection Hm' as <-. exists model, spec. split; [done|].
    split; [|rewrite Hpub, Hid; unfold route_key, spec_route_key; by rewrite Hp, Hpm].
    destruct Hav as [_ Hav]. pose proof (rb_configured _ _ _ _ _ Hback) as Hc.
    apply Hav, Exists_exists in Hc as ([[p key] snap] & Hz & Hpp & Hadm). cbn in Hpp, Hadm.
    apply list_elem_of_lookup in Hz as [j Hj]. apply lookup_zip_Some in Hj as [Hj1 Hj2].
    pose proof Hj1 as (t & Hround & Htp & Htk)%list_elem_of_lookup_2%in_round_configured.
    pose proof Hround as (i & Ht%list_elem_of_lookup_2 & _ & _ & _ & _ & Hx).
    assert (t = spec) as -> by (eapply (spec_unique _ model); eauto using rb_spec; congruence).
    split; [done|]. split; [done|]. exists k, snap.
    split; [|done]. eapply snapshot_routes_elem; [exact Es| |exact Hj2].
    by rewrite list_lookup_fmap, Hj1, <- Htk.
  - destruct Hplan as [-> ?]. done.
  - exfalso. destruct Hplan as (_ & model' & Hm' & Hnil). rewrite Em in Hm'. injection Hm' as <-.
    destruct Hav as [Hnone Hav]. destruct (contains_some cps Hnone) as [p Hp].
    pose proof Hp as ([[p' key] snap] & Hz & Hpp & _)%Hav%Exists_exists. cbn in Hpp. subst p'.
    apply list_elem_of_lookup in Hz as [j [Hj1 _]%lookup_zip_Some].
    apply list_elem_of_lookup_2, in_round_configured in Hj1 as (spec & Hround & -> & _).
    by apply (takes_part_eligible w n self px excl model spec cps Hround Hp).
Qed.

(** Routes of the model not excluded yet. *)
Definition remaining (model : CompletionModelSpec) excl : nat :=
  length (filter (fun spec => spec_route_key spec ∉ excl) (cm_routes model)).

Lemma remaining_decreases model excl spec :
  spec ∈ cm_routes model -> spec_route_key spec ∉ excl ->
  (remaining model ({[spec_route_key spec]} ∪ excl) < remaining model excl)%nat.
Proof.
  unfold remaining. intros Hin Hex. induction (cm_routes model) as [|r l IH]; [by apply not_elem_of_nil in Hin|].
  rewrite !filter_cons.
  assert (Hle : (length (filter (fun t => spec_route_key t ∉ {[spec_route_key spec]} ∪ excl) l)
    <= length (filter (fun t => spec_route_key t ∉ excl) l))%nat).
  { clear IH Hin. induction l as [|t l IH]; [done|]. rewrite !filter_cons.
    destruct (decide (spec_route_key t ∉ excl)) as [Ht|Ht].
    - case_decide; cbn; lia.
    - rewrite decide_False by set_solver. done. }
  apply elem_of_cons in Hin as [<-|Hin].
  - rewrite decide_False, decide_True by set_solver. cbn. lia.
  - specialize (IH Hin). destruct (decide (spec_route_key r ∉ excl)) as [Hr|Hr].
    + case_decide; cbn; lia.
    + rewrite decide_False by set_solver. done.
Qed.

(** A route whose proxy was gone when it was needed: what a run excludes besides what the caller does. *)
Definition lost_proxy (w : World) self (px : ProxyRouter) (requested : string) (key : RouteKey) : Prop :=
  exists model spec j, completion_model (pr_registry self) requested = Some model /\ spec ∈ cm_routes model
    /\ spec_route_key spec = key /\ proxy_for_provider w j px (rs_provider spec) = None.

(** A selection of an admitted route with the proxy of its provider, or the error of the round that ends the run: the
    first, or one that excludes routes whose proxy was lost. *)
Definition selection_sound (w : World) (n : nat) self (px : ProxyRouter) (intent : InferenceIntent) excl
    (r : result ProviderRoutingError SelectedProviderRoute) : Prop :=
  match r with
  | Err e => exists k excl',
      excl ⊆ excl' /\ (excl' = excl -> k = n) /\
      (forall key, key ∈ excl' -> key ∈ excl \/ lost_proxy w self px (ii_public_model_id intent) key) /\
      error_sound w k self px excl' (ii_public_model_id intent) e
  | Ok sel => exists model spec n,
      completion_model (pr_registry self) (ii_public_model_id intent) = Some model /\
      admitted_route w self model excl spec /\
      sp_provider sel = rs_provider spec /\ sp_provider_model_id sel = rs_provider_model_id spec /\
      sp_response_model_id sel = rs_response_model_id spec /\
      sp_public_model_id sel = ii_public_model_id intent /\
      proxy_for_provider w n px (sp_provider sel) = Some (sp_proxy sel)
  end.

(** What a later round ends in, after one that lost the proxy of its route. *)
Lemma selection_sound_weaken w n n' self self' px intent excl key r :
  pr_registry self' = pr_registry self -> pr_shadow_health self' = pr_shadow_health self ->
  lost_proxy w self px (ii_public_model_id intent) key -> key ∉ excl ->
  selection_sound w n' self' px intent ({[key]} ∪ excl) r -> selection_sound w n self px intent excl r.
Proof.
  unfold selection_sound, admitted_route, lost_proxy, error_sound, in_round, takes_part. intros -> -> Hlost Hkey.
  destruct r as [sel|e].
  - intros (model & spec & j & Hm & (H1 & H2 & H3) & H). exists model, spec, j. split; [done|].
    split; [|done]. split; [done|]. split; [|done]. set_solver.
  - intros (k & excl' & Hsub & _ & Hall & He). exists k, excl'. split; [set_solver|]. split; [intros ->; set_solver|].
    split; [|done]. intros key' [[->%elem_of_singleton|?]%elem_of_union|?]%Hall; [by right|by left|by right].
Qed.

Lemma select_loop_sound fuel w n self px intent excl :
  registry_wf (pr_registry self) -> weights_fit (pr_registry self) ->
  (forall model, completion_model (pr_registry self) (ii_public_model_id intent) = Some model ->
     (remaining model excl < fuel)%nat) -> (0 < fuel)%nat ->
  exists r self', select_health_aware_route_loop fuel w n self px intent excl = Some (r, self') /\
    selection_sound w n self px intent excl r.
Proof.
  revert n self excl. induction fuel as [|fuel IH]; intros n self excl Hwf Hfit Hfuel Hpos; [lia|].
  cbn [select_health_aware_route_loop].
  destruct (select_round_spec w n self px intent excl Hwf Hfit) as (r & self1 & -> & Hreg & Hh & Hr).
  cbn [mbind option_bind]. destruct r as [plan|e].
  2:{ eexists _, _. split; [done|]. exists n, excl. split_and!; [done..|by left|done]. }
  destruct Hr as (model & spec & Hm & Hadm & Hkey & Hpub & Hresp).
  assert (Hsel : ri_provider (rp_selected plan) = rs_provider spec /\
    ri_provider_model_id (rp_selected plan) = rs_provider_model_id spec) by (split; by injection Hkey).
  destruct Hsel as [Hp Hpm].
  destruct (proxy_for_provider w _ px (ri_provider (rp_selected plan))) as [proxy|] eqn:Epx.
  - eexists _, _. split; [done|]. eexists model, spec, _. split; [done|]. split; [done|].
    cbn. split_and!; try done; exact Epx.
  - destruct Hadm as (Hin & Hex & _). rewrite Hkey.
    edestruct (IH (n + round_length self1 intent)%nat self1 ({[spec_route_key spec]} ∪ excl))
      as (r & self2 & E & Hs); [by rewrite Hreg|by rewrite Hreg| | |].
    + intros m Hm'. rewrite Hreg, Hm in Hm'. injection Hm' as <-.
      pose proof (remaining_decreases model excl spec Hin Hex). specialize (Hfuel model Hm). lia.
    + specialize (Hfuel model Hm). pose proof (remaining_decreases model excl spec Hin Hex). lia.
    + exists r, self2. split; [done|].
      eapply (selection_sound_weaken w n _ self self1); [done|done| |exact Hex|exact Hs].
      rewrite Hp in Epx. by eexists model, spec, _.
Qed.

(** C19: Health-aware selection always ends, whatever Maple attestations expire and whatever other
    threads do to route health while it runs: every replan excludes one more route of the model.
    A route it selects belongs to the very model the intent executes, was not excluded by the
    caller, was admitted by a health snapshot of the run, and comes with the proxy of its own
    provider.  An error is that of the first round, or of a later one that excludes besides only routes whose proxy
    was lost, and it says how that round ended: an unknown model; a known one none of whose routes takes part, each
    disabled, without weight, without proxy or excluded; or one some of whose routes take part but none of them is
    admitted by the one snapshot taken.  The retry hint of that last error is the earliest of those routes' recoveries,
    or the documented minimum when a route has no snapshot, and a positive number of whole seconds. *)
Theorem route_selection_total_and_sound w self px intent excl :
  registry_wf (pr_registry self) -> weights_fit (pr_registry self) ->
  exists r self', select_health_aware_route w self px intent excl = Some (r, self') /\
    selection_sound w 0 self px intent excl r.
Proof.
  intros Hwf Hfit. unfold select_health_aware_route.
  apply select_loop_sound; [done|done| |unfold select_fuel; lia].
  intros model Hm. unfold select_fuel. rewrite Hm. cbn [map_or]. unfold remaining.
  pose proof (length_filter (fun spec => spec_route_key spec ∉ excl) (cm_routes model)). lia.
Qed.
End Selection.

(** ** Witness: production, with i02 expiring between the snapshot and the final proxy *)
#[local] Existing Instances ListClru.list_clru ListClru.list_clru_laws.

Lemma production_weights_fit : weights_fit PROVIDER_REGISTRY.
Proof.
  intros m cfg Hm. unfold completion_models, PROVIDER_REGISTRY, COMPLETION_MODELS in Hm.
  repeat (apply elem_of_cons in Hm as [->|Hm]; [destruct cfg as [[] [] [] []]; vm_compute; discriminate|]).
  by apply not_elem_of_nil in Hm.
Qed.

Definition sample_router : ProviderRouter :=
  MkProviderRouter PROVIDER_REGISTRY (Health.new PROVIDER_REGISTRY 1).1 memory_default.

Definition sample_proxies : ProxyRouter :=
  MkProxyRouter (MkProxyConfig "http://continuum" None "continuum") (MkProxyConfig "http://tinfoil" None "tinfoil")
    {[I02 := MkProxyConfig "https://i02" (Some "key") "maple-i02"]} true.

(** i02 is ready while the routes are configured, and no longer when its proxy is fetched. *)
Definition sample_world : World :=
  MkWorld (fun n _ => (n <? 2)%nat) (fun n => Z.of_nat n) (fun _ => (Health.new PROVIDER_REGISTRY 1).2).

Definition deepseek_intent : InferenceIntent :=
  intent_new (MkUuid []) (MkUuid [x07]) DEEPSEEK_V4_1_FLASH_MODEL_ID DEEPSEEK_V4_1_FLASH_MODEL_ID Paid
    Responses Interactive.

Lemma route_selection_total_and_sound_witness :
  exists sel self', select_health_aware_route sample_world sample_router sample_proxies deepseek_intent ∅
      = Some (Ok sel, self') /\
    selection_sound sample_world 0 sample_router sample_proxies deepseek_intent ∅ (Ok sel) /\
    sp_provider sel = Tinfoil.
Proof.
  destruct (route_selection_total_and_sound sample_world sample_router sample_proxies deepseek_intent ∅
    PROVIDER_REGISTRY_wf production_weights_fit) as (r & self' & E & Hs).
  assert (Hp : (fun x => match x.1 with Ok sel => Some (sp_provider sel) | Err _ => None end) <$>
    select_health_aware_route sample_world sample_router sample_proxies deepseek_intent ∅ = Some (Some Tinfoil))
    by (vm_compute; reflexivity).
  rewrite E in Hp. destruct r as [sel|e]; cbn in Hp; [|discriminate Hp].
  exists sel, self'. split; [exact E|]. split; [exact Hs|]. injection Hp as Hp. exact Hp.
Defined.
