(* ===== verification/AutoModel.v ===== *)
(** * Auto model policy: inference/auto_model.rs

    The choice of a model for an Auto selector from one availability snapshot: the tier's
    candidates, the preference order, compatibility of alternates, and what is reported when none
    is eligible.  The decision types are in [Inference], the catalog in [Catalog]. *)
From S2P Require Import Prelude Registry Inference Reasoning Catalog Health Routing.

Definition AUTO_MODEL_POLICY_VERSION : string := "auto-model-v3".

Definition PAID_QUICK_ALTERNATES : list string := [GLM_5_3_FLASH_MODEL_ID].
Definition PAID_POWERFUL_ALTERNATES : list string := [KIMI_K3_MODEL_ID].
Definition FREE_ALTERNATES : list string := [].

Definition auto_model_candidates (mode : ModelSelectionMode) (plan : ModelPlan) : option (list string) :=
  selector ← alias mode;
  let preferred := resolve (for_plan plan) selector in
  alternates ←
    match mode, plan with
    | AutoQuick, Paid => Some PAID_QUICK_ALTERNATES
    | AutoPowerful, Paid => Some PAID_POWERFUL_ALTERNATES
    | _, Free => Some FREE_ALTERNATES
    | Explicit, _ => None
    end;
  Some (preferred :: List.filter (fun c => negb (String.eqb c preferred)) alternates).

(** [AutoModelReason::as_str] *)
Definition reason_as_str (reason : AutoModelReason) : string :=
  match reason with
  | Primary => "primary"
  | RetainedHealthyChoice => "retained_healthy_choice"
  | HealthFallback => "health_fallback"
  end.

Record ExcludedAutoCandidate := MkExcludedAutoCandidate {
  ex_model_id : string;
  ex_rejection : AutoCandidateRejection;
}.

Definition context_overflow (model_id : string) : ExcludedAutoCandidate :=
  MkExcludedAutoCandidate model_id ContextOverflow.

Definition unavailable (model_id : string) (retry_after : option Duration) : ExcludedAutoCandidate :=
  MkExcludedAutoCandidate model_id (Unavailable (default MIN_CAPACITY_COOLDOWN retry_after)).

(** ** Requirements

    [exact] is a closure: its [n]-th call returns [exact n]. *)
Inductive PromptTokenEstimate :=
| KnownTokens (tokens : Z)
| Bounded (upper_bound : Z) (exact : nat -> Z).

Record AutoModelRequirements := MkAutoModelRequirements {
  req_vision : bool;
  req_kimi_tool_history_compatible : bool;
  req_prompt_tokens : PromptTokenEstimate;
}.

Record AutoModelSelectionInput := MkAutoModelSelectionInput {
  in_mode : ModelSelectionMode;
  in_plan : ModelPlan;
  in_sticky_model_id : option string;
  in_excluded : option ExcludedAutoCandidate;
  in_requirements : AutoModelRequirements;
  in_availability : string -> ModelAvailability;
}.

Inductive AutoModelError :=
| NotAuto
| PreferredModelDenied
| PreferredModelNotConfigured
| NoEligibleCandidate (selector preferred_model_id : string) (retry_after : option Duration)
    (rejected : list (string * AutoCandidateRejection)).

(** The [OnceCell] of exact tokens, with the number of calls made to the closure. *)
Record ExactTokens := MkExactTokens {
  et_cell : option Z;
  et_calls : nat;
}.

Definition cell_new : ExactTokens := MkExactTokens None 0.

Definition get_or_init (cell : ExactTokens) (f : nat -> Z) : Z * ExactTokens :=
  match et_cell cell with
  | Some v => (v, cell)
  | None => let v := f (et_calls cell) in (v, MkExactTokens (Some v) (S (et_calls cell)))
  end.

(** ** Operations *)

Definition incompatible_alternate (candidate : string) (preferred_window : Z)
    (requirements : AutoModelRequirements) (exact_tokens : ExactTokens)
    : option AutoCandidateRejection * ExactTokens :=
  match model_capabilities candidate with
  | None => (Some NotConfigured, exact_tokens)
  | Some capabilities =>
      if req_vision requirements && negb (mc_vision capabilities)
      then (Some IncompatibleVision, exact_tokens)
      else if model_uses_kimi_tool_call_ids candidate
              && negb (req_kimi_tool_history_compatible requirements)
      then (Some IncompatibleToolHistory, exact_tokens)
      else
        let candidate_window := model_context_window candidate in
        if candidate_window <? preferred_window then
          let check required :=
            if candidate_window <=? required
            then Some (IncompatibleContext required candidate_window) else None in
          match req_prompt_tokens requirements with
          | KnownTokens tokens => (check tokens, exact_tokens)
          | Bounded upper_bound exact =>
              if upper_bound <? candidate_window then (None, exact_tokens)
              else
                let '(required, exact_tokens) := get_or_init exact_tokens exact in
                (check required, exact_tokens)
          end
        else (None, exact_tokens)
  end.

(** The remembered model, when it is an alternate this attempt may still use. *)
Definition sticky_candidate (input : AutoModelSelectionInput) (preferred : string)
    (candidates : list string) : option string :=
  let excluded_model := ex_model_id <$> in_excluded input in
  sticky ← in_sticky_model_id input;
  sticky ← find (fun c => String.eqb c sticky) candidates;
  if negb (String.eqb sticky preferred) && negb (bool_decide (Some sticky = excluded_model))
  then Some sticky else None.

(** The candidates with their reasons, in the order they are tried. *)
Definition ordered_candidates (input : AutoModelSelectionInput) (preferred : string)
    (candidates : list string) : list (string * AutoModelReason) :=
  let sticky := sticky_candidate input preferred candidates in
  map_or [] (fun sticky => [(sticky, RetainedHealthyChoice)]) sticky
  ++ [(preferred, Primary)]
  ++ ((fun c => (c, HealthFallback)) <$>
        List.filter (fun c => negb (String.eqb c preferred) && negb (bool_decide (Some c = sticky)))
          candidates).

(** What the excluded candidate contributes up front. *)
Definition excluded_entry (input : AutoModelSelectionInput) (candidates : list string)
    : list (string * AutoCandidateRejection) * option Duration :=
  match in_excluded input with
  | None => ([], None)
  | Some excluded =>
      match find (fun c => String.eqb c (ex_model_id excluded)) candidates with
      | None => ([], None)
      | Some candidate =>
          ([(candidate, ex_rejection excluded)],
           match ex_rejection excluded with
           | Unavailable retry_after => earliest None retry_after
           | _ => None
           end)
      end
  end.

(** The loop over the ordered candidates: the one chosen, or the earliest recovery; with what was
    rejected and the token cell. *)
Fixpoint select_auto_loop (input : AutoModelSelectionInput) (preferred : string)
    (ordered : list (string * AutoModelReason)) (rejected : list (string * AutoCandidateRejection))
    (earliest_recovery : option Duration) (exact_tokens : ExactTokens)
    : result (option Duration) (string * AutoModelReason)
      * list (string * AutoCandidateRejection) * ExactTokens :=
  match ordered with
  | [] => (Err earliest_recovery, rejected, exact_tokens)
  | (candidate, reason) :: ordered =>
      if bool_decide (Some candidate = ex_model_id <$> in_excluded input)
      then select_auto_loop input preferred ordered rejected earliest_recovery exact_tokens
      else
        match in_availability input candidate with
        | AvailabilityUnavailable retry_after =>
            select_auto_loop input preferred ordered
              (rejected ++ [(candidate, Unavailable retry_after)])
              (earliest earliest_recovery retry_after) exact_tokens
        | AvailabilityNotConfigured =>
            select_auto_loop input preferred ordered (rejected ++ [(candidate, NotConfigured)])
              earliest_recovery exact_tokens
        | Available _ =>
            if negb (String.eqb candidate preferred) then
              if negb (allows_model (in_plan input) candidate)
              then select_auto_loop input preferred ordered (rejected ++ [(candidate, PlanDenied)])
                     earliest_recovery exact_tokens
              else
                let '(incompatible, exact_tokens) :=
                  incompatible_alternate candidate (model_context_window preferred)
                    (in_requirements input) exact_tokens in
                match incompatible with
                | Some rejection =>
                    select_auto_loop input preferred ordered (rejected ++ [(candidate, rejection)])
                      earliest_recovery exact_tokens
                | None => (Ok (candidate, reason), rejected, exact_tokens)
                end
            else (Ok (candidate, reason), rejected, exact_tokens)
        end
  end.

(** The decision with the number of calls made to the [exact] closure. *)
Definition select_auto_model (input : AutoModelSelectionInput)
    : result AutoModelError AutoModelDecision * nat :=
  match alias (in_mode input), auto_model_candidates (in_mode input) (in_plan input) with
  | Some selector, Some ((preferred :: _) as candidates) =>
      if negb (allows_model (in_plan input) preferred) then (Err PreferredModelDenied, 0%nat)
      else
        match in_availability input preferred with
        | AvailabilityNotConfigured => (Err PreferredModelNotConfigured, 0%nat)
        | _ =>
            let '(rejected, recovery) := excluded_entry input candidates in
            let '(chosen, rejected, exact_tokens) :=
              select_auto_loop input preferred (ordered_candidates input preferred candidates)
                rejected recovery cell_new in
            (match chosen with
             | Ok (candidate, reason) =>
                 Ok (MkAutoModelDecision selector preferred candidate reason rejected
                       AUTO_MODEL_POLICY_VERSION)
             | Err retry_after =>
                 Err (NoEligibleCandidate selector preferred retry_after rejected)
             end, et_calls exact_tokens)
        end
  | _, _ => (Err NotAuto, 0%nat)
  end.

(** What an alias publishes: [alias_reasoning] of model_config.rs. *)
Definition intersect_loop : list string -> ModelReasoning -> option ModelReasoning :=
  fix loop candidates reasoning :=
    match candidates with
    | [] => Some reasoning
    | candidate :: candidates =>
        other ← model_reasoning candidate; loop candidates (intersect reasoning other)
    end.

Definition alias_reasoning (alias : string) (plan : ModelPlan) : option ModelReasoning :=
  candidates ← auto_model_candidates (from_requested_model alias) plan;
  match candidates with
  | [] => None
  | candidate :: candidates =>
      reasoning ← model_reasoning candidate; intersect_loop candidates reasoning
  end.

(** ** The policy, stated without the loop

    [rejection_of] judges one candidate alone, with a fresh token cell; [rank] and [reason_for]
    say where it stands in the preference order. *)

Definition rejection_of (input : AutoModelSelectionInput) (preferred c : string)
    : option AutoCandidateRejection :=
  match in_availability input c with
  | AvailabilityUnavailable d => Some (Unavailable d)
  | AvailabilityNotConfigured => Some NotConfigured
  | Available _ =>
      if String.eqb c preferred then None
      else if negb (allows_model (in_plan input) c) then Some PlanDenied
      else (incompatible_alternate c (model_context_window preferred) (in_requirements input) cell_new).1
  end.

Definition is_excluded (input : AutoModelSelectionInput) (c : string) : bool :=
  bool_decide (Some c = ex_model_id <$> in_excluded input).

Definition rank (sticky : option string) (preferred c : string) : nat :=
  if bool_decide (Some c = sticky) then 0 else if String.eqb c preferred then 1 else 2.

Definition reason_for (sticky : option string) (preferred c : string) : AutoModelReason :=
  if bool_decide (Some c = sticky) then RetainedHealthyChoice
  else if String.eqb c preferred then Primary else HealthFallback.

(** The candidates that are tried, with the verdict on each that is turned down. *)
Definition verdicts (input : AutoModelSelectionInput) (preferred : string)
    (ordered : list (string * AutoModelReason)) : list (string * AutoCandidateRejection) :=
  omap (fun x => if is_excluded input x.1 then None else pair x.1 <$> rejection_of input preferred x.1)
    ordered.

Definition recovery_hints (rejected : list (string * AutoCandidateRejection)) : list Duration :=
  omap (fun x => match x.2 with Unavailable d => Some d | _ => None end) rejected.

(** ** The token cell *)

Definition cell_ok (requirements : AutoModelRequirements) (cell : ExactTokens) : Prop :=
  cell = cell_new \/
  exists ub exact, req_prompt_tokens requirements = Bounded ub exact
    /\ cell = MkExactTokens (Some (exact 0%nat)) 1.

Lemma cell_ok_calls req cell : cell_ok req cell -> (et_calls cell <= 1)%nat.
Proof. intros [->|(ub & exact & _ & ->)]; simpl; lia. Qed.

(** Sharing the cell between candidates does not change the verdict on any. *)
Lemma incompatible_cell c w req cell :
  cell_ok req cell ->
  (incompatible_alternate c w req cell).1 = (incompatible_alternate c w req cell_new).1
  /\ cell_ok req (incompatible_alternate c w req cell).2.
Proof.
  intros Hok. unfold incompatible_alternate.
  destruct (model_capabilities c) as [caps|]; [|done].
  destruct (req_vision req && _); [done|]. destruct (_ && negb _); [done|].
  destruct (_ <? w); [|done]. destruct (req_prompt_tokens req) as [t|ub exact] eqn:E; [done|].
  destruct (ub <? _); [done|].
  destruct Hok as [->|(ub' & exact' & E' & ->)]; simpl.
  - split; [done|]. right. by exists ub, exact.
  - rewrite E in E'. injection E' as <- <-. split; [done|]. right. by exists ub, exact.
Qed.

(** An alternate is never turned down by its requirements for being unavailable. *)
Lemma incompatible_not_unavailable c w req cell d :
  (incompatible_alternate c w req cell).1 <> Some (Unavailable d).
Proof.
  unfold incompatible_alternate. destruct (model_capabilities c); [|done].
  destruct (req_vision req && _); [done|]. destruct (_ && negb _); [done|].
  destruct (_ <? w); [|done]. destruct (req_prompt_tokens req); [simpl; by case_match|].
  destruct (_ <? _); [done|]. destruct (get_or_init _ _). simpl. by case_match.
Qed.

(** ** The loop *)

Definition recovery_step (recovery : option Duration) (rejection : AutoCandidateRejection)
    : option Duration :=
  match rejection with Unavailable d => earliest recovery d | _ => recovery end.

Lemma select_auto_loop_step input preferred c r ordered rejected rec cell :
  cell_ok (in_requirements input) cell ->
  exists cell', cell_ok (in_requirements input) cell' /\
    select_auto_loop input preferred ((c, r) :: ordered) rejected rec cell =
      if is_excluded input c then select_auto_loop input preferred ordered rejected rec cell'
      else match rejection_of input preferred c with
           | Some rejection =>
               select_auto_loop input preferred ordered (rejected ++ [(c, rejection)])
                 (recovery_step rec rejection) cell'
           | None => (Ok (c, r), rejected, cell')
           end.
Proof.
  intros Hok. cbn [select_auto_loop]. unfold is_excluded, rejection_of.
  destruct (bool_decide _); [by exists cell|].
  destruct (in_availability input c); [|by exists cell..].
  destruct (String.eqb c preferred); simpl; [by exists cell|].
  destruct (allows_model (in_plan input) c); simpl; [|by exists cell].
  pose proof (incompatible_cell c (model_context_window preferred) _ _ Hok) as [<- Hok'].
  pose proof (incompatible_not_unavailable c (model_context_window preferred) (in_requirements input) cell)
    as Hun.
  destruct (incompatible_alternate _ _ _ cell) as [[rej|] cell']; simpl in *; exists cell'; [|done].
  split; [done|]. destruct rej as [| |d| | | |]; simpl; try done. by destruct (Hun d).
Qed.

Definition turned_down (input : AutoModelSelectionInput) (preferred c : string) : Prop :=
  is_excluded input c = true \/ is_Some (rejection_of input preferred c).

Lemma select_auto_loop_spec input preferred ordered rejected rec cell :
  cell_ok (in_requirements input) cell ->
  match select_auto_loop input preferred ordered rejected rec cell with
  | (chosen, rejected', cell') =>
      cell_ok (in_requirements input) cell' /\
      match chosen with
      | Ok (c, r) =>
          exists before after, ordered = before ++ (c, r) :: after
            /\ is_excluded input c = false /\ rejection_of input preferred c = None
            /\ Forall (turned_down input preferred) before.*1
            /\ rejected' = rejected ++ verdicts input preferred before
      | Err rec' =>
          Forall (turned_down input preferred) ordered.*1
            /\ rejected' = rejected ++ verdicts input preferred ordered
            /\ rec' = fold_left earliest (recovery_hints (verdicts input preferred ordered)) rec
      end
  end.
Proof.
  revert rejected rec cell. induction ordered as [|[c r] ordered IH]; intros rejected rec cell Hok.
  { simpl. rewrite app_nil_r. by split_and!. }
  destruct (select_auto_loop_step input preferred c r ordered rejected rec cell Hok) as (cell' & Hok' & ->).
  destruct (is_excluded input c) eqn:Hex.
  - specialize (IH rejected rec cell' Hok'). destruct (select_auto_loop _ _ _ _ _ _) as [[[[c' r']|rec'] rej'] cl]; revgoals.
    + destruct IH as (? & Hall & -> & ->). cbn. rewrite Hex. split_and!; try done. constructor; [by left|done].
    + destruct IH as (? & before & after & -> & ? & ? & Hall & ->). split; [done|].
      exists ((c, r) :: before), after. cbn. rewrite Hex. split_and!; try done. constructor; [by left|done].
  - destruct (rejection_of input preferred c) as [rej|] eqn:Hrej; last first.
    { split; [done|]. exists [], ordered. rewrite app_nil_r. by split_and!. }
    specialize (IH (rejected ++ [(c, rej)]) (recovery_step rec rej) cell' Hok').
    destruct (select_auto_loop _ _ _ _ _ _) as [[[[c' r']|rec'] rej'] cl]; revgoals.
    + destruct IH as (? & Hall & -> & ->). cbn. rewrite Hex, Hrej. cbn. rewrite <-app_assoc.
      split_and!; try done; [constructor; [right; by exists rej|done]|]. by destruct rej.
    + destruct IH as (? & before & after & -> & ? & ? & Hall & ->). split; [done|].
      exists ((c, r) :: before), after. cbn. rewrite Hex, Hrej, <-app_assoc.
      split_and!; try done. constructor; [right; by exists rej|done].
Qed.

(** ** The preference order *)

Lemma auto_model_candidates_cases mode plan candidates :
  auto_model_candidates mode plan = Some candidates ->
  exists preferred alternates, candidates = preferred :: alternates /\ NoDup candidates
    /\ (alternates = [] \/ exists alternate, alternates = [alternate]).
Proof.
  destruct mode, plan; intros H; vm_compute in H; try discriminate H; injection H as <-;
    (eexists _, _; split; [reflexivity|]; split; [apply (bool_decide_unpack _); vm_compute; exact I|]);
    solve [by left | right; eexists; reflexivity].
Qed.

Lemma StronglySorted_pair {A} (R : A -> A -> Prop) x y : R x y -> StronglySorted R [x; y].
Proof. intros H. repeat constructor. done. Qed.

Lemma ordered_candidates_spec input preferred alternates :
  NoDup (preferred :: alternates) -> alternates = [] \/ (exists alternate, alternates = [alternate]) ->
  let candidates := preferred :: alternates in
  let sticky := sticky_candidate input preferred candidates in
  let ordered := ordered_candidates input preferred candidates in
  ordered.*1 ≡ₚ candidates
  /\ StronglySorted (fun x y => (rank sticky preferred x.1 <= rank sticky preferred y.1)%nat) ordered
  /\ Forall (fun x => x.2 = reason_for sticky preferred x.1) ordered.
Proof.
  intros Hnd Halt candidates sticky ordered.
  assert (sticky = None \/ exists s, sticky = Some s /\ s <> preferred /\ In s candidates) as Hst.
  { subst sticky. unfold sticky_candidate. destruct (in_sticky_model_id input) as [m|]; [|by left].
    cbn [mbind option_bind]. destruct (find _ _) as [s|] eqn:E; [|by left]. cbn [mbind option_bind]. apply find_some in E as [Hin _].
    destruct (String.eqb_spec s preferred); [by left|]. destruct (bool_decide _); [by left|].
    right. by exists s. }
  assert (rank sticky preferred preferred = 1%nat /\ reason_for sticky preferred preferred = Primary)
    as [Hrp Hfp].
  { unfold rank, reason_for. rewrite String.eqb_refl, bool_decide_false; [done|].
    destruct Hst as [->|(s & -> & Hne & _)]; [done|]. intros [= Heq]. by destruct Hne. }
  subst ordered. unfold ordered_candidates. fold sticky. subst candidates.
  destruct Halt as [->|[alt ->]].
  - assert (sticky = None) as ->.
    { destruct Hst as [->|(s & -> & Hne & [Heq|[]])]; [done|]. by destruct Hne. }
    cbn. rewrite String.eqb_refl. cbn. split_and!; [done|by repeat constructor|].
    by constructor; [|constructor].
  - assert (String.eqb alt preferred = false) as Ha 
      by (apply String.eqb_neq; intros ->; apply NoDup_cons in Hnd as [[] _]; by constructor).
    destruct Hst as [->|(s & -> & Hne & [|[<-|[]]])]; [|done|];
      cbn [List.filter]; rewrite String.eqb_refl, Ha; cbn [negb andb].
    + assert (rank None preferred alt = 2%nat /\ reason_for None preferred alt = HealthFallback) as [Hra Hfa]
        by (unfold rank, reason_for; by rewrite Ha).
      cbn. split_and!; [done|apply StronglySorted_pair; cbn; lia|by repeat constructor].
    + assert (rank (Some alt) preferred alt = 0%nat
              /\ reason_for (Some alt) preferred alt = RetainedHealthyChoice) as [Hra Hfa]
        by (unfold rank, reason_for; by rewrite bool_decide_true).
      rewrite bool_decide_true by done. cbn.
      split_and!; [constructor|apply StronglySorted_pair; cbn; lia|by repeat constructor].
Qed.

(** ** What is reported *)

Lemma elem_of_verdicts input preferred ordered c rej :
  (c, rej) ∈ verdicts input preferred ordered <->
  c ∈ ordered.*1 /\ is_excluded input c = false /\ rejection_of input preferred c = Some rej.
Proof.
  unfold verdicts. rewrite list_elem_of_omap. split.
  - intros ([c' r] & Hin & H). cbn in H. destruct (is_excluded input c') eqn:E; [done|].
    destruct (rejection_of input preferred c') eqn:E'; simplify_eq/=. split_and!; [|done..].
    apply list_elem_of_fmap. by exists (c, r).
  - intros ([[c' r] [-> Hin]]%list_elem_of_fmap & Hex & Hrej). cbn in *.
    exists (c', r). split; [done|]. cbn. by rewrite Hex, Hrej.
Qed.

Lemma elem_of_recovery_hints rejected d :
  d ∈ recovery_hints rejected <-> exists c, (c, Unavailable d) ∈ rejected.
Proof.
  unfold recovery_hints. rewrite list_elem_of_omap. split.
  - intros ([c rej] & Hin & H). destruct rej; simplify_eq/=. by exists c.
  - intros [c Hin]. by exists (c, Unavailable d).
Qed.

Lemma fold_earliest_none l :
  match fold_left earliest l None with
  | None => l = []
  | Some d => d ∈ l /\ forall d', d' ∈ l -> d <= d'
  end.
Proof.
  destruct l as [|d l]; [done|]. change (fold_left earliest (d :: l) None) with (fold_left earliest l (Some d)).
  destruct (fold_left earliest l _) as [r|] eqn:E.
  - destruct (fold_earliest_in _ _ _ E) as (H1 & H2 & H3). rewrite List.Forall_forall in H3.
    split; [set_solver|]. intros d' [->|Hd']%elem_of_cons; [done|]. by apply H3, list_elem_of_In.
  - destruct (fold_earliest_some l d) as [r Hr]. congruence.
Qed.

Lemma excluded_entry_spec input candidates :
  let '(entry, recovery) := excluded_entry input candidates in
  recovery = fold_left earliest (recovery_hints entry) None
  /\ forall c rej, (c, rej) ∈ entry <->
       c ∈ candidates /\ exists ex, in_excluded input = Some ex /\ c = ex_model_id ex /\ rej = ex_rejection ex.
Proof.
  unfold excluded_entry. destruct (in_excluded input) as [ex|]; last first.
  { split; [done|]. intros c rej. split; [by intros ?%not_elem_of_nil|by intros (_ & ex & ? & _)]. }
  destruct (find _ candidates) as [c|] eqn:E.
  - apply find_some in E as [Hin ->%String.eqb_eq]. split; [by destruct (ex_rejection ex)|].
    intros c rej. rewrite list_elem_of_singleton. split.
    + intros [= -> ->]. split; [by apply list_elem_of_In|by exists ex].
    + by intros (_ & ? & [= <-] & -> & ->).
  - split; [done|]. intros c rej. split; [by intros ?%not_elem_of_nil|].
    intros (Hin & ? & [= <-] & -> & _). apply list_elem_of_In in Hin.
    apply find_none with (x := ex_model_id ex) in E; [|done]. by rewrite String.eqb_refl in E.
Qed.

(** Why a rejected candidate was rejected: the cause the earlier attempt recorded for the excluded
    one, the verdict on the candidate alone for the others. *)
Definition rejection_cause (input : AutoModelSelectionInput) (preferred c : string)
    : option AutoCandidateRejection :=
  if is_excluded input c then ex_rejection <$> in_excluded input
  else rejection_of input preferred c.

Lemma elem_of_rejected input preferred candidates ordered c rej :
  ordered.*1 ⊆ candidates ->
  (c, rej) ∈ (excluded_entry input candidates).1 ++ verdicts input preferred ordered <->
  rejection_cause input preferred c = Some rej
  /\ if is_excluded input c then c ∈ candidates else c ∈ ordered.*1.
Proof.
  intros Hsub. rewrite elem_of_app, elem_of_verdicts. unfold rejection_cause.
  pose proof (excluded_entry_spec input candidates) as Hentry.
  destruct (excluded_entry _ _) as [entry recovery]. destruct Hentry as [_ Hentry]. cbn [fst].
  rewrite Hentry. unfold is_excluded. destruct (in_excluded input) as [ex|]; cbn.
  - case_bool_decide as Hc.
    + injection Hc as ->. split.
      * intros [(Hin & ? & [= <-] & _ & ->)|(_ & ? & _)]; [done|done].
      * intros [[= <-] Hin]. left. split; [done|]. by exists ex.
    + split; [|tauto]. intros [(_ & ? & [= <-] & -> & _)|?]; [done|tauto].
  - split; [|tauto]. intros [(_ & ? & ? & _)|?]; [done|tauto].
Qed.

(** ** The policy *)

Lemma alias_candidates mode plan :
  is_Some (auto_model_candidates mode plan) <-> is_Some (alias mode).
Proof. destruct mode, plan; (split; intros [? H]; try discriminate H; by eexists). Qed.

Lemma turned_down_cause input preferred c :
  turned_down input preferred c -> is_Some (rejection_cause input preferred c).
Proof.
  unfold turned_down, rejection_cause, is_excluded. destruct (in_excluded input) as [ex|]; simpl.
  - case_bool_decide; [by eexists|]. intros [|]; done.
  - intros [|]; done.
Qed.

(** What precedes an element of a list sorted by rank includes everything of smaller rank. *)
Lemma smaller_rank_before {A} (f : A -> nat) before x after y :
  StronglySorted (fun a b => (f a <= f b)%nat) (before ++ x :: after) ->
  y ∈ before ++ x :: after -> (f y < f x)%nat -> y ∈ before.
Proof.
  intros Hsort Hin Hlt. apply elem_of_app in Hin as [|[->|Hin]%elem_of_cons]; [done|lia|].
  exfalso. induction before as [|z before IH]; apply StronglySorted_inv in Hsort as [Hs Hall]; [|by apply IH].
  rewrite List.Forall_forall in Hall. apply list_elem_of_In in Hin. specialize (Hall y Hin). lia.
Qed.

Lemma recovery_hint_minimal rejected :
  match fold_left earliest (recovery_hints rejected) None with
  | None => forall c d, (c, Unavailable d) ∉ rejected
  | Some d => (exists c, (c, Unavailable d) ∈ rejected)
              /\ forall c d', (c, Unavailable d') ∈ rejected -> d <= d'
  end.
Proof.
  pose proof (fold_earliest_none (recovery_hints rejected)) as H.
  destruct (fold_left earliest _ None) as [d|].
  - destruct H as [Hin Hmin]. split; [by apply elem_of_recovery_hints|].
    intros c d' Hd. apply Hmin, elem_of_recovery_hints. by exists c.
  - intros c d Hin. assert (d ∈ recovery_hints rejected) as Hd by (apply elem_of_recovery_hints; by exists c).
    rewrite H in Hd. by apply not_elem_of_nil in Hd.
Qed.

(** The loop, started from the excluded candidate's entry, over the preference order. *)
Lemma auto_loop_outcome input preferred alternates :
  NoDup (preferred :: alternates) -> alternates = [] \/ (exists alternate, alternates = [alternate]) ->
  let candidates := preferred :: alternates in
  let sticky := sticky_candidate input preferred candidates in
  let caused rejected := forall c rej, (c, rej) ∈ rejected ->
    c ∈ candidates /\ rejection_cause input preferred c = Some rej in
  let '(entry, recovery) := excluded_entry input candidates in
  let '(chosen, rejected, cell) :=
    select_auto_loop input preferred (ordered_candidates input preferred candidates) entry recovery
      cell_new in
  (et_calls cell <= 1)%nat /\ caused rejected /\
  match chosen with
  | Ok (c, r) =>
      c ∈ candidates /\ is_excluded input c = false /\ rejection_of input preferred c = None
      /\ r = reason_for sticky preferred c
      /\ forall c', c' ∈ candidates -> (rank sticky preferred c' < rank sticky preferred c)%nat ->
           turned_down input preferred c'
  | Err retry_after =>
      (forall c, c ∈ candidates -> c ∈ rejected.*1)
      /\ retry_after = fold_left earliest (recovery_hints rejected) None
  end.
Proof.
  intros Hnd Halt candidates sticky caused.
  destruct (ordered_candidates_spec input preferred alternates Hnd Halt) as (Hperm & Hsort & Hreason).
  fold candidates sticky in Hperm, Hsort, Hreason.
  pose proof (elem_of_rejected input preferred candidates) as Hrejected.
  pose proof (excluded_entry_spec input candidates) as Hentry.
  destruct (excluded_entry input candidates) as [entry recovery]. destruct Hentry as [-> _].
  pose proof (select_auto_loop_spec input preferred (ordered_candidates input preferred candidates) entry
    (fold_left earliest (recovery_hints entry) None) cell_new (or_introl eq_refl)) as Hloop.
  cbn [fst] in Hrejected. generalize dependent (ordered_candidates input preferred candidates).
  intros ordered Hperm Hsort Hreason Hloop.
  assert (Hcaused : forall l, l.*1 ⊆ candidates -> caused (entry ++ verdicts input preferred l)).
  { intros l Hsub c rej Hin. apply Hrejected in Hin as [Hc Hin]; [|done]. split; [|done].
    destruct (is_excluded input c); [done|by apply Hsub]. }
  assert (Hsub : ordered.*1 ⊆ candidates) by (intros c; by rewrite Hperm).
  destruct (select_auto_loop _ _ _ _ _ _) as [[[[c r]|retry] rejected] cell];
    destruct Hloop as [Hcell Hloop]; (split; [by apply cell_ok_calls in Hcell|]).
  - destruct Hloop as (before & after & -> & Hex & Hrej & Hdown & ->).
    rewrite fmap_app in Hsub, Hperm. split; [apply Hcaused; set_solver|].
    split; [rewrite <-Hperm; set_solver|]. split; [done|]. split; [done|]. split.
    + rewrite List.Forall_forall in Hreason. apply (Hreason (c, r)), list_elem_of_In. set_solver.
    + intros c' Hc' Hlt. rewrite Forall_forall in Hdown. apply Hdown.
      rewrite <-Hperm, <-(fmap_app _ before ((c, r) :: after)) in Hc'.
      apply list_elem_of_fmap in Hc' as ([c0 r0] & -> & Hin).
      apply list_elem_of_fmap. exists (c0, r0). split; [done|].
      by apply (smaller_rank_before (fun x => rank sticky preferred x.1) before (c, r) after).
  - destruct Hloop as (Hdown & -> & ->). split; [by apply Hcaused|]. split.
    + intros c Hc. rewrite <-Hperm in Hc. rewrite Forall_forall in Hdown.
      destruct (turned_down_cause _ _ _ (Hdown c Hc)) as [rej Hrej].
      apply list_elem_of_fmap. exists (c, rej). split; [done|].
      apply Hrejected; [done|]. split; [done|]. destruct (is_excluded input c); [|done]. by apply Hsub.
    + unfold recovery_hints. by rewrite omap_app, fold_left_app.
Qed.

(** C21: the Auto policy.  A decision takes the first candidate in preference order (the account's
    remembered alternate, then the preferred model, then the other alternates) that is neither
    excluded by an earlier attempt nor turned down on its own; its reason is the one its place in
    that order gives, and every rejection it lists is the true cause.  Failure means every candidate
    was excluded or turned down, and each is listed with its cause; the retry hint is the smallest
    one among the candidates that are only unavailable, and is absent exactly when there is none.
    The preferred model's entitlement and configuration are checked first, and the exact token
    count is computed at most once. *)
Theorem auto_model_policy (input : AutoModelSelectionInput) :
  let '(outcome, exact_calls) := select_auto_model input in
  (exact_calls <= 1)%nat /\
  match alias (in_mode input), auto_model_candidates (in_mode input) (in_plan input) with
  | Some selector, Some ((preferred :: _) as candidates) =>
      let sticky := sticky_candidate input preferred candidates in
      let allowed := allows_model (in_plan input) preferred in
      let configured := in_availability input preferred <> AvailabilityNotConfigured in
      let caused rejected := forall c rej, (c, rej) ∈ rejected ->
        c ∈ candidates /\ rejection_cause input preferred c = Some rej in
      match outcome with
      | Ok d =>
          allowed = true /\ configured
          /\ amd_selector d = selector /\ amd_preferred_model_id d = preferred
          /\ amd_policy_version d = AUTO_MODEL_POLICY_VERSION
          /\ amd_chosen_model_id d ∈ candidates
          /\ is_excluded input (amd_chosen_model_id d) = false
          /\ rejection_of input preferred (amd_chosen_model_id d) = None
          /\ amd_reason d = reason_for sticky preferred (amd_chosen_model_id d)
          /\ (forall c, c ∈ candidates ->
                (rank sticky preferred c < rank sticky preferred (amd_chosen_model_id d))%nat ->
                turned_down input preferred c)
          /\ caused (amd_rejected d)
      | Err (NoEligibleCandidate s p retry_after rejected) =>
          allowed = true /\ configured /\ s = selector /\ p = preferred
          /\ caused rejected /\ (forall c, c ∈ candidates -> c ∈ rejected.*1)
          /\ match retry_after with
             | None => forall c d, (c, Unavailable d) ∉ rejected
             | Some d => (exists c, (c, Unavailable d) ∈ rejected)
                         /\ forall c d', (c, Unavailable d') ∈ rejected -> d <= d'
             end
      | Err PreferredModelDenied => allowed = false
      | Err PreferredModelNotConfigured => allowed = true /\ ~ configured
      | Err NotAuto => False
      end
  | _, _ => in_mode input = Explicit /\ outcome = Err NotAuto
  end.
Proof.
  unfold select_auto_model.
  pose proof (alias_candidates (in_mode input) (in_plan input)) as Hsome.
  destruct (alias (in_mode input)) as [selector|] eqn:Hal; last first.
  { split; [simpl; lia|]. by destruct (in_mode input). }
  destruct (auto_model_candidates _ _) as [candidates|] eqn:Hcand; last first.
  { destruct (proj2 Hsome) as [? H]; [by eexists|done]. }
  destruct (auto_model_candidates_cases _ _ _ Hcand) as (preferred & alternates & -> & Hnd & Halt).
  pose proof (auto_loop_outcome input preferred alternates Hnd Halt) as Hout. cbn zeta in Hout |- *.
  destruct (allows_model (in_plan input) preferred); cbn [negb]; [|by split; [lia|]].
  destruct (excluded_entry _ _) as [entry recovery].
  destruct (select_auto_loop _ _ _ _ _ _) as [[chosen rejected] cell].
  destruct (in_availability input preferred); [| |split; [simpl; lia|tauto]];
    destruct Hout as (Hcalls & Hcaused & Hout); split; try done;
    destruct chosen as [[c r]|retry]; cbn; (split; [done|]; split; [done|]).
  1, 3: by destruct Hout as (? & ? & ? & ? & ?); split_and!.
  all: destruct Hout as [Hall ->]; split_and!; try done; apply recovery_hint_minimal.
Qed.

(** A decision never returns to the excluded model, and is one of the tier's candidates. *)
Lemma select_auto_sound input d calls :
  select_auto_model input = (Ok d, calls) ->
  is_excluded input (amd_chosen_model_id d) = false
  /\ exists candidates, auto_model_candidates (in_mode input) (in_plan input) = Some candidates
       /\ amd_chosen_model_id d ∈ candidates.
Proof.
  unfold select_auto_model. destruct (alias (in_mode input)) as [selector|]; [|done].
  destruct (auto_model_candidates _ _) as [candidates|] eqn:Hcand; [|done].
  destruct (auto_model_candidates_cases _ _ _ Hcand) as (preferred & alternates & -> & Hnd & Halt).
  pose proof (auto_loop_outcome input preferred alternates Hnd Halt) as Hout. cbn zeta in Hout |- *.
  destruct (negb _); [done|]. destruct (excluded_entry _ _) as [entry recovery].
  destruct (select_auto_loop _ _ _ _ _ _) as [[chosen rejected] cell].
  destruct Hout as (_ & _ & Hout).
  destruct (in_availability input preferred); [| |done];
    (destruct chosen as [[c r]|]; [|done]; intros [= <- _]; cbn;
     destruct Hout as (Hin & Hex & _); split; [done|]; by eexists).
Qed.

(** ** Alias reasoning *)

Lemma intersect_loop_spec candidates r :
  match intersect_loop candidates r with
  | None => exists c, c ∈ candidates /\ model_reasoning c = None
  | Some r' =>
      (forall c, c ∈ candidates -> is_Some (model_reasoning c))
      /\ forall e, accepts r' e = accepts r e
           && forallb (fun c => is_some_and (fun rc => accepts rc e) (model_reasoning c)) candidates
  end.
Proof.
  revert r. induction candidates as [|c candidates IH]; intros r; cbn [intersect_loop forallb].
  - split; [by intros c ?%not_elem_of_nil|]. intros e. by rewrite andb_true_r.
  - destruct (model_reasoning c) as [rc|] eqn:E; cbn [mbind option_bind is_some_and]; [|by exists c; split; [apply elem_of_cons; by left|]].
    specialize (IH (intersect r rc)). destruct (intersect_loop candidates (intersect r rc)) as [r'|].
    + destruct IH as [Hall Hacc]. split.
      * intros c' [->|Hin]%elem_of_cons; [by eexists|by apply Hall].
      * intros e. by rewrite Hacc, accepts_intersect, andb_assoc.
    + destruct IH as (c' & Hin & Hc'). exists c'. split; [apply elem_of_cons; by right|done].
Qed.

(** What an alias publishes is exactly what every model it may resolve to accepts. *)
Lemma alias_reasoning_exact alias plan :
  match alias_reasoning alias plan, auto_model_candidates (from_requested_model alias) plan with
  | Some r, Some candidates =>
      (forall c, c ∈ candidates -> is_Some (model_reasoning c))
      /\ forall e, accepts r e
           = forallb (fun c => is_some_and (fun rc => accepts rc e) (model_reasoning c)) candidates
  | None, Some candidates => exists c, c ∈ candidates /\ model_reasoning c = None
  | None, None => True
  | Some _, None => False
  end.
Proof.
  unfold alias_reasoning. destruct (auto_model_candidates _ plan) as [candidates|] eqn:E; cbn [mbind option_bind]; [|done].
  destruct (auto_model_candidates_cases _ _ _ E) as (c & alternates & -> & _).
  destruct (model_reasoning c) as [rc|] eqn:Ec; cbn [mbind option_bind]; [|by exists c; split; [apply elem_of_cons; by left|]].
  pose proof (intersect_loop_spec alternates rc) as H.
  destruct (intersect_loop alternates rc) as [r|].
  - destruct H as [Hall Hacc]. split; [|intros e; cbn [forallb]; by rewrite Hacc, Ec].
    intros c' [->|Hin]%elem_of_cons; [by eexists|by apply Hall].
  - destruct H as (c' & Hin & Hc'). exists c'. split; [apply elem_of_cons; by right|done].
Qed.
