(* ===== verification/CompletionTurn.v ===== *)
(** * Completion turns: model resolution, preparation, claim and reselection (web/openai.rs)

    From an authenticated request to a claimed provider route: which public model the request
    executes, the route pinned for it, the atomic claim of its health gates before the first send with
    replanning to another provider of the same model, and the one further Auto decision a request
    earns when its model loses its routes before any send.  The world between two consultations is
    arbitrary: [ws n] is the [World] the [n]-th operation of the request runs in. *)
From Stdlib Require Import Strings.Byte Strings.String.
From S2P Require Import Prelude Clru BoundedTtlCache Json Registry Inference Reasoning Catalog.
From S2P Require Import RequestPolicy ApiErrors Health HealthProcess StickyRoutes Planning Routing AutoModel.

(** ** Model resolution *)

Record ModelResolutionRequest := MkModelResolutionRequest {
  mrr_account_uuid : Uuid;
  mrr_surface : InferenceSurface;
  mrr_requested_model_id : string;
  mrr_alias_target : string;
  mrr_model_plan : ModelPlan;
  mrr_excluded : option ExcludedAutoCandidate;
}.

Inductive ResolvedInferenceModel :=
| ResolvedExplicit (model : string)
| ResolvedAuto (decision : AutoModelDecision).

(** [ResolvedInferenceModel::public_model_id], [auto_decision] and [intent] *)
Definition resolved_public_model_id (self : ResolvedInferenceModel) : string :=
  match self with ResolvedExplicit model => model | ResolvedAuto d => amd_chosen_model_id d end.

Definition auto_decision (self : ResolvedInferenceModel) : option AutoModelDecision :=
  match self with ResolvedExplicit _ => None | ResolvedAuto d => Some d end.

Definition resolved_intent (fresh : Uuid) (self : ResolvedInferenceModel) (account_uuid : Uuid)
    (requested_model_id : string) (model_plan : ModelPlan) (surface : InferenceSurface)
    (workload_class : WorkloadClass) : InferenceIntent :=
  let intent := intent_new fresh account_uuid requested_model_id (resolved_public_model_id self)
    model_plan surface workload_class in
  match self with
  | ResolvedExplicit _ => intent
  | ResolvedAuto d => with_auto_model_decision intent d
  end.

Definition needs_auto_model_decision (requested_model_id : string) : bool :=
  is_auto (from_requested_model requested_model_id).

(** How the outcome of the policy is reported. *)
Definition auto_outcome (selection : result AutoModelError AutoModelDecision)
    : result ApiError ResolvedInferenceModel :=
  match selection with
  | Ok decision => Ok (ResolvedAuto decision)
  | Err PreferredModelDenied => Err ModelNotAvailableOnPlan
  | Err PreferredModelNotConfigured => Err InternalServerError
  | Err (NoEligibleCandidate _ _ (Some retry_after) _) => Err (InferenceCapacity 503 (Some retry_after) true)
  | Err (NoEligibleCandidate _ _ None _) => Err InternalServerError
  | Err NotAuto => Err InternalServerError
  end.

Definition ensure_completion_model_access (model_name : string) (model_plan : ModelPlan)
    : result ApiError unit :=
  ensure (allows_model model_plan model_name) ModelNotAvailableOnPlan.

Definition provider_routing_api_error (error : ProviderRoutingError) : ApiError :=
  match error with
  | UnsupportedModel _ => BadRequest
  | NoEligibleRoute _ => InternalServerError
  | CapacityUnavailable _ retry_after => InferenceCapacity 503 (Some retry_after) true
  end.

Definition probe_api_error (retry_after : Duration) : ApiError :=
  InferenceCapacity 503 (Some retry_after) false.

(** ** Pinned requests *)

(** [finalized_route] is the content of the shared [OnceLock]. *)
Record PinnedCompletionRequest := MkPinnedCompletionRequest {
  pcr_intent : InferenceIntent;
  pcr_route : SelectedProviderRoute;
  pcr_finalized_route : option SelectedProviderRoute;
}.

Definition pinned_new (intent : InferenceIntent) (route : SelectedProviderRoute) : PinnedCompletionRequest :=
  MkPinnedCompletionRequest intent route None.

Definition selected_route (self : PinnedCompletionRequest) : SelectedProviderRoute :=
  default (pcr_route self) (pcr_finalized_route self).

Definition pinned_public_model_id (self : PinnedCompletionRequest) : string :=
  sp_public_model_id (selected_route self).

(** [OnceLock::set]: fails when the lock holds a value. *)
Definition finalize_route (self : PinnedCompletionRequest) (route : SelectedProviderRoute)
    : bool * PinnedCompletionRequest :=
  match pcr_finalized_route self with
  | Some _ => (false, self)
  | None => (true, MkPinnedCompletionRequest (pcr_intent self) (pcr_route self) (Some route))
  end.

Record ClaimedProviderTurn := MkClaimedProviderTurn {
  cpt_route : SelectedProviderRoute;
  cpt_probe : option ProbeLease;
}.

(** What a turn did to the health gates, in order. *)
Inductive GateEffect :=
| ClaimTried (route : RouteKey) (res : ProbeClaimResult)
| LeaseDropped (lease : option ProbeLease).

Section Turn.
Context {C : CLru StickyRouteKey (TimedEntry StickyRoute)}.

Definition resolve_inference_model (w : World) (self : ProviderRouter) (proxy_router : ProxyRouter)
    (request : ModelResolutionRequest) (requirements : AutoModelRequirements)
    : option (result ApiError ResolvedInferenceModel * ProviderRouter) :=
  if negb (needs_auto_model_decision (mrr_requested_model_id request))
  then Some (Ok (ResolvedExplicit (mrr_alias_target request)), self)
  else
    let mode := from_requested_model (mrr_requested_model_id request) in
    let candidates := default [] (auto_model_candidates mode (mrr_model_plan request)) in
    availability ← model_availability w 0 self proxy_router candidates;
    let '(sticky, self) := sticky_route w 1 self (mrr_account_uuid request) (mrr_surface request)
      (mrr_requested_model_id request) in
    let lookup model := default AvailabilityNotConfigured (availability !! model) in
    let '(selection, _) := select_auto_model (MkAutoModelSelectionInput mode (mrr_model_plan request)
      (sr_public_model_id <$> sticky) (mrr_excluded request) requirements lookup) in
    Some (auto_outcome selection, self).

(** [select_prepared_completion_route]: the comparison with the shadow plan is only logged. *)
Definition select_prepared_completion_route (w : World) (self : ProviderRouter)
    (proxy_router : ProxyRouter) (intent : InferenceIntent)
    : option (result ApiError SelectedProviderRoute * ProviderRouter) :=
  '(active, self) ← select_active_completion_route w self proxy_router intent;
  Some (map_err provider_routing_api_error active, self).

Definition prepare_completion_request (ws : nat -> World) (n : nat) (self : ProviderRouter)
    (proxy_router : ProxyRouter) (user_uuid : Uuid) (intent : InferenceIntent) (routing_plan : ModelPlan)
    : option (result ApiError PinnedCompletionRequest * ProviderRouter) :=
  if negb (bool_decide (ii_account_uuid intent = user_uuid)) then Some (Err InternalServerError, self)
  else if negb (bool_decide (ii_model_plan intent = routing_plan)) then Some (Err InternalServerError, self)
  else
    match ensure_completion_model_access (ii_public_model_id intent) (ii_model_plan intent) with
    | Err error => Some (Err error, self)
    | Ok _ =>
        let '(_, self) := shadow_completion_plan (ws n) self proxy_router intent in
        '(route, self) ← select_prepared_completion_route (ws (S n)) self proxy_router intent;
        Some (route ← route; Ok (pinned_new intent route), self)
    end.

(** [provider_router.try_claim_probe]; [None]: the search for a free lease identifier goes on
    for ever. *)
Definition try_claim_probe (w : World) (self : ProviderRouter) (route : RouteKey)
    : option ProbeClaimResult :=
  '(res, _) ← try_claim_probe_locked (pr_shadow_health self) (w_health w 0) route (w_now w 0);
  Some res.

Definition selected_key (route : SelectedProviderRoute) : RouteKey := route_key (identity route).

(** The loop of [replan_completion_route_excluding], with the routes excluded at the end. *)
Fixpoint replan_loop (fuel : nat) (ws : nat -> World) (n : nat) (self : ProviderRouter)
    (proxy_router : ProxyRouter) (pinned : PinnedCompletionRequest) (excluded_routes : gset RouteKey)
    : option (result ApiError SelectedProviderRoute * gset RouteKey * ProviderRouter * nat) :=
  match fuel with
  | O => None
  | S fuel =>
      '(route, self) ←
        select_active_completion_route_excluding (ws n) self proxy_router (pcr_intent pinned) excluded_routes;
      match map_err provider_routing_api_error route with
      | Err error => Some (Err error, excluded_routes, self, S n)
      | Ok route =>
          if String.eqb (sp_public_model_id route) (sp_public_model_id (pcr_route pinned))
          then Some (Ok route, excluded_routes, self, S n)
          else replan_loop fuel ws (S n) self proxy_router pinned
                 ({[selected_key route]} ∪ excluded_routes)
      end
  end.

Definition claim_finalized_completion_turn (w : World) (self : ProviderRouter)
    (route : SelectedProviderRoute) : option (result ApiError ClaimedProviderTurn * GateEffect) :=
  let route_key := selected_key route in
  res ← try_claim_probe w self route_key;
  Some (match res with
        | Ready probe => Ok (MkClaimedProviderTurn route probe)
        | Rejected _ retry_after => Err (probe_api_error retry_after)
        end, ClaimTried route_key res).

(** The loop of [claim_completion_turn].  [concurrent] is the route another turn finalises before
    this one does, if any. *)
Fixpoint claim_loop (fuel : nat) (ws : nat -> World) (n : nat) (self : ProviderRouter)
    (proxy_router : ProxyRouter) (pinned : PinnedCompletionRequest)
    (concurrent : option SelectedProviderRoute) (excluded_routes : gset RouteKey)
    (route : SelectedProviderRoute) (log : list GateEffect)
    : option (result ApiError ClaimedProviderTurn * PinnedCompletionRequest * ProviderRouter * list GateEffect) :=
  match fuel with
  | O => None
  | S fuel =>
      let route_key := selected_key route in
      res ← try_claim_probe (ws n) self route_key;
      let log := log ++ [ClaimTried route_key res] in
      match res with
      | Rejected _ retry_after =>
          let local_error := probe_api_error retry_after in
          let excluded_routes := {[route_key]} ∪ excluded_routes in
          '(replanned, excluded_routes, self, n) ←
            replan_loop (select_fuel self (pcr_intent pinned)) ws (S n) self proxy_router pinned excluded_routes;
          match replanned with
          | Ok route => claim_loop fuel ws n self proxy_router pinned concurrent excluded_routes route log
          | Err _ => Some (Err local_error, pinned, self, log)
          end
      | Ready probe =>
          let pinned := MkPinnedCompletionRequest (pcr_intent pinned) (pcr_route pinned) concurrent in
          let '(finalized, pinned) := finalize_route pinned route in
          if finalized then Some (Ok (MkClaimedProviderTurn route probe), pinned, self, log)
          else
            let log := log ++ [LeaseDropped probe] in
            route ← pcr_finalized_route pinned;
            '(turn, effect) ← claim_finalized_completion_turn (ws (S n)) self route;
            Some (turn, pinned, self, log ++ [effect])
      end
  end.

(** Every round but the first claims a route of the model not excluded so far. *)
Definition claim_fuel (self : ProviderRouter) (intent : InferenceIntent) : nat :=
  S (select_fuel self intent).

Definition claim_completion_turn (ws : nat -> World) (self : ProviderRouter) (proxy_router : ProxyRouter)
    (pinned : PinnedCompletionRequest) (concurrent : option SelectedProviderRoute)
    : option (result ApiError ClaimedProviderTurn * PinnedCompletionRequest * ProviderRouter * list GateEffect) :=
  match pcr_finalized_route pinned with
  | Some route =>
      '(turn, effect) ← claim_finalized_completion_turn (ws 0%nat) self route;
      Some (turn, pinned, self, [effect])
  | None =>
      claim_loop (claim_fuel self (pcr_intent pinned)) ws 0 self proxy_router pinned concurrent ∅
        (pcr_route pinned) []
  end.
End Turn.

(** ** The router's fixed part *)

Section Turn_facts.
Context {C : CLru StickyRouteKey (TimedEntry StickyRoute)}.
Implicit Types (self : ProviderRouter) (excl : gset RouteKey) (ws : nat -> World).

(** Operations of the router thread its sticky memory only. *)
Definition same_router self self' : Prop :=
  pr_registry self' = pr_registry self /\ pr_shadow_health self' = pr_shadow_health self.

Lemma same_router_refl self : same_router self self.
Proof. done. Qed.

Lemma same_router_trans a b c : same_router a b -> same_router b c -> same_router a c.
Proof. unfold same_router. intros [-> ->] [-> ->]. done. Qed.

Lemma select_round_router w n self px intent excl r self' :
  select_round w n self px intent excl = Some (r, self') -> same_router self self'.
Proof.
  unfold select_round. destruct (completion_model _ _) as [model|]; [|by intros [= _ <-]].
  destruct (configured_route_keys w n self px model excl) as [|c cs]; [by intros [= _ <-]|].
  destruct (snapshot_routes _ _ _ _) as [snaps|]; [|by intros [= _ <-]].
  destruct (available_providers_for_model _ _) as [[cps|d]|]; cbn [mbind option_bind]; [|by intros [= _ <-]|done].
  pose proof (remembered_registry w (S (n + length (cm_routes model))) self intent) as Hrem.
  destruct (remembered_provider_for _ _ _ _). by intros [= _ <-].
Qed.

Lemma select_loop_router fuel w n self px intent excl r self' :
  select_health_aware_route_loop fuel w n self px intent excl = Some (r, self') -> same_router self self'.
Proof.
  revert n self excl. induction fuel as [|fuel IH]; intros n self excl; [done|].
  cbn [select_health_aware_route_loop].
  destruct (select_round w n self px intent excl) as [[planned self1]|] eqn:E; [|done].
  apply select_round_router in E. cbn [mbind option_bind]. destruct planned as [plan|e]; [|by intros [= _ <-]].
  destruct (proxy_for_provider _ _ _ _); [by intros [= _ <-]|].
  intros H. by eapply same_router_trans, IH.
Qed.

Lemma select_total w self px intent excl :
  registry_wf (pr_registry self) -> weights_fit (pr_registry self) ->
  exists r self', select_health_aware_route w self px intent excl = Some (r, self')
    /\ same_router self self' /\ selection_sound w 0 self px intent excl r.
Proof.
  intros Hwf Hfit. unfold select_health_aware_route.
  destruct (select_loop_sound (select_fuel self intent) w 0 self px intent excl Hwf Hfit) as (r & self' & E & Hs).
  - intros model Hm. unfold select_fuel. rewrite Hm. cbn [map_or]. unfold remaining.
    pose proof (length_filter (fun spec => spec_route_key spec ∉ excl) (cm_routes model)). lia.
  - unfold select_fuel. lia.
  - exists r, self'. split; [done|]. split; [by eapply select_loop_router|done].
Qed.

(** ** Replanning and claiming *)

(** The health state never runs out of lease identifiers, at any time. *)
Definition leases_available ws : Prop :=
  forall n, Z.of_nat (probe_loop_bound (w_health (ws n) 0)) <= U64_MAX.

Lemma try_claim_total ws n self key :
  leases_available ws -> exists res, try_claim_probe (ws n) self key = Some res.
Proof.
  intros Hb. unfold try_claim_probe.
  destruct (try_claim_hang (pr_shadow_health self) (w_health (ws n) 0) key (w_now (ws n) 0) (Hb n))
    as [[res i'] ->]. by exists res.
Qed.

(** Replanning returns at its first selection: a selection never changes the public model. *)
Lemma replan_total fuel ws n self px pinned excl :
  registry_wf (pr_registry self) -> weights_fit (pr_registry self) ->
  sp_public_model_id (pcr_route pinned) = ii_public_model_id (pcr_intent pinned) ->
  exists r self', replan_loop (S fuel) ws n self px pinned excl
      = Some (map_err provider_routing_api_error r, excl, self', S n)
    /\ same_router self self' /\ selection_sound (ws n) 0 self px (pcr_intent pinned) excl r.
Proof.
  intros Hwf Hfit Hpub. destruct (select_total (ws n) self px (pcr_intent pinned) excl Hwf Hfit)
    as (r & self' & E & Hsame & Hs).
  exists r, self'. split; [|done]. cbn [replan_loop]. unfold select_active_completion_route_excluding.
  rewrite E. cbn [mbind option_bind]. destruct r as [sel|e]; [|done]. cbn [map_err].
  destruct Hs as (model & spec & k & _ & _ & _ & _ & _ & Hsel & _).
  by rewrite Hsel, Hpub, String.eqb_refl.
Qed.

(** What a turn's log and result are, after [rejected] claims. *)
Definition turn_outcome (pinned : PinnedCompletionRequest) (concurrent : option SelectedProviderRoute)
    (rejected : list (RouteKey * (ProbeRejectionReason * Duration))) (result : result ApiError ClaimedProviderTurn)
    (pinned' : PinnedCompletionRequest) (tail : list GateEffect) : Prop :=
  match result with
  | Ok turn =>
      pcr_finalized_route pinned' = Some (cpt_route turn)
      /\ match concurrent with
         | None =>
             tail = [ClaimTried (selected_key (cpt_route turn)) (Ready (cpt_probe turn))]
             /\ selected_key (cpt_route turn) ∉ rejected.*1
             /\ sp_public_model_id (cpt_route turn) = sp_public_model_id (pcr_route pinned)
         | Some other =>
             cpt_route turn = other
             /\ exists key probe, tail = [ClaimTried key (Ready probe); LeaseDropped probe;
                                          ClaimTried (selected_key other) (Ready (cpt_probe turn))]
         end
  | Err error =>
      exists retry_after, error = probe_api_error retry_after
      /\ ((tail = [] /\ pinned' = pinned
           /\ exists key reason, last rejected = Some (key, (reason, retry_after)))
          \/ exists other key probe reason, concurrent = Some other
             /\ tail = [ClaimTried key (Ready probe); LeaseDropped probe;
                        ClaimTried (selected_key other) (Rejected reason retry_after)]
             /\ pcr_finalized_route pinned' = Some other)
  end.

Definition rejected_effect (x : RouteKey * (ProbeRejectionReason * Duration)) : GateEffect :=
  ClaimTried x.1 (Rejected x.2.1 x.2.2).

Lemma claim_loop_spec fuel ws n self px pinned concurrent excl route rejected :
  registry_wf (pr_registry self) -> weights_fit (pr_registry self) -> leases_available ws ->
  sp_public_model_id (pcr_route pinned) = ii_public_model_id (pcr_intent pinned) ->
  pcr_finalized_route pinned = None ->
  sp_public_model_id route = sp_public_model_id (pcr_route pinned) ->
  (0 < fuel)%nat ->
  (forall model, completion_model (pr_registry self) (ii_public_model_id (pcr_intent pinned)) = Some model ->
     (remaining model ({[selected_key route]} ∪ excl) < fuel)%nat) ->
  NoDup rejected.*1 -> (forall key, key ∈ rejected.*1 -> key ∈ excl) -> selected_key route ∉ excl ->
  exists result pinned' self' rejected' tail,
    claim_loop fuel ws n self px pinned concurrent excl route (rejected_effect <$> rejected)
      = Some (result, pinned', self', (rejected_effect <$> rejected') ++ tail)
    /\ same_router self self' /\ NoDup rejected'.*1
    /\ (length rejected' <= length rejected + fuel)%nat
    /\ turn_outcome pinned concurrent rejected' result pinned' tail.
Proof.
  intros Hwf Hfit Hws Hpub Hnone. revert n self excl route rejected Hwf Hfit.
  induction fuel as [|fuel IH]; intros n self excl route rejected Hwf Hfit Hroute Hpos Hfuel Hnd Hsub Hex; [lia|].
  cbn [claim_loop]. destruct (try_claim_total ws n self (selected_key route) Hws) as [res Hres].
  rewrite Hres. cbn [mbind option_bind]. destruct res as [probe|reason retry_after].
  - destruct concurrent as [other|]; cbn [finalize_route pcr_finalized_route].
    + cbn [mbind option_bind]. unfold claim_finalized_completion_turn.
      destruct (try_claim_total ws (S n) self (selected_key other) Hws) as [res' ->]. cbn [mbind option_bind].
      eexists _, _, self, rejected, _. rewrite <-!app_assoc. split; [reflexivity|].
      split; [done|]. split; [done|]. split; [lia|].
      destruct res' as [probe'|reason' retry']; cbn.
      * split; [done|]. split; [done|]. by exists (selected_key route), probe.
      * exists retry'. split; [done|]. right. by exists other, (selected_key route), probe, reason'.
    + eexists _, _, self, rejected, _. split; [reflexivity|]. split; [done|]. split; [done|]. split; [lia|].
      cbn. split; [done|]. split; [done|]. split; [|done]. intros Hin. by apply Hex, Hsub.
  - set (key := selected_key route) in *.
    destruct (replan_total (Nat.pred (select_fuel self (pcr_intent pinned))) ws (S n) self px pinned
      ({[key]} ∪ excl) Hwf Hfit Hpub) as (r & self1 & Er & [Hreg Hh] & Hs).
    rewrite Nat.succ_pred in Er by (unfold select_fuel; lia). rewrite Er. cbn [mbind option_bind].
    assert (Hlog : (rejected_effect <$> rejected) ++ [ClaimTried key (Rejected reason retry_after)]
      = rejected_effect <$> (rejected ++ [(key, (reason, retry_after))])) by by rewrite fmap_app.
    assert (Hnd' : NoDup (rejected ++ [(key, (reason, retry_after))]).*1).
    { rewrite fmap_app. apply NoDup_app. split; [done|]. split; [|apply NoDup_singleton].
      intros k Hk ->%list_elem_of_singleton. by apply Hex, Hsub. }
    rewrite Hlog. destruct r as [sel|e]; cbn [map_err].
    + destruct Hs as (model & spec & k & Hm & (Hin & Hspec & _) & Hp & Hpm & _ & Hsel & _).
      assert (Hkey : selected_key sel = spec_route_key spec)
        by (unfold selected_key, identity, route_key, spec_route_key; cbn; by rewrite Hp, Hpm).
      specialize (Hfuel model Hm).
      pose proof (remaining_decreases model ({[key]} ∪ excl) spec Hin Hspec) as Hdec.
      destruct (IH (S (S n)) self1 ({[key]} ∪ excl) sel (rejected ++ [(key, (reason, retry_after))]))
        as (result & pinned' & self' & rejected' & tail & -> & Hsame & Hnd'' & Hlen & Hout).
      * by rewrite Hreg.
      * by rewrite Hreg.
      * congruence.
      * lia.
      * intros model' Hm'. rewrite Hreg, Hm in Hm'. injection Hm' as <-. rewrite Hkey. lia.
      * done.
      * intros k'. rewrite fmap_app, elem_of_app. cbn. rewrite list_elem_of_singleton.
        intros [Hk'| ->]; [apply Hsub in Hk'|]; set_solver.
      * by rewrite Hkey.
      * exists result, pinned', self', rejected', tail. split; [done|].
        split; [by eapply same_router_trans|]. split; [done|]. split; [|done].
        rewrite length_app in Hlen. cbn in Hlen. lia.
    + eexists _, pinned, self1, _, []. rewrite app_nil_r. split; [reflexivity|].
      split; [done|]. split; [done|]. split; [rewrite length_app; cbn; lia|].
      exists retry_after. split; [done|]. left. split; [done|]. split; [done|].
      exists key, reason. by rewrite last_snoc.
Qed.
(** C13: Claiming a turn.  Before the first send the loop always ends, whatever happens to route health
    and attestations meanwhile: it tries a route, and after a lost claim another route of the same
    public model, never one that already lost.  It succeeds with the route it finalises, holding
    exactly the lease its last claim granted; it fails with the retry hint of the last rejection; and
    when another turn finalised first, the lease it had won is dropped and the finalised route is the
    only one claimed.  A finalised request never changes route again: every later turn claims that
    route alone. *)
Theorem claim_turn_exact (ws : nat -> World) (self : ProviderRouter) (px : ProxyRouter)
    (pinned : PinnedCompletionRequest) (concurrent : option SelectedProviderRoute)
    (Hwf : registry_wf (pr_registry self)) (Hfit : weights_fit (pr_registry self))
    (Hleases : leases_available ws)
    (Hpublic : sp_public_model_id (pcr_route pinned) = ii_public_model_id (pcr_intent pinned))
    (Hfresh : pcr_finalized_route pinned = None) :
  exists result pinned' self' rejected tail,
    claim_completion_turn ws self px pinned concurrent
      = Some (result, pinned', self', (rejected_effect <$> rejected) ++ tail)
    /\ same_router self self' /\ NoDup rejected.*1
    /\ (length rejected <= claim_fuel self (pcr_intent pinned))%nat
    /\ turn_outcome pinned concurrent rejected result pinned' tail
    /\ forall route ws2 self2 px2 concurrent2, pcr_finalized_route pinned' = Some route ->
         leases_available ws2 ->
         exists res, claim_completion_turn ws2 self2 px2 pinned' concurrent2
           = Some (match res with
                   | Ready probe => Ok (MkClaimedProviderTurn route probe)
                   | Rejected _ retry_after => Err (probe_api_error retry_after)
                   end, pinned', self2, [ClaimTried (selected_key route) res]).
Proof.
  destruct (claim_loop_spec (claim_fuel self (pcr_intent pinned)) ws 0 self px pinned concurrent ∅
    (pcr_route pinned) [] Hwf Hfit Hleases Hpublic Hfresh eq_refl) as
    (result & pinned' & self' & rejected & tail & E & Hsame & Hnd & Hlen & Hout).
  - unfold claim_fuel. lia.
  - intros model Hm. unfold claim_fuel, select_fuel. rewrite Hm. cbn [map_or]. unfold remaining.
    match goal with |- context [filter ?P ?l] => pose proof (length_filter P l) end. lia.
  - constructor.
  - by intros key ?%not_elem_of_nil.
  - set_solver.
  - exists result, pinned', self', rejected, tail. unfold claim_completion_turn at 1. rewrite Hfresh.
    split_and!; try done. intros route ws2 self2 px2 concurrent2 Hroute Hws2.
    destruct (try_claim_total ws2 0 self2 (selected_key route) Hws2) as [res Hres].
    exists res. unfold claim_completion_turn, claim_finalized_completion_turn. by rewrite Hroute, Hres.
Qed.
End Turn_facts.

(** ** Reselection *)

(** What becomes of the [n]-th pinned request once it is executed. *)
Definition Execution : Type := nat -> result CompletionExecutionError unit.

Section Reselection.
Context {C : CLru StickyRouteKey (TimedEntry StickyRoute)}.
Context {Number : Type} {J : JsonCrate Number}.
Variable ws : nat -> World.
Variable proxy_router : ProxyRouter.
Variable fresh : nat -> Uuid.
Variable user_uuid : Uuid.
Variable model_plan : ModelPlan.
Variable requested_model_name : string.
Variable requirements : AutoModelRequirements.
Variable execute : Execution.

Definition chat_alias_target : string := resolve (for_plan model_plan) requested_model_name.

(** The request body sent for a model. *)
Definition chat_request_body (body : list (string * Value Number)) (model_name : string)
    (effort : EffectiveReasoningEffort) : list (string * Value Number) :=
  apply_model_request_policy (map_insert body "model" (Str model_name)) model_name effort.

Definition api_capacity (error : ApiError) : option (option Duration) :=
  match error with InferenceCapacity _ retry_after _ => Some retry_after | _ => None end.

(** The loop of [proxy_openai]; the log holds the model and body of every execution. *)
Fixpoint chat_loop (fuel : nat) (n : nat) (self : ProviderRouter) (body : list (string * Value Number))
    (excluded : option ExcludedAutoCandidate) (reselected : bool)
    (log : list (string * list (string * Value Number)))
    : option (result ApiError string * ProviderRouter * list (string * list (string * Value Number))) :=
  match fuel with
  | O => None
  | S fuel =>
      '(resolved, self) ← resolve_inference_model (ws (4 * n)) self proxy_router
        (MkModelResolutionRequest user_uuid ChatCompletions requested_model_name chat_alias_target
           model_plan excluded) requirements;
      match resolved with
      | Err error => Some (Err error, self, log)
      | Ok resolved =>
          let can_reselect := negb reselected && is_some (auto_decision resolved) in
          let model_name := resolved_public_model_id resolved in
          match resolve_reasoning_effort model_name (map_get body CHAT_REASONING_EFFORT_PARAM)
                  (for_request requested_model_name chat_alias_target) CHAT_REASONING_EFFORT_PARAM with
          | Err error => Some (Err (ApiUnsupportedReasoningEffort error), self, log)
          | Ok effort =>
              let intent := resolved_intent (fresh n) resolved user_uuid requested_model_name model_plan
                ChatCompletions Interactive in
              '(prepared, self) ← prepare_completion_request ws (4 * n + 1) self proxy_router user_uuid
                intent model_plan;
              let reselect retry_after :=
                chat_loop fuel (S n) self body (Some (unavailable model_name retry_after)) true in
              match prepared with
              | Err error =>
                  match api_capacity error with
                  | Some retry_after =>
                      if can_reselect then reselect retry_after log else Some (Err error, self, log)
                  | None => Some (Err error, self, log)
                  end
              | Ok _ =>
                  let log := log ++ [(model_name, chat_request_body body model_name effort)] in
                  match execute n with
                  | Ok _ => Some (Ok model_name, self, log)
                  | Err error =>
                      match error with
                      | Request request_error =>
                          match api_capacity request_error with
                          | Some retry_after =>
                              if can_reselect then reselect retry_after log
                              else Some (Err (into_pre_persistence_api_error error), self, log)
                          | None => Some (Err (into_pre_persistence_api_error error), self, log)
                          end
                      | Attempt _ _ => Some (Err (into_pre_persistence_api_error error), self, log)
                      end
                  end
              end
          end
      end
  end.

(** The first decision and at most one more. *)
Definition proxy_openai_completion (self : ProviderRouter) (body : list (string * Value Number)) :=
  chat_loop 2 0 self body None false [].
End Reselection.

Section Reselection_facts.
Context {C : CLru StickyRouteKey (TimedEntry StickyRoute)}.
Context {Number : Type} {J : JsonCrate Number}.

Lemma collect_option_total {A B} (f : A -> option B) l :
  (forall x, is_Some (f x)) -> is_Some (collect_option f l).
Proof.
  intros Hf. unfold collect_option. induction l as [|x l [ys IH]]; [by eexists|].
  destruct (Hf x) as [y Hy]. exists (y :: ys). cbn. by rewrite Hy, IH.
Qed.

(** Availability is always computed: the [unreachable!] is never taken. *)
Lemma model_availability_total w m self px ids : is_Some (model_availability w m self px ids).
Proof.
  unfold model_availability.
  match goal with |- is_Some (_ ← collect_option ?f ?l; _) => destruct (collect_option_total f l) as [ps ->] end;
    [|by eexists].
  intros [[id configured] snaps]. unfold availability_of. cbn [fst snd].
  destruct configured as [routes|]; [|by eexists]. destruct snaps as [snaps|]; [|by eexists].
  unfold available_providers_for_model.
  destruct (available_loop_spec (zip routes snaps) none None) as (cps & -> & _). cbn.
  destruct (bool_decide _); by eexists.
Qed.

Lemma sticky_route_router w n self a su se : same_router self (sticky_route w n self a su se).2.
Proof. unfold sticky_route. by destruct (lookup_at _ _ _ _ _). Qed.

Lemma resolve_total w self px request requirements :
  exists r self', resolve_inference_model w self px request requirements = Some (r, self')
    /\ same_router self self'
    /\ match r with
       | Ok (ResolvedExplicit model) =>
           needs_auto_model_decision (mrr_requested_model_id request) = false
           /\ model = mrr_alias_target request
       | Ok (ResolvedAuto d) =>
           needs_auto_model_decision (mrr_requested_model_id request) = true
           /\ Some (amd_chosen_model_id d) <> ex_model_id <$> mrr_excluded request
       | Err _ => True
       end.
Proof.
  unfold resolve_inference_model. destruct (needs_auto_model_decision _) eqn:Hauto; cbn [negb].
  2:{ by eexists _, _. }
  destruct (model_availability_total w 0 self px
    (default [] (auto_model_candidates (from_requested_model (mrr_requested_model_id request))
       (mrr_model_plan request)))) as [av ->]. cbn [mbind option_bind].
  pose proof (sticky_route_router w 1 self (mrr_account_uuid request) (mrr_surface request)
    (mrr_requested_model_id request)) as Hsame.
  destruct (sticky_route _ _ _ _ _ _) as [sticky self'].
  destruct (select_auto_model _) as [selection calls] eqn:Esel.
  eexists _, self'. split; [reflexivity|]. split; [done|].
  destruct selection as [d|[| | |s p [r|] rejected]]; cbn; try done.
  apply select_auto_sound in Esel as [Hex _]. split; [done|].
  unfold is_excluded in Hex. cbn in Hex. by apply bool_decide_eq_false in Hex.
Qed.

Lemma shadow_plan_router w self px intent : same_router self (shadow_completion_plan w self px intent).2.
Proof.
  unfold shadow_completion_plan.
  pose proof (remembered_registry w (length (providers (pr_registry self))) self intent) as H.
  by destruct (remembered_provider_for _ _ _ _).
Qed.

Lemma prepare_total ws n self px user intent plan :
  registry_wf (pr_registry self) -> weights_fit (pr_registry self) ->
  exists r self', prepare_completion_request ws n self px user intent plan = Some (r, self')
    /\ same_router self self'
    /\ match r with
       | Ok pinned =>
           allows_model (ii_model_plan intent) (ii_public_model_id intent) = true
           /\ ii_model_plan intent = plan /\ ii_account_uuid intent = user
           /\ pcr_intent pinned = intent /\ pcr_finalized_route pinned = None
           /\ sp_public_model_id (pcr_route pinned) = ii_public_model_id intent
       | Err _ => True
       end.
Proof.
  intros Hwf Hfit. unfold prepare_completion_request.
  case_bool_decide as Ha; cbn [negb]; [|by eexists _, _]. case_bool_decide as Hp; cbn [negb]; [|by eexists _, _].
  unfold ensure_completion_model_access, ensure.
  destruct (allows_model _ _) eqn:Hallow; [|by eexists _, _].
  pose proof (shadow_plan_router (ws n) self px intent) as [Hreg Hh].
  destruct (shadow_completion_plan _ _ _ _) as [plan' self1]. cbn [snd] in Hreg, Hh.
  unfold select_prepared_completion_route, select_active_completion_route.
  destruct (select_total (ws (S n)) self1 px intent ∅) as (r & self2 & E & [Hreg2 Hh2] & Hs);
    [by rewrite Hreg|by rewrite Hreg|].
  rewrite E. cbn [mbind option_bind]. eexists _, self2. split; [reflexivity|].
  split; [split; congruence|]. destruct r as [sel|e]; cbn; [|done].
  destruct Hs as (model & spec & k & _ & _ & _ & _ & _ & Hsel & _). done.
Qed.

Variable ws : nat -> World.
Variable proxy_router : ProxyRouter.
Variable fresh : nat -> Uuid.
Variable user_uuid : Uuid.
Variable model_plan : ModelPlan.
Variable requested_model_name : string.
Variable requirements : AutoModelRequirements.
Variable execute : Execution.
Notation chat_loop := (chat_loop (Number := Number) ws proxy_router fresh user_uuid model_plan
  requested_model_name requirements execute).

(** A reselected request is decided once: more fuel changes nothing. *)
Lemma chat_loop_reselected fuel n self body excluded log :
  chat_loop (S fuel) n self body excluded true log = chat_loop 1 n self body excluded true log.
Proof.
  cbn [CompletionTurn.chat_loop].
  by destruct (resolve_inference_model _ _ _ _ _) as [[[resolved|e] self1]|].
Qed.

(** An execution that never reached a provider attempt: the request lost its route to capacity. *)
Definition lost_before_send (n : nat) : Prop :=
  exists status retry_after replay,
    execute n = Err (Request (InferenceCapacity status retry_after replay)).

(** A body sent for a model the plan includes: the body of the request, with its model and its policy, and the
    effort the request resolves to on that model. *)
Definition sent_ok (body : list (string * Value Number)) (x : string * list (string * Value Number)) : Prop :=
  allows_model model_plan x.1 = true
  /\ exists effort,
       resolve_reasoning_effort x.1 (map_get body CHAT_REASONING_EFFORT_PARAM)
         (for_request requested_model_name (resolve (for_plan model_plan) requested_model_name))
         CHAT_REASONING_EFFORT_PARAM = Ok effort
       /\ x.2 = apply_model_request_policy (map_insert body "model" (Str x.1)) x.1 effort.

Lemma resolved_intent_fields u resolved a m p su w :
  ii_public_model_id (resolved_intent u resolved a m p su w) = resolved_public_model_id resolved
  /\ ii_model_plan (resolved_intent u resolved a m p su w) = p.
Proof. by destruct resolved. Qed.

(** One decision: the request ends here, or it was lost before any send and may be decided again. *)
Lemma chat_loop_step fuel n self body excluded reselected log :
  registry_wf (pr_registry self) -> weights_fit (pr_registry self) ->
  exists self' sent, same_router self self' /\ (length sent <= 1)%nat /\ Forall (sent_ok body) sent
    /\ (needs_auto_model_decision requested_model_name = true ->
          forall m, m ∈ sent.*1 -> Some m <> ex_model_id <$> excluded)
    /\ ((exists r, chat_loop (S fuel) n self body excluded reselected log = Some (r, self', log ++ sent)
            /\ forall m, r = Ok m -> sent.*1 = [m] /\ execute n = Ok tt)
        \/ exists m retry_after, reselected = false
            /\ needs_auto_model_decision requested_model_name = true
            /\ (sent = [] \/ (sent.*1 = [m] /\ lost_before_send n))
            /\ chat_loop (S fuel) n self body excluded reselected log
               = chat_loop fuel (S n) self' body (Some (unavailable m retry_after)) true (log ++ sent)).
Proof.
  intros Hwf Hfit. cbn [CompletionTurn.chat_loop].
  set (request := MkModelResolutionRequest _ _ _ _ _ _).
  destruct (resolve_total (ws (4 * n)) self proxy_router request requirements)
    as (resolved & self1 & -> & [Hreg Hh] & Hres). cbn [mbind option_bind].
  destruct resolved as [resolved|e]; last first.
  { exists self1, []. rewrite app_nil_r. split; [done|]. split; [cbn; lia|]. split; [done|].
    split; [by intros _ m ?%not_elem_of_nil|]. left. by eexists. }
  destruct (resolve_reasoning_effort _ _ _ _) as [effort|e] eqn:Heffort; last first.
  { exists self1, []. rewrite app_nil_r. split; [done|]. split; [cbn; lia|]. split; [done|].
    split; [by intros _ m ?%not_elem_of_nil|]. left. by eexists. }
  set (m := resolved_public_model_id resolved) in *.
  set (intent := resolved_intent (fresh n) resolved user_uuid requested_model_name model_plan
    ChatCompletions Interactive).
  destruct (prepare_total ws (4 * n + 1) self1 proxy_router user_uuid intent model_plan)
    as (prepared & self2 & -> & [Hreg2 Hh2] & Hprep); [by rewrite Hreg|by rewrite Hreg|].
  cbn [mbind option_bind].
  assert (Hsame : same_router self self2) by (split; congruence).
  assert (Hnotex : needs_auto_model_decision requested_model_name = true ->
    Some m <> ex_model_id <$> excluded).
  { intros Hauto. subst m. destruct resolved as [model|d]; [destruct Hres; cbn in *; congruence|apply Hres]. }
  assert (Hautod : is_some (auto_decision resolved) = true ->
    needs_auto_model_decision requested_model_name = true) by (destruct resolved; [done|by destruct Hres]).
  destruct prepared as [pinned|e]; last first.
  { exists self2, []. rewrite app_nil_r. split; [done|]. split; [cbn; lia|]. split; [done|].
    split; [by intros _ m' ?%not_elem_of_nil|].
    destruct (api_capacity e) as [retry_after|]; [|left; by eexists].
    destruct (negb reselected && is_some (auto_decision resolved)) eqn:Hcan; [|left; by eexists].
    apply andb_true_iff in Hcan as [Hr%negb_true_iff Hd]. right. exists m, retry_after.
    split_and!; [done|by apply Hautod|by left|done]. }
  destruct Hprep as (Hallow & _). destruct (resolved_intent_fields (fresh n) resolved user_uuid
    requested_model_name model_plan ChatCompletions Interactive) as [Hm Hp].
  fold intent in Hm, Hp. rewrite Hm, Hp in Hallow. fold m in Hallow.
  exists self2, [(m, chat_request_body body m effort)].
  split; [done|]. split; [cbn; lia|].
  split; [constructor; [|done]; split; [done|]; by exists effort|].
  split; [intros Hauto m' ->%list_elem_of_singleton; by apply Hnotex|].
  destruct (execute n) as [[]|[e|t e]] eqn:Hex; [left| |left].
  - eexists. split; [done|]. by intros m' [= <-].
  - destruct (api_capacity e) as [retry_after|] eqn:Hcap; [|left; by eexists].
    destruct (negb reselected && is_some (auto_decision resolved)) eqn:Hcan; [|left; by eexists].
    apply andb_true_iff in Hcan as [Hr%negb_true_iff Hd]. right. exists m, retry_after.
    split; [done|]. split; [by apply Hautod|]. split; [|done]. right. split; [done|].
    unfold lost_before_send. rewrite Hex. destruct e; simplify_eq/=. by eexists _, _, _.
  - by eexists.
Qed.
(** C20: A chat completion is decided once, and at most once more.  Whatever the world does, the loop
    ends within two decisions.  Only an Auto request is decided again, and only when its first
    decision lost its routes to capacity before any provider attempt: nothing is replayed.  The second
    decision never returns to the model the first one lost.  Every body sent is the body of the request, for a model
    the plan includes, named in it, with the policy of that model in force and the effort the request resolves to on
    it; and a completion is of the model sent last. *)
Theorem reselection_bounded (self : ProviderRouter) (body : list (string * Value Number))
    (Hwf : registry_wf (pr_registry self)) (Hfit : weights_fit (pr_registry self)) :
  exists r self' sent,
    proxy_openai_completion ws proxy_router fresh user_uuid model_plan requested_model_name requirements
      execute self body = Some (r, self', sent)
    /\ (forall fuel, chat_loop (2 + fuel) 0 self body None false [] = Some (r, self', sent))
    /\ Forall (sent_ok body) sent /\ (length sent <= 2)%nat /\ NoDup sent.*1
    /\ (needs_auto_model_decision requested_model_name = false -> (length sent <= 1)%nat)
    /\ (length sent = 2%nat -> lost_before_send 0)
    /\ match r with
       | Ok m => last sent.*1 = Some m /\ (execute 0%nat = Ok tt \/ execute 1%nat = Ok tt)
       | Err _ => True
       end.
Proof.
  unfold proxy_openai_completion.
  destruct (chat_loop_step 1 0 self body None false [] Hwf Hfit)
    as (self1 & sent1 & [Hreg Hh] & Hlen1 & Hok1 & _ & Hstep).
  assert (Hfuel : forall fuel, chat_loop (2 + fuel) 0 self body None false [] = chat_loop 2 0 self body None false []).
  { intros fuel. clear Hstep. cbn [plus]. remember (S fuel) as f eqn:Hf.
    assert (forall n s b e l, chat_loop f n s b e true l = chat_loop 1 n s b e true l) as Heq
      by (intros; subst f; apply chat_loop_reselected).
    clear Hf. cbn [CompletionTurn.chat_loop].
    destruct (resolve_inference_model _ _ _ _ _) as [[[resolved|e] s1]|]; cbn [mbind option_bind]; try done.
    destruct (resolve_reasoning_effort _ _ _ _); [|done].
    destruct (prepare_completion_request _ _ _ _ _ _ _) as [[[pinned|e] s2]|]; cbn [mbind option_bind]; try done.
    - destruct (execute 0%nat) as [|[e|t e]]; try done. destruct (api_capacity e); [|done].
      destruct (_ && _); [apply Heq|done].
    - destruct (api_capacity e); [|done]. destruct (_ && _); [apply Heq|done]. }
  destruct Hstep as [(r & E & Hr)|(m & retry_after & _ & Hauto & Hsent1 & E)].
  { exists r, self1, sent1. split; [done|]. split; [intros fuel; by rewrite Hfuel|].
    split; [done|]. split; [lia|]. split; [destruct sent1 as [|? [|]]; cbn in *; [constructor|apply NoDup_singleton|lia]|].
    split; [done|]. split; [lia|]. destruct r as [m|]; [|done].
    destruct (Hr m eq_refl) as [-> Hex]. split; [done|by left]. }
  destruct (chat_loop_step 0 1 self1 body (Some (unavailable m retry_after)) true sent1)
    as (self2 & sent2 & _ & Hlen2 & Hok2 & Hnot & Hstep); [by rewrite Hreg|by rewrite Hreg|].
  destruct Hstep as [(r & E2 & Hr)|(? & ? & ? & _)]; [|done].
  exists r, self2, (sent1 ++ sent2). rewrite app_nil_l in E. split; [by rewrite E|].
  split; [intros fuel; by rewrite Hfuel, E|]. split; [by apply Forall_app|].
  split; [rewrite length_app; lia|]. split; [|split; [congruence|split]].
  - rewrite fmap_app. specialize (Hnot Hauto). cbn in Hnot. apply NoDup_app. split; [|split].
    + destruct Hsent1 as [->|[-> _]]; [constructor|apply NoDup_singleton].
    + intros x Hx1 Hx2. destruct Hsent1 as [->|[Hs1 _]]; [by apply not_elem_of_nil in Hx1|].
      rewrite Hs1 in Hx1. apply list_elem_of_singleton in Hx1 as ->. by apply (Hnot m).
    + destruct sent2 as [|? [|]]; cbn in *; [constructor|apply NoDup_singleton|lia].
  - rewrite length_app. intros H2. destruct Hsent1 as [->|[_ Hlost]]; [cbn in H2; lia|done].
  - destruct r as [m2|]; [|done]. destruct (Hr m2 eq_refl) as [Hs2 Hex]. split; [|by right].
    rewrite fmap_app, Hs2. apply last_snoc.
Qed.
End Reselection_facts.

(** ** Witnesses: production *)
#[local] Existing Instances ListClru.list_clru ListClru.list_clru_laws.

Definition quick_route : SelectedProviderRoute :=
  MkSelectedProviderRoute Tinfoil (MkProxyConfig "http://tinfoil" None "tinfoil")
    DEEPSEEK_V4_1_FLASH_MODEL_ID DEEPSEEK_V4_1_FLASH_MODEL_ID DEEPSEEK_V4_1_FLASH_MODEL_ID None
    Fallback.

Lemma claim_turn_exact_witness :
  exists result pinned' self' rejected tail,
    claim_completion_turn (fun _ => sample_world) sample_router sample_proxies
      (pinned_new deepseek_intent quick_route) None
      = Some (result, pinned', self', (rejected_effect <$> rejected) ++ tail)
    /\ NoDup rejected.*1
    /\ turn_outcome (pinned_new deepseek_intent quick_route) None rejected result pinned' tail.
Proof.
  assert (Hb : leases_available (fun _ => sample_world)) by (intros n; vm_compute; discriminate).
  destruct (claim_turn_exact (fun _ => sample_world) sample_router sample_proxies
    (pinned_new deepseek_intent quick_route) None PROVIDER_REGISTRY_wf production_weights_fit Hb eq_refl eq_refl)
    as (result & pinned' & self' & rejected & tail & E & _ & Hnd & _ & Hout & _).
  exists result, pinned', self', rejected, tail. split; [exact E|]. split; [exact Hnd|exact Hout].
Defined.

(** The first execution loses its claim; the second decision moves to the tier's alternate. *)
Lemma reselection_bounded_witness :
  let requirements := MkAutoModelRequirements false true (KnownTokens 10) in
  let execute n := match n with O => Err (Request (probe_api_error 5)) | _ => Ok tt end in
  let body : list (string * Value Z) := [("model", Str AUTO_QUICK_MODEL_ID)] in
  exists r self' sent,
    proxy_openai_completion (fun _ => sample_world) sample_proxies (fun _ => MkUuid []) (MkUuid [x07]) Paid
      AUTO_QUICK_MODEL_ID requirements execute sample_router body = Some (r, self', sent)
    /\ Forall (sent_ok Paid AUTO_QUICK_MODEL_ID body) sent /\ (length sent <= 2)%nat /\ NoDup sent.*1
    /\ sent.*1 = [DEEPSEEK_V4_1_FLASH_MODEL_ID; GLM_5_3_FLASH_MODEL_ID].
Proof.
  intros requirements execute body.
  destruct (reselection_bounded (fun _ => sample_world) sample_proxies (fun _ => MkUuid []) (MkUuid [x07]) Paid
    AUTO_QUICK_MODEL_ID requirements execute sample_router body PROVIDER_REGISTRY_wf production_weights_fit)
    as (r & self' & sent & E & _ & Hok & Hlen & Hnd & _).
  assert (Hs : (fun x => x.2.*1) <$> proxy_openai_completion (fun _ => sample_world) sample_proxies
    (fun _ => MkUuid []) (MkUuid [x07]) Paid AUTO_QUICK_MODEL_ID requirements execute sample_router body
    = Some [DEEPSEEK_V4_1_FLASH_MODEL_ID; GLM_5_3_FLASH_MODEL_ID]) by (vm_compute; reflexivity).
  exists r, self', sent. split; [exact E|]. split; [exact Hok|]. split; [exact Hlen|]. split; [exact Hnd|].
  rewrite E in Hs. injection Hs as Hs. exact Hs.
Defined.
