(* ===== verification/Sse.v ===== *)
(** * Server-sent events: extract_sse_frame of web/openai.rs

    The byte buffer of a provider stream is cut at blank lines ([\n\n] or [\r\n\r\n]) and the [data:]
    lines of each frame are joined.  [split_frames] states the same cut without the buffer: the
    frames of a byte string, and what is left after the last of them. *)
From Stdlib Require Import Strings.Byte.
From S2P Require Import Prelude Utf8.

Definition CR : byte := x0d.

(** [u8::is_ascii_whitespace] *)
Definition is_ascii_whitespace (b : byte) : bool :=
  match b with x20 | x09 | x0a | x0c | x0d => true | _ => false end.

(** [buffer.windows(pat.len()).position(|window| window == pat)] *)
Fixpoint position_of (pat buffer : list byte) : option nat :=
  if bool_decide (pat `prefix_of` buffer) then Some 0%nat
  else match buffer with [] => None | _ :: buffer => S <$> position_of pat buffer end.

Definition find_sse_frame_boundary (buffer : list byte) : option (nat * nat) :=
  let lf := position_of [LF; LF] buffer in
  let crlf := position_of [CR; LF; CR; LF] buffer in
  match lf, crlf with
  | Some lf, Some crlf => if (lf <? crlf)%nat then Some (lf, 2%nat) else Some (crlf, 4%nat)
  | None, Some crlf => Some (crlf, 4%nat)
  | Some lf, None => Some (lf, 2%nat)
  | None, None => None
  end.

Definition strip_prefix (pat bytes : list byte) : option (list byte) :=
  if bool_decide (pat `prefix_of` bytes) then Some (drop (length pat) bytes) else None.

(** [line.strip_suffix(b"\r").unwrap_or(line)] *)
Definition strip_cr (line : list byte) : list byte :=
  match last line with
  | Some c => if bool_decide (c = CR) then take (pred (length line)) line else line
  | None => line
  end.

(** The loop over the lines of a frame. *)
Definition frame_data (frame : list byte) : list byte :=
  fold_left (fun data line =>
      match strip_prefix (as_bytes "data:") (strip_cr line) with
      | None => data
      | Some value =>
          let value := default value (strip_prefix (as_bytes " ") value) in
          (match data with [] => [] | _ => data ++ [LF] end) ++ value
      end) (split_lines frame) [].

(** The frame's data with the buffer that is left.  Every round drops at least the delimiter, so the
    buffer's length is enough [fuel]. *)
Fixpoint extract_loop (fuel : nat) (buffer : list byte) : option (list byte) * list byte :=
  match fuel with
  | O => (None, buffer)
  | S fuel =>
      match find_sse_frame_boundary buffer with
      | None => (None, buffer)
      | Some (frame_end, delimiter_len) =>
          let frame := take frame_end buffer in
          let buffer := drop (frame_end + delimiter_len) buffer in
          if forallb is_ascii_whitespace frame then extract_loop fuel buffer
          else match frame_data frame with
               | [] => extract_loop fuel buffer
               | data => (Some data, buffer)
               end
      end
  end.

Definition extract_sse_frame (buffer : list byte) : option (list byte) * list byte :=
  extract_loop (length buffer) buffer.

(** ** The cut, without a buffer *)

Definition payload (frame : list byte) : option (list byte) :=
  if forallb is_ascii_whitespace frame then None
  else match frame_data frame with [] => None | data => Some data end.

Fixpoint split_loop (fuel : nat) (bytes : list byte) : list (list byte) * list byte :=
  match fuel with
  | O => ([], bytes)
  | S fuel =>
      match find_sse_frame_boundary bytes with
      | None => ([], bytes)
      | Some (e, d) =>
          let '(frames, rest) := split_loop fuel (drop (e + d) bytes) in
          (take e bytes :: frames, rest)
      end
  end.

Definition split_frames (bytes : list byte) : list (list byte) * list byte :=
  split_loop (length bytes) bytes.

(** The payloads of a byte string, in order. *)
Definition payloads (bytes : list byte) : list (list byte) := omap payload (split_frames bytes).1.

(** ** Boundaries *)

Lemma position_of_Some pat buffer n :
  position_of pat buffer = Some n -> pat `prefix_of` drop n buffer.
Proof.
  revert n. induction buffer as [|b buffer IH]; intros n; simpl; case_bool_decide as Hp; try done;
    try (intros [= <-]; done).
  destruct (position_of pat buffer) as [m|]; [|done]. intros [= <-]. by apply IH.
Qed.

Lemma position_of_min pat buffer n k :
  position_of pat buffer = Some n -> pat `prefix_of` drop k buffer -> (n <= k)%nat.
Proof.
  revert n k. induction buffer as [|b buffer IH]; intros n k; simpl; case_bool_decide as Hp; try done;
    try (intros [= <-]; lia).
  destruct (position_of pat buffer) as [m|] eqn:E; [|done]. intros [= <-] Hk.
  destruct k as [|k]; [done|]. specialize (IH m k eq_refl Hk). lia.
Qed.

Lemma position_of_exists pat buffer k :
  pat `prefix_of` drop k buffer -> (k <= length buffer)%nat -> exists n, position_of pat buffer = Some n.
Proof.
  revert k. induction buffer as [|b buffer IH]; intros k Hk Hlen; simpl; case_bool_decide as Hp; eauto.
  - destruct k; [done|]. by rewrite drop_nil in Hk.
  - destruct k as [|k]; [done|]. destruct (IH k Hk) as [n ->]; [simpl in Hlen; lia|]. by eexists.
Qed.

Lemma prefix_within (pat a b : list byte) k :
  pat `prefix_of` drop k (a ++ b) -> (k + length pat <= length a)%nat -> pat `prefix_of` drop k a.
Proof.
  intros [s Hs] Hlen. rewrite drop_app_le in Hs by lia. exists (take (length (drop k a) - length pat) s).
  assert (drop k a = take (length (drop k a)) (drop k a ++ b)) as Ha by by rewrite take_app_length.
  rewrite Hs in Ha. rewrite Ha at 1. rewrite take_app, take_ge; [done|]. rewrite length_drop. lia.
Qed.

Lemma prefix_extend (pat a b : list byte) k :
  pat `prefix_of` drop k a -> pat <> [] -> pat `prefix_of` drop k (a ++ b).
Proof.
  intros Hp Hne. destruct (decide (k <= length a)%nat) as [Hk|Hk].
  - rewrite drop_app_le by done. by apply prefix_app_r.
  - rewrite drop_ge in Hp by lia. by apply prefix_nil_inv in Hp.
Qed.

Lemma prefix_length_drop (pat a : list byte) k :
  pat `prefix_of` drop k a -> (length pat <= length a - k)%nat.
Proof. intros H%prefix_length. by rewrite length_drop in H. Qed.

Lemma nonempty {A} (x : A) l : x :: l <> [].
Proof. done. Qed.

(** A pattern found in a prefix of the buffer stays where it is as the buffer grows. *)
Lemma position_of_app pat a b n :
  pat <> [] -> position_of pat a = Some n -> position_of pat (a ++ b) = Some n.
Proof.
  intros Hne H. pose proof (position_of_Some _ _ _ H) as Hp.
  pose proof (prefix_length_drop _ _ _ Hp) as Hl.
  assert (0 < length pat)%nat by (destruct pat; [done|simpl; lia]).
  destruct (position_of_exists pat (a ++ b) n) as [m Hm]; [by apply prefix_extend|rewrite length_app; lia|].
  rewrite Hm. f_equal. pose proof (position_of_min _ _ _ _ Hm (prefix_extend _ _ b _ Hp Hne)).
  pose proof (position_of_Some _ _ _ Hm) as Hpm.
  pose proof (position_of_min _ _ _ m H). enough (n <= m)%nat by lia. apply H2.
  apply (prefix_within _ _ b); [done|lia].
Qed.

Lemma position_of_app_late pat a b n :
  position_of pat a = None -> position_of pat (a ++ b) = Some n -> (length a < n + length pat)%nat.
Proof.
  intros Hnone H. destruct (decide (n + length pat <= length a)%nat) as [Hle|]; [|lia].
  destruct (position_of_exists pat a n) as [m Hm]; [|lia|congruence].
  apply (prefix_within _ _ b); [by apply position_of_Some|done].
Qed.

Lemma prefix_lookup (pat l : list byte) k i b :
  pat `prefix_of` drop k l -> pat !! i = Some b -> l !! (k + i)%nat = Some b.
Proof. intros Hp Hi. rewrite <-lookup_drop. by eapply prefix_lookup_Some. Qed.

(** So a boundary found early is the boundary of every longer buffer: bytes that arrive later never
    change where a complete frame ends. *)
Lemma boundary_app a b e d :
  find_sse_frame_boundary a = Some (e, d) -> find_sse_frame_boundary (a ++ b) = Some (e, d).
Proof.
  unfold find_sse_frame_boundary.
  destruct (position_of [LF; LF] a) as [p|] eqn:Ep, (position_of [CR; LF; CR; LF] a) as [q|] eqn:Eq.
  - by rewrite (position_of_app _ _ b _ (nonempty LF [LF]) Ep), (position_of_app _ _ b _ (nonempty CR [LF; CR; LF]) Eq).
  - rewrite (position_of_app _ _ b _ (nonempty LF [LF]) Ep). intros [= <- <-].
    destruct (position_of [CR; LF; CR; LF] (a ++ b)) as [q|] eqn:Eq'; [|done].
    pose proof (position_of_app_late _ _ _ _ Eq Eq') as Hlate. simpl in Hlate.
    pose proof (position_of_Some _ _ _ Ep) as Hp. pose proof (position_of_Some _ _ _ Eq') as Hq.
    pose proof (prefix_length_drop _ _ _ Hp) as Hlen. simpl in Hlen.
    apply (prefix_extend _ _ b) in Hp; [|done].
    enough (p < q)%nat as ->%Nat.ltb_lt by done.
    destruct (decide (q = p)) as [->|].
    { pose proof (prefix_lookup _ _ _ 0 _ Hp eq_refl). pose proof (prefix_lookup _ _ _ 0 _ Hq eq_refl).
      unfold LF, CR in *. congruence. }
    destruct (decide (S q = p)) as [<-|]; [|lia].
    pose proof (prefix_lookup _ _ _ 1 _ Hp eq_refl) as H1. pose proof (prefix_lookup _ _ _ 2 _ Hq eq_refl) as H2.
    replace (S q + 1)%nat with (q + 2)%nat in H1 by lia. unfold LF, CR in *. congruence.
  - rewrite (position_of_app _ _ b _ (nonempty CR [LF; CR; LF]) Eq). intros [= <- <-].
    destruct (position_of [LF; LF] (a ++ b)) as [p|] eqn:Ep'; [|done].
    pose proof (position_of_app_late _ _ _ _ Ep Ep') as Hlate. simpl in Hlate.
    pose proof (prefix_length_drop _ _ _ (position_of_Some _ _ _ Eq)) as Hlen. simpl in Hlen.
    by rewrite (proj2 (Nat.ltb_ge p q)) by lia.
  - done.
Qed.

Lemma boundary_bounds a e d :
  find_sse_frame_boundary a = Some (e, d) -> (2 <= d)%nat /\ (e + d <= length a)%nat.
Proof.
  unfold find_sse_frame_boundary.
  destruct (position_of [LF; LF] a) as [p|] eqn:Ep, (position_of [CR; LF; CR; LF] a) as [q|] eqn:Eq;
    try apply position_of_Some, prefix_length_drop in Ep; try apply position_of_Some, prefix_length_drop in Eq;
    simpl in *; try case_match; intros ?; simplify_eq; lia.
Qed.

(** ** The cut of a growing buffer *)

Lemma split_loop_fuel bytes n m :
  (length bytes <= n)%nat -> (length bytes <= m)%nat -> split_loop n bytes = split_loop m bytes.
Proof.
  revert bytes m. induction n as [|n IH]; intros bytes m Hn Hm.
  - destruct bytes; [by destruct m|simpl in Hn; lia].
  - destruct m as [|m]; [destruct bytes; [done|simpl in Hm; lia]|]. simpl.
    destruct (find_sse_frame_boundary bytes) as [[e d]|] eqn:E; [|done].
    apply boundary_bounds in E as [??].
    rewrite (IH (drop (e + d) bytes) m) by (rewrite length_drop; lia). done.
Qed.

Lemma split_frames_unfold bytes :
  split_frames bytes =
    match find_sse_frame_boundary bytes with
    | None => ([], bytes)
    | Some (e, d) =>
        let '(frames, rest) := split_frames (drop (e + d) bytes) in (take e bytes :: frames, rest)
    end.
Proof.
  unfold split_frames at 1. destruct bytes as [|b bytes]; [done|]. cbn [length split_loop].
  destruct (find_sse_frame_boundary (b :: bytes)) as [[e d]|] eqn:E; [|done].
  apply boundary_bounds in E as [? Hle]. unfold split_frames.
  by rewrite (split_loop_fuel _ _ (length (drop (e + d) (b :: bytes)))) by (rewrite ?length_drop; simpl in *; lia).
Qed.

(** Induction on a byte string, cutting one frame at a time. *)
Lemma split_ind (P : list byte -> Prop) :
  (forall bytes, find_sse_frame_boundary bytes = None -> P bytes) ->
  (forall bytes e d, find_sse_frame_boundary bytes = Some (e, d) -> P (drop (e + d) bytes) -> P bytes) ->
  forall bytes, P bytes.
Proof.
  intros Hnone Hsome bytes. induction (well_founded_ltof _ (@length byte) bytes) as [bytes _ IH].
  destruct (find_sse_frame_boundary bytes) as [[e d]|] eqn:E; [|by apply Hnone].
  apply (Hsome bytes e d E), IH. unfold ltof. apply boundary_bounds in E as [??].
  rewrite length_drop. lia.
Qed.

Lemma split_frames_rest bytes : find_sse_frame_boundary (split_frames bytes).2 = None.
Proof.
  induction bytes as [bytes E|bytes e d E IH] using split_ind; rewrite split_frames_unfold, E; [done|].
  by destruct (split_frames _).
Qed.

(** Cutting a string is cutting a prefix of it and then what the prefix left with the remainder. *)
Lemma split_frames_app a b :
  split_frames (a ++ b) =
    ((split_frames a).1 ++ (split_frames ((split_frames a).2 ++ b)).1,
     (split_frames ((split_frames a).2 ++ b)).2).
Proof.
  induction a as [a E|a e d E IH] using split_ind.
  - rewrite (split_frames_unfold a), E. simpl. by destruct (split_frames (a ++ b)).
  - rewrite (split_frames_unfold (a ++ b)), (boundary_app _ _ _ _ E), (split_frames_unfold a), E.
    apply boundary_bounds in E as [? Hle].
    rewrite drop_app_le by done. rewrite IH. destruct (split_frames (drop (e + d) a)) as [fs rest].
    simpl. by rewrite take_app_le by lia.
Qed.

Lemma split_frames_nil : split_frames [] = ([], []).
Proof. done. Qed.

(** ** Extraction follows the cut *)

Lemma extract_loop_fuel buffer n m :
  (length buffer <= n)%nat -> (length buffer <= m)%nat -> extract_loop n buffer = extract_loop m buffer.
Proof.
  revert buffer m. induction n as [|n IH]; intros buffer m Hn Hm.
  - destruct buffer; [by destruct m|simpl in Hn; lia].
  - destruct m as [|m]; [destruct buffer; [done|simpl in Hm; lia]|]. simpl.
    destruct (find_sse_frame_boundary buffer) as [[e d]|] eqn:E; [|done].
    apply boundary_bounds in E as [??].
    assert (extract_loop n (drop (e + d) buffer) = extract_loop m (drop (e + d) buffer)) as ->; [|done].
    apply IH; rewrite length_drop; lia.
Qed.

Lemma extract_unfold buffer :
  extract_sse_frame buffer =
    match find_sse_frame_boundary buffer with
    | None => (None, buffer)
    | Some (e, d) =>
        match payload (take e buffer) with
        | None => extract_sse_frame (drop (e + d) buffer)
        | Some data => (Some data, drop (e + d) buffer)
        end
    end.
Proof.
  unfold extract_sse_frame at 1. destruct buffer as [|b buffer]; [done|]. cbn [length extract_loop].
  destruct (find_sse_frame_boundary (b :: buffer)) as [[e d]|] eqn:E; [|done].
  apply boundary_bounds in E as [? Hle]. unfold payload, extract_sse_frame.
  rewrite (extract_loop_fuel _ (length buffer) (length (drop (e + d) (b :: buffer))))
    by (rewrite ?length_drop; simpl in *; lia).
  destruct (forallb _ _); [done|]. by destruct (frame_data _).
Qed.

(** One extraction takes the first payload of the buffer, and leaves a buffer with the others. *)
Lemma extract_payloads buffer :
  match extract_sse_frame buffer with
  | (None, rest) => payloads buffer = [] /\ rest = (split_frames buffer).2
  | (Some data, rest) =>
      payloads buffer = data :: payloads rest /\ (split_frames rest).2 = (split_frames buffer).2
      /\ (length rest < length buffer)%nat
  end.
Proof.
  unfold payloads. induction buffer as [buffer E|buffer e d E IH] using split_ind;
    rewrite extract_unfold, (split_frames_unfold buffer), E; [done|].
  apply boundary_bounds in E as [??].
  assert (length (drop (e + d) buffer) < length buffer)%nat by (rewrite length_drop; lia).
  destruct (split_frames (drop (e + d) buffer)) as [fs rest] eqn:Es. cbn [fst snd omap list_omap] in *.
  destruct (payload (take e buffer)) as [data|] eqn:Ep.
  - rewrite Es. by split_and!.
  - destruct (extract_sse_frame _) as [[data|] rest']; [|done]. destruct IH as (? & ? & ?).
    split_and!; [done..|lia].
Qed.

Lemma payloads_app a b : payloads (a ++ b) = payloads a ++ payloads ((split_frames a).2 ++ b).
Proof. unfold payloads. rewrite split_frames_app. cbn [fst]. apply omap_app. Qed.
