(* ===== verification/CompletionStream.v ===== *)
(** * Provider streams: process_completion_stream of web/openai.rs

    What the server does with the bytes of a streaming completion: cut them into server-sent
    events, forward each canonicalised chunk to the consumer, accumulate usage, and end with exactly
    one typed terminal and at most one usage report.  A stream is the sequence of things that reach
    the loop: chunks, a transport error, the end, a timeout, a cancellation; whether the consumer
    takes a chunk is an argument of the model. *)
From Stdlib Require Import Strings.Byte.
From S2P Require Import Prelude Utf8 Json Registry Inference Sse.

(** ** Usage *)

(** Token counts are [i32]. *)
Record CompletionUsage := MkCompletionUsage {
  cu_prompt_tokens : Z;
  cu_completion_tokens : Z;
  cu_cached_prompt_tokens : option Z;
}.

Record CompletionUsageObservation := MkCompletionUsageObservation {
  cuo_prompt_tokens : option Z;
  cuo_completion_tokens : option Z;
  cuo_cached_prompt_tokens : option Z;
}.

Definition observation_is_empty (self : CompletionUsageObservation) : bool :=
  is_none (cuo_prompt_tokens self) && is_none (cuo_completion_tokens self)
  && is_none (cuo_cached_prompt_tokens self).

Inductive StreamUsageFinalization :=
| FinalProviderDone
| EndOfStream
| ProviderError
| TransportError
| Timeout
| FinalConsumerDropped
| InvalidData.

Definition is_provider_done (self : StreamUsageFinalization) : bool :=
  match self with FinalProviderDone => true | _ => false end.

Record StreamUsageAccumulator := MkStreamUsageAccumulator {
  sua_latest_usage : option CompletionUsage;
  sua_saw_terminal_signal : bool;
  sua_finalized : bool;
}.

Definition accumulator_default : StreamUsageAccumulator := MkStreamUsageAccumulator None false false.

Definition I32_MAX : Z := 2147483647.

Section Json_views.
Context {Number : Type} {J : JsonCrate Number}.

(** [v.as_i64()], dropped when negative and capped at [i32::MAX]. *)
Definition token_count (v : option (Value Number)) : option Z :=
  v ← v; tokens ← value_as_i64 v;
  if 0 <=? tokens then Some (Z.min tokens I32_MAX) else None.

Definition extract_usage_observation (json : Value Number) : option CompletionUsageObservation :=
  usage ← value_get json "usage";
  usage_json ← value_as_object usage;
  Some (MkCompletionUsageObservation
    (token_count (map_get usage_json "prompt_tokens"))
    (token_count (map_get usage_json "completion_tokens"))
    (token_count (details ← map_get usage_json "prompt_tokens_details";
                  value_get details "cached_tokens"))).

Definition extract_usage (json : Value Number) : option CompletionUsage :=
  observed ← extract_usage_observation json;
  let prompt_tokens := default 0 (cuo_prompt_tokens observed) in
  Some (MkCompletionUsage prompt_tokens (default 0 (cuo_completion_tokens observed))
    ((fun tokens => Z.min tokens prompt_tokens) <$> cuo_cached_prompt_tokens observed)).

Definition has_finish_reason (json : Value Number) : bool :=
  match choices ← value_get json "choices"; value_as_array choices with
  | None => false
  | Some choices =>
      existsb (fun choice =>
        is_some_and (fun reason => negb (value_is_null reason)) (value_get choice "finish_reason")) choices
  end.

Definition has_terminal_stream_signal (json : Value Number) : bool :=
  has_finish_reason json
  || is_some_and (fun choices => match choices with [] => true | _ => false end)
       (choices ← value_get json "choices"; value_as_array choices).

(** [json.get_mut(key)] and a write through it. *)
Definition value_update (json : Value Number) (key : string) (f : Value Number -> Value Number)
    : Value Number :=
  match json with
  | Object m => match map_get m key with Some v => Object (map_insert m key (f v)) | None => json end
  | _ => json
  end.

Definition canonicalize_response_model (response_model_id : string) (json : Value Number) : Value Number :=
  value_update json "model" (fun v => match v with Str _ => Str response_model_id | _ => v end).

Definition canonicalize_part (v : Value Number) : Value Number :=
  match v with
  | Object object =>
      match map_get object "reasoning_content" with
      | None => v
      | Some legacy =>
          let object := map_remove object "reasoning_content" in
          Object (if negb (value_is_null legacy) && is_none_or value_is_null (map_get object "reasoning")
                  then map_insert object "reasoning" legacy else object)
      end
  | _ => v
  end.

Definition canonicalize_reasoning_field (json : Value Number) : Value Number :=
  value_update json "choices" (fun v =>
    match v with
    | Array choices =>
        Array ((fun choice => value_update (value_update choice "message" canonicalize_part) "delta"
                  canonicalize_part) <$> choices)
    | _ => v
    end).

Definition canonicalize_completion_response (response_model_id : string) (json : Value Number)
    : Value Number :=
  canonicalize_reasoning_field (canonicalize_response_model response_model_id json).

(** ** The accumulator *)

Definition observe (self : StreamUsageAccumulator) (json : Value Number) : StreamUsageAccumulator :=
  let self := MkStreamUsageAccumulator (sua_latest_usage self)
    (sua_saw_terminal_signal self || has_terminal_stream_signal json) (sua_finalized self) in
  match extract_usage_observation json with
  | None => self
  | Some observed =>
      if observation_is_empty observed then self
      else
        let latest := sua_latest_usage self in
        let prompt_tokens :=
          match cuo_prompt_tokens observed with
          | Some tokens => map_or tokens (fun usage => Z.max tokens (cu_prompt_tokens usage)) latest
          | None => map_or 0 cu_prompt_tokens latest
          end in
        let completion_tokens :=
          match cuo_completion_tokens observed with
          | Some tokens => map_or tokens (fun usage => Z.max tokens (cu_completion_tokens usage)) latest
          | None => map_or 0 cu_completion_tokens latest
          end in
        let cached :=
          match cuo_cached_prompt_tokens observed with
          | Some tokens => Some tokens
          | None => usage ← latest; cu_cached_prompt_tokens usage
          end in
        MkStreamUsageAccumulator (Some (MkCompletionUsage prompt_tokens completion_tokens cached))
          (sua_saw_terminal_signal self) (sua_finalized self)
  end.
End Json_views.

Definition take_final_usage (self : StreamUsageAccumulator) (finalization : StreamUsageFinalization)
    : option CompletionUsage * StreamUsageAccumulator :=
  let can_finalize := is_provider_done finalization || sua_saw_terminal_signal self in
  if sua_finalized self || negb can_finalize then (None, self)
  else
    let self' := MkStreamUsageAccumulator None (sua_saw_terminal_signal self) true in
    (usage ← sua_latest_usage self;
     let usage := MkCompletionUsage (cu_prompt_tokens usage) (cu_completion_tokens usage)
       ((fun cached => Z.min cached (cu_prompt_tokens usage)) <$> cu_cached_prompt_tokens usage) in
     if (0 <? cu_prompt_tokens usage) || (0 <? cu_completion_tokens usage) then Some usage else None,
     self').

(** ** Upstream failures inside a payload *)

(** [character.is_ascii_alphanumeric() || matches!(character, '-' | '_' | '.' | ':')] *)
Definition is_safe_identifier_char (b : byte) : bool :=
  let n := byte_val b in
  ((48 <=? n) && (n <=? 57)) || ((65 <=? n) && (n <=? 90)) || ((97 <=? n) && (n <=? 122))
  || (n =? 45) || (n =? 95) || (n =? 46) || (n =? 58).

Section Payload_failures.
Context {Number : Type} {J : JsonCrate Number}.

Definition bounded_upstream_error_code (error : Value Number) : option string :=
  code ← value_get error "code";
  code ← match code with
         | Str code => Some code
         | Num code => Some (number_to_string code)
         | _ => None
         end;
  let code := trim (as_bytes code) in
  if negb (len code =? 0) && (len code <=? 64) && forallb is_safe_identifier_char code
  then Some (String.string_of_list_byte code) else None.

Definition upstream_payload_failure (json : Value Number) (kind : AttemptFailureKind)
    (stage : AttemptStage) : option AttemptFailure :=
  error ← value_get json "error";
  if value_is_null error then None
  else Some (with_upstream_code (failure_new kind stage NotProvenPreAcceptance)
               (bounded_upstream_error_code error)).

Definition upstream_stream_failure (json : Value Number) : option AttemptFailure :=
  upstream_payload_failure json UpstreamStreamError Stream.
End Payload_failures.

(** ** The loop *)

Definition stream_failure (kind : AttemptFailureKind) : AttemptFailure :=
  failure_new kind Stream NotProvenPreAcceptance.

Definition stream_end_terminal (attempt : InferenceAttempt)
    (saw_finish_signal has_incomplete_frame require_provider_done : bool) : AttemptTerminal :=
  if negb require_provider_done && saw_finish_signal && negb has_incomplete_frame
  then Completed attempt FinishSignalThenEof
  else Failed attempt (stream_failure UnexpectedEof).

Record StreamProcessResult := MkStreamProcessResult {
  spr_terminal : AttemptTerminal;
  spr_finalization : StreamUsageFinalization;
  spr_usage : option CompletionUsage;
}.

Definition finish_stream_processing (accumulator : StreamUsageAccumulator)
    (finalization : StreamUsageFinalization) (terminal : AttemptTerminal) : StreamProcessResult :=
  MkStreamProcessResult terminal finalization (take_final_usage accumulator finalization).1.

(** What reaches the loop: [completion_consumer_cancelled], or the next item of the body. *)
Inductive StreamEvent :=
| Cancelled
| Chunk (bytes : list byte)
| ReadFailed
| BodyEnd
| TimedOut.

Section Process.
Context {Number : Type} {J : JsonCrate Number}.
(** The parameters of the call; [delivered n]: the consumer takes the [n]-th chunk. *)
Variable response_model_id : string.
Variable attempt : InferenceAttempt.
Variable require_provider_done : bool.
Variable delivered : nat -> bool.

(** The locals of the loop, with what was sent to the consumer. *)
Record StreamState := MkStreamState {
  ss_buffer : list byte;
  ss_usage : StreamUsageAccumulator;
  ss_sent : list (Value Number);
}.

Inductive Control :=
| Continue (s : StreamState)
| Return (r : StreamProcessResult) (sent : list (Value Number)).

Definition finish (s : StreamState) (finalization : StreamUsageFinalization)
    (terminal : AttemptTerminal) : Control :=
  Return (finish_stream_processing (ss_usage s) finalization terminal) (ss_sent s).

(** The body of the [while let] for one frame; the buffer has been drained of it. *)
Definition process_frame (s : StreamState) (frame : list byte) : Control :=
  if bool_decide (frame = as_bytes "[DONE]")
  then finish s FinalProviderDone (Completed attempt ProviderDone)
  else
    match value_from_slice frame with
    | None => finish s InvalidData (Failed attempt (stream_failure InvalidResponse))
    | Some json =>
        match upstream_stream_failure json with
        | Some failure => finish s ProviderError (Failed attempt failure)
        | None =>
            let s := MkStreamState (ss_buffer s) (observe (ss_usage s) json) (ss_sent s) in
            let json := canonicalize_completion_response response_model_id json in
            if delivered (length (ss_sent s))
            then Continue (MkStreamState (ss_buffer s) (ss_usage s) (ss_sent s ++ [json]))
            else finish s FinalConsumerDropped (Failed attempt (stream_failure ConsumerDropped))
        end
    end.

(** [while let Some(frame) = extract_sse_frame(&mut buffer)]; each frame shortens the buffer. *)
Fixpoint drain_loop (fuel : nat) (s : StreamState) : Control :=
  match fuel with
  | O => Continue s
  | S fuel =>
      let '(frame, buffer) := extract_sse_frame (ss_buffer s) in
      let s := MkStreamState buffer (ss_usage s) (ss_sent s) in
      match frame with
      | None => Continue s
      | Some frame =>
          match process_frame s frame with
          | Continue s => drain_loop fuel s
          | Return r sent => Return r sent
          end
      end
  end.

Definition drain_frames (s : StreamState) : Control := drain_loop (S (length (ss_buffer s))) s.

(** The inner loop over the unread bytes of a chunk. *)
Fixpoint read_loop (fuel : nat) (frame_limit : option nat) (s : StreamState) (unread : list byte)
    : Control :=
  match fuel with
  | O => Continue s
  | S fuel =>
      let append_len :=
        match frame_limit with
        | None => length unread
        | Some limit => Nat.min (limit - length (ss_buffer s)) (length unread)
        end in
      if (append_len =? 0)%nat && negb (length unread =? 0)%nat
      then finish s InvalidData (Failed attempt (stream_failure InvalidResponse))
      else
        let s := MkStreamState (ss_buffer s ++ take append_len unread) (ss_usage s) (ss_sent s) in
        let unread := drop append_len unread in
        match drain_frames s with
        | Return r sent => Return r sent
        | Continue s =>
            match unread with [] => Continue s | _ => read_loop fuel frame_limit s unread end
        end
  end.

Definition process_event (frame_limit : option nat) (s : StreamState) (event : StreamEvent) : Control :=
  match event with
  | Cancelled => finish s FinalConsumerDropped (Failed attempt (stream_failure ConsumerDropped))
  | Chunk bytes => read_loop (S (length bytes)) frame_limit s bytes
  | ReadFailed => finish s TransportError (Failed attempt (stream_failure Transport))
  | BodyEnd =>
      let has_incomplete_frame := existsb (fun b => negb (is_ascii_whitespace b)) (ss_buffer s) in
      finish s EndOfStream
        (stream_end_terminal attempt (sua_saw_terminal_signal (ss_usage s)) has_incomplete_frame
           require_provider_done)
  | TimedOut => finish s Timeout (Failed attempt (stream_failure StreamTimeout))
  end.

(** The loop over what reaches it; [Continue]: it is still waiting. *)
Fixpoint process_events (frame_limit : option nat) (s : StreamState) (events : list StreamEvent)
    : Control :=
  match events with
  | [] => Continue s
  | event :: events =>
      match process_event frame_limit s event with
      | Continue s => process_events frame_limit s events
      | Return r sent => Return r sent
      end
  end.

Definition stream_init : StreamState := MkStreamState [] accumulator_default [].

Definition process_completion_stream (frame_limit : option nat) (events : list StreamEvent) : Control :=
  process_events frame_limit stream_init events.
End Process.
Arguments StreamState : clear implicits.
Arguments Control : clear implicits.

(** ** The stream as its frames

    [deliver] processes payloads one after the other, with no buffer: what the loop does to the
    bytes of a stream, whatever chunks they arrive in. *)

Section Frames.
Context {Number : Type} {J : JsonCrate Number}.
Variable response_model_id : string.
Variable attempt : InferenceAttempt.
Variable require_provider_done : bool.
Variable delivered : nat -> bool.
Notation process_frame := (process_frame response_model_id attempt delivered).
Notation drain_loop := (drain_loop response_model_id attempt delivered).
Notation drain_frames := (drain_frames response_model_id attempt delivered).
Notation read_loop := (read_loop response_model_id attempt delivered).
Notation process_event := (process_event response_model_id attempt require_provider_done delivered).
Notation process_events := (process_events response_model_id attempt require_provider_done delivered).

Fixpoint deliver (s : StreamState Number) (frames : list (list byte)) : Control Number :=
  match frames with
  | [] => Continue s
  | frame :: frames =>
      match process_frame s frame with
      | Continue s => deliver s frames
      | Return r sent => Return r sent
      end
  end.

Definition with_buffer (buffer : list byte) (s : StreamState Number) : StreamState Number :=
  MkStreamState buffer (ss_usage s) (ss_sent s).

Definition then_events (frame_limit : option nat) (c : Control Number) (events : list StreamEvent)
    : Control Number :=
  match c with
  | Continue s => process_events frame_limit s events
  | Return r sent => Return r sent
  end.

(** The payloads of the bytes, then the events that follow with the unfinished bytes in the buffer. *)
Definition stream_spec (bytes : list byte) (events : list StreamEvent) : Control Number :=
  match deliver stream_init (payloads bytes) with
  | Continue s => process_events None (with_buffer (split_frames bytes).2 s) events
  | Return r sent => Return r sent
  end.

(** Processing a frame reads everything but the buffer. *)
Lemma process_frame_buffer b s frame :
  process_frame (with_buffer b s) frame =
    match process_frame s frame with Continue s => Continue (with_buffer b s) | Return r sent => Return r sent end.
Proof.
  unfold CompletionStream.process_frame. cbn [ss_usage ss_sent with_buffer].
  case_bool_decide; [done|]. destruct (value_from_slice frame); [|done].
  destruct (upstream_stream_failure _); [done|]. by destruct (delivered _).
Qed.

Lemma process_frame_keeps s frame s' : process_frame s frame = Continue s' -> ss_buffer s' = ss_buffer s.
Proof.
  unfold CompletionStream.process_frame. case_bool_decide; [done|].
  destruct (value_from_slice frame); [|done]. destruct (upstream_stream_failure _); [done|].
  by destruct (delivered _); intros [= <-].
Qed.

Lemma deliver_buffer b s frames :
  deliver (with_buffer b s) frames =
    match deliver s frames with Continue s => Continue (with_buffer b s) | Return r sent => Return r sent end.
Proof.
  revert s. induction frames as [|frame frames IH]; intros s; [done|]. simpl.
  rewrite process_frame_buffer. by destruct (process_frame s frame).
Qed.

Lemma stream_deliver_app s f1 f2 :
  deliver s (f1 ++ f2) =
    match deliver s f1 with Continue s => deliver s f2 | Return r sent => Return r sent end.
Proof.
  revert s. induction f1 as [|f f1 IH]; intros s; [done|]. simpl. by destruct (process_frame s f).
Qed.

Lemma drain_loop_spec fuel s :
  (length (ss_buffer s) < fuel)%nat ->
  drain_loop fuel s =
    match deliver s (payloads (ss_buffer s)) with
    | Continue s' => Continue (with_buffer (split_frames (ss_buffer s)).2 s')
    | Return r sent => Return r sent
    end.
Proof.
  revert s. induction fuel as [|fuel IH]; intros s Hf; [lia|]. simpl.
  pose proof (extract_payloads (ss_buffer s)) as H.
  destruct (extract_sse_frame (ss_buffer s)) as [[data|] rest].
  - destruct H as (-> & Hrest & Hlen). simpl. fold (with_buffer rest s). rewrite process_frame_buffer.
    destruct (process_frame s data) as [s'|]; [|done].
    rewrite IH by (simpl; lia). simpl. rewrite deliver_buffer, Hrest. by destruct (deliver s' _).
  - destruct H as [-> ->]. done.
Qed.

Lemma drain_frames_spec s :
  drain_frames s =
    match deliver s (payloads (ss_buffer s)) with
    | Continue s' => Continue (with_buffer (split_frames (ss_buffer s)).2 s')
    | Return r sent => Return r sent
    end.
Proof. apply drain_loop_spec. lia. Qed.

(** Without a limit a chunk is appended whole. *)
Lemma chunk_unlimited s bytes :
  process_event None s (Chunk bytes) = drain_frames (with_buffer (ss_buffer s ++ bytes) s).
Proof.
  cbn [CompletionStream.process_event CompletionStream.read_loop]. rewrite andb_negb_r, take_ge, drop_ge by lia.
  fold (with_buffer (ss_buffer s ++ bytes) s). by destruct (drain_frames _).
Qed.

(** What a chunk does, in terms of the payloads it completes. *)
Lemma chunk_spec s bytes :
  process_event None s (Chunk bytes) =
    match deliver s (payloads (ss_buffer s ++ bytes)) with
    | Continue s' => Continue (with_buffer (split_frames (ss_buffer s ++ bytes)).2 s')
    | Return r sent => Return r sent
    end.
Proof.
  rewrite chunk_unlimited, drain_frames_spec. cbn [ss_buffer with_buffer].
  rewrite deliver_buffer. by destruct (deliver s _).
Qed.

(** A waiting state holds no complete frame, and two chunks in a row are one. *)
Definition waiting (s : StreamState Number) : Prop := find_sse_frame_boundary (ss_buffer s) = None.

Lemma waiting_payloads s : waiting s -> payloads (ss_buffer s) = [] /\ (split_frames (ss_buffer s)).2 = ss_buffer s.
Proof. unfold waiting, payloads. intros H. by rewrite split_frames_unfold, H. Qed.

Lemma chunk_waiting s bytes s' : process_event None s (Chunk bytes) = Continue s' -> waiting s'.
Proof.
  rewrite chunk_spec. destruct (deliver s _); [|done]. intros [= <-]. unfold waiting. simpl.
  apply split_frames_rest.
Qed.

Lemma deliver_keeps s frames s' : deliver s frames = Continue s' -> ss_buffer s' = ss_buffer s.
Proof.
  revert s. induction frames as [|f frames IH]; intros s; simpl; [by intros [= <-]|].
  destruct (process_frame s f) as [s1|] eqn:E; [|done]. intros H.
  rewrite (IH s1 H). by apply process_frame_keeps in E.
Qed.

Lemma chunk_app s a b events :
  then_events None (process_event None s (Chunk (a ++ b))) events =
  then_events None (process_event None s (Chunk a)) (Chunk b :: events).
Proof.
  rewrite (chunk_spec s a), (chunk_spec s (a ++ b)), app_assoc, payloads_app, stream_deliver_app.
  destruct (deliver s (payloads (ss_buffer s ++ a))) as [s1|] eqn:E1; [|done].
  cbn [then_events CompletionStream.process_events]. rewrite chunk_spec. cbn [ss_buffer with_buffer].
  rewrite deliver_buffer, (split_frames_app (ss_buffer s ++ a)). cbn [snd].
  by destruct (deliver s1 _).
Qed.

Lemma chunks_app s c cs events :
  process_events None s ((Chunk <$> c :: cs) ++ events) =
  then_events None (process_event None s (Chunk (c ++ concat cs))) events.
Proof.
  revert s c. induction cs as [|c' cs IH]; intros s c.
  - by rewrite app_nil_r.
  - change (concat (c' :: cs)) with (c' ++ concat cs). rewrite chunk_app.
    change (process_events None s ((Chunk <$> c :: c' :: cs) ++ events))
      with (then_events None (process_event None s (Chunk c)) ((Chunk <$> c' :: cs) ++ events)).
    destruct (process_event None s (Chunk c)) as [s1|]; [|done]. cbn [then_events]. apply IH.
Qed.

(** C18: The loop refines the stream read as one string of bytes.  However the network cuts the bytes
    into chunks, even inside a delimiter or a character, what the consumer receives, the terminal and
    the usage are those of the payloads of the whole string taken in order, followed by the remaining
    events with the unfinished bytes in the buffer. *)
Theorem stream_refines_frames (chunks : list (list byte)) (events : list StreamEvent) :
  process_completion_stream response_model_id attempt require_provider_done delivered None
    ((Chunk <$> chunks) ++ events) = stream_spec (concat chunks) events.
Proof.
  unfold process_completion_stream. destruct chunks as [|c chunks]; [done|].
  rewrite chunks_app, chunk_spec. unfold stream_spec. cbn [ss_buffer stream_init app concat].
  by destruct (deliver stream_init _).
Qed.

(** ** A limit on the frame *)

(** The step of the inner loop under a limit. *)
Lemma read_loop_step fuel limit s unread :
  read_loop (S fuel) (Some limit) s unread =
    let n := Nat.min (limit - length (ss_buffer s)) (length unread) in
    if (n =? 0)%nat && negb (length unread =? 0)%nat
    then finish s InvalidData (Failed attempt (stream_failure InvalidResponse))
    else
      match process_event None s (Chunk (take n unread)) with
      | Return r sent => Return r sent
      | Continue s =>
          match drop n unread with [] => Continue s | u => read_loop fuel (Some limit) s u end
      end.
Proof.
  cbn [CompletionStream.read_loop]. cbn zeta. rewrite chunk_unlimited. unfold with_buffer.
  destruct (_ && _); [done|]. by destruct (drain_frames _); [destruct (drop _ _)|].
Qed.

(** A stream whose next bytes do not fit: the loop without a limit is waiting, its buffer is full,
    and more bytes of the chunk remain. *)
Definition overflows (limit : nat) (s : StreamState Number) (bytes : list byte) (s' : StreamState Number)
    : Prop :=
  exists seen rest, bytes = seen ++ rest /\ rest <> []
    /\ process_event None s (Chunk seen) = Continue s' /\ length (ss_buffer s') = limit.

Lemma split_rest_length bytes : (length (split_frames bytes).2 <= length bytes)%nat.
Proof.
  induction bytes as [bytes E|bytes e d E IH] using split_ind; rewrite split_frames_unfold, E; [done|].
  destruct (split_frames _). simpl in *. rewrite length_drop in IH. lia.
Qed.

Lemma chunk_buffer_length s bytes s' :
  process_event None s (Chunk bytes) = Continue s' ->
  (length (ss_buffer s') <= length (ss_buffer s) + length bytes)%nat.
Proof.
  rewrite chunk_spec. destruct (deliver s _); [|done]. intros [= <-]. simpl.
  rewrite <-length_app. apply split_rest_length.
Qed.

Lemma chunk_nil s : waiting s -> process_event None s (Chunk []) = Continue s.
Proof.
  intros Hw. rewrite chunk_spec, app_nil_r. destruct (waiting_payloads s Hw) as [-> ->]. simpl.
  by destruct s.
Qed.

Lemma read_loop_limited fuel limit s bytes :
  waiting s -> (length (ss_buffer s) <= limit)%nat -> (length bytes < fuel)%nat ->
  match read_loop fuel (Some limit) s bytes with
  | Continue s' =>
      process_event None s (Chunk bytes) = Continue s' /\ (length (ss_buffer s') <= limit)%nat
  | Return r sent =>
      process_event None s (Chunk bytes) = Return r sent \/
      exists s', overflows limit s bytes s'
        /\ Return r sent = finish s' InvalidData (Failed attempt (stream_failure InvalidResponse))
  end.
Proof.
  revert s bytes. induction fuel as [|fuel IH]; intros s bytes Hw Hl Hf; [lia|].
  rewrite read_loop_step. cbn zeta. set (n := Nat.min _ _).
  destruct ((n =? 0)%nat && negb (length bytes =? 0)%nat) eqn:Hn.
  { apply andb_true_iff in Hn as [Hn%Nat.eqb_eq Hb%negb_true_iff%Nat.eqb_neq]. right. exists s.
    split; [|done]. exists [], bytes. split_and!; [done|by destruct bytes|by apply chunk_nil|lia]. }
  destruct (process_event None s (Chunk (take n bytes))) as [s1|r sent] eqn:E1; last first.
  { left. rewrite <-(take_drop n bytes). pose proof (chunk_app s (take n bytes) (drop n bytes) []) as H.
    rewrite E1 in H. cbn [then_events] in H.
    by destruct (process_event None s (Chunk (take n bytes ++ drop n bytes))). }
  pose proof (chunk_buffer_length _ _ _ E1) as Hlen. rewrite length_take in Hlen.
  assert (Hjoin : forall c, then_events None c [] = c) by by intros [].
  pose proof (chunk_app s (take n bytes) (drop n bytes) []) as Happ. rewrite take_drop, E1 in Happ.
  rewrite Hjoin in Happ. cbn [then_events CompletionStream.process_events] in Happ.
  destruct (drop n bytes) as [|b rest] eqn:Ed.
  { rewrite chunk_nil in Happ by (by eapply chunk_waiting). split; [done|lia]. }
  assert (length (b :: rest) = length bytes - n)%nat as Hrest by by rewrite <-Ed, length_drop.
  apply andb_false_iff in Hn as [Hn%Nat.eqb_neq|Hn%negb_false_iff%Nat.eqb_eq]; [|simpl in Hrest; lia].
  specialize (IH s1 (b :: rest)).
  destruct (read_loop fuel (Some limit) s1 (b :: rest)) as [s2|r sent].
  - destruct IH as [H2 ?]; [by eapply chunk_waiting|lia|lia|]. by rewrite Happ, H2.
  - destruct IH as [H2|(s' & (seen & rest' & Hsplit & Hne & Hs' & Hfull) & Hr)];
      [by eapply chunk_waiting|lia|lia| |].
    + left. by rewrite Happ, H2.
    + right. exists s'. split; [|done]. exists (take n bytes ++ seen), rest'.
      split; [by rewrite <-app_assoc, <-Hsplit, <-Ed, take_drop|]. split; [done|]. split; [|done].
      pose proof (chunk_app s (take n bytes) seen []) as H. rewrite E1, Hjoin in H.
      cbn [then_events CompletionStream.process_events] in H. rewrite Hs' in H. done.
Qed.
Lemma process_events_limited limit s events :
  waiting s -> (length (ss_buffer s) <= limit)%nat ->
  match process_events (Some limit) s events with
  | Continue s' => process_events None s events = Continue s' /\ (length (ss_buffer s') <= limit)%nat
  | Return r sent =>
      process_events None s events = Return r sent \/
      exists before bytes after s1 s2, events = before ++ Chunk bytes :: after
        /\ process_events None s before = Continue s1 /\ overflows limit s1 bytes s2
        /\ Return r sent = finish s2 InvalidData (Failed attempt (stream_failure InvalidResponse))
  end.
Proof.
  revert s. induction events as [|event events IH]; intros s Hw Hl; [done|].
  cbn [CompletionStream.process_events]. destruct event as [|bytes| | |]; try by left.
  pose proof (read_loop_limited (S (length bytes)) limit s bytes Hw Hl (Nat.lt_succ_diag_r _)) as Hread.
  change (read_loop (S (length bytes)) (Some limit) s bytes) with (process_event (Some limit) s (Chunk bytes))
    in Hread.
  destruct (process_event (Some limit) s (Chunk bytes)) as [s1|r sent].
  - destruct Hread as [Hs1 Hl1]. specialize (IH s1 (chunk_waiting _ _ _ Hs1) Hl1). rewrite Hs1.
    destruct (process_events (Some limit) s1 events); [done|].
    destruct IH as [IH|(before & bytes' & after & s2 & s3 & -> & H2 & H3 & H4)]; [by left|].
    right. exists (Chunk bytes :: before), bytes', after, s2, s3. split_and!; try done.
    cbn [CompletionStream.process_events]. by rewrite Hs1.
  - destruct Hread as [->|(s' & Hover & Hr)]; [by left|].
    right. by exists [], bytes, events, s, s'.
Qed.

(** C24: A frame limit bounds memory and changes nothing else.  While the loop waits it holds at most
    [limit] bytes, and its state is that of the loop without a limit; when it returns, it returns what
    the loop without a limit returns, unless a frame of more than [limit] bytes arrived: then it fails
    with an invalid response at the moment the buffer is full, having sent what was complete. *)
Theorem frame_limit_bounds (limit : nat) (events : list StreamEvent) :
  let process := process_completion_stream response_model_id attempt require_provider_done delivered in
  match process (Some limit) events with
  | Continue s => process None events = Continue s /\ (length (ss_buffer s) <= limit)%nat
  | Return r sent =>
      process None events = Return r sent \/
      exists before bytes after s1 s2, events = before ++ Chunk bytes :: after
        /\ process None before = Continue s1 /\ overflows limit s1 bytes s2
        /\ Return r sent = finish s2 InvalidData (Failed attempt (stream_failure InvalidResponse))
  end.
Proof. apply process_events_limited; [done|simpl; lia]. Qed.

(** ** Usage *)

(** The largest value a counter took in the payloads that were observed; zero when it never appeared. *)
Definition highest (f : CompletionUsageObservation -> option Z) (seen : list (Value Number)) : Z :=
  foldr Z.max 0 (omap (fun json => observed ← extract_usage_observation json; f observed) seen).

(** The last cached count that appeared. *)
Definition latest_cached (seen : list (Value Number)) : option Z :=
  last (omap (fun json => observed ← extract_usage_observation json; cuo_cached_prompt_tokens observed) seen).

Lemma token_count_range (v : option (Value Number)) z : token_count v = Some z -> 0 <= z <= I32_MAX.
Proof.
  unfold token_count. destruct v as [v|]; [|done]. cbn. destruct (value_as_i64 v) as [t|]; [|done]. cbn.
  destruct (0 <=? t) eqn:E; [|done]. intros [= <-]. unfold I32_MAX. lia.
Qed.

Lemma observation_range (json : Value Number) o :
  extract_usage_observation json = Some o ->
  (forall z, cuo_prompt_tokens o = Some z -> 0 <= z <= I32_MAX)
  /\ (forall z, cuo_completion_tokens o = Some z -> 0 <= z <= I32_MAX)
  /\ (forall z, cuo_cached_prompt_tokens o = Some z -> 0 <= z <= I32_MAX).
Proof.
  unfold extract_usage_observation. destruct (value_get json "usage") as [u|]; [|done]. cbn.
  destruct (value_as_object u); [|done]. cbn. intros [= <-]. cbn.
  split_and!; intros z; apply token_count_range.
Qed.

Lemma highest_snoc f seen json :
  (forall o z, extract_usage_observation json = Some o -> f o = Some z -> 0 <= z) ->
  highest f (seen ++ [json]) =
    Z.max (highest f seen) (default 0 (o ← extract_usage_observation json; f o)).
Proof.
  intros Hf. unfold highest. rewrite omap_app, foldr_app. cbn [omap list_omap].
  destruct (extract_usage_observation json) as [o|] eqn:E; cbn.
  - destruct (f o) as [z|] eqn:Ez; cbn; [specialize (Hf o z eq_refl Ez)|];
      induction (omap _ seen); cbn; lia.
  - induction (omap _ seen); cbn; lia.
Qed.

Lemma latest_cached_snoc seen json :
  latest_cached (seen ++ [json]) =
    match o ← extract_usage_observation json; cuo_cached_prompt_tokens o with
    | Some z => Some z
    | None => latest_cached seen
    end.
Proof.
  unfold latest_cached. rewrite omap_app. cbn [omap list_omap].
  destruct (_ ← extract_usage_observation json; _) as [z|]; [by rewrite last_snoc|by rewrite app_nil_r].
Qed.

(** What the accumulator holds after the payloads [seen]. *)
Definition accumulated (seen : list (Value Number)) (acc : StreamUsageAccumulator) : Prop :=
  sua_finalized acc = false
  /\ sua_saw_terminal_signal acc = existsb has_terminal_stream_signal seen
  /\ highest cuo_prompt_tokens seen = map_or 0 cu_prompt_tokens (sua_latest_usage acc)
  /\ highest cuo_completion_tokens seen = map_or 0 cu_completion_tokens (sua_latest_usage acc)
  /\ latest_cached seen = (usage ← sua_latest_usage acc; cu_cached_prompt_tokens usage).

Lemma highest_nonneg f seen : 0 <= highest f seen.
Proof. unfold highest. induction (omap _ seen); cbn; lia. Qed.

Lemma accumulated_observe seen acc json :
  accumulated seen acc -> accumulated (seen ++ [json]) (observe acc json).
Proof.
  intros (Hf & Ht & Hp & Hc & Hl). unfold accumulated.
  rewrite existsb_app, latest_cached_snoc, !highest_snoc, Hl; cbn [existsb].
  2, 3: intros o z Ho Hz; apply observation_range in Ho as (H1 & H2 & _);
    first [apply H1 in Hz|apply H2 in Hz]; lia.
  pose proof (highest_nonneg cuo_prompt_tokens seen). pose proof (highest_nonneg cuo_completion_tokens seen).
  rewrite orb_false_r. unfold observe, observation_is_empty, is_none.
  destruct acc as [latest saw fin]; cbn in *. subst saw fin.
  destruct (extract_usage_observation json) as [[[p|] [c|] [k|]]|] eqn:E; cbn;
    try (apply observation_range in E as (Hp' & Hc' & _); cbn in Hp', Hc');
    try specialize (Hp' _ eq_refl); try specialize (Hc' _ eq_refl);
    destruct latest as [u|]; cbn in *; split_and!; try done; lia.
Qed.

(** ** Outcomes *)

(** The usage reported after observing [seen]: only on evidence that the model finished, and never
    with both counts zero. *)
Definition billed (finalization : StreamUsageFinalization) (seen : list (Value Number))
    : option CompletionUsage :=
  let prompt := highest cuo_prompt_tokens seen in
  let completion := highest cuo_completion_tokens seen in
  if (is_provider_done finalization || existsb has_terminal_stream_signal seen)
     && ((0 <? prompt) || (0 <? completion))
  then Some (MkCompletionUsage prompt completion ((fun cached => Z.min cached prompt) <$> latest_cached seen))
  else None.

Lemma take_final_usage_billed seen acc finalization :
  accumulated seen acc -> (take_final_usage acc finalization).1 = billed finalization seen.
Proof.
  intros (Hf & Ht & Hp & Hc & Hl). unfold take_final_usage, billed. rewrite Hf, Ht, Hp, Hc, Hl.
  destruct (is_provider_done finalization || _); cbn; [|done].
  by destruct (sua_latest_usage acc).
Qed.

(** A payload that is a chunk of the answer. *)
Definition reads (frame : list byte) (json : Value Number) : Prop :=
  frame <> as_bytes "[DONE]" /\ value_from_slice frame = Some json /\ upstream_stream_failure json = None.

(** Payloads read as chunks, all of them taken by the consumer. *)
Definition taken (frames : list (list byte)) (seen : list (Value Number)) : Prop :=
  Forall2 reads frames seen /\ forall i, (i < length seen)%nat -> delivered i = true.

(** The payload that ends a stream after [n] chunks, with the chunk it loses. *)
Inductive frame_ends (n : nat) : list byte -> list (Value Number) -> AttemptTerminal -> StreamUsageFinalization -> Prop :=
| DoneEnds : frame_ends n (as_bytes "[DONE]") [] (Completed attempt ProviderDone) FinalProviderDone
| InvalidEnds frame : frame <> as_bytes "[DONE]" -> value_from_slice frame = None (A := Value Number) ->
    frame_ends n frame [] (Failed attempt (stream_failure InvalidResponse)) InvalidData
| ErrorEnds frame json failure : frame <> as_bytes "[DONE]" -> value_from_slice frame = Some json ->
    upstream_stream_failure json = Some failure ->
    frame_ends n frame [] (Failed attempt failure) ProviderError
| UndeliveredEnds frame json : reads frame json -> delivered n = false ->
    frame_ends n frame [json] (Failed attempt (stream_failure ConsumerDropped)) FinalConsumerDropped.

(** What reaches the loop besides bytes, after [bytes] of which [seen] was read. *)
Inductive event_ends (bytes : list byte) (seen : list (Value Number))
    : StreamEvent -> AttemptTerminal -> StreamUsageFinalization -> Prop :=
| CancelledEnds : event_ends bytes seen Cancelled (Failed attempt (stream_failure ConsumerDropped)) FinalConsumerDropped
| ReadFailedEnds : event_ends bytes seen ReadFailed (Failed attempt (stream_failure Transport)) TransportError
| TimedOutEnds : event_ends bytes seen TimedOut (Failed attempt (stream_failure StreamTimeout)) Timeout
| BodyEndCompletes : require_provider_done = false -> existsb has_terminal_stream_signal seen = true ->
    forallb is_ascii_whitespace (split_frames bytes).2 = true ->
    event_ends bytes seen BodyEnd (Completed attempt FinishSignalThenEof) EndOfStream
| BodyEndFails : require_provider_done = true \/ existsb has_terminal_stream_signal seen = false
      \/ forallb is_ascii_whitespace (split_frames bytes).2 = false ->
    event_ends bytes seen BodyEnd (Failed attempt (stream_failure UnexpectedEof)) EndOfStream.

(** Why a stream ends, in terms of what arrived: the first payload that is not a chunk the consumer takes; the first
    event that is not bytes, after all payloads before it were taken; or a chunk with more bytes when the unfinished
    frame is as long as the limit. *)
Inductive stream_ends (limit : option nat) (events : list StreamEvent) (seen lost : list (Value Number))
    : AttemptTerminal -> StreamUsageFinalization -> Prop :=
| FrameEnds chunks rest before frame after terminal finalization :
    events = (Chunk <$> chunks) ++ rest -> payloads (concat chunks) = before ++ frame :: after ->
    taken before seen -> frame_ends (length seen) frame lost terminal finalization ->
    stream_ends limit events seen lost terminal finalization
| EventEnds chunks event rest terminal finalization :
    events = (Chunk <$> chunks) ++ event :: rest -> taken (payloads (concat chunks)) seen -> lost = [] ->
    event_ends (concat chunks) seen event terminal finalization ->
    stream_ends limit events seen lost terminal finalization
| LimitEnds max chunks part b more rest :
    limit = Some max -> events = (Chunk <$> chunks) ++ Chunk (part ++ b :: more) :: rest ->
    taken (payloads (concat chunks ++ part)) seen -> lost = [] ->
    length (split_frames (concat chunks ++ part)).2 = max ->
    stream_ends limit events seen lost (Failed attempt (stream_failure InvalidResponse)) InvalidData.

(** The chunks sent are the payloads read, canonicalised; one more may have been read whose delivery failed; and the
    terminal, the finalization and the usage are those of what ended the stream. *)
Definition outcome_ok (limit : option nat) (events : list StreamEvent) (r : StreamProcessResult)
    (sent : list (Value Number)) : Prop :=
  exists seen lost, sent = canonicalize_completion_response response_model_id <$> seen
    /\ spr_usage r = billed (spr_finalization r) (seen ++ lost)
    /\ stream_ends limit events seen lost (spr_terminal r) (spr_finalization r).

(** What the terminal alone says. *)
Definition terminal_ok (terminal : AttemptTerminal) (finalization : StreamUsageFinalization)
    (seen : list (Value Number)) : Prop :=
  match terminal with
  | Completed a ProviderDone => a = attempt /\ finalization = FinalProviderDone
  | Completed a FinishSignalThenEof =>
      a = attempt /\ finalization = EndOfStream /\ require_provider_done = false
      /\ existsb has_terminal_stream_signal seen = true
  | Completed _ NonStreamingResponse => False
  | Failed a failure =>
      a = attempt /\ finalization <> FinalProviderDone /\ af_stage failure = Stream
      /\ af_replay_safety failure = NotProvenPreAcceptance
  end.

Lemma frame_ends_terminal n frame lost terminal finalization seen :
  frame_ends n frame lost terminal finalization -> terminal_ok terminal finalization seen.
Proof.
  intros H. destruct H as [| |frame json failure _ _ Ef|]; cbn; try done.
  unfold upstream_stream_failure, upstream_payload_failure in Ef.
  destruct (value_get json "error") as [e|]; [|done]. cbn in Ef. destruct (value_is_null e); [done|].
  by injection Ef as <-.
Qed.

Lemma stream_ends_terminal limit events seen lost terminal finalization :
  stream_ends limit events seen lost terminal finalization -> terminal_ok terminal finalization seen.
Proof.
  intros H. destruct H as [? ? ? ? ? ? ? _ _ _ H|? ? ? ? ? _ _ _ H|]; [by eapply frame_ends_terminal| |done].
  by destruct H.
Qed.

(** *** The loop reads what arrived *)

(** A state that has taken [seen]. *)
Definition has_read (seen : list (Value Number)) (s : StreamState Number) : Prop :=
  ss_sent s = canonicalize_completion_response response_model_id <$> seen /\ accumulated seen (ss_usage s)
  /\ forall i, (i < length seen)%nat -> delivered i = true.

Lemma finish_outcome s finalization terminal seen lost :
  ss_sent s = canonicalize_completion_response response_model_id <$> seen -> accumulated (seen ++ lost) (ss_usage s) ->
  exists r, finish s finalization terminal = Return r (canonicalize_completion_response response_model_id <$> seen)
    /\ spr_terminal r = terminal /\ spr_finalization r = finalization
    /\ spr_usage r = billed finalization (seen ++ lost).
Proof.
  intros Hs Hacc. eexists. unfold finish. rewrite Hs. split; [done|]. split_and!; [done..|]. by apply take_final_usage_billed.
Qed.

Lemma process_frame_read s seen frame :
  has_read seen s ->
  match process_frame s frame with
  | Continue s' => exists json, reads frame json /\ has_read (seen ++ [json]) s'
  | Return r sent => exists lost, sent = canonicalize_completion_response response_model_id <$> seen
      /\ spr_usage r = billed (spr_finalization r) (seen ++ lost)
      /\ frame_ends (length seen) frame lost (spr_terminal r) (spr_finalization r)
  end.
Proof.
  intros (Hs & Hacc & Hdel). unfold CompletionStream.process_frame.
  assert (forall finalization terminal, frame_ends (length seen) frame [] terminal finalization ->
    match finish s finalization terminal with
    | Continue s' => exists json, reads frame json /\ has_read (seen ++ [json]) s'
    | Return r sent => exists lost, sent = canonicalize_completion_response response_model_id <$> seen
        /\ spr_usage r = billed (spr_finalization r) (seen ++ lost)
        /\ frame_ends (length seen) frame lost (spr_terminal r) (spr_finalization r)
    end) as Hfin.
  { intros fin t Hf. destruct (finish_outcome s fin t seen [] Hs) as (r & -> & <- & <- & Hu); [by rewrite app_nil_r|].
    by exists []. }
  case_bool_decide as Hd; [subst frame; apply Hfin; constructor|].
  destruct (value_from_slice frame) as [json|] eqn:Ev; [|apply Hfin; by constructor].
  destruct (upstream_stream_failure json) as [failure|] eqn:Ef; [apply Hfin; by econstructor|].
  cbn [ss_sent ss_usage ss_buffer]. rewrite Hs, length_fmap. pose proof (accumulated_observe seen _ json Hacc) as Hacc'.
  destruct (delivered (length seen)) eqn:Edel.
  - exists json. split; [done|]. split; [cbn; by rewrite fmap_app|]. split; [done|].
    intros i Hi. rewrite length_app in Hi. cbn in Hi. destruct (decide (i = length seen)) as [->|]; [done|apply Hdel; lia].
  - destruct (finish_outcome (MkStreamState (ss_buffer s) (observe (ss_usage s) json)
      (canonicalize_completion_response response_model_id <$> seen)) FinalConsumerDropped
      (Failed attempt (stream_failure ConsumerDropped)) seen [json] eq_refl Hacc') as (r & -> & Ht & Hf & Hu).
    exists [json]. rewrite Ht, Hf. split_and!; [done..|]. by constructor.
Qed.

Lemma deliver_read frames s seen :
  has_read seen s ->
  match deliver s frames with
  | Continue s' => exists more, Forall2 reads frames more /\ has_read (seen ++ more) s'
  | Return r sent => exists before frame after more lost, frames = before ++ frame :: after
      /\ Forall2 reads before more /\ (forall i, (i < length (seen ++ more))%nat -> delivered i = true)
      /\ sent = canonicalize_completion_response response_model_id <$> seen ++ more
      /\ spr_usage r = billed (spr_finalization r) ((seen ++ more) ++ lost)
      /\ frame_ends (length (seen ++ more)) frame lost (spr_terminal r) (spr_finalization r)
  end.
Proof.
  revert s seen. induction frames as [|frame frames IH]; intros s seen Hs; cbn [deliver].
  { exists []. rewrite app_nil_r. by split. }
  pose proof (process_frame_read s seen frame Hs) as Hf. destruct (process_frame s frame) as [s'|r sent].
  - destruct Hf as (json & Hjson & Hs'). specialize (IH s' (seen ++ [json]) Hs').
    destruct (deliver s' frames) as [s2|r sent].
    + destruct IH as (more & Hm & Hs2). exists (json :: more). rewrite <- app_assoc in Hs2. split; [by constructor|done].
    + destruct IH as (before & frame' & after & more & lost & -> & Hm & IH). rewrite <- !app_assoc in IH.
      exists (frame :: before), frame', after, (json :: more), lost. split; [done|]. split; [by constructor|].
      rewrite <- !app_assoc. exact IH.
  - destruct Hf as (lost & -> & Hu & Hf). exists [], frame, frames, [], lost. rewrite app_nil_r.
    split; [done|]. split; [done|]. split; [apply Hs|]. done.
Qed.

(** A waiting loop has read the bytes of its chunks. *)
Definition arrived (chunks : list (list byte)) (seen : list (Value Number)) (s : StreamState Number) : Prop :=
  taken (payloads (concat chunks)) seen /\ has_read seen s /\ ss_buffer s = (split_frames (concat chunks)).2.

Lemma arrived_init : arrived [] [] stream_init.
Proof.
  assert (forall i, (i < length (@nil (Value Number)))%nat -> delivered i = true) as Hnone by (intros i Hi; cbn in Hi; lia).
  split; [split; [constructor|exact Hnone]|]. split; [|done]. split; [done|]. by split.
Qed.

Lemma chunk_arrived chunks seen s bytes :
  arrived chunks seen s ->
  match process_event None s (Chunk bytes) with
  | Continue s' => exists seen', arrived (chunks ++ [bytes]) seen' s'
  | Return r sent => forall limit rest, outcome_ok limit ((Chunk <$> chunks) ++ Chunk bytes :: rest) r sent
  end.
Proof.
  intros ([Hreads _] & Hs & Hbuf). rewrite chunk_spec.
  assert (payloads (concat (chunks ++ [bytes])) = payloads (concat chunks) ++ payloads (ss_buffer s ++ bytes)) as Hpay
    by (rewrite concat_app; cbn; by rewrite app_nil_r, payloads_app, Hbuf).
  assert (Hlast : (split_frames (concat (chunks ++ [bytes]))).2 = (split_frames (ss_buffer s ++ bytes)).2)
    by (rewrite concat_app; cbn; by rewrite app_nil_r, split_frames_app, Hbuf).
  pose proof (deliver_read (payloads (ss_buffer s ++ bytes)) s seen Hs) as Hd.
  destruct (deliver s (payloads (ss_buffer s ++ bytes))) as [s'|r sent].
  - destruct Hd as (more & Hm & Hs'). exists (seen ++ more). unfold arrived, taken. rewrite Hpay, Hlast.
    split_and!; [by apply Forall2_app|apply Hs'|by destruct Hs' as (? & ? & ?)|done].
  - destruct Hd as (before & frame & after & more & lost & E & Hm & Hdel & -> & Hu & Hf).
    intros limit rest. exists (seen ++ more), lost. split; [done|]. split; [done|].
    apply (FrameEnds _ _ _ _ (chunks ++ [bytes]) rest (payloads (concat chunks) ++ before) frame after).
    + by rewrite fmap_app, <- app_assoc.
    + by rewrite Hpay, E, <- app_assoc.
    + split; [by apply Forall2_app|done].
    + done.
Qed.

Lemma event_arrived chunks seen s event limit rest :
  arrived chunks seen s -> (forall bytes, event <> Chunk bytes) ->
  match process_event None s event with
  | Continue _ => False
  | Return r sent => outcome_ok limit ((Chunk <$> chunks) ++ event :: rest) r sent
  end.
Proof.
  intros (Htaken & (Hs & Hacc & _) & Hbuf) Hev.
  assert (forall finalization terminal, event_ends (concat chunks) seen event terminal finalization ->
    match finish s finalization terminal with
    | Continue _ => False
    | Return r sent => outcome_ok limit ((Chunk <$> chunks) ++ event :: rest) r sent
    end) as Hfin.
  { intros fin t He. destruct (finish_outcome s fin t seen [] Hs) as (r & -> & <- & <- & Hu); [by rewrite app_nil_r|].
    exists seen, []. split; [done|]. split; [done|]. by eapply EventEnds. }
  destruct event as [|bytes| | |]; cbn [CompletionStream.process_event]; try (apply Hfin; constructor).
  - by destruct (Hev bytes).
  - apply Hfin. unfold stream_end_terminal. destruct Hacc as (_ & Ht & _). rewrite Ht, Hbuf.
    assert (forall l, existsb (fun b => negb (is_ascii_whitespace b)) l = negb (forallb is_ascii_whitespace l)) as ->
      by (intros l; induction l as [|b l IH]; [done|]; cbn; rewrite IH; by destruct (is_ascii_whitespace b)).
    rewrite negb_involutive.
    destruct require_provider_done eqn:Hr, (existsb has_terminal_stream_signal seen) eqn:Hsig,
      (forallb is_ascii_whitespace (split_frames (concat chunks)).2) eqn:Hw; cbn;
      first [by apply BodyEndCompletes|by apply BodyEndFails; rewrite ?Hr, ?Hsig, ?Hw; tauto].
Qed.

Lemma events_arrived chunks seen s events :
  arrived chunks seen s ->
  match process_events None s events with
  | Continue s' => exists chunks' seen', events = Chunk <$> chunks' /\ arrived (chunks ++ chunks') seen' s'
  | Return r sent => forall limit, outcome_ok limit ((Chunk <$> chunks) ++ events) r sent
  end.
Proof.
  revert chunks seen s. induction events as [|event events IH]; intros chunks seen s Hs; cbn [CompletionStream.process_events].
  { exists [], seen. by rewrite app_nil_r. }
  destruct (match event with Chunk bytes => true | _ => false end) eqn:Hchunk.
  - destruct event as [|bytes| | |]; try done. pose proof (chunk_arrived chunks seen s bytes Hs) as Hc.
    destruct (process_event None s (Chunk bytes)) as [s'|r sent]; [|intros limit; apply Hc].
    destruct Hc as [seen' Hs']. specialize (IH _ _ _ Hs'). rewrite fmap_app, <- !app_assoc in IH.
    destruct (process_events None s' events) as [s2|r sent]; [|done].
    destruct IH as (chunks' & seen2 & -> & Hs2). rewrite <- app_assoc in Hs2. by exists (bytes :: chunks'), seen2.
  - assert (forall bytes, event <> Chunk bytes) as Hev by (intros bytes ->; done).
    pose proof (fun limit => event_arrived chunks seen s event limit events Hs Hev) as He.
    destruct (process_event None s event); [by destruct (He None)|done].
Qed.

Lemma highest_le f seen :
  (forall json o z, extract_usage_observation json = Some o -> f o = Some z -> z <= I32_MAX) ->
  highest f seen <= I32_MAX.
Proof.
  intros Hf. induction seen as [|json seen IH] using rev_ind; [done|].
  unfold highest. rewrite omap_app, foldr_app. cbn [omap list_omap].
  destruct (extract_usage_observation json) as [o|] eqn:Eo; cbn; [|apply IH].
  destruct (f o) as [z|] eqn:Ez; cbn; [|apply IH].
  pose proof (Hf _ _ _ Eo Ez). unfold highest in IH. clear Eo Ez.
  induction (omap _ seen) as [|x l IHl]; cbn in *; [unfold I32_MAX in *; lia|].
  assert (foldr Z.max 0 l <= I32_MAX) as Hl by lia. specialize (IHl Hl). lia.
Qed.

Lemma latest_cached_nonneg seen cached : latest_cached seen = Some cached -> 0 <= cached.
Proof.
  unfold latest_cached. intros (json & _ & H)%last_Some_elem_of%list_elem_of_omap.
  destruct (extract_usage_observation json) as [o|] eqn:E; [|done]. cbn in H.
  apply observation_range in E as (_ & _ & E). apply E in H. lia.
Qed.

Lemma billed_bounds finalization seen u :
  billed finalization seen = Some u ->
  0 <= cu_prompt_tokens u <= I32_MAX /\ 0 <= cu_completion_tokens u <= I32_MAX
  /\ 0 < cu_prompt_tokens u + cu_completion_tokens u
  /\ (forall cached, cu_cached_prompt_tokens u = Some cached -> 0 <= cached <= cu_prompt_tokens u).
Proof.
  unfold billed. destruct (_ && ((0 <? _) || _)) eqn:E; [|done]. intros [= <-]. cbn.
  apply andb_true_iff in E as [_ E%orb_true_iff]. rewrite !Z.ltb_lt in E.
  pose proof (highest_nonneg cuo_prompt_tokens seen). pose proof (highest_nonneg cuo_completion_tokens seen).
  assert (highest cuo_prompt_tokens seen <= I32_MAX)
    by (apply highest_le; intros json o z Ho Hz; apply observation_range in Ho as (Ho & _); apply Ho in Hz; lia).
  assert (highest cuo_completion_tokens seen <= I32_MAX)
    by (apply highest_le; intros json o z Ho Hz; apply observation_range in Ho as (_ & Ho & _); apply Ho in Hz; lia).
  split_and!; try lia. intros cached. destruct (latest_cached seen) as [k|] eqn:Ek; [|done].
  apply latest_cached_nonneg in Ek. intros [= <-]. lia.
Qed.

Lemma stream_outcome_ok limit events r sent :
  process_completion_stream response_model_id attempt require_provider_done delivered limit events = Return r sent ->
  outcome_ok limit events r sent.
Proof.
  unfold process_completion_stream. intros H.
  assert (forall l, process_events None stream_init l = Return r sent -> l = events -> outcome_ok limit events r sent) as Hnone.
  { intros l Hl ->. pose proof (events_arrived [] [] stream_init events arrived_init) as He. rewrite Hl in He. apply He. }
  destruct limit as [max|]; [|by eapply Hnone].
  pose proof (process_events_limited max stream_init events eq_refl (Nat.le_0_l _)) as Hlim. rewrite H in Hlim.
  destruct Hlim as [Hl|(before & bytes & after & s1 & s2 & -> & Hbefore & (part & more & -> & Hne & Hpart & Hlen) & Hret)];
    [by eapply Hnone|].
  pose proof (events_arrived [] [] stream_init before arrived_init) as He. rewrite Hbefore in He.
  destruct He as (chunks & seen & -> & Hs1). cbn [app] in Hs1.
  pose proof (chunk_arrived chunks seen s1 part Hs1) as Hc. rewrite Hpart in Hc.
  destruct Hc as (seen2 & Htaken & (Hs2 & Hacc & _) & Hbuf). rewrite concat_app in Htaken, Hbuf. cbn [concat] in Htaken, Hbuf.
  rewrite app_nil_r in Htaken, Hbuf. destruct more as [|b more]; [done|].
  destruct (finish_outcome s2 InvalidData (Failed attempt (stream_failure InvalidResponse)) seen2 [] Hs2)
    as (r' & E & Ht & Hf & Hu); [by rewrite app_nil_r|].
  rewrite E in Hret. injection Hret as -> ->. exists seen2, []. rewrite Ht, Hf. split; [done|]. split; [exact Hu|].
  eapply LimitEnds; [done|done|done|done|by rewrite <- Hbuf].
Qed.

Lemma stream_waits limit events s :
  process_completion_stream response_model_id attempt require_provider_done delivered limit events = Continue s ->
  exists chunks seen, events = Chunk <$> chunks /\ arrived chunks seen s.
Proof.
  unfold process_completion_stream. intros H.
  assert (process_events None stream_init events = Continue s) as Hnone.
  { destruct limit as [max|]; [|done].
    pose proof (process_events_limited max stream_init events eq_refl (Nat.le_0_l _)) as Hlim. rewrite H in Hlim. by destruct Hlim. }
  pose proof (events_arrived [] [] stream_init events arrived_init) as He. rewrite Hnone in He. exact He.
Qed.

(** C25: What a stream ends with, under any limit and any events, told from what arrived.  The loop waits only while
    nothing but bytes arrived, whose payloads are all chunks the consumer took.  It ends at the first payload that is
    not: [[DONE]] completes the attempt, an unreadable payload, an error of the provider and a chunk the consumer does
    not take fail it; or at the first event that is not bytes: a cancellation, a failed read and a timeout fail it, and
    the end of the body completes it when the protocol does not require [[DONE]], a finish signal was read and no
    unfinished frame is left, and fails it otherwise; or when the unfinished frame reaches the limit.  The consumer
    received exactly the chunks read, in order, canonicalised, and at most the last one was lost.  Usage is reported
    exactly when [[DONE]] or a finish signal was read and some count is positive, and it is the highest prompt and
    completion counts with the last cached count, each within an [i32] and the cached one no more than the prompt.
    Every failure is a failure of the stream that proves nothing about acceptance. *)
Theorem stream_outcome (limit : option nat) (events : list StreamEvent) :
  match process_completion_stream response_model_id attempt require_provider_done delivered limit events with
  | Continue s => exists chunks seen, events = Chunk <$> chunks /\ taken (payloads (concat chunks)) seen
      /\ ss_sent s = canonicalize_completion_response response_model_id <$> seen
  | Return r sent =>
      exists seen lost, sent = canonicalize_completion_response response_model_id <$> seen
        /\ stream_ends limit events seen lost (spr_terminal r) (spr_finalization r)
        /\ terminal_ok (spr_terminal r) (spr_finalization r) seen
        /\ spr_usage r = billed (spr_finalization r) (seen ++ lost)
        /\ forall u, spr_usage r = Some u ->
             0 <= cu_prompt_tokens u <= I32_MAX /\ 0 <= cu_completion_tokens u <= I32_MAX
             /\ 0 < cu_prompt_tokens u + cu_completion_tokens u
             /\ (forall cached, cu_cached_prompt_tokens u = Some cached -> 0 <= cached <= cu_prompt_tokens u)
  end.
Proof.
  destruct (process_completion_stream _ _ _ _ _ _) as [s|r sent] eqn:E.
  - apply stream_waits in E as (chunks & seen & -> & Htaken & (Hs & _) & _). by exists chunks, seen.
  - apply stream_outcome_ok in E as (seen & lost & Hs & Hb & He). exists seen, lost. split; [done|]. split; [done|].
    split; [by eapply stream_ends_terminal|]. split; [done|]. intros u Hu.
    apply (billed_bounds (spr_finalization r) (seen ++ lost)). congruence.
Qed.
End Frames.
