(* ===== verification/AttemptExecution.v ===== *)
(** * Executing an attempt: get_chat_completion_response_with_options, finish_started_completion and
    AttemptObservationGuard of web/openai.rs

    A claimed turn is sent to its provider and consumed.  Whatever happens, and wherever the request
    is cancelled, the attempt is observed by route health exactly once, with the probe it holds.  What
    the provider and the consumer do is an argument; the model records the observations, the usage
    that is billed, and whether the route is remembered. *)
From Stdlib Require Import Strings.Byte.
From S2P Require Import Prelude Json Registry Inference Reasoning Catalog RequestPolicy ApiErrors.
From S2P Require Import Health Sse CompletionStream.

(** ** The guard *)

(** An observation reported to route health. *)
Record Observation := MkObservation {
  ob_terminal : AttemptTerminal;
  ob_mode : ShadowObservationMode;
  ob_probe : option ProbeLease;
}.

Record AttemptObservationGuard := MkAttemptObservationGuard {
  ag_attempt : InferenceAttempt;
  ag_stage : AttemptStage;
  ag_probe : option ProbeLease;
  ag_known_failure : option AttemptFailure;
  ag_armed : bool;
}.

Definition new_with_probe (attempt : InferenceAttempt) (stage : AttemptStage) (probe : option ProbeLease)
    : AttemptObservationGuard :=
  MkAttemptObservationGuard attempt stage probe None true.

Definition set_stage (self : AttemptObservationGuard) (stage : AttemptStage) : AttemptObservationGuard :=
  MkAttemptObservationGuard (ag_attempt self) stage (ag_probe self) (ag_known_failure self) (ag_armed self).

Definition retain_known_upstream_failure (self : AttemptObservationGuard) (upstream : UpstreamProviderError)
    : AttemptObservationGuard :=
  MkAttemptObservationGuard (ag_attempt self) (ag_stage self) (ag_probe self)
    (Some (attempt_failure_from_provider_error (ProviderUpstream upstream))) (ag_armed self).

Definition disarm (self : AttemptObservationGuard) : AttemptObservationGuard :=
  MkAttemptObservationGuard (ag_attempt self) (ag_stage self) (ag_probe self) (ag_known_failure self) false.

(** Records the terminal with the probe, which is taken. *)
Definition record_terminal (self : AttemptObservationGuard) (terminal : AttemptTerminal)
    : AttemptObservationGuard * list Observation :=
  (disarm (MkAttemptObservationGuard (ag_attempt self) (ag_stage self) None (ag_known_failure self)
             (ag_armed self)),
   [MkObservation terminal Update (ag_probe self)]).

Definition cancellation_terminal (self : AttemptObservationGuard) : AttemptTerminal :=
  Failed (ag_attempt self)
    (default (failure_new ConsumerDropped (ag_stage self) NotProvenPreAcceptance) (ag_known_failure self)).

(** [Drop for AttemptObservationGuard] *)
Definition drop_guard (self : AttemptObservationGuard) : list Observation :=
  if ag_armed self then [MkObservation (cancellation_terminal self) Update (ag_probe self)] else [].

(** ** The request body *)

Section Body.
Context {Number : Type}.

Definition ensure_stream_usage (body : list (string * Value Number)) : list (string * Value Number) :=
  let is_streaming := default false (stream ← map_get body "stream"; value_as_bool stream) in
  if negb is_streaming then body
  else
    map_insert body "stream_options"
      match map_get body "stream_options" with
      | Some (Object options) => Object (map_insert options "include_usage" (Bool true))
      | _ => Object [("include_usage"%string, Bool true)]
      end.

Definition MEDIA_TYPES : list string :=
  ["image_url"; "input_image"; "image_pil"; "image_embeds"; "audio_url"; "input_audio"; "audio_embeds";
   "video_url"; "video_embeds"].
Definition MEDIA_FIELDS : list string :=
  ["image_url"; "image_pil"; "image_embeds"; "audio_url"; "input_audio"; "audio_embeds"; "video_url";
   "video_embeds"].

Definition sanitize_part (part : Value Number) : Value Number :=
  match part with
  | Object fields =>
      let is_media :=
        is_some_and (fun kind => existsb (String.eqb kind) MEDIA_TYPES)
          (kind ← map_get fields "type"; value_as_str kind)
        || existsb (fun field => is_some (map_get fields field)) MEDIA_FIELDS in
      if is_media then Object (map_remove fields "uuid") else part
  | _ => part
  end.

(** [maple_inference::sanitize_completion_request] *)
Definition sanitize_completion_request (body : list (string * Value Number)) : list (string * Value Number) :=
  let body := map_remove body "priority" in
  match map_get body "messages" with
  | Some (Array messages) =>
      map_insert body "messages"
        (Array ((fun message => value_update message "content" (fun content =>
                   match content with Array parts => Array (sanitize_part <$> parts) | _ => content end))
                <$> messages))
  | _ => body
  end.
End Body.

(** ** What the provider and the consumer do *)

(** [ProviderSendTrace]; a response is its status. *)
Record ProviderSendTrace := MkProviderSendTrace {
  pst_prior_failures : list ProviderRequestError;
  pst_result : result ProviderRequestError Z;
}.

(** [error_headers]: the upstream error whose headers were observed during the send, if any. *)
Inductive SendOutcome :=
| SendCancelled (error_headers : option UpstreamProviderError)
| Sent (error_headers : option UpstreamProviderError) (trace : ProviderSendTrace).

(** Reading a whole body, with the bound of an internal helper. *)
Inductive BodyRead :=
| BodyCancelled
| BodyFailed
| BodyTooLarge
| BodyBytes (bytes : list byte).

Inductive Consumption :=
| NeverConsumed
| NonStreaming (body : BodyRead)
| Streaming (events : list StreamEvent) (delivered : nat -> bool).

Inductive TurnResult :=
| TurnCancelled
| TurnFailed (error : CompletionExecutionError)
| TurnCompleted (terminal : AttemptTerminal).

(** What a turn leaves behind. *)
Record TurnEffects := MkTurnEffects {
  te_observations : list Observation;
  te_billed : list CompletionUsage;
  te_remembered : bool;
}.

Section Execute.
Context {Number : Type} {J : JsonCrate Number}.
(** Identifiers drawn for attempts, in order. *)
Variable fresh : nat -> Uuid.

Definition body_failure (kind : AttemptFailureKind) : AttemptFailure :=
  failure_new kind ResponseBodyStage NotProvenPreAcceptance.

(** [read_non_streaming_completion_response], once the bytes are read or not; [None]: cancelled. *)
Definition read_non_streaming_completion_response (response_model_id : string) (body : BodyRead)
    : option (result AttemptFailure (Value Number)) :=
  match body with
  | BodyCancelled => None
  | BodyFailed => Some (Err (body_failure ResponseBody))
  | BodyTooLarge => Some (Err (body_failure InvalidResponse))
  | BodyBytes bytes =>
      Some match value_from_slice bytes with
      | None => Err (body_failure InvalidResponse)
      | Some json =>
          match upstream_payload_failure json UpstreamResponseError ResponseBodyStage with
          | Some failure => Err failure
          | None => Ok (canonicalize_completion_response response_model_id json)
          end
      end
  end.

(** [publish_usage_event_internal] drops a usage without tokens. *)
Definition publish_usage (usage : option CompletionUsage) : list CompletionUsage :=
  match usage with
  | None => []
  | Some usage =>
      if (cu_prompt_tokens usage =? 0) && (cu_completion_tokens usage =? 0) then [] else [usage]
  end.

(** [terminalize_recovered_provider_failures]: each recovered failure is an attempt of its own, seen by
    telemetry alone. *)
Definition recovered_observations (execution : InferenceExecution) (route : RouteIdentity)
    (prior_failures : list ProviderRequestError) : list Observation :=
  imap (fun i error => MkObservation
          (Failed (begin_attempt (fresh (S i)) execution route) (attempt_failure_from_provider_error error))
          TelemetryOnly None) prior_failures.

(** [finish_started_completion], with the guard of a response that started; [None]: the stream is
    still being processed. *)
Definition finish_started_completion (guard : AttemptObservationGuard) (response_model_id : string)
    (require_provider_done : bool) (stream_frame_limit : option nat) (consumption : Consumption)
    : option (TurnResult * list Observation * list CompletionUsage) :=
  let attempt := ag_attempt guard in
  match consumption with
  | NeverConsumed => Some (TurnCancelled, drop_guard guard, [])
  | NonStreaming body =>
      match read_non_streaming_completion_response response_model_id body with
      | None => Some (TurnCancelled, drop_guard guard, [])
      | Some (Err failure) =>
          let public_error :=
            match from_failure failure with
            | Some public => InferenceProvider public
            | None => InternalServerError
            end in
          let terminal := Failed attempt failure in
          let '(guard, observed) := record_terminal guard terminal in
          Some (TurnFailed (Attempt terminal public_error), observed ++ drop_guard guard, [])
      | Some (Ok response_json) =>
          let terminal := Completed attempt NonStreamingResponse in
          let '(guard, observed) := record_terminal guard terminal in
          Some (TurnCompleted terminal, observed ++ drop_guard guard,
                publish_usage (extract_usage response_json))
      end
  | Streaming events delivered =>
      let guard := set_stage guard Stream in
      match process_completion_stream response_model_id attempt require_provider_done delivered
              stream_frame_limit events with
      | Continue _ => None
      | Return result _ =>
          let '(guard, observed) := record_terminal guard (spr_terminal result) in
          Some (TurnCompleted (spr_terminal result), observed ++ drop_guard guard,
                publish_usage (spr_usage result))
      end
  end.

(** From a claimed route to the end of its attempt.  [serialized]: the request body could be written
    as JSON.  [None]: the stream is still being processed, or the [expect] on a capacity status fails. *)
Definition execute_attempt (execution : InferenceExecution) (route : RouteIdentity)
    (response_model_id : string) (probe : option ProbeLease) (serialized : bool) (send : SendOutcome)
    (require_provider_done : bool) (stream_frame_limit : option nat) (consumption : Consumption)
    : option (TurnResult * TurnEffects) :=
  let attempt := begin_attempt (fresh 0) execution route in
  let guard := new_with_probe attempt BeforeSend probe in
  if negb serialized then
    let terminal := Failed attempt (failure_new RequestBuild BeforeSend ProvenPreAcceptance) in
    let '(guard, observed) := record_terminal guard terminal in
    Some (TurnFailed (Attempt terminal InternalServerError),
          MkTurnEffects (observed ++ drop_guard guard) [] false)
  else
    let guard := set_stage guard AwaitingResponse in
    let observe_headers error_headers :=
      match error_headers with Some upstream => retain_known_upstream_failure guard upstream | None => guard end in
    match send with
    | SendCancelled error_headers =>
        Some (TurnCancelled, MkTurnEffects (drop_guard (observe_headers error_headers)) [] false)
    | Sent error_headers trace =>
        let guard := observe_headers error_headers in
        let recovered := recovered_observations execution route (pst_prior_failures trace) in
        match pst_result trace with
        | Err error =>
            let failure := attempt_failure_from_provider_error error in
            public_error ← public_completion_error error failure;
            let terminal := Failed attempt failure in
            let '(guard, observed) := record_terminal guard terminal in
            Some (TurnFailed (Attempt terminal public_error),
                  MkTurnEffects (recovered ++ observed ++ drop_guard guard) [] false)
        | Ok _ =>
            let guard := set_stage guard ResponseBodyStage in
            '(result, observed, billed) ←
              finish_started_completion guard response_model_id require_provider_done stream_frame_limit
                consumption;
            Some (result, MkTurnEffects (recovered ++ observed) billed true)
        end
    end.
End Execute.

(** ** Exactly one observation *)

Section Facts.
Context {Number : Type} {J : JsonCrate Number}.
Implicit Types (guard : AttemptObservationGuard).

Definition is_update (o : Observation) : bool :=
  match ob_mode o with Update => true | TelemetryOnly => false end.

(** Recording and then dropping a guard observes the recorded terminal, once. *)
Lemma record_then_drop guard terminal guard' observed :
  record_terminal guard terminal = (guard', observed) ->
  observed ++ drop_guard guard' = [MkObservation terminal Update (ag_probe guard)].
Proof. by intros [= <- <-]. Qed.

Lemma recovered_telemetry fresh execution route failures :
  List.filter is_update (recovered_observations fresh execution route failures) = []
  /\ Forall (fun o => ob_mode o = TelemetryOnly /\ ob_probe o = None)
       (recovered_observations fresh execution route failures).
Proof.
  assert (Forall (fun o => ob_mode o = TelemetryOnly /\ ob_probe o = None)
    (recovered_observations fresh execution route failures)) as H.
  { apply Forall_lookup. intros i o Ho. unfold recovered_observations in Ho.
    rewrite list_lookup_imap in Ho. destruct (failures !! i); [|done]. by injection Ho as <-. }
  split; [|done]. induction H as [|o l [Ho _] _ IH]; [done|]. simpl. unfold is_update at 1. by rewrite Ho.
Qed.

(** What a non-streaming response bills: its own usage, unless both counts are zero. *)
Definition own_usage (usage : option CompletionUsage) : list CompletionUsage :=
  match usage with
  | Some usage => if bool_decide (cu_prompt_tokens usage = 0 /\ cu_completion_tokens usage = 0) then [] else [usage]
  | None => []
  end.

Lemma publish_usage_own usage : publish_usage usage = own_usage usage.
Proof.
  destruct usage as [u|]; [|done]. cbn.
  destruct (Z.eqb_spec (cu_prompt_tokens u) 0), (Z.eqb_spec (cu_completion_tokens u) 0); cbn;
    first [by rewrite bool_decide_eq_true_2|by rewrite bool_decide_eq_false_2 by naive_solver].
Qed.

Lemma publish_usage_billed finalization (seen : list (Value Number)) :
  publish_usage (billed finalization seen) = option_list (billed finalization seen).
Proof.
  destruct (billed finalization seen) as [u|] eqn:E; [|done]. apply billed_bounds in E as (? & ? & ? & _). cbn.
  destruct (Z.eqb_spec (cu_prompt_tokens u) 0), (Z.eqb_spec (cu_completion_tokens u) 0); cbn; done || lia.
Qed.

(** The names of a response are canonicalised; its usage is not touched. *)
Lemma value_update_other (json : Value Number) key f k :
  key <> k -> value_get (value_update json key f) k = value_get json k.
Proof.
  intros Hne. destruct json as [| | | | |m]; try done. cbn. destruct (map_get m key) as [v|] eqn:E; [|done]. cbn.
  by rewrite map_get_insert, (proj2 (String.eqb_neq _ _) Hne).
Qed.

Lemma extract_usage_canonical response_model_id (json : Value Number) :
  extract_usage (canonicalize_completion_response response_model_id json) = extract_usage json.
Proof.
  unfold extract_usage, extract_usage_observation, canonicalize_completion_response, canonicalize_reasoning_field,
    canonicalize_response_model.
  by rewrite !value_update_other.
Qed.

Lemma publish_usage_once usage : (length (publish_usage usage) <= 1)%nat.
Proof. destruct usage as [u|]; cbn; [|lia]. destruct (_ && _); cbn; lia. Qed.

(** The provider errors of the send have a public error. *)
Lemma public_completion_error_total error :
  is_Some (public_completion_error error (attempt_failure_from_provider_error error)).
Proof.
  destruct error as [| |?|?|?|?|u]; try (by eexists).
  unfold attempt_failure_from_provider_error, public_completion_error.
  destruct (public_capacity_status (upe_status u)) eqn:E; cbn; [rewrite E|]; by eexists.
Qed.

(** ** How an attempt ends *)

(** The failure of a whole body. *)
Inductive body_fails : BodyRead -> AttemptFailure -> Prop :=
| BodyReadFails : body_fails BodyFailed (failure_new ResponseBody ResponseBodyStage NotProvenPreAcceptance)
| BodyTooLargeFails : body_fails BodyTooLarge (failure_new InvalidResponse ResponseBodyStage NotProvenPreAcceptance)
| BodyNotJson bytes : value_from_slice bytes = None (A := Value Number) ->
    body_fails (BodyBytes bytes) (failure_new InvalidResponse ResponseBodyStage NotProvenPreAcceptance)
| BodyHasError bytes (json : Value Number) failure : value_from_slice bytes = Some json ->
    upstream_payload_failure json UpstreamResponseError ResponseBodyStage = Some failure ->
    body_fails (BodyBytes bytes) failure.

(** The failure of a dropped guard: that of the error headers when some were seen, or the consumer's. *)
Definition dropped_failure (stage : AttemptStage) (error_headers : option UpstreamProviderError) : AttemptFailure :=
  match error_headers with
  | Some upstream => attempt_failure_from_provider_error (ProviderUpstream upstream)
  | None => failure_new ConsumerDropped stage NotProvenPreAcceptance
  end.

(** How the response of an attempt that started ends: the result, the terminal and the usage billed. *)
Inductive response_ends (att : InferenceAttempt) (error_headers : option UpstreamProviderError)
    (response_model_id : string) (require_provider_done : bool) (limit : option nat)
    : Consumption -> TurnResult -> AttemptTerminal -> list CompletionUsage -> Prop :=
| ConsumerGone consumption : consumption = NeverConsumed \/ consumption = NonStreaming BodyCancelled ->
    response_ends att error_headers response_model_id require_provider_done limit consumption TurnCancelled
      (Failed att (dropped_failure ResponseBodyStage error_headers)) []
| BodyFails body failure public : body_fails body failure ->
    response_ends att error_headers response_model_id require_provider_done limit (NonStreaming body)
      (TurnFailed (Attempt (Failed att failure) public)) (Failed att failure) []
| BodyCompletes bytes (json : Value Number) : value_from_slice bytes = Some json ->
    upstream_payload_failure json UpstreamResponseError ResponseBodyStage = None ->
    response_ends att error_headers response_model_id require_provider_done limit (NonStreaming (BodyBytes bytes))
      (TurnCompleted (Completed att NonStreamingResponse)) (Completed att NonStreamingResponse)
      (own_usage (extract_usage json))
| StreamEnds events delivered (seen lost : list (Value Number)) terminal finalization :
    stream_ends att require_provider_done delivered limit events seen lost terminal finalization ->
    response_ends att error_headers response_model_id require_provider_done limit (Streaming events delivered)
      (TurnCompleted terminal) terminal (option_list (billed finalization (seen ++ lost))).

(** How an attempt ends: also whether its route is remembered. *)
Inductive attempt_ends (att : InferenceAttempt) (response_model_id : string) (require_provider_done : bool)
    (limit : option nat) (consumption : Consumption)
    : bool -> SendOutcome -> TurnResult -> AttemptTerminal -> list CompletionUsage -> bool -> Prop :=
| NotSerialized send :
    let terminal := Failed att (failure_new RequestBuild BeforeSend ProvenPreAcceptance) in
    attempt_ends att response_model_id require_provider_done limit consumption false send
      (TurnFailed (Attempt terminal InternalServerError)) terminal [] false
| SendDropped error_headers :
    attempt_ends att response_model_id require_provider_done limit consumption true (SendCancelled error_headers)
      TurnCancelled (Failed att (dropped_failure AwaitingResponse error_headers)) [] false
| SendFails error_headers prior error public :
    let failure := attempt_failure_from_provider_error error in
    public_completion_error error failure = Some public ->
    attempt_ends att response_model_id require_provider_done limit consumption true
      (Sent error_headers (MkProviderSendTrace prior (Err error)))
      (TurnFailed (Attempt (Failed att failure) public)) (Failed att failure) [] false
| ResponseStarts error_headers prior status result terminal usage :
    response_ends att error_headers response_model_id require_provider_done limit consumption result terminal usage ->
    attempt_ends att response_model_id require_provider_done limit consumption true
      (Sent error_headers (MkProviderSendTrace prior (Ok status))) result terminal usage true.

Lemma read_body_fails response_model_id body failure :
  read_non_streaming_completion_response (Number := Number) response_model_id body = Some (Err failure) ->
  body_fails body failure.
Proof.
  destruct body as [| | |bytes]; cbn; [done|intros [= <-]; constructor..|].
  destruct (value_from_slice bytes) as [json|] eqn:Ev; [|intros [= <-]; by constructor].
  destruct (upstream_payload_failure json _ _) as [f|] eqn:Ef; intros [= <-]. by eapply BodyHasError.
Qed.

Lemma read_body_ok response_model_id body (json : Value Number) :
  read_non_streaming_completion_response response_model_id body = Some (Ok json) ->
  exists bytes (raw : Value Number), body = BodyBytes bytes /\ value_from_slice bytes = Some raw
    /\ upstream_payload_failure raw UpstreamResponseError ResponseBodyStage = None
    /\ extract_usage json = extract_usage raw.
Proof.
  destruct body as [| | |bytes]; cbn; [done..|].
  destruct (value_from_slice bytes) as [raw|] eqn:Ev; [|done].
  destruct (upstream_payload_failure raw _ _) as [f|] eqn:Ef; intros [= <-]. exists bytes, raw.
  split_and!; [done..|]. apply extract_usage_canonical.
Qed.

Lemma finish_observed guard headers response_model_id rpd limit consumption :
  ag_armed guard = true ->
  cancellation_terminal guard = Failed (ag_attempt guard) (dropped_failure ResponseBodyStage headers) ->
  match finish_started_completion (Number := Number) guard response_model_id rpd limit consumption with
  | None => exists chunks delivered, consumption = Streaming (Chunk <$> chunks) delivered
  | Some (result, observations, usage) =>
      exists t, observations = [MkObservation t Update (ag_probe guard)]
        /\ response_ends (ag_attempt guard) headers response_model_id rpd limit consumption result t usage
  end.
Proof.
  intros Harm Hcancel. destruct consumption as [|body|events delivered]; cbn [finish_started_completion].
  - eexists. unfold drop_guard. rewrite Harm, Hcancel. split; [reflexivity|]. apply ConsumerGone. by left.
  - destruct (read_non_streaming_completion_response response_model_id body) as [[json|failure]|] eqn:Eb.
    + destruct (record_terminal _ _) as [g o] eqn:E. rewrite (record_then_drop _ _ _ _ E).
      eexists. split; [reflexivity|]. apply read_body_ok in Eb as (bytes & raw & -> & Hv & Hf & ->).
      rewrite publish_usage_own. by apply BodyCompletes.
    + destruct (record_terminal _ _) as [g o] eqn:E. rewrite (record_then_drop _ _ _ _ E).
      eexists. split; [reflexivity|]. by eapply BodyFails, read_body_fails.
    + assert (body = BodyCancelled) as -> by by destruct body.
      eexists. unfold drop_guard. rewrite Harm, Hcancel. split; [reflexivity|]. apply ConsumerGone. by right.
  - destruct (process_completion_stream _ _ _ _ _ _) as [s|r sent] eqn:E.
    { apply stream_waits in E as (chunks & seen & -> & _). by exists chunks, delivered. }
    destruct (record_terminal _ _) as [g o] eqn:Er. rewrite (record_then_drop _ _ _ _ Er).
    apply stream_outcome_ok in E as (seen & lost & _ & Hu & Hends). eexists. split; [reflexivity|].
    rewrite Hu, publish_usage_billed. by eapply StreamEnds.
Qed.

(** What every rule gives. *)
Lemma attempt_ends_facts att response_model_id rpd limit consumption serialized send result t usage remembered :
  attempt_ends att response_model_id rpd limit consumption serialized send result t usage remembered ->
  attempt t = att
  /\ match result with
     | TurnCompleted terminal | TurnFailed (Attempt terminal _) => terminal = t
     | TurnFailed (Request _) => False
     | TurnCancelled => exists failure, t = Failed att failure
     end
  /\ (length usage <= 1)%nat /\ (usage <> [] -> remembered = true)
  /\ (forall body a failure, consumption = NonStreaming body -> t = Failed a failure -> usage = []).
Proof.
  destruct 1 as [send terminal|headers|headers prior error public failure _|headers prior status result t usage Hends].
  1-3: split_and!; try done; try (cbn; lia); by eexists.
  destruct Hends as [consumption _|body failure public _|bytes json _ _|events delivered seen lost t fin Hends];
    split_and!; try done; try (cbn; lia); try by eexists.
  - rewrite <- publish_usage_own. apply publish_usage_once.
  - apply stream_ends_terminal in Hends. unfold terminal_ok in Hends.
    destruct t as [a [| |]|a f]; cbn; try done; by destruct Hends.
  - destruct (billed _ _); cbn; lia.
Qed.

(** C14: An attempt is observed exactly once, and its result, its billing and the memory of its route agree with what
    is observed.  Wherever it fails and wherever it is cancelled (before the
    response, between its start and its consumption, or while a body is read), route health receives
    exactly one update for it, carrying the probe the turn claimed; the failures a transport recovered from are other
    attempts, seen by telemetry alone and without a probe.  [attempt_ends] tells for every course the terminal
    observed, the result, which is that terminal's, and what is billed: nothing when the request could not be written,
    was dropped or failed before a response, nothing when a whole body fails or is dropped, its own usage when a whole
    body completes, and for a stream the usage its payloads evidence, whatever then ended it.  The route is remembered
    exactly when a response started.  The only way not to end is a stream of which nothing but bytes arrived. *)
Theorem attempt_observed_once (fresh : nat -> Uuid) (execution : InferenceExecution) (route : RouteIdentity)
    (response_model_id : string) (probe : option ProbeLease) (serialized : bool) (send : SendOutcome)
    (require_provider_done : bool) (stream_frame_limit : option nat) (consumption : Consumption) :
  match execute_attempt (Number := Number) fresh execution route response_model_id probe serialized send
          require_provider_done stream_frame_limit consumption with
  | None => exists chunks delivered, consumption = Streaming (Chunk <$> chunks) delivered
  | Some (result, effects) =>
      exists t, List.filter is_update (te_observations effects) = [MkObservation t Update probe]
        /\ (forall o, o ∈ te_observations effects -> is_update o = false ->
              ob_mode o = TelemetryOnly /\ ob_probe o = None)
        /\ attempt_ends (begin_attempt (fresh 0%nat) execution route) response_model_id require_provider_done
             stream_frame_limit consumption serialized send result t (te_billed effects) (te_remembered effects)
        /\ attempt t = begin_attempt (fresh 0%nat) execution route
        /\ match result with
           | TurnCompleted terminal | TurnFailed (Attempt terminal _) => terminal = t
           | TurnFailed (Request _) => False
           | TurnCancelled => exists failure, t = Failed (begin_attempt (fresh 0%nat) execution route) failure
           end
        /\ (length (te_billed effects) <= 1)%nat
        /\ (te_billed effects <> [] -> te_remembered effects = true)
        /\ (forall body a failure, consumption = NonStreaming body -> t = Failed a failure -> te_billed effects = [])
  end.
Proof.
  set (att := begin_attempt (fresh 0%nat) execution route).
  assert (forall result effects t,
    List.filter is_update (te_observations effects) = [MkObservation t Update probe] ->
    (forall o, o ∈ te_observations effects -> is_update o = false -> ob_mode o = TelemetryOnly /\ ob_probe o = None) ->
    attempt_ends att response_model_id require_provider_done stream_frame_limit consumption serialized send result t
      (te_billed effects) (te_remembered effects) -> _) as Hall
    by (intros result effects t H1 H2 H3; exact (conj H1 (conj H2 (conj H3 (attempt_ends_facts _ _ _ _ _ _ _ _ _ _ _ H3))))).
  unfold execute_attempt. fold att. destruct serialized; cbn [negb]; last first.
  { destruct (record_terminal _ _) as [g o] eqn:E. rewrite (record_then_drop _ _ _ _ E). eexists.
    apply Hall; [done|by intros o' ->%list_elem_of_singleton|constructor]. }
  destruct send as [headers|headers [prior [status|error]]]; cbn [pst_result pst_prior_failures].
  - exists (Failed att (dropped_failure AwaitingResponse headers)).
    apply Hall; [by destruct headers|destruct headers; by intros o' ->%list_elem_of_singleton|constructor].
  - set (guard := set_stage _ ResponseBodyStage).
    assert (ag_armed guard = true /\ ag_probe guard = probe /\ ag_attempt guard = att
      /\ cancellation_terminal guard = Failed att (dropped_failure ResponseBodyStage headers))
      as (Harm & Hprobe & Hatt & Hcancel) by (subst guard; by destruct headers).
    clearbody guard. rewrite <- Hatt in Hcancel.
    pose proof (finish_observed guard headers response_model_id require_provider_done stream_frame_limit consumption
      Harm Hcancel) as Hfin.
    destruct (finish_started_completion _ _ _ _ _) as [[[result observed] usage]|]; cbn [mbind option_bind]; [|done].
    destruct Hfin as (t & -> & Hends). rewrite Hatt, Hprobe in *.
    destruct (recovered_telemetry fresh execution route prior) as [Hnone Htel].
    exists t. apply Hall; cbn [te_observations te_billed te_remembered].
    + by rewrite List.filter_app, Hnone.
    + intros o [Ho|Ho]%elem_of_app Hup; [by eapply Forall_forall in Htel|].
      by apply list_elem_of_singleton in Ho as ->.
    + by constructor.
  - destruct (public_completion_error_total error) as [public Hpub]. rewrite Hpub. cbn [mbind option_bind].
    destruct (record_terminal _ _) as [g o] eqn:E. rewrite (record_then_drop _ _ _ _ E).
    destruct (recovered_telemetry fresh execution route prior) as [Hnone Htel].
    eexists. apply Hall; cbn [te_observations te_billed te_remembered].
    + rewrite List.filter_app, Hnone. by destruct headers.
    + intros o' [Ho|Ho]%elem_of_app Hup; [by eapply Forall_forall in Htel|].
      by apply list_elem_of_singleton in Ho as ->.
    + assert (ag_attempt (match headers with
        | Some upstream => retain_known_upstream_failure (set_stage (new_with_probe att BeforeSend probe) AwaitingResponse) upstream
        | None => set_stage (new_with_probe att BeforeSend probe) AwaitingResponse end) = att) as Hatt by by destruct headers.
      by apply SendFails.
Qed.
End Facts.
