(* ===== verification/PiTypes.v ===== *)
(** * Messages and models of the agent: pi-ai/src/types.rs

    The transcript's data, the prices of a model and its thinking levels.  An [f64] is a [spec_float]
    of the Standard Library with binary64's precision; an [IndexMap] is its entries in order. *)
From Stdlib Require Import Floats.SpecFloat.
From S2P Require Import Prelude Json.

(** ** Doubles *)

Definition F64 : Type := spec_float.
Definition f64_add : F64 -> F64 -> F64 := SFadd 53 1024.
Definition f64_mul : F64 -> F64 -> F64 := SFmul 53 1024.
Definition f64_div : F64 -> F64 -> F64 := SFdiv 53 1024.
(** [n as f64] *)
Definition f64_of_Z (n : Z) : F64 := binary_normalize 53 1024 n 0 false.
Definition f64_zero : F64 := S754_zero false.

(** ** Content *)

Record TextContent := MkTextContent {
  tx_text : string;
  tx_text_signature : option string;
}.

Record ImageContent := MkImageContent {
  im_data : string;
  im_mime_type : string;
}.

Record ThinkingContent := MkThinkingContent {
  tk_thinking : string;
  tk_thinking_signature : option string;
  tk_redacted : bool;
}.

Inductive Content :=
| ContentText (text : TextContent)
| ContentImage (image : ImageContent).

Definition content_new_text (text : string) : Content := ContentText (MkTextContent text None).

Definition as_text (c : Content) : option string :=
  match c with ContentText text => Some (tx_text text) | ContentImage _ => None end.

(** [Vec::join] *)
Fixpoint join (separator : string) (parts : list string) : string :=
  match parts with
  | [] => ""
  | [part] => part
  | part :: parts => String.append part (String.append separator (join separator parts))
  end.

Definition newline : string := String (Ascii.ascii_of_nat 10) "".

Definition content_text (content : list Content) : string := join newline (omap as_text content).

(** ** Usage *)

Record Cost := MkCost {
  co_input : F64;
  co_output : F64;
  co_cache_read : F64;
  co_cache_write : F64;
  co_total : F64;
}.

(** Counts are [u64]. *)
Record Usage := MkUsage {
  us_input : Z;
  us_output : Z;
  us_cache_read : Z;
  us_cache_write : Z;
  us_reasoning : option Z;
  us_total_tokens : Z;
  us_cost : Cost;
}.

Definition cost_default : Cost := MkCost f64_zero f64_zero f64_zero f64_zero f64_zero.
Definition usage_default : Usage := MkUsage 0 0 0 0 None 0 cost_default.

(** The release build's additions wrap. *)
Definition context_tokens (u : Usage) : Z :=
  if 0 <? us_total_tokens u then us_total_tokens u
  else wrap_u64 (us_input u + us_output u + us_cache_read u + us_cache_write u).

Definition usage_add (u other : Usage) : Usage :=
  MkUsage (wrapping_add_u64 (us_input u) (us_input other))
    (wrapping_add_u64 (us_output u) (us_output other))
    (wrapping_add_u64 (us_cache_read u) (us_cache_read other))
    (wrapping_add_u64 (us_cache_write u) (us_cache_write other))
    match us_reasoning u, us_reasoning other with
    | None, None => None
    | mine, theirs => Some (wrapping_add_u64 (default 0 mine) (default 0 theirs))
    end
    (wrapping_add_u64 (us_total_tokens u) (us_total_tokens other))
    (MkCost (f64_add (co_input (us_cost u)) (co_input (us_cost other)))
       (f64_add (co_output (us_cost u)) (co_output (us_cost other)))
       (f64_add (co_cache_read (us_cost u)) (co_cache_read (us_cost other)))
       (f64_add (co_cache_write (us_cost u)) (co_cache_write (us_cost other)))
       (f64_add (co_total (us_cost u)) (co_total (us_cost other)))).

Record ModelCost := MkModelCost {
  mc_input : F64;
  mc_output : F64;
  mc_cache_read : F64;
  mc_cache_write : F64;
}.

(** [ModelCost::apply] *)
Definition apply_cost (self : ModelCost) (u : Usage) : Usage :=
  let per_token price tokens := f64_div (f64_mul price (f64_of_Z tokens)) (f64_of_Z 1000000) in
  let input := per_token (mc_input self) (us_input u) in
  let output := per_token (mc_output self) (us_output u) in
  let cache_read := per_token (mc_cache_read self) (us_cache_read u) in
  let cache_write := per_token (mc_cache_write self) (us_cache_write u) in
  MkUsage (us_input u) (us_output u) (us_cache_read u) (us_cache_write u) (us_reasoning u)
    (us_total_tokens u)
    (MkCost input output cache_read cache_write
       (f64_add (f64_add (f64_add input output) cache_read) cache_write)).

Inductive StopReason := Stop | Length | ToolUse | Error | Aborted.

#[global] Instance StopReason_eq_dec : EqDecision StopReason.
Proof. solve_decision. Defined.

(** ** Thinking levels *)

Inductive ThinkingLevel := Off | Minimal | Low | Medium | High | Xhigh | Max.

#[global] Instance ThinkingLevel_eq_dec : EqDecision ThinkingLevel.
Proof. solve_decision. Defined.

Definition ALL : list ThinkingLevel := [Off; Minimal; Low; Medium; High; Xhigh; Max].

(** The order derived from the declaration. *)
Definition level_index (level : ThinkingLevel) : nat :=
  match level with
  | Off => 0 | Minimal => 1 | Low => 2 | Medium => 3 | High => 4 | Xhigh => 5 | Max => 6
  end.

#[global] Instance ThinkingLevel_countable : Countable ThinkingLevel.
Proof.
  apply (inj_countable' level_index (fun n => nth n ALL Off)). by intros [].
Defined.

Definition level_as_str (level : ThinkingLevel) : string :=
  match level with
  | Off => "off" | Minimal => "minimal" | Low => "low" | Medium => "medium" | High => "high"
  | Xhigh => "xhigh" | Max => "max"
  end.

Definition level_parse (value : string) : option ThinkingLevel :=
  find (fun level => String.eqb (level_as_str level) value) ALL.

(** ** Tools and messages *)

Inductive StrictSampling := Prefer | Require.

Inductive ConstrainedSampling := JsonSchema (strict : StrictSampling).

#[global] Instance StrictSampling_eq_dec : EqDecision StrictSampling.
Proof. solve_decision. Defined.
#[global] Instance ConstrainedSampling_eq_dec : EqDecision ConstrainedSampling.
Proof. solve_decision. Defined.

Record ToolReference := MkToolReference { tr_name : string }.

Record UserMessage := MkUserMessage {
  um_content : list Content;
  um_timestamp : Z;
}.

Section Messages.
Context {Number : Type}.

Record ToolCall := MkToolCall {
  tc_id : string;
  tc_name : string;
  tc_arguments : list (string * Value Number);
  tc_arguments_error : option string;
  tc_partial_json : option string;
}.

Inductive AssistantContent :=
| AssistantText (text : TextContent)
| AssistantThinking (thinking : ThinkingContent)
| AssistantToolCall (call : ToolCall).

Definition assistant_new_text (text : string) : AssistantContent := AssistantText (MkTextContent text None).

Definition assistant_new_thinking (thinking : string) : AssistantContent :=
  AssistantThinking (MkThinkingContent thinking None false).

Record Tool := MkTool {
  to_name : string;
  to_description : string;
  to_parameters : Value Number;
  to_constrained_sampling : option ConstrainedSampling;
}.

Record SystemMessage := MkSystemMessage {
  sm_content : string;
  sm_sections : list (string * option string);
  sm_tools_added : list Tool;
  sm_tools_removed : list ToolReference;
  sm_timestamp : Z;
}.

Definition system_default : SystemMessage := MkSystemMessage "" [] [] [] 0.

Record AssistantMessage := MkAssistantMessage {
  as_content : list AssistantContent;
  as_api : string;
  as_provider : string;
  as_model : string;
  as_response_id : option string;
  as_thinking_level : option ThinkingLevel;
  as_usage : Usage;
  as_stop_reason : StopReason;
  as_error_message : option string;
  as_timestamp : Z;
}.

Definition assistant_text (self : AssistantMessage) : string :=
  join newline (omap (fun block =>
    match block with AssistantText text => Some (tx_text text) | _ => None end) (as_content self)).

Definition tool_calls (self : AssistantMessage) : list ToolCall :=
  omap (fun block => match block with AssistantToolCall call => Some call | _ => None end)
    (as_content self).

Definition is_failure (self : AssistantMessage) : bool :=
  match as_stop_reason self with Error | Aborted => true | _ => false end.

Record ToolResultMessage := MkToolResultMessage {
  rm_tool_call_id : string;
  rm_tool_name : string;
  rm_content : list Content;
  rm_details : option (Value Number);
  rm_usage : option Usage;
  rm_is_error : bool;
  rm_timestamp : Z;
}.

Inductive Message :=
| System (message : SystemMessage)
| User (message : UserMessage)
| Assistant (message : AssistantMessage)
| ToolResult (message : ToolResultMessage).

Definition timestamp (self : Message) : Z :=
  match self with
  | System message => sm_timestamp message
  | User message => um_timestamp message
  | Assistant message => as_timestamp message
  | ToolResult message => rm_timestamp message
  end.

Definition role (self : Message) : string :=
  match self with
  | System _ => "system"
  | User _ => "user"
  | Assistant _ => "assistant"
  | ToolResult _ => "toolResult"
  end.
End Messages.
Arguments ToolCall : clear implicits.
Arguments AssistantContent : clear implicits.
Arguments Tool : clear implicits.
Arguments SystemMessage : clear implicits.
Arguments AssistantMessage : clear implicits.
Arguments ToolResultMessage : clear implicits.
Arguments Message : clear implicits.

(** ** Models *)

Inductive InputModality := ModalityText | ModalityImage.

#[global] Instance InputModality_eq_dec : EqDecision InputModality.
Proof. solve_decision. Defined.

Inductive MaxTokensField := MaxCompletionTokens | MaxTokens.

Inductive SessionAffinityFormat := OpenAi | OpenAiNoSession | OpenRouter.

Record ModelCompat := MkModelCompat {
  cp_supports_developer_role : bool;
  cp_max_tokens_field : MaxTokensField;
  cp_supports_usage_in_streaming : bool;
  cp_supports_reasoning_effort : bool;
  cp_supports_mid_conversation_system_messages : bool;
  cp_supports_strict_mode : bool;
  cp_send_session_affinity_headers : bool;
  cp_session_affinity_format : SessionAffinityFormat;
}.

Definition compat_default : ModelCompat :=
  MkModelCompat false MaxCompletionTokens true true false false false OpenAi.

Section Models.
Context {Number : Type}.

Definition SamplingParams : Type := list (string * Value Number).

Record Model := MkModel {
  mo_id : string;
  mo_name : string;
  mo_api : string;
  mo_provider : string;
  mo_base_url : string;
  mo_reasoning : bool;
  mo_input : list InputModality;
  mo_cost : ModelCost;
  mo_context_window : Z;
  mo_max_tokens : Z;
  mo_thinking_levels : gmap ThinkingLevel (option string);
  mo_headers : gmap string string;
  mo_sampling_params : SamplingParams;
  mo_sampling_params_by_thinking_level : gmap ThinkingLevel SamplingParams;
  mo_compat : ModelCompat;
}.

Definition supports_images (self : Model) : bool := bool_decide (ModalityImage ∈ mo_input self).

Definition thinking_levels (self : Model) : list ThinkingLevel :=
  if negb (mo_reasoning self) then [Off]
  else
    List.filter (fun level =>
      match mo_thinking_levels self !! level with
      | Some value => is_some value
      | None => match level with Xhigh | Max => false | _ => true end
      end) ALL.

Definition clamp_thinking_level (self : Model) (level : ThinkingLevel) : ThinkingLevel :=
  let available := thinking_levels self in
  if bool_decide (level ∈ available) then level
  else
    let above := find (fun candidate => (level_index level <? level_index candidate)%nat) available in
    let below :=
      find (fun candidate => (level_index candidate <? level_index level)%nat) (rev available) in
    match above with
    | Some level => level
    | None => default Off below
    end.

Definition provider_thinking_value (self : Model) (level : ThinkingLevel) : option string :=
  if negb (mo_reasoning self) then None
  else
    let level := match level with Off => Off | level => clamp_thinking_level self level end in
    match mo_thinking_levels self !! level with
    | Some value => value
    | None => if decide (level = Off) then None else Some (level_as_str level)
    end.

(** [AssistantMessage::empty] and [failed], stamped [now]. *)
Definition assistant_empty (model : Model) (now : Z) : AssistantMessage Number :=
  MkAssistantMessage [] (mo_api model) (mo_provider model) (mo_id model) None None usage_default Stop
    None now.

Definition assistant_failed (model : Model) (stop_reason : StopReason) (error : string) (now : Z)
    : AssistantMessage Number :=
  MkAssistantMessage [] (mo_api model) (mo_provider model) (mo_id model) None None usage_default
    stop_reason (Some error) now.
End Models.
Arguments Model : clear implicits.
Arguments SamplingParams : clear implicits.

Lemma level_parse_as_str level : level_parse (level_as_str level) = Some level.
Proof. by destruct level. Qed.

Lemma level_parse_Some value level : level_parse value = Some level -> value = level_as_str level.
Proof. unfold level_parse. by intros [_ ->%String.eqb_eq]%find_some. Qed.
