(* ===== verification/Transcript.v ===== *)
(** * Replaying system messages: pi-ai/src/transcript.rs

    The transcript is the only source of prompt and tool state: the current prompt and tool set are
    what its system messages replay to.  Theorems: declaring the difference of two tool sets makes the
    replay yield the second; collapsing a transcript gives one leading system message and the other messages, and
    changes neither the prompt nor the tools. *)
From S2P Require Import Prelude Json PiTypes.

Section Transcript.
Context {Number : Type}.

Definition initial_system_message (system_prompt : string) (tools : list (Tool Number))
    : option (SystemMessage Number) :=
  if String.eqb system_prompt "" && bool_decide (length tools = 0%nat) then None
  else Some (MkSystemMessage system_prompt [] tools [] 0).

Definition system_messages (messages : list (Message Number)) : list (SystemMessage Number) :=
  omap (fun message => match message with System system => Some system | _ => None end) messages.

(** What one system message does to the tools. *)
Definition replay_tools (tools : list (string * Tool Number)) (system : SystemMessage Number)
    : list (string * Tool Number) :=
  let tools := fold_left (fun tools removed => map_remove tools (tr_name removed))
    (sm_tools_removed system) tools in
  fold_left (fun tools added => map_insert tools (to_name added) added) (sm_tools_added system) tools.

Definition current_tools (messages : list (Message Number)) : list (Tool Number) :=
  (fold_left replay_tools (system_messages messages) []).*2.

(** What one system message does to the sections. *)
Definition replay_sections (sections : list (string * option string)) (system : SystemMessage Number)
    : list (string * option string) :=
  fold_left (fun sections '(name, value) =>
    match value with
    | Some text => map_insert sections name (Some text)
    | None => map_remove sections name
    end) (sm_sections system) sections.

Definition blank_line : string := String.append newline newline.

Definition current_system_message (messages : list (Message Number)) : option (SystemMessage Number) :=
  let systems := system_messages messages in
  let content := List.filter (fun text => negb (String.eqb text "")) (sm_content <$> systems) in
  let sections := fold_left replay_sections systems [] in
  let timestamp := sm_timestamp <$> head systems in
  let tools := current_tools messages in
  if is_none timestamp && bool_decide (length tools = 0%nat) then None
  else Some (MkSystemMessage (join blank_line content) sections tools [] (default 0 timestamp)).

Definition system_message_text (message : SystemMessage Number) : string :=
  join blank_line
    ((if String.eqb (sm_content message) "" then [] else [sm_content message])
     ++ List.filter (fun text => negb (String.eqb text "")) (omap snd (sm_sections message))).

Definition current_system_prompt (messages : list (Message Number)) : string :=
  default "" (system_message_text <$> current_system_message messages).

Definition quote : string := String (Ascii.ascii_of_nat 34) "".

Definition render_system_message_update (message : SystemMessage Number) : string :=
  join blank_line
    ((if String.eqb (sm_content message) "" then [] else [sm_content message])
     ++ ((fun '(name, value) =>
            match value with
            | Some text =>
                "Updated system prompt section " +:+ quote +:+ name +:+ quote +:+ ":" +:+ blank_line +:+ text
            | None => "Removed system prompt section " +:+ quote +:+ name +:+ quote +:+ "."
            end) <$> sm_sections message)).

Definition is_system_message (message : Message Number) : bool :=
  match message with System _ => true | _ => false end.

(** A [Context] is its messages. *)
Definition collapse_system_messages (messages : list (Message Number)) : list (Message Number) :=
  match current_system_message messages with Some system => [System system] | None => [] end
  ++ List.filter (fun message => negb (is_system_message message)) messages.

Record ToolChanges := MkToolChanges {
  ch_added : list (Tool Number);
  ch_removed : list ToolReference;
}.

Definition changes_is_empty (self : ToolChanges) : bool :=
  bool_decide (length (ch_added self) = 0%nat) && bool_decide (length (ch_removed self) = 0%nat).

Context {E : JsonEq Number}.

(** [Tool]'s [PartialEq] *)
Definition tool_eqb (t u : Tool Number) : bool :=
  String.eqb (to_name t) (to_name u) && String.eqb (to_description t) (to_description u)
  && value_eqb (to_parameters t) (to_parameters u)
  && bool_decide (to_constrained_sampling t = to_constrained_sampling u).

Definition find_tool (tools : list (Tool Number)) (name : string) : option (Tool Number) :=
  find (fun tool => String.eqb (to_name tool) name) tools.

Definition tool_changes (previous current : list (Tool Number)) : ToolChanges :=
  let differs tools tool :=
    match find_tool tools (to_name tool) with
    | Some other => negb (tool_eqb other tool)
    | None => true
    end in
  MkToolChanges (List.filter (differs previous) current)
    ((fun tool => MkToolReference (to_name tool)) <$> List.filter (differs current) previous).
End Transcript.
Arguments ToolChanges : clear implicits.

(** ** Maps in order of insertion *)

Section Entries.
Context {V : Type}.
Implicit Types (m : list (string * V)) (k : string) (v : V).

Lemma elem_of_map_insert m k v e : e ∈ map_insert m k v -> e = (k, v) \/ e ∈ m.
Proof.
  induction m as [|[k' w] m IH]; simpl; [intros ->%list_elem_of_singleton; by left|].
  destruct (String.eqb_spec k' k) as [->|]; intros [->|He]%elem_of_cons; rewrite ?elem_of_cons; auto.
  destruct (IH He); auto.
Qed.

Lemma elem_of_map_insert_key m k v j : j ∈ (map_insert m k v).*1 <-> j = k \/ j ∈ m.*1.
Proof.
  induction m as [|[k' w] m IH]; simpl; [set_solver|].
  destruct (String.eqb_spec k' k) as [->|]; simpl; set_solver.
Qed.

Lemma NoDup_map_insert m k v : NoDup m.*1 -> NoDup (map_insert m k v).*1.
Proof.
  induction m as [|[k' w] m IH]; simpl; [intros _; apply NoDup_singleton|].
  intros [Hk Hm]%NoDup_cons. destruct (String.eqb_spec k' k) as [->|]; simpl; constructor; auto.
  rewrite elem_of_map_insert_key. naive_solver.
Qed.

Lemma elem_of_map_remove m k e : e ∈ map_remove m k <-> e ∈ m /\ e.1 <> k.
Proof.
  unfold map_remove. by rewrite list_elem_of_In, filter_In, list_elem_of_In, negb_true_iff, String.eqb_neq.
Qed.

Lemma NoDup_map_remove m k : NoDup m.*1 -> NoDup (map_remove m k).*1.
Proof.
  unfold map_remove. induction m as [|[k' w] m IH]; simpl; [done|].
  intros [Hk Hm]%NoDup_cons. destruct (negb _); simpl; [|auto]. constructor; [|auto].
  intros (e & -> & [He _]%list_elem_of_In%filter_In)%list_elem_of_fmap. apply Hk.
  apply list_elem_of_fmap. exists e. split; [done|]. by apply list_elem_of_In.
Qed.

(** Inserting fresh keys appends them. *)
Lemma map_insert_fresh m k v : k ∉ m.*1 -> map_insert m k v = m ++ [(k, v)].
Proof.
  induction m as [|[k' w] m IH]; simpl; [done|]. intros Hk.
  destruct (String.eqb_spec k' k) as [->|]; [set_solver|]. f_equal. apply IH. set_solver.
Qed.

Lemma fold_insert_fresh m l :
  NoDup (m ++ l).*1 -> fold_left (fun m e => map_insert m e.1 e.2) l m = m ++ l.
Proof.
  revert m. induction l as [|[k v] l IH]; intros m; simpl; [by rewrite app_nil_r|].
  intros H. rewrite map_insert_fresh.
  - rewrite IH; rewrite <- app_assoc; done.
  - rewrite fmap_app, NoDup_app in H. cbn in H. set_solver.
Qed.

Lemma map_get_elem m k v : NoDup m.*1 -> map_get m k = Some v <-> (k, v) ∈ m.
Proof.
  induction m as [|[k' w] m IH]; simpl; [split; [done|by intros ?%not_elem_of_nil]|].
  intros [Hk Hm]%NoDup_cons. rewrite elem_of_cons. destruct (String.eqb_spec k' k) as [->|].
  - split; [naive_solver|]. intros [[= ->]|Hin]; [done|].
    exfalso. apply Hk, list_elem_of_fmap. by exists (k, v).
  - rewrite (IH Hm). naive_solver.
Qed.

Lemma map_get_not_elem m k : map_get m k = None <-> k ∉ m.*1.
Proof.
  induction m as [|[k' w] m IH]; simpl; [set_solver|].
  destruct (String.eqb_spec k' k) as [->|]; [set_solver|]. rewrite IH. set_solver.
Qed.
End Entries.

(** ** Replaying tools *)

Section Replay.
Context {Number : Type}.
Implicit Types (tools : list (Tool Number)) (entries : list (string * Tool Number)).

(** Entries are keyed by their tools' names. *)
Definition keyed entries : Prop := NoDup entries.*1 /\ forall e, e ∈ entries -> e.1 = to_name e.2.

Lemma keyed_nil : keyed [].
Proof. split; [constructor|by intros e ?%not_elem_of_nil]. Qed.

Lemma keyed_remove entries k : keyed entries -> keyed (map_remove entries k).
Proof.
  intros [Hnd Hk]. split; [by apply NoDup_map_remove|].
  intros e [He _]%elem_of_map_remove. by apply Hk.
Qed.

Lemma keyed_insert entries (tool : Tool Number) :
  keyed entries -> keyed (map_insert entries (to_name tool) tool).
Proof.
  intros [Hnd Hk]. split; [by apply NoDup_map_insert|].
  intros e [->|He]%elem_of_map_insert; [done|by apply Hk].
Qed.

(** A fold of steps that keep a property keeps it. *)
Lemma fold_left_keeps {A B} (P : A -> Prop) (f : A -> B -> A) (l : list B) (a : A) :
  (forall a b, P a -> P (f a b)) -> P a -> P (fold_left f l a).
Proof. intros Hf. revert a. induction l as [|b l IH]; intros a Ha; simpl; [done|]. apply IH, Hf, Ha. Qed.

Lemma keyed_replay entries system : keyed entries -> keyed (replay_tools entries system).
Proof.
  intros H. unfold replay_tools.
  apply fold_left_keeps; [intros; by apply keyed_insert|].
  apply fold_left_keeps; [intros; by apply keyed_remove|done].
Qed.

Lemma keyed_systems (systems : list (SystemMessage Number)) : keyed (fold_left replay_tools systems []).
Proof. apply fold_left_keeps; [intros; by apply keyed_replay|apply keyed_nil]. Qed.

Lemma keyed_names entries : keyed entries -> to_name <$> entries.*2 = entries.*1.
Proof.
  intros [_ Hk]. rewrite <- list_fmap_compose. apply list_fmap_ext. intros i e He.
  symmetry. apply Hk. by eapply list_elem_of_lookup_2.
Qed.

Lemma NoDup_current_tools (messages : list (Message Number)) :
  NoDup (to_name <$> current_tools messages).
Proof. unfold current_tools. rewrite keyed_names by apply keyed_systems. apply keyed_systems. Qed.

Lemma find_tool_keyed entries name : keyed entries -> find_tool entries.*2 name = map_get entries name.
Proof.
  intros [_ Hk]. induction entries as [|[k t] entries IH]; simpl; [done|].
  pose proof (Hk (k, t) ltac:(left)) as E. cbn in E. subst k.
  destruct (String.eqb _ _); [done|]. apply IH. intros e He. apply Hk. by right.
Qed.

Lemma map_get_removals (removals : list ToolReference) entries name :
  map_get (fold_left (fun acc removed => map_remove acc (tr_name removed)) removals entries) name
  = if bool_decide (name ∈ tr_name <$> removals) then None else map_get entries name.
Proof.
  revert entries. induction removals as [|r removals IH]; intros entries; simpl; [done|].
  rewrite IH, map_get_remove.
  destruct (String.eqb_spec (tr_name r) name); do 2 case_bool_decide; set_solver.
Qed.

Lemma find_tool_not_elem tools name : name ∉ to_name <$> tools -> find_tool tools name = None.
Proof.
  induction tools as [|t tools IH]; simpl; [done|]. intros H.
  destruct (String.eqb_spec (to_name t) name); [set_solver|]. apply IH. set_solver.
Qed.

Lemma map_get_additions tools entries name :
  NoDup (to_name <$> tools) ->
  map_get (fold_left (fun acc added => map_insert acc (to_name added) added) tools entries) name
  = match find_tool tools name with Some tool => Some tool | None => map_get entries name end.
Proof.
  revert entries. induction tools as [|t tools IH]; intros entries; simpl; [done|].
  intros [Ht Hnd]%NoDup_cons. rewrite IH, map_get_insert by done.
  destruct (String.eqb_spec (to_name t) name) as [<-|]; [|done].
  by rewrite find_tool_not_elem.
Qed.

Lemma find_tool_name tools name tool : find_tool tools name = Some tool -> to_name tool = name /\ tool ∈ tools.
Proof. intros [Hin Heq%String.eqb_eq]%find_some. by rewrite list_elem_of_In. Qed.

Lemma find_tool_elem tools tool :
  NoDup (to_name <$> tools) -> tool ∈ tools -> find_tool tools (to_name tool) = Some tool.
Proof.
  induction tools as [|t tools IH]; simpl; [by intros _ ?%not_elem_of_nil|].
  intros [Ht Hnd]%NoDup_cons [->|Hin]%elem_of_cons; [by rewrite String.eqb_refl|].
  destruct (String.eqb_spec (to_name t) (to_name tool)) as [E|]; [|by apply IH].
  exfalso. apply Ht. rewrite E. by apply list_elem_of_fmap_2.
Qed.

Lemma find_tool_filter (p : Tool Number -> bool) tools name :
  NoDup (to_name <$> tools) ->
  find_tool (List.filter p tools) name = tool ← find_tool tools name; if p tool then Some tool else None.
Proof.
  induction tools as [|t tools IH]; simpl; [done|]. intros [Ht Hnd]%NoDup_cons.
  destruct (String.eqb_spec (to_name t) name) as [<-|Hne]; cbn.
  - destruct (p t); cbn; [by rewrite String.eqb_refl|]. rewrite IH by done.
    by rewrite find_tool_not_elem.
  - destruct (p t); cbn; [|by apply IH]. destruct (String.eqb_spec (to_name t) name); [done|by apply IH].
Qed.
End Replay.

(** ** Declaring a change *)

Section Changes.
Context {Number : Type} {E : JsonEq Number} {EL : JsonEqLaws Number}.
Implicit Types (tools : list (Tool Number)).

Lemma tool_eqb_refl (t : Tool Number) : tool_eqb t t = true.
Proof.
  unfold tool_eqb. pose proof (value_eqb_equivalence (Number := Number)) as [Hr _ _].
  by rewrite !String.eqb_refl, (Hr (to_parameters t)), bool_decide_eq_true_2.
Qed.

Lemma tool_eqb_flip (t u : Tool Number) : tool_eqb t u = true -> tool_eqb u t = true.
Proof.
  unfold tool_eqb. pose proof (value_eqb_equivalence (Number := Number)) as [_ Hs _].
  rewrite !andb_true_iff, !String.eqb_eq, !bool_decide_eq_true.
  intros [[[-> ->] Hv] ->]. by apply Hs in Hv.
Qed.

Lemma tool_eqb_sym (t u : Tool Number) : tool_eqb t u = tool_eqb u t.
Proof.
  pose proof (tool_eqb_flip t u). pose proof (tool_eqb_flip u t).
  destruct (tool_eqb t u), (tool_eqb u t); naive_solver.
Qed.

(** The same tools by name, in any order. *)
Definition same_tool (o1 o2 : option (Tool Number)) : Prop :=
  match o1, o2 with
  | None, None => True
  | Some t, Some u => tool_eqb t u = true
  | _, _ => False
  end.

Definition same_tools tools1 tools2 : Prop :=
  forall name, same_tool (find_tool tools1 name) (find_tool tools2 name).

Lemma same_tool_eq o1 o2 : o1 = o2 -> same_tool o1 o2.
Proof. intros ->. destruct o2; cbn; [apply tool_eqb_refl|done]. Qed.

Lemma tool_eqb_name (t u : Tool Number) : tool_eqb t u = true -> to_name t = to_name u.
Proof. unfold tool_eqb. by intros [[[?%String.eqb_eq _]%andb_true_iff _]%andb_true_iff _]%andb_true_iff. Qed.

Lemma changes_added previous current name :
  NoDup (to_name <$> current) ->
  find_tool (ch_added (tool_changes previous current)) name =
    tool ← find_tool current name;
    match find_tool previous name with
    | Some other => if tool_eqb other tool then None else Some tool
    | None => Some tool
    end.
Proof.
  intros Hnd. unfold tool_changes. cbn [ch_added]. rewrite find_tool_filter by done.
  destruct (find_tool current name) as [t|] eqn:Ht; [|done]. cbn.
  apply find_tool_name in Ht as [<- _]. destruct (find_tool previous _); [|done]. by destruct (tool_eqb _ _).
Qed.

Lemma changes_removed previous current name :
  NoDup (to_name <$> previous) ->
  name ∈ tr_name <$> ch_removed (tool_changes previous current) <->
  exists tool, find_tool previous name = Some tool
    /\ forall other, find_tool current name = Some other -> tool_eqb other tool = false.
Proof.
  intros Hnd. unfold tool_changes. cbn [ch_removed]. rewrite <- list_fmap_compose, list_elem_of_fmap. split.
  - intros (t & -> & [Hin Hd]%list_elem_of_In%filter_In). cbn. exists t.
    split; [by apply find_tool_elem, list_elem_of_In|].
    intros other Ho. rewrite Ho in Hd. by apply negb_true_iff in Hd.
  - intros (t & Ht & Hd). pose proof (find_tool_name _ _ _ Ht) as [<- Hin].
    exists t. split; [done|]. apply list_elem_of_In, filter_In. rewrite <- list_elem_of_In. split; [done|].
    destruct (find_tool current _) as [other|]; [|done]. by rewrite (Hd other eq_refl).
Qed.

(** A message that declares the difference makes the replay yield the new tools. *)
Lemma replay_changes messages current content sections now :
  NoDup (to_name <$> current) ->
  let changes := tool_changes (current_tools messages) current in
  same_tools
    (current_tools (messages ++
       [System (MkSystemMessage content sections (ch_added changes) (ch_removed changes) now)]))
    current.
Proof.
  intros Hcur changes name. set (previous := current_tools messages).
  pose proof (NoDup_current_tools messages) as Hprev.
  unfold current_tools at 1, system_messages. rewrite omap_app, fold_left_app. cbn [omap list_omap fold_left].
  fold (system_messages messages). rewrite find_tool_keyed by (apply keyed_replay, keyed_systems).
  unfold replay_tools at 1. cbn [sm_tools_added sm_tools_removed].
  assert (NoDup (to_name <$> ch_added changes)) as Hadd.
  { cbn. clear -Hcur. induction current as [|t current IH]; cbn; [constructor|].
    apply NoDup_cons in Hcur as [Ht Hnd]. destruct (match _ with Some _ => _ | None => _ end); [|auto].
    cbn. constructor; [|auto]. intros (u & Hu & [Hin _]%list_elem_of_In%filter_In)%list_elem_of_fmap.
    apply Ht. rewrite Hu. by apply list_elem_of_fmap_2, list_elem_of_In. }
  rewrite map_get_additions, map_get_removals by done.
  rewrite <- find_tool_keyed by apply keyed_systems. fold (current_tools messages). fold previous.
  unfold changes. fold previous. rewrite changes_added by done.
  pose proof (changes_removed previous current name Hprev) as Hrem.
  destruct (find_tool current name) as [t|] eqn:Ht; cbn.
  - destruct (find_tool previous name) as [p|] eqn:Hp; cbn; [|apply tool_eqb_refl].
    destruct (tool_eqb p t) eqn:Heq; [|cbn; apply tool_eqb_refl].
    case_bool_decide as Hin; [|done].
    apply Hrem in Hin as (? & [= <-] & Hd). specialize (Hd t eq_refl). rewrite tool_eqb_sym in Hd. congruence.
  - case_bool_decide as Hin; [done|]. destruct (find_tool previous name) as [p|] eqn:Hp; [|done].
    apply Hin, Hrem. by exists p.
Qed.
End Changes.

(** ** Collapsing *)

Section Collapse.
Context {Number : Type}.
Implicit Types (messages : list (Message Number)).

Lemma map_insert_some (m : list (string * option string)) k text :
  Forall (fun e => is_some e.2 = true) m -> Forall (fun e => is_some e.2 = true) (map_insert m k (Some text)).
Proof.
  rewrite !Forall_forall. intros H e [->|He]%elem_of_map_insert; [done|by apply H].
Qed.

(** Replayed sections are named once, and each has a text. *)
Lemma replayed_sections (systems : list (SystemMessage Number)) :
  let sections := fold_left replay_sections systems [] in
  NoDup sections.*1 /\ Forall (fun e => is_some e.2 = true) sections.
Proof.
  cbn zeta. apply (fold_left_keeps (fun s => NoDup s.*1 /\ Forall (fun e => is_some e.2 = true) s));
    [|split; constructor].
  intros sections system H. unfold replay_sections. apply fold_left_keeps; [|done]. clear.
  intros sections [name [text|]] [Hnd Hall]; split.
  - by apply NoDup_map_insert.
  - by apply map_insert_some.
  - by apply NoDup_map_remove.
  - rewrite Forall_forall in *. intros e [He _]%elem_of_map_remove. by apply Hall.
Qed.

(** Replaying what was replayed. *)
Lemma replay_sections_again (system : SystemMessage Number) :
  NoDup (sm_sections system).*1 -> Forall (fun e => is_some e.2 = true) (sm_sections system) ->
  replay_sections [] system = sm_sections system.
Proof.
  intros Hnd Hall. unfold replay_sections. transitivity ([] ++ sm_sections system); [|done].
  rewrite <- (fold_insert_fresh []) by done.
  generalize (@nil (string * option string)). induction (sm_sections system) as [|[k [v|]] l IH]; intros m; cbn.
  - done.
  - apply IH; [by apply NoDup_cons in Hnd as [_ ?]|by inversion Hall].
  - by inversion Hall.
Qed.

Lemma replay_tools_again (entries : list (string * Tool Number)) content sections now :
  keyed entries -> replay_tools [] (MkSystemMessage content sections entries.*2 [] now) = entries.
Proof.
  intros [Hnd Hk]. unfold replay_tools. cbn. transitivity ([] ++ entries); [|done].
  rewrite <- (fold_insert_fresh []) by done.
  generalize (@nil (string * Tool Number)). clear Hnd.
  induction entries as [|[k t] entries IH]; intros m; cbn; [done|].
  pose proof (Hk (k, t) ltac:(left)) as Hkt. cbn in Hkt. rewrite Hkt. apply IH.
  intros e He. apply Hk. by right.
Qed.

Lemma system_messages_app messages messages' :
  system_messages (messages ++ messages') = system_messages messages ++ system_messages messages'.
Proof. apply omap_app. Qed.

Lemma system_messages_others messages :
  system_messages (List.filter (fun message => negb (is_system_message message)) messages) = [].
Proof. induction messages as [|[] messages IH]; done. Qed.

Lemma system_messages_collapse messages :
  system_messages (collapse_system_messages messages) = option_list (current_system_message messages).
Proof.
  unfold collapse_system_messages. rewrite system_messages_app, system_messages_others, app_nil_r.
  by destruct (current_system_message messages).
Qed.

Lemma current_none messages :
  current_system_message messages = None -> system_messages messages = [].
Proof.
  unfold current_system_message, current_tools. by destruct (system_messages messages).
Qed.

(** The parts of the replayed message. *)
Lemma current_some messages system :
  current_system_message messages = Some system ->
  NoDup (sm_sections system).*1 /\ Forall (fun e => is_some e.2 = true) (sm_sections system)
  /\ sm_tools_removed system = []
  /\ sm_tools_added system = (fold_left replay_tools (system_messages messages) []).*2.
Proof.
  unfold current_system_message. destruct (_ && _); [done|]. intros [= <-]. cbn.
  pose proof (replayed_sections (system_messages messages)) as [? ?]. by split_and!.
Qed.

Lemma current_single (system : SystemMessage Number) others :
  system_messages others = [system] ->
  sm_tools_removed system = [] ->
  keyed (replay_tools [] system) -> (replay_tools [] system).*2 = sm_tools_added system ->
  replay_sections [] system = sm_sections system ->
  current_system_message others = Some system.
Proof.
  intros Hs Hrem Hk Htools Hsec. unfold current_system_message, current_tools. rewrite Hs. cbn.
  rewrite Hsec, Htools. destruct system as [content sections added removed now]. cbn in *. subst removed.
  f_equal. f_equal. by destruct (String.eqb_spec content "") as [->|].
Qed.

Lemma current_somewhere messages first systems :
  system_messages messages = first :: systems ->
  current_system_message messages = Some (MkSystemMessage
    (join blank_line (List.filter (fun text => negb (String.eqb text "")) (sm_content <$> first :: systems)))
    (fold_left replay_sections (first :: systems) []) (current_tools messages) [] (sm_timestamp first)).
Proof. intros Hs. unfold current_system_message. by rewrite Hs. Qed.

(** A section has the text its last declaration gives it, and is gone when that declaration removes it. *)
Lemma replay_sections_last (systems : list (SystemMessage Number)) name :
  map_get (fold_left replay_sections systems []) name
  = match map_get (reverse (mjoin (sm_sections <$> systems))) name with
    | Some (Some text) => Some (Some text)
    | _ => None
    end.
Proof.
  assert (forall s, fold_left replay_sections systems s
    = fold_left (fun sections (declared : string * option string) => let '(name, value) := declared in
        match value with
        | Some text => map_insert sections name (Some text)
        | None => map_remove sections name
        end) (mjoin (sm_sections <$> systems)) s) as ->.
  { induction systems as [|system systems IH]; intros s; [done|]. cbn. rewrite IH.
    by rewrite fold_left_app. }
  induction (mjoin (sm_sections <$> systems)) as [|[k [text|]] l IH] using rev_ind; [done| |];
    rewrite fold_left_app, reverse_snoc; cbn; rewrite ?map_get_insert, ?map_get_remove;
    by destruct (String.eqb k name).
Qed.

(** C28: For an API without system messages in mid-conversation, a transcript becomes one leading system message,
    none when it had none, and then its other messages, unchanged and in order.  That message has the time of the
    first system message, the texts of all of them that have one, each section as it was last declared, and the tools
    the declarations leave; so replaying the result gives the message, the prompt and the tools that
    replaying the original gives, and collapsing again changes nothing. *)
Theorem collapse_preserves messages :
  let collapsed := collapse_system_messages messages in
  (exists leading,
     collapsed = leading ++ List.filter (fun message => negb (is_system_message message)) messages
     /\ match system_messages messages with
        | [] => leading = []
        | first :: systems =>
            exists system, leading = [System system]
              /\ sm_timestamp system = sm_timestamp first
              /\ sm_content system
                 = join blank_line (List.filter (fun text => negb (String.eqb text "")) (sm_content <$> first :: systems))
              /\ (forall name, map_get (sm_sections system) name
                   = match map_get (reverse (mjoin (sm_sections <$> first :: systems))) name with
                     | Some (Some text) => Some (Some text)
                     | _ => None
                     end)
              /\ sm_tools_added system = current_tools messages /\ sm_tools_removed system = []
        end)
  /\ current_system_message collapsed = current_system_message messages
  /\ current_system_prompt collapsed = current_system_prompt messages
  /\ current_tools collapsed = current_tools messages
  /\ collapse_system_messages collapsed = collapsed.
Proof.
  intros collapsed. subst collapsed. split.
  { eexists. split; [reflexivity|]. destruct (system_messages messages) as [|first systems] eqn:Hs.
    - unfold current_system_message, current_tools. by rewrite Hs.
    - rewrite (current_somewhere _ _ _ Hs). eexists. split; [done|]. cbn [sm_timestamp sm_content sm_sections
        sm_tools_added sm_tools_removed]. split_and!; try done. intros name. apply replay_sections_last. }
  assert (List.filter (fun message => negb (is_system_message message)) (collapse_system_messages messages)
    = List.filter (fun message => negb (is_system_message message)) messages) as Hothers.
  { unfold collapse_system_messages. rewrite List.filter_app. destruct (current_system_message messages); cbn;
      induction messages as [|[] messages IH]; cbn; congruence || done. }
  assert (current_system_message (collapse_system_messages messages) = current_system_message messages
    /\ current_tools (collapse_system_messages messages) = current_tools messages) as [Hcur Htools].
  { pose proof (system_messages_collapse messages) as Hs.
    destruct (current_system_message messages) as [system|] eqn:Hm; cbn in Hs.
    - apply current_some in Hm as (Hnd & Hall & Hrem & Hadd).
      pose proof (keyed_systems (system_messages messages)) as Hk.
      assert (replay_tools [] system = fold_left replay_tools (system_messages messages) []) as Hreplay.
      { rewrite <- (replay_tools_again _ (sm_content system) (sm_sections system) (sm_timestamp system) Hk).
        rewrite <- Hadd. destruct system. cbn in *. by subst. }
      split.
      + apply current_single; rewrite ?Hreplay; auto. by apply replay_sections_again.
      + unfold current_tools. rewrite Hs. cbn. by rewrite Hreplay.
    - unfold current_system_message, current_tools. rewrite Hs, (current_none _ Hm). done. }
  split_and!; [done| |done|].
  - unfold current_system_prompt. by rewrite Hcur.
  - unfold collapse_system_messages at 1. by rewrite Hcur, Hothers.
Qed.
End Collapse.
