(* ===== verification/Truncate.v ===== *)
(** * Truncation of tool output: pi-coding-agent/src/tools/truncate.rs

    Two limits, lines and bytes, cut the head or the tail of a text; a third routine cuts its middle.
    Counts are [usize]s far from their bound; a panic is [None].  [format_size] is not modelled. *)
From Stdlib Require Import Strings.Byte.
From stdpp Require pretty.
From S2P Require Import Prelude Utf8.

Definition DEFAULT_MAX_LINES : nat := 2000.
Definition DEFAULT_MAX_BYTES : nat := 50 * 1024.
Definition GREP_MAX_LINE_LENGTH : nat := 500.

Inductive TruncatedBy := Lines | Bytes.

#[global] Instance TruncatedBy_eq_dec : EqDecision TruncatedBy.
Proof. solve_decision. Defined.

Record TruncationResult := MkTruncationResult {
  tr_content : list byte;
  tr_truncated : bool;
  tr_truncated_by : option TruncatedBy;
  tr_total_lines : nat;
  tr_total_bytes : nat;
  tr_output_lines : nat;
  tr_output_bytes : nat;
  tr_last_line_partial : bool;
  tr_first_line_exceeds_limit : bool;
  tr_max_lines : nat;
  tr_max_bytes : nat;
}.

Definition split_lines_for_counting (content : list byte) : list (list byte) :=
  match content with
  | [] => []
  | _ =>
      let lines := split_lines content in
      if ends_with content [LF] then removelast lines else lines
  end.

Definition untouched (content : list byte) (total_lines max_lines max_bytes : nat) : TruncationResult :=
  MkTruncationResult content false None total_lines (length content) total_lines (length content)
    false false max_lines max_bytes.

(** The loop of [truncate_head]: what is kept, its bytes, and whether the byte limit broke it. *)
Fixpoint head_loop (max_bytes : nat) (lines : list (list byte)) (index : nat) (kept : list (list byte))
    (kept_bytes : nat) : list (list byte) * nat * TruncatedBy :=
  match lines with
  | [] => (kept, kept_bytes, Lines)
  | line :: lines =>
      let line_bytes := (length line + (if 0 <? index then 1 else 0))%nat in
      if (max_bytes <? kept_bytes + line_bytes)%nat then (kept, kept_bytes, Bytes)
      else head_loop max_bytes lines (S index) (kept ++ [line]) (kept_bytes + line_bytes)
  end.

Definition truncate_head (content : list byte) (max_lines max_bytes : nat) : option TruncationResult :=
  let total_bytes := length content in
  let lines := split_lines_for_counting content in
  let total_lines := length lines in
  if ((total_lines <=? max_lines) && (total_bytes <=? max_bytes))%nat
  then Some (untouched content total_lines max_lines max_bytes)
  else
    first ← head lines;
    if (max_bytes <? length first)%nat then
      Some (MkTruncationResult [] true (Some Bytes) total_lines total_bytes 0 0 false true max_lines max_bytes)
    else
      let '(kept, kept_bytes, truncated_by) := head_loop max_bytes (take max_lines lines) 0 [] 0 in
      let truncated_by :=
        if ((max_lines <=? length kept) && (kept_bytes <=? max_bytes))%nat then Lines else truncated_by in
      let content := join_lines kept in
      Some (MkTruncationResult content true (Some truncated_by) total_lines total_bytes (length kept)
              (length content) false false max_lines max_bytes).

(** [while !text.is_char_boundary(index) { index += 1 }]; [None]: it goes on for ever. *)
Fixpoint boundary_up (fuel : nat) (text : list byte) (index : nat) : option nat :=
  if is_char_boundary text index then Some index
  else match fuel with O => None | S fuel => boundary_up fuel text (S index) end.

(** [while !text.is_char_boundary(index) { index -= 1 }]; zero is a boundary. *)
Fixpoint boundary_down (text : list byte) (index : nat) : nat :=
  if is_char_boundary text index then index
  else match index with O => O | S index => boundary_down text index end.

Definition tail_at_char_boundary (text : list byte) (max_bytes : nat) : option (list byte) :=
  if (length text <=? max_bytes)%nat then Some text
  else
    start ← boundary_up max_bytes text (length text - max_bytes);
    slice text start (length text).

(** The loop of [truncate_tail] over the lines from the last; [kept] is in its order, newest last. *)
Fixpoint tail_loop (max_lines max_bytes : nat) (lines : list (list byte)) (kept : list (list byte))
    (kept_bytes : nat) : option (list (list byte) * nat * TruncatedBy * bool) :=
  match lines with
  | [] => Some (kept, kept_bytes, Lines, false)
  | line :: lines =>
      if (max_lines <=? length kept)%nat then Some (kept, kept_bytes, Lines, false)
      else
        let line_bytes := (length line + (if (length kept =? 0)%nat then 0 else 1))%nat in
        if (max_bytes <? kept_bytes + line_bytes)%nat then
          if (length kept =? 0)%nat then
            stop ← tail_at_char_boundary line max_bytes;
            Some ([stop], length stop, Bytes, true)
          else Some (kept, kept_bytes, Bytes, false)
        else tail_loop max_lines max_bytes lines (kept ++ [line]) (kept_bytes + line_bytes)
  end.

Definition truncate_tail (content : list byte) (max_lines max_bytes : nat) : option TruncationResult :=
  let total_bytes := length content in
  let lines := split_lines_for_counting content in
  let total_lines := length lines in
  if ((total_lines <=? max_lines) && (total_bytes <=? max_bytes))%nat
  then Some (untouched content total_lines max_lines max_bytes)
  else
    '(kept, kept_bytes, truncated_by, last_line_partial) ← tail_loop max_lines max_bytes (rev lines) [] 0;
    let kept := rev kept in
    let truncated_by :=
      if ((max_lines <=? length kept) && (kept_bytes <=? max_bytes))%nat then Lines else truncated_by in
    let content := join_lines kept in
    Some (MkTruncationResult content true (Some truncated_by) total_lines total_bytes (length kept)
            (length content) last_line_partial false max_lines max_bytes).

Record MiddleTruncation := MkMiddleTruncation {
  mt_content : list byte;
  mt_truncated : bool;
  mt_removed_chars : nat;
  mt_total_bytes : nat;
  mt_total_lines : nat;
}.

(** The horizontal ellipsis. *)
Definition ELLIPSIS : list byte := [xe2; x80; xa6].

Definition truncation_marker (removed_chars : nat) : list byte :=
  ELLIPSIS ++ as_bytes (pretty.pretty removed_chars) ++ as_bytes " chars truncated" ++ ELLIPSIS.

Definition truncate_middle (content : list byte) (max_bytes : nat) : option MiddleTruncation :=
  let total_lines := length (split_lines_for_counting content) in
  if (length content <=? max_bytes)%nat
  then Some (MkMiddleTruncation content false 0 (length content) total_lines)
  else
    let head_end := boundary_down content (max_bytes / 2) in
    tail_start ← boundary_up (max_bytes - max_bytes / 2) content
      (length content - (max_bytes - max_bytes / 2));
    removed ← slice content head_end tail_start;
    let removed_chars := chars_count removed in
    front ← slice content 0 head_end;
    back ← slice content tail_start (length content);
    Some (MkMiddleTruncation (front ++ truncation_marker removed_chars ++ back) true removed_chars
            (length content) total_lines).

(** The offset of the character number [n], counted from zero: [line.char_indices().nth(n)]. *)
Fixpoint char_offset (s : list byte) (n : nat) : option nat :=
  match s with
  | [] => None
  | b :: s =>
      if is_continuation b then S <$> char_offset s n
      else match n with O => Some 0%nat | S n => S <$> char_offset s n end
  end.

Definition truncate_line (line : list byte) (max_chars : nat) : option (list byte * bool) :=
  match char_offset line max_chars with
  | Some stop => front ← slice line 0 stop; Some (front ++ as_bytes "... [truncated]", true)
  | None => Some (line, false)
  end.

(** ** The loop of [truncate_head] *)

(** Bytes of lines joined by newlines. *)
Definition size (lines : list (list byte)) : nat := length (join_lines lines).

Lemma size_eq lines : size lines = (sum_list_with length lines + pred (length lines))%nat.
Proof. apply length_join_lines. Qed.

Lemma size_snoc lines line :
  size (lines ++ [line]) = (size lines + (length line + (if (length lines =? 0)%nat then 0 else 1)))%nat.
Proof. rewrite !size_eq, sum_list_with_app, length_app. cbn. destruct lines; cbn; lia. Qed.

Lemma sum_list_with_rev {A} (f : A -> nat) l : sum_list_with f (rev l) = sum_list_with f l.
Proof. induction l as [|x l IH]; [done|]. cbn. rewrite sum_list_with_app, IH. cbn. lia. Qed.

Lemma size_rev lines : size (rev lines) = size lines.
Proof. by rewrite !size_eq, sum_list_with_rev, length_rev. Qed.

Lemma take_S_snoc {A} (l : list A) k x : l !! k = Some x -> take (S k) l = take k l ++ [x].
Proof. apply take_S_r. Qed.

(** It keeps the most lines that fit. *)
Lemma head_loop_spec max_bytes lines kept :
  (size kept <= max_bytes)%nat ->
  exists k by_,
    head_loop max_bytes lines (length kept) kept (size kept)
      = (kept ++ take k lines, size (kept ++ take k lines), by_)
    /\ (k <= length lines)%nat /\ (size (kept ++ take k lines) <= max_bytes)%nat
    /\ ((k < length lines)%nat -> (max_bytes < size (kept ++ take (S k) lines))%nat)
    /\ (by_ = Bytes <-> (k < length lines)%nat).
Proof.
  revert kept. induction lines as [|line lines IH]; intros kept Hfit.
  - exists 0%nat, Lines. cbn. rewrite app_nil_r. split_and!; (done || lia || idtac). split; [done|lia].
  - cbn [head_loop].
    replace (if (0 <? length kept)%nat then 1%nat else 0%nat)
      with (if (length kept =? 0)%nat then 0%nat else 1%nat) by (by destruct kept).
    rewrite <- size_snoc. destruct (Nat.ltb_spec max_bytes (size (kept ++ [line]))) as [Hover|Hok].
    + exists 0%nat, Bytes. cbn. rewrite app_nil_r. split_and!; (done || lia || idtac). split; [lia|done].
    + destruct (IH (kept ++ [line]) Hok) as (k & by_ & E & Hk & Hsz & Hmax & Hby).
      rewrite length_app, Nat.add_1_r in E. exists (S k), by_. cbn [take length].
      rewrite <- app_assoc in E, Hsz, Hmax. split_and!; [done|lia|done| |].
      * intros Hlt. apply Hmax. lia.
      * rewrite Hby. lia.
Qed.

(** ** The loops over boundaries *)

Lemma boundary_up_spec fuel text i j :
  (i <= j)%nat -> (j - i <= fuel)%nat -> is_char_boundary text j = true ->
  exists k, boundary_up fuel text i = Some k /\ (i <= k <= j)%nat /\ is_char_boundary text k = true.
Proof.
  revert i. induction fuel as [|fuel IH]; intros i Hij Hf Hj; cbn.
  - replace j with i in Hj by lia. rewrite Hj. exists i. split_and!; (done || lia).
  - destruct (is_char_boundary text i) eqn:Hi; [exists i; split_and!; (done || lia)|].
    destruct (decide (i = j)) as [->|]; [congruence|].
    destruct (IH (S i)) as (k & E & Hk & Hb); [lia..|done|]. exists k. split_and!; (done || lia).
Qed.

Lemma boundary_down_spec text i j :
  (j <= i)%nat -> is_char_boundary text j = true ->
  (j <= boundary_down text i <= i)%nat /\ is_char_boundary text (boundary_down text i) = true.
Proof.
  intros Hji Hj. induction i as [|i IH]; cbn [boundary_down].
  - rewrite boundary_zero. split; [lia|done].
  - destruct (is_char_boundary text (S i)) eqn:Hi; [split; [lia|done]|].
    destruct (decide (j = S i)) as [->|]; [congruence|]. destruct IH; [lia|]. split; [lia|done].
Qed.

Lemma slice_ok s i j :
  (i <= j <= length s)%nat -> is_char_boundary s i = true -> is_char_boundary s j = true ->
  slice s i j = Some (take (j - i) (drop i s)).
Proof.
  intros H Hi Hj. unfold slice. rewrite Hi, Hj.
  by rewrite (proj2 (Nat.leb_le i j)), (proj2 (Nat.leb_le j (length s))) by lia.
Qed.

(** The end of a text: whole characters, as many bytes as fit up to a character's length. *)
Lemma tail_at_char_boundary_spec text max_bytes :
  is_text text ->
  exists front stop, tail_at_char_boundary text max_bytes = Some stop /\ text = front ++ stop
    /\ is_text stop /\ (length stop <= max_bytes)%nat
    /\ ((max_bytes < length text)%nat -> (max_bytes < length stop + 4)%nat).
Proof.
  intros Ht. unfold tail_at_char_boundary. destruct (Nat.leb_spec (length text) max_bytes) as [Hle|Hgt].
  { exists [], text. split_and!; (done || lia). }
  destruct (boundary_near text (length text - max_bytes) Ht) as (lo & hi & H1 & H2 & _ & H4 & _ & Hb); [lia|].
  set (i := (length text - max_bytes)%nat) in *.
  destruct (boundary_up_spec max_bytes text i hi) as (k & -> & Hk & Hbk); [lia..|done|]. cbn.
  rewrite slice_ok by (lia || done || apply boundary_length).
  destruct (text_cut text k Ht) as [_ Hdrop]; [lia|done|].
  exists (take k text), (drop k text). rewrite take_ge by (rewrite length_drop; lia).
  rewrite length_drop. split_and!; [done|by rewrite take_drop|done|lia|intros _; lia].
Qed.

(** ** The loop of [truncate_tail] *)

Lemma tail_loop_spec max_lines max_bytes lines kept :
  Forall is_text lines -> (size kept <= max_bytes)%nat -> (length kept <= max_lines)%nat ->
  exists by_,
    (exists k, tail_loop max_lines max_bytes lines kept (size kept)
        = Some (kept ++ take k lines, size (kept ++ take k lines), by_, false)
      /\ (k <= length lines)%nat /\ (length kept + k <= max_lines)%nat
      /\ (size (kept ++ take k lines) <= max_bytes)%nat
      /\ ((k < length lines)%nat -> (length kept + k < max_lines)%nat ->
            (max_bytes < size (kept ++ take (S k) lines))%nat)
      /\ (by_ = Bytes <-> (k < length lines)%nat /\ (length kept + k < max_lines)%nat)
      /\ ((length kept + k)%nat = 0%nat -> by_ = Lines))
    \/ (kept = [] /\ (0 < max_lines)%nat /\ exists line rest front stop, lines = line :: rest
      /\ (max_bytes < length line)%nat /\ line = front ++ stop /\ is_text stop
      /\ (length stop <= max_bytes < length stop + 4)%nat
      /\ tail_loop max_lines max_bytes lines kept (size kept) = Some ([stop], length stop, Bytes, true)).
Proof.
  intros Htexts. revert kept. induction Htexts as [|line lines Htext Htexts IH]; intros kept Hfit Hlines.
  { exists Lines. left. exists 0%nat. cbn. rewrite app_nil_r, Nat.add_0_r.
    split_and!; (done || lia || idtac). split; [done|lia]. }
  cbn [tail_loop]. destruct (Nat.leb_spec max_lines (length kept)) as [Hfull|Hroom].
  { exists Lines. left. exists 0%nat. cbn [take]. rewrite app_nil_r, Nat.add_0_r.
    split_and!; (done || lia || idtac). split; [done|lia]. }
  rewrite <- size_snoc. destruct (Nat.ltb_spec max_bytes (size (kept ++ [line]))) as [Hover|Hok].
  - destruct (Nat.eqb_spec (length kept) 0) as [Hnil|Hne].
    + apply length_zero_iff_nil in Hnil as ->. cbn in Hover, Hroom. unfold size in Hover. cbn in Hover.
      destruct (tail_at_char_boundary_spec line max_bytes Htext) as (front & stop & -> & E & Hst & Hl & Hg).
      exists Bytes. right. split; [done|]. split; [lia|]. exists line, lines, front, stop.
      split_and!; done || lia.
    + exists Bytes. left. exists 0%nat. cbn [take]. rewrite app_nil_r, Nat.add_0_r.
      split_and!; (done || lia || idtac). split; [cbn; lia|done].
  - destruct (IH (kept ++ [line])) as (by_ & [H|(Hnil & _)]); [done|rewrite length_app; cbn; lia| |].
    + destruct H as (k & E & Hk & Hm & Hsz & Hmax & Hby & Hz). exists by_. left. exists (S k).
      rewrite length_app in *. cbn [take length] in *.
      rewrite <- app_assoc in E, Hsz, Hmax. split_and!; [done|lia..|done| | |lia].
      * intros H1 H2. apply Hmax; lia.
      * rewrite Hby. lia.
    + by destruct kept.
Qed.

(** ** What is counted *)

Lemma split_lines_snoc s : split_lines (s ++ [LF]) = split_lines s ++ [[]].
Proof.
  induction s as [|b s IH]; [done|]. cbn. case_bool_decide; [by rewrite IH|]. rewrite IH.
  pose proof (split_lines_nonempty s). by destruct (split_lines s).
Qed.

(** The counted lines, and the newline that does not start another. *)
Lemma counting_cases content :
  let lines := split_lines_for_counting content in
  (content = [] /\ lines = [])
  \/ (lines <> [] /\ lines = split_lines content /\ content = join_lines lines)
  \/ (lines <> [] /\ exists s, content = s ++ [LF] /\ lines = split_lines s /\ s = join_lines lines).
Proof.
  cbn zeta. unfold split_lines_for_counting. destruct content as [|b content]; [by left|]. right.
  unfold ends_with. case_bool_decide as Hends.
  - right. destruct Hends as [s Hs]. rewrite Hs, split_lines_snoc, removelast_last.
    split; [apply split_lines_nonempty|]. exists s. by rewrite join_split.
  - left. split; [apply split_lines_nonempty|]. by rewrite join_split.
Qed.

Lemma text_prefix_LF s : is_text (s ++ [LF]) -> is_text s.
Proof.
  intros Ht. pose proof (text_cut (s ++ [LF]) (length s) Ht) as H. rewrite take_app_length in H.
  apply H; [rewrite length_app; lia|]. unfold is_char_boundary. rewrite lookup_app_r, Nat.sub_diag by done.
  cbn. apply orb_true_r.
Qed.

Lemma counting_texts content : is_text content -> Forall is_text (split_lines_for_counting content).
Proof.
  intros Ht. destruct (counting_cases content) as [[_ ->]|[(_ & -> & _)|(_ & s & -> & -> & _)]]; [done| |].
  - by apply split_lines_text.
  - apply split_lines_text. by apply text_prefix_LF.
Qed.

(** The fields that only report the call. *)
Definition reports (r : TruncationResult) (content : list byte) (max_lines max_bytes : nat) : Prop :=
  tr_total_lines r = length (split_lines_for_counting content) /\ tr_total_bytes r = length content
  /\ tr_output_bytes r = length (tr_content r) /\ tr_max_lines r = max_lines /\ tr_max_bytes r = max_bytes.

Definition within (content : list byte) (max_lines max_bytes : nat) : Prop :=
  (length (split_lines_for_counting content) <= max_lines)%nat /\ (length content <= max_bytes)%nat.

(** What [truncate_head] keeps of a text beyond its limits. *)
Definition head_kept (r : TruncationResult) (lines : list (list byte)) (max_lines max_bytes : nat) : Prop :=
  tr_truncated r = true /\ tr_last_line_partial r = false
  /\ tr_content r = join_lines (take (tr_output_lines r) lines)
  /\ (tr_output_lines r <= length lines)%nat /\ (tr_output_lines r <= max_lines)%nat
  /\ (length (tr_content r) <= max_bytes)%nat
  /\ ((tr_output_lines r < length lines)%nat -> (tr_output_lines r < max_lines)%nat ->
        (max_bytes < length (join_lines (take (S (tr_output_lines r)) lines)))%nat)
  /\ (tr_first_line_exceeds_limit r = true <-> (max_bytes < length (default [] (head lines)))%nat).

(** How the code names the limit. *)
Definition named_limit (r : TruncationResult) (lines : list (list byte)) (max_lines : nat) : TruncatedBy :=
  if tr_first_line_exceeds_limit r || ((tr_output_lines r <? length lines) && (tr_output_lines r <? max_lines))%nat
  then Bytes else Lines.

(** What it means that a limit was hit, and hit first: the line limit, when as many lines are kept as it allows and
    there are more; the byte limit, when the next line does not fit it and the line limit would have let it pass, or
    when the first line alone does not fit. *)
Definition limit_hit_first (by_ : TruncatedBy) (r : TruncationResult) (lines : list (list byte))
    (max_lines max_bytes : nat) : Prop :=
  match by_ with
  | Lines =>
      tr_output_lines r = max_lines /\ (max_lines < length lines)%nat /\ tr_first_line_exceeds_limit r = false
  | Bytes =>
      (tr_output_lines r < length lines)%nat
      /\ (max_bytes < length (join_lines (take (S (tr_output_lines r)) lines)))%nat
      /\ ((tr_output_lines r < max_lines)%nat \/ tr_first_line_exceeds_limit r = true)
  end.

(** A text whose lines are within both limits, and only the newline that ends it is not. *)
Definition only_newline_over (content : list byte) (max_lines max_bytes : nat) : Prop :=
  (length (split_lines_for_counting content) <= max_lines)%nat
  /\ exists s, content = s ++ [LF] /\ length s = max_bytes.

Lemma within_guard content max_lines max_bytes :
  ((length (split_lines_for_counting content) <=? max_lines) && (length content <=? max_bytes))%nat = true
  <-> within content max_lines max_bytes.
Proof. unfold within. by rewrite andb_true_iff, !Nat.leb_le. Qed.

Lemma over_guard content max_lines max_bytes :
  ~ within content max_lines max_bytes ->
  ((length (split_lines_for_counting content) <=? max_lines) && (length content <=? max_bytes))%nat = false.
Proof. rewrite <- within_guard. by destruct (_ && _). Qed.

Lemma over_nonempty content max_lines max_bytes :
  ~ within content max_lines max_bytes ->
  exists first rest, split_lines_for_counting content = first :: rest.
Proof.
  unfold within. intros H. destruct (counting_cases content) as [[-> _]|[[? _]|[? _]]].
  - exfalso. apply H. cbn. lia.
  - destruct (split_lines_for_counting content); [done|by eexists _, _].
  - destruct (split_lines_for_counting content); [done|by eexists _, _].
Qed.

(** Why the loop stopped, once its answer is corrected. *)
Lemma corrected_by (k lines max_lines : nat) by_ :
  (k <= Nat.min max_lines lines)%nat -> by_ = Bytes <-> (k < Nat.min max_lines lines)%nat ->
  (if (max_lines <=? k)%nat then Lines else by_)
  = if ((k <? lines) && (k <? max_lines))%nat then Bytes else Lines.
Proof.
  intros Hk [Hb1 Hb2]. destruct by_; [|specialize (Hb1 eq_refl)];
    destruct (Nat.leb_spec max_lines k), (Nat.ltb_spec k lines), (Nat.ltb_spec k max_lines); cbn;
    try done; lia || (specialize (Hb2 ltac:(lia)); done).
Qed.

Lemma truncate_head_over content max_lines max_bytes :
  ~ within content max_lines max_bytes ->
  exists r, truncate_head content max_lines max_bytes = Some r /\ reports r content max_lines max_bytes
    /\ head_kept r (split_lines_for_counting content) max_lines max_bytes
    /\ tr_truncated_by r = Some (named_limit r (split_lines_for_counting content) max_lines).
Proof.
  intros Hover. destruct (over_nonempty _ _ _ Hover) as (first & rest & Hlines).
  unfold truncate_head. rewrite over_guard by done. set (lines := split_lines_for_counting content) in *.
  replace (head lines) with (Some first) by by rewrite Hlines. cbn [mbind option_bind].
  destruct (Nat.ltb_spec max_bytes (length first)) as [Hfirst|Hfirst].
  { eexists. split; [done|]. split; [done|]. unfold head_kept, named_limit. rewrite Hlines. cbn. split_and!; done || lia. }
  destruct (head_loop_spec max_bytes (take max_lines lines) []) as (k & by_ & E & Hk & Hsz & Hmax & Hby);
    [cbn; lia|].
  change (head_loop max_bytes (take max_lines lines) 0 [] 0 = (take k (take max_lines lines),
    size (take k (take max_lines lines)), by_)) in E. cbn [app] in Hsz, Hmax.
  rewrite length_take in Hk, Hmax, Hby. rewrite take_take, Nat.min_l in E, Hsz by lia. rewrite E.
  rewrite (proj2 (Nat.leb_le (size (take k lines)) max_bytes)), andb_true_r by done.
  eexists. split; [done|]. split; [done|].
  assert (length (take k lines) = k) as Hlen by (rewrite length_take; lia).
  unfold head_kept, named_limit. cbn [tr_truncated tr_last_line_partial tr_content tr_output_lines tr_truncated_by
    tr_first_line_exceeds_limit orb]. rewrite Hlen.
  split_and!; [done|done|done|lia|lia|done| | |].
  - intros H1 H2. specialize (Hmax ltac:(lia)). by rewrite take_take, Nat.min_l in Hmax by lia.
  - rewrite Hlines. cbn. split; [done|lia].
  - f_equal. apply corrected_by; [lia|done].
Qed.

(** When every line is kept, only the final newline is over. *)
Lemma all_lines_kept r content max_lines max_bytes :
  ~ within content max_lines max_bytes -> head_kept r (split_lines_for_counting content) max_lines max_bytes ->
  tr_output_lines r = length (split_lines_for_counting content) -> only_newline_over content max_lines max_bytes.
Proof.
  intros Hover (_ & _ & Hcont & _ & Hlines & Hbytes & _) Hall.
  rewrite Hall, take_ge in Hcont by done. rewrite Hcont in Hbytes. rewrite Hall in Hlines. split; [done|].
  destruct (counting_cases content) as [[-> _]|[(_ & _ & E)|(_ & s & -> & _ & E)]].
  - exfalso. apply Hover. unfold within. cbn. lia.
  - exfalso. apply Hover. split; [done|]. by rewrite E.
  - exists s. split; [done|]. rewrite <- E in Hbytes.
    destruct (decide (length s = max_bytes)); [done|]. exfalso. apply Hover. split; [done|].
    rewrite length_app. cbn. lia.
Qed.

(** The limit named is the one hit first, unless only the final newline is over. *)
Lemma named_limit_hit r content max_lines max_bytes :
  ~ within content max_lines max_bytes -> head_kept r (split_lines_for_counting content) max_lines max_bytes ->
  ~ only_newline_over content max_lines max_bytes ->
  limit_hit_first (named_limit r (split_lines_for_counting content) max_lines) r
    (split_lines_for_counting content) max_lines max_bytes.
Proof.
  intros Hover Hk Hnl. pose proof (all_lines_kept r content max_lines max_bytes Hover Hk) as Hall.
  destruct (over_nonempty _ _ _ Hover) as (first & rest & Hlines).
  set (lines := split_lines_for_counting content) in *.
  destruct Hk as (_ & _ & _ & Hk & Hm & Hb & Hmax & Hfirst). unfold named_limit.
  destruct (tr_first_line_exceeds_limit r) eqn:Hex; cbn [orb].
  - pose proof (proj1 Hfirst eq_refl) as Hlong. rewrite Hlines in Hlong. cbn in Hlong.
    assert (forall n, (max_bytes < length (join_lines (take (S n) lines)))%nat) as Hnext.
    { intros n. rewrite Hlines, length_join_lines. cbn. lia. }
    split_and!; [|apply Hnext|by right].
    destruct (decide (tr_output_lines r = length lines)); [by exfalso; apply Hnl, Hall|lia].
  - destruct (Nat.ltb_spec (tr_output_lines r) (length lines)) as [Hl|Hl];
      [|exfalso; apply Hnl, Hall; lia].
    destruct (Nat.ltb_spec (tr_output_lines r) max_lines) as [Hl2|Hl2]; cbn.
    + split_and!; [done|by apply Hmax|by left].
    + split_and!; [lia|lia|done].
Qed.

(** C40: The head that is kept.  A text within both limits is returned as it is.  Of any other, the
    result holds whole lines from the start, as many as fit both limits and no fewer; when the first line alone exceeds
    the byte limit, and only then, it says so and holds none.  The counts reported are those of the
    text and of what is kept.  The limit named is the one that was hit first, as the field is documented, for
    every text that is cut but one kind: when the lines are within both limits and the final newline alone is
    over, the code does not name the limit that was hit ([newline_cut_blamed_on_lines], and the finding on
    truncate.rs), and the name is not claimed.  No text makes it panic. *)
Theorem truncate_head_exact (content : list byte) (max_lines max_bytes : nat) :
  exists r, truncate_head content max_lines max_bytes = Some r /\ reports r content max_lines max_bytes
    /\ (within content max_lines max_bytes -> r = untouched content (tr_total_lines r) max_lines max_bytes)
    /\ (~ within content max_lines max_bytes ->
          head_kept r (split_lines_for_counting content) max_lines max_bytes
          /\ (~ only_newline_over content max_lines max_bytes ->
                exists by_, tr_truncated_by r = Some by_
                  /\ limit_hit_first by_ r (split_lines_for_counting content) max_lines max_bytes)).
Proof.
  destruct ((length (split_lines_for_counting content) <=? max_lines)%nat
    && (length content <=? max_bytes)%nat) eqn:Hw.
  - exists (untouched content (length (split_lines_for_counting content)) max_lines max_bytes).
    unfold truncate_head. rewrite Hw. split; [done|]. split; [done|]. split; [done|].
    apply within_guard in Hw. done.
  - assert (~ within content max_lines max_bytes) as Hover by (rewrite <- within_guard; by rewrite Hw).
    destruct (truncate_head_over content max_lines max_bytes Hover) as (r & E & Hr & Hk & Hby).
    exists r. split_and!; try done. intros _. split; [done|]. intros Hnl. eexists. split; [exact Hby|].
    by apply named_limit_hit.
Qed.

(** A text whose final newline alone does not fit is cut, and the cut is blamed on the line limit. *)
Lemma newline_cut_blamed_on_lines content max_lines :
  content <> [] -> (length (split_lines content) <= max_lines)%nat ->
  exists r, truncate_head (content ++ [LF]) max_lines (length content) = Some r
    /\ tr_content r = content /\ tr_output_lines r = tr_total_lines r
    /\ (tr_total_lines r <= max_lines)%nat /\ tr_truncated_by r = Some Lines.
Proof.
  intros Hne Hlines.
  assert (split_lines_for_counting (content ++ [LF]) = split_lines content) as Hs.
  { unfold split_lines_for_counting. destruct (content ++ [LF]) eqn:E; [by destruct content|]. rewrite <- E.
    unfold ends_with. rewrite bool_decide_eq_true_2 by by exists content. by rewrite split_lines_snoc, removelast_last. }
  destruct (truncate_head_over (content ++ [LF]) max_lines (length content)) as (r & E & Hr & Hk & Hby).
  { unfold within. rewrite length_app. cbn. lia. }
  exists r. split; [done|]. destruct Hr as (Htot & _). rewrite Hs in *.
  destruct Hk as (_ & _ & Hcont & Hk & _ & _ & Hmax & Hfirst).
  assert (forall n, (length (join_lines (take n (split_lines content))) <= length content)%nat) as Hfit.
  { intros n. rewrite <- (join_split content) at 2. rewrite !length_join_lines.
    rewrite <- (take_drop n (split_lines content)) at 3 4. rewrite sum_list_with_app, length_app.
    destruct (take n (split_lines content)); cbn; lia. }
  assert (tr_output_lines r = length (split_lines content)) as Hall.
  { destruct (decide (tr_output_lines r < length (split_lines content))%nat); [|lia].
    specialize (Hmax ltac:(lia) ltac:(lia)). pose proof (Hfit (S (tr_output_lines r))). lia. }
  split_and!.
  - rewrite Hcont, Hall, take_ge by lia. apply join_split.
  - lia.
  - lia.
  - rewrite Hby. unfold named_limit. rewrite Hall, Nat.ltb_irrefl. destruct (tr_first_line_exceeds_limit r) ; [|done].
    pose proof (proj1 Hfirst eq_refl) as Hf. pose proof (split_lines_nonempty content). specialize (Hfit 1%nat).
    destruct (split_lines content); [done|]. rewrite firstn_cons, firstn_O in Hfit. cbn in Hf, Hfit. lia.
Qed.

(** ** The tail *)

(** What [truncate_tail] keeps of a text beyond its limits. *)
Definition tail_kept (r : TruncationResult) (lines : list (list byte)) (max_lines max_bytes : nat) : Prop :=
  tr_truncated r = true /\ tr_first_line_exceeds_limit r = false
  /\ (length (tr_content r) <= max_bytes)%nat /\ (tr_output_lines r <= max_lines)%nat
  /\ if tr_last_line_partial r then
       tr_output_lines r = 1%nat /\ (max_bytes < length (tr_content r) + 4)%nat /\ is_text (tr_content r)
       /\ exists front, last lines = Some (front ++ tr_content r)
            /\ (max_bytes < length (front ++ tr_content r))%nat
     else
       let kept n := join_lines (drop (length lines - n) lines) in
       (tr_output_lines r <= length lines)%nat /\ tr_content r = kept (tr_output_lines r)
       /\ ((tr_output_lines r < length lines)%nat -> (tr_output_lines r < max_lines)%nat ->
             (max_bytes < length (kept (S (tr_output_lines r))))%nat
             /\ (0 < tr_output_lines r)%nat)
       /\ tr_truncated_by r = Some (if ((tr_output_lines r <? length lines)
            && (tr_output_lines r <? max_lines))%nat then Bytes else Lines).

Lemma rev_take_rev {A} n (l : list A) : rev (take n (rev l)) = drop (length l - n) l.
Proof. by rewrite firstn_rev, rev_involutive. Qed.

Lemma truncate_tail_over content max_lines max_bytes :
  is_text content -> ~ within content max_lines max_bytes ->
  exists r, truncate_tail content max_lines max_bytes = Some r /\ reports r content max_lines max_bytes
    /\ tail_kept r (split_lines_for_counting content) max_lines max_bytes.
Proof.
  intros Htext Hover. unfold truncate_tail. rewrite over_guard by done.
  pose proof (counting_texts content Htext) as Hts. set (lines := split_lines_for_counting content) in *.
  assert (Forall is_text (rev lines)) as Hrev by by apply Forall_rev.
  destruct (tail_loop_spec max_lines max_bytes (rev lines) [] Hrev) as
    (by_ & [(k & E & Hk & Hm & Hsz & Hmax & Hby & Hz)|(_ & Hpos & line & rest & front & stop & Hl & Hlen & Hline & Ht & Hfit & E)]);
    [cbn; lia|cbn; lia| |]; change (size []) with 0%nat in E; rewrite E; cbn [mbind option_bind app].
  - rewrite length_rev in *. cbn [app length Nat.add] in *.
    rewrite (proj2 (Nat.leb_le (size (take k (rev lines))) max_bytes)), andb_true_r by done.
    eexists. split; [done|]. split; [done|].
    assert (length (take k (rev lines)) = k) as Hlen by (rewrite length_take, length_rev; lia).
    unfold tail_kept. cbn [tr_truncated tr_first_line_exceeds_limit tr_content tr_output_lines
      tr_last_line_partial tr_truncated_by]. rewrite Hlen.
    split_and!; [done|done|by change (size (rev (take k (rev lines))) <= max_bytes)%nat; rewrite size_rev|done|done| | |].
    + by rewrite rev_take_rev.
    + intros H1 H2. specialize (Hmax H1 H2). split.
      { rewrite <- rev_take_rev. change (max_bytes < size (rev (take (S k) (rev lines))))%nat. by rewrite size_rev. }
      destruct k; [|lia]. rewrite Hz in Hby by done. destruct Hby as [_ Hby]. discriminate Hby. lia.
    + f_equal. apply corrected_by; [lia|]. rewrite Hby. lia.
  - cbn [rev app length join_lines]. eexists. split; [done|]. split; [done|].
    unfold tail_kept. cbn [tr_truncated tr_first_line_exceeds_limit tr_content tr_output_lines
      tr_last_line_partial tr_truncated_by].
    split_and!; [done|done|lia|lia|done|lia|done|]. exists front. rewrite <- Hline. split; [|done].
    rewrite <- (rev_involutive lines), Hl. cbn. by rewrite last_snoc.
Qed.

(** The tail that is kept.  A text within both limits is returned as it is.  Of any other, the
    result holds whole lines up to the end: as many as fit both limits and no fewer.  Only when the
    last line alone exceeds the byte limit is it cut: its end is kept, whole characters, within a
    character's length of the limit.  No text makes it panic. *)
Theorem truncate_tail_exact (content : list byte) (max_lines max_bytes : nat) (Htext : is_text content) :
  exists r, truncate_tail content max_lines max_bytes = Some r /\ reports r content max_lines max_bytes
    /\ (within content max_lines max_bytes -> r = untouched content (tr_total_lines r) max_lines max_bytes)
    /\ (~ within content max_lines max_bytes ->
          tail_kept r (split_lines_for_counting content) max_lines max_bytes).
Proof.
  destruct ((length (split_lines_for_counting content) <=? max_lines)%nat
    && (length content <=? max_bytes)%nat) eqn:Hw.
  - exists (untouched content (length (split_lines_for_counting content)) max_lines max_bytes).
    unfold truncate_tail. rewrite Hw. split; [done|]. split; [done|]. split; [done|].
    apply within_guard in Hw. done.
  - destruct (truncate_tail_over content max_lines max_bytes Htext) as (r & E & Hr & Hk).
    { rewrite <- within_guard. by rewrite Hw. }
    exists r. split_and!; try done. rewrite <- within_guard. by rewrite Hw.
Qed.

(** ** The middle *)

Lemma chars_count_pos s : is_text s -> s <> [] -> (0 < chars_count s)%nat.
Proof.
  intros (cs & Hcs & ->) Hne. rewrite chars_count_encode by done. destruct cs; [done|]. cbn. lia.
Qed.

(** The middle that is cut out.  A text within the limit is returned as it is.  Any other is split
    into three texts of whole characters: the first and the last are kept, each within its half of the
    limit and less than a character short of it, and the marker between them names the number of
    characters removed.  No text makes it panic or loop. *)
Theorem truncate_middle_exact (content : list byte) (max_bytes : nat) (Htext : is_text content) :
  exists r, truncate_middle content max_bytes = Some r
    /\ mt_total_bytes r = length content
    /\ mt_total_lines r = length (split_lines_for_counting content)
    /\ mt_truncated r = (max_bytes <? length content)%nat
    /\ if mt_truncated r then
         exists front removed back, content = front ++ removed ++ back
           /\ is_text front /\ is_text removed /\ is_text back
           /\ mt_content r = front ++ truncation_marker (mt_removed_chars r) ++ back
           /\ mt_removed_chars r = chars_count removed
           /\ (length front <= max_bytes / 2 < length front + 4)%nat
           /\ (length back <= max_bytes - max_bytes / 2 < length back + 4)%nat
       else mt_content r = content /\ mt_removed_chars r = 0%nat.
Proof.
  unfold truncate_middle. rewrite (Nat.ltb_antisym (length content) max_bytes).
  destruct (Nat.leb_spec (length content) max_bytes) as [Hle|Hgt]; [eexists; by split_and!|].
  pose proof (Nat.Div0.div_le_upper_bound max_bytes 2 max_bytes ltac:(lia)) as Hhalf.
  set (h := (max_bytes / 2)%nat) in *.
  destruct (boundary_near content h Htext) as (lo & hi0 & B1 & B2 & B3 & _ & Blo & _); [lia|].
  destruct (boundary_down_spec content h lo) as [D1 D2]; [lia|done|].
  set (i := boundary_down content h) in *.
  destruct (boundary_near content (length content - (max_bytes - h)) Htext)
    as (lo1 & hi & C1 & C2 & _ & C4 & _ & Chi); [lia|].
  destruct (boundary_up_spec (max_bytes - h) content (length content - (max_bytes - h)) hi)
    as (j & -> & Hj & Hbj); [lia..|done|].
  cbn [mbind option_bind]. rewrite !slice_ok by (lia || done || apply boundary_length). cbn [mbind option_bind].
  destruct (text_cut content i Htext) as [Tf Tr]; [lia|done|].
  destruct (text_cut content j Htext) as [Tfj Tb]; [lia|done|].
  assert (is_text (take (j - i) (drop i content))) as Tm.
  { rewrite take_drop_commute. replace (i + (j - i))%nat with j by lia.
    apply (text_cut (take j content) i Tfj); [rewrite length_take; lia|].
    unfold is_char_boundary in *. destruct (Nat.eqb_spec i 0); [done|]. cbn [orb] in *.
    destruct (decide (i = j)) as [<-|].
    - rewrite lookup_ge_None_2 by (rewrite length_take; lia). rewrite length_take. apply Nat.eqb_eq. lia.
    - rewrite lookup_take_lt by lia. destruct (content !! i) eqn:Hi; [done|].
      apply lookup_ge_None_1 in Hi. lia. }
  eexists. split; [done|]. cbn [mt_total_bytes mt_total_lines mt_truncated mt_content mt_removed_chars negb].
  split_and!; [done..|]. fold h.
  exists (take i content), (take (j - i) (drop i content)), (drop j content).
  rewrite Nat.sub_0_r, drop_0, (take_ge (drop j content)) by (rewrite length_drop; lia).
  rewrite !length_take, length_drop.
  split_and!; try done; try lia.
  rewrite <- (take_drop i content) at 1. f_equal. rewrite <- (take_drop (j - i) (drop i content)) at 1.
  f_equal. rewrite drop_drop. f_equal. lia.
Qed.

(** ** Witnesses *)

Lemma sample_text : is_text (as_bytes "one" ++ [LF] ++ [xe2; x82; xac; xe2; x82; xac]).
Proof.
  exists [111; 110; 101; 10; 0x20AC; 0x20AC]. split; [by repeat constructor|by vm_compute].
Qed.

Lemma truncate_tail_exact_witness :
  exists r, truncate_tail (as_bytes "one" ++ [LF] ++ [xe2; x82; xac; xe2; x82; xac]) 5 4 = Some r
    /\ tr_content r = [xe2; x82; xac] /\ tr_last_line_partial r = true.
Proof.
  destruct (truncate_tail_exact _ 5 4 sample_text) as (r & E & _). exists r. split; [exact E|].
  revert E. vm_compute. intros [= <-]. split; reflexivity.
Defined.

Lemma truncate_middle_exact_witness :
  exists r, truncate_middle (as_bytes "one" ++ [LF] ++ [xe2; x82; xac; xe2; x82; xac]) 8 = Some r
    /\ mt_removed_chars r = 1%nat.
Proof.
  destruct (truncate_middle_exact _ 8 sample_text) as (r & E & _). exists r. split; [exact E|].
  revert E. vm_compute. intros [= <-]. reflexivity.
Defined.
