(* ===== verification/PiJson.v ===== *)
(** * Tool-call arguments cut off mid-stream: pi-ai/src/json.rs

    Text that is not yet, or not quite, JSON is repaired before serde_json parses it.  Every character
    the repairs look at is ASCII, so they are functions of the bytes; offsets are byte offsets.
    Theorem: [repair_strings] leaves well-formed strings as they are and makes every string
    well-formed; and the loop that cleans the end of a repaired text ends. *)
From Stdlib Require Import Strings.Byte.
From S2P Require Import Prelude Utf8 Json.

Definition QUOTE : byte := x22.
Definition BACKSLASH : byte := x5c.

(** [u8::is_ascii_hexdigit] *)
Definition is_ascii_hexdigit (b : byte) : bool :=
  let n := byte_val b in
  ((48 <=? n) && (n <=? 57)) || ((65 <=? n) && (n <=? 70)) || ((97 <=? n) && (n <=? 102)).

(** The characters that make an escape of their own after a backslash. *)
Definition is_simple_escape (b : byte) : bool :=
  match b with x22 | x5c | x2f | x62 | x66 | x6e | x72 | x74 => true | _ => false end.

Definition hex_digit (n : Z) : byte := if n <? 10 then byte_of_Z (48 + n) else byte_of_Z (87 + n).

(** [format!("\\u{:04x}", c)] for a control character. *)
Definition unicode_escape (b : byte) : list byte :=
  [BACKSLASH; x75; x30; x30; hex_digit (byte_val b / 16); hex_digit (byte_val b mod 16)].

(** What a character inside a string becomes when it is no quote and no backslash. *)
Definition repair_char (b : byte) : list byte :=
  match b with
  | x08 => [BACKSLASH; x62]
  | x0c => [BACKSLASH; x66]
  | x0a => [BACKSLASH; x6e]
  | x0d => [BACKSLASH; x72]
  | x09 => [BACKSLASH; x74]
  | b => if byte_val b <? 32 then unicode_escape b else [b]
  end.

(** [json.get(offset + 2..offset + 6)] is four hex digits. *)
Definition four_hex (s : list byte) : bool :=
  match s with
  | a :: b :: c :: d :: _ =>
      is_ascii_hexdigit a && is_ascii_hexdigit b && is_ascii_hexdigit c && is_ascii_hexdigit d
  | _ => false
  end.

(** The loop of [repair_strings], from the remaining characters and [in_string]. *)
Fixpoint repair_loop (fuel : nat) (in_string : bool) (json : list byte) : list byte :=
  match fuel, json with
  | O, _ | _, [] => []
  | S fuel, ch :: json =>
      if negb in_string then ch :: repair_loop fuel (bool_decide (ch = QUOTE)) json
      else if bool_decide (ch = QUOTE) then ch :: repair_loop fuel false json
      else if bool_decide (ch = BACKSLASH) then
        match json with
        | x75 :: digits =>
            if four_hex digits
            then BACKSLASH :: x75 :: take 4 digits ++ repair_loop fuel true (drop 4 digits)
            else BACKSLASH :: BACKSLASH :: repair_loop fuel true json
        | next :: rest =>
            if is_simple_escape next then BACKSLASH :: next :: repair_loop fuel true rest
            else BACKSLASH :: BACKSLASH :: repair_loop fuel true json
        | [] => BACKSLASH :: BACKSLASH :: repair_loop fuel true json
        end
      else repair_char ch ++ repair_loop fuel true json
  end.

Definition repair_strings (json : list byte) : list byte := repair_loop (length json) false json.

(** ** Closing what was cut off *)

Inductive Frame := FrameObject | FrameArray.

#[global] Instance Frame_eq_dec : EqDecision Frame.
Proof. solve_decision. Defined.

(** The locals of the scan of [repair]; the top of the stack is first. *)
Record Scan := MkScan {
  sc_stack : list Frame;
  sc_in_string : bool;
  sc_escaped : bool;
  sc_string_start : nat;
  sc_string_is_key : bool;
  sc_expecting_key : bool;
  sc_pending_key : option nat;
}.

Definition scan_init : Scan := MkScan [] false false 0 false false None.

Definition in_object (s : Scan) : bool := bool_decide (head (sc_stack s) = Some FrameObject).

Definition scan_char (s : Scan) (offset : nat) (ch : byte) : Scan :=
  if sc_in_string s then
    if sc_escaped s then
      MkScan (sc_stack s) true false (sc_string_start s) (sc_string_is_key s) (sc_expecting_key s) (sc_pending_key s)
    else if bool_decide (ch = BACKSLASH) then
      MkScan (sc_stack s) true true (sc_string_start s) (sc_string_is_key s) (sc_expecting_key s) (sc_pending_key s)
    else if bool_decide (ch = QUOTE) then
      MkScan (sc_stack s) false false (sc_string_start s) (sc_string_is_key s) (sc_expecting_key s)
        (if sc_string_is_key s then Some (sc_string_start s) else sc_pending_key s)
    else s
  else
    let with_stack stack expecting_key :=
      MkScan stack false (sc_escaped s) (sc_string_start s) (sc_string_is_key s) expecting_key (sc_pending_key s) in
    match ch with
    | x22 =>
        MkScan (sc_stack s) true (sc_escaped s) offset (in_object s && sc_expecting_key s)
          (sc_expecting_key s) (sc_pending_key s)
    | x7b => with_stack (FrameObject :: sc_stack s) true
    | x5b => with_stack (FrameArray :: sc_stack s) false
    | x7d | x5d => with_stack (tail (sc_stack s)) false
    | x2c => with_stack (sc_stack s) (in_object s)
    | x3a =>
        MkScan (sc_stack s) false (sc_escaped s) (sc_string_start s) (sc_string_is_key s) false None
    | _ => s
    end.

Fixpoint scan_loop (s : Scan) (offset : nat) (input : list byte) : Scan :=
  match input with
  | [] => s
  | ch :: input => scan_loop (scan_char s offset ch) (S offset) input
  end.

(** [body.rfind('\\')] *)
Definition rfind_backslash (body : list byte) : option nat :=
  (fun '(i, _) => pred (length body - i)) <$>
    list_find (fun b => b = BACKSLASH) (rev body).

Fixpoint count_leading (b : byte) (s : list byte) : nat :=
  match s with
  | c :: s => if bool_decide (c = b) then S (count_leading b s) else 0
  | [] => 0
  end.

Definition drop_partial_escape (out : list byte) (string_start : nat) : list byte :=
  let body := drop (S string_start) out in
  match rfind_backslash body with
  | None => out
  | Some slash =>
      let escape := drop slash body in
      let complete :=
        match escape !! 1%nat with
        | None => false
        | Some x75 => (6 <=? length escape)%nat
        | Some _ => true
        end in
      let preceding := count_leading BACKSLASH (rev (take slash body)) in
      if negb complete && Nat.even preceding then take (S string_start + slash) out else out
  end.

Definition is_literal_start (b : byte) : bool :=
  match b with x3a | x2c | x5b | x20 | x0a | x09 | x0d => true | _ => false end.

(** The first proper prefix of a literal that ends the text after a separator, and what completes it. *)
Fixpoint literal_completion (out : list byte) (candidates : list (list byte * list byte)) : list byte :=
  match candidates with
  | [] => out
  | (prefix, rest) :: candidates =>
      if ends_with out prefix
         && is_some_and is_literal_start (last (take (length out - length prefix) out))
      then out ++ rest
      else literal_completion out candidates
  end.

Definition literal_prefixes (literal : list byte) : list (list byte * list byte) :=
  (fun n => (take n literal, drop n literal)) <$> seq 1 (length literal - 1).

Definition LITERAL_PREFIXES : list (list byte * list byte) :=
  concat (literal_prefixes <$> [as_bytes "true"; as_bytes "false"; as_bytes "null"]).

Definition complete_literal (out : list byte) : list byte := literal_completion out LITERAL_PREFIXES.

Definition is_ascii_digit (b : byte) : bool := (48 <=? byte_val b) && (byte_val b <=? 57).

(** [strip_partial_number] on the reversed text. *)
Fixpoint strip_number_rev (out : list byte) : list byte :=
  match out with
  | c :: rest =>
      match c with
      | x2d | x2b | x2e => strip_number_rev rest
      | x65 | x45 => if is_some_and is_ascii_digit (head rest) then strip_number_rev rest else out
      | _ => out
      end
  | [] => []
  end.

Definition strip_partial_number (out : list byte) : list byte := rev (strip_number_rev (rev out)).

(** One round of the loop at the end of [repair]. *)
Definition clean_round (out : list byte) : list byte :=
  let out := trim_end out in
  if ends_with out [x2c] then removelast out
  else if ends_with out [x3a] then out ++ as_bytes "null"
  else strip_partial_number (complete_literal out).

(** The loop; [None]: it goes on. *)
Fixpoint clean_loop (fuel : nat) (out : list byte) : option (list byte) :=
  match fuel with
  | O => None
  | S fuel =>
      let before := length out in
      let out := clean_round out in
      if (length out =? before)%nat then Some out else clean_loop fuel out
  end.

Definition close_frame (frame : Frame) : byte :=
  match frame with FrameObject => x7d | FrameArray => x5d end.

(** [repair] up to the final loop: the text with its last string or key settled, and the open frames. *)
Definition settle (input : list byte) : list byte * list Frame :=
  let s := scan_loop scan_init 0 input in
  (if sc_in_string s then
     if sc_string_is_key s then take (sc_string_start s) input
     else drop_partial_escape input (sc_string_start s) ++ [QUOTE]
   else match sc_pending_key s with Some key_start => take key_start input | None => input end,
   sc_stack s).

Definition clean_fuel (out : list byte) : nat := 2 * length out + 4.

Definition repair (input : list byte) : option (list byte) :=
  let '(out, stack) := settle input in
  out ← clean_loop (clean_fuel out) out;
  Some (out ++ (close_frame <$> stack)).

(** ** Parsing *)

Section Parse.
Context {Number : Type} {J : JsonCrate Number}.
(** The text of serde_json's error for a text that does not parse. *)
Variable error_text : list byte -> string.

Definition parse_object (json : list byte) : option (list (string * Value Number)) :=
  json ← value_from_slice json; value_as_object json.

(** [None]: [repair] does not end. *)
Definition parse_streaming_json (raw : list byte) : option (list (string * Value Number)) :=
  let trimmed := trim raw in
  match trimmed with
  | [] => Some []
  | _ =>
      let strings_repaired := repair_strings trimmed in
      let changed := negb (bool_decide (strings_repaired = trimmed)) in
      match parse_object trimmed with
      | Some map => Some map
      | None =>
          match (if changed then parse_object strings_repaired else None) with
          | Some map => Some map
          | None =>
              repaired ← repair trimmed;
              match parse_object repaired with
              | Some map => Some map
              | None =>
                  if changed then
                    repaired ← repair strings_repaired;
                    Some (default [] (parse_object repaired))
                  else Some []
              end
          end
      end
  end.

Definition received (raw : list byte) : string :=
  String.append (String (Ascii.ascii_of_nat 10) (String (Ascii.ascii_of_nat 10) "Received arguments:"))
    (String (Ascii.ascii_of_nat 10) (String.string_of_list_byte raw)).

Definition parse_tool_call_arguments (raw : list byte) : result string (list (string * Value Number)) :=
  match trim raw with
  | [] => Ok []
  | _ =>
      let parsed :=
        match value_from_slice raw with
        | Some value => Ok value
        | None =>
            let repaired := repair_strings raw in
            if bool_decide (repaired = raw) then Err (error_text raw)
            else match value_from_slice repaired with
                 | Some value => Ok value
                 | None => Err (error_text repaired)
                 end
        end in
      match parsed with
      | Ok (Object map) => Ok map
      | Ok _ => Err (String.append "Tool arguments must be a JSON object" (received raw))
      | Err error => Err (String.append error (received raw))
      end
  end.
End Parse.

(** ** Well-formed strings *)

(** RFC 8259: what may follow a backslash, beside [u] and four hexadecimal digits. *)
Definition SIMPLE_ESCAPES : list byte := [QUOTE; BACKSLASH; x2f; x62; x66; x6e; x72; x74].
Definition HEX_DIGITS : list byte := as_bytes "0123456789abcdefABCDEF".

(** The strings of a JSON text are well-formed, from inside a string ([true]) or outside; the last may
    be cut off before its quote. *)
Inductive strings_ok : bool -> list byte -> Prop :=
| ok_end b : strings_ok b []
| ok_outside ch s : ch <> QUOTE -> strings_ok false s -> strings_ok false (ch :: s)
| ok_open s : strings_ok true s -> strings_ok false (QUOTE :: s)
| ok_close s : strings_ok false s -> strings_ok true (QUOTE :: s)
| ok_plain ch s :
    32 <= byte_val ch -> ch <> QUOTE -> ch <> BACKSLASH -> strings_ok true s -> strings_ok true (ch :: s)
| ok_escape ch s : ch ∈ SIMPLE_ESCAPES -> strings_ok true s -> strings_ok true (BACKSLASH :: ch :: s)
| ok_unicode a b c d s :
    Forall (fun digit => digit ∈ HEX_DIGITS) [a; b; c; d] -> strings_ok true s ->
    strings_ok true (BACKSLASH :: x75 :: a :: b :: c :: d :: s).

Lemma is_simple_escape_spec ch : is_simple_escape ch = bool_decide (ch ∈ SIMPLE_ESCAPES).
Proof. by destruct ch. Qed.

Lemma is_ascii_hexdigit_spec ch : is_ascii_hexdigit ch = bool_decide (ch ∈ HEX_DIGITS).
Proof. by destruct ch. Qed.

Lemma four_hex_spec a b c d s :
  four_hex (a :: b :: c :: d :: s) = true <-> Forall (fun digit => digit ∈ HEX_DIGITS) [a; b; c; d].
Proof.
  cbn. rewrite !is_ascii_hexdigit_spec, !andb_true_iff, !bool_decide_eq_true, !Forall_cons, Forall_nil. tauto.
Qed.

Lemma repair_char_ok ch s :
  ch <> QUOTE -> ch <> BACKSLASH -> strings_ok true s -> strings_ok true (repair_char ch ++ s).
Proof.
  intros Hquote Hslash Hs.
  destruct ch; try done; 
    first [by apply ok_plain | apply ok_escape; [by compute_done|done] |
      apply ok_unicode; [by apply (four_hex_spec _ _ _ _ [])|done]].
Qed.

Lemma repair_char_plain ch : 32 <= byte_val ch -> repair_char ch = [ch].
Proof. destruct ch; try done; intros H; exfalso; revert H; vm_compute; auto. Qed.

Lemma four_hex_split s :
  four_hex s = true -> exists a b c d t, s = a :: b :: c :: d :: t /\ Forall (fun digit => digit ∈ HEX_DIGITS) [a; b; c; d].
Proof.
  destruct s as [|a [|b [|c [|d t]]]]; try done. intros H. exists a, b, c, d, t. split; [done|].
  by apply four_hex_spec in H.
Qed.

Lemma double_backslash_ok s : strings_ok true s -> strings_ok true (BACKSLASH :: BACKSLASH :: s).
Proof. apply ok_escape. compute_done. Qed.

Lemma repair_loop_ok fuel :
  forall b s, (length s <= fuel)%nat -> strings_ok b (repair_loop fuel b s).
Proof.
  induction fuel as [|fuel IH]; intros b s Hlen; [constructor|].
  destruct s as [|ch s]; [constructor|]. simpl in Hlen. cbn [repair_loop].
  destruct b; cbn [negb].
  2:{ case_bool_decide as Hq; [subst ch; apply ok_open | apply ok_outside; [done|]]; apply IH; lia. }
  case_bool_decide as Hq; [subst ch; apply ok_close, IH; lia|].
  case_bool_decide as Hb; [subst ch|by apply repair_char_ok; [..|apply IH; lia]].
  destruct s as [|next rest]; [by apply double_backslash_ok, IH; simpl; lia|]. simpl in Hlen.
  assert (Hstay : strings_ok true (BACKSLASH :: BACKSLASH :: repair_loop fuel true (next :: rest))).
  { apply double_backslash_ok, IH. simpl. lia. }
  destruct (decide (next = x75)) as [->|Hu].
  - destruct (four_hex rest) eqn:Hhex; [|done].
    apply four_hex_split in Hhex as (a & b & c & d & t & -> & Hhex). simpl in Hlen.
    apply ok_unicode; [done|]. simpl. rewrite drop_0. apply IH. lia.
  - destruct next; try done; (apply ok_escape; [compute_done|]; apply IH; lia).
Qed.

Lemma repair_loop_keeps b s :
  strings_ok b s -> forall fuel, (length s <= fuel)%nat -> repair_loop fuel b s = s.
Proof.
  induction 1 as [b|ch s Hq _ IH|s _ IH|s _ IH|ch s Hplain Hq Hb _ IH|ch s Hesc _ IH|a b c d s Hhex _ IH];
    intros [|fuel] Hlen; simpl in Hlen; try lia; try done.
  - cbn [repair_loop negb]. rewrite bool_decide_eq_false_2 by done. rewrite IH by lia. done.
  - cbn [repair_loop negb]. rewrite bool_decide_eq_true_2 by done. rewrite IH by lia. done.
  - cbn [repair_loop negb]. rewrite bool_decide_eq_true_2 by done. rewrite IH by lia. done.
  - cbn [repair_loop negb]. rewrite !bool_decide_eq_false_2 by done.
    rewrite repair_char_plain by done. rewrite IH by lia. done.
  - cbn [repair_loop negb]. rewrite bool_decide_eq_false_2 by done. rewrite bool_decide_eq_true_2 by done.
    pose proof (is_simple_escape_spec ch) as Hsimple. rewrite bool_decide_eq_true_2 in Hsimple by done.
    destruct ch; try done; cbn [is_simple_escape]; rewrite IH by lia; done.
  - cbn [repair_loop negb]. rewrite bool_decide_eq_false_2 by done. rewrite bool_decide_eq_true_2 by done.
    apply (four_hex_spec _ _ _ _ s) in Hhex. rewrite Hhex. simpl.
    rewrite IH by lia. done.
Qed.

(** C39: [repair_strings] makes every string of a text well-formed JSON (no raw control characters, no
    backslash that starts no escape), and changes a text exactly when one was not; so repairing twice
    is repairing once. *)
Theorem repair_strings_exact (json : list byte) :
  strings_ok false (repair_strings json) /\
  (repair_strings json = json <-> strings_ok false json) /\
  repair_strings (repair_strings json) = repair_strings json.
Proof.
  assert (Hok : strings_ok false (repair_strings json)) by by apply repair_loop_ok.
  split_and!; [done| |by apply repair_loop_keeps].
  split; [intros H; by rewrite <- H | intros H; by apply repair_loop_keeps].
Qed.

(** ** The loop that cleans the end of a text *)

Definition LITERALS : list (list byte) := [as_bytes "true"; as_bytes "false"; as_bytes "null"].

Lemma ends_with_app t l pat :
  (length pat <= length l)%nat -> ends_with (t ++ l) pat = ends_with l pat.
Proof.
  intros Hlen. apply bool_decide_ext. split.
  - intros [k Hk]. exists (drop (length t) k). pose proof (f_equal length Hk) as Hsizes.
    rewrite !length_app in Hsizes.
    apply (f_equal (drop (length t))) in Hk. rewrite drop_app_length in Hk. rewrite Hk.
    apply drop_app_le. lia.
  - intros [k ->]. exists (t ++ k). by rewrite (assoc_L (++)).
Qed.

Lemma trim_end_keeps s : forallb (fun pat => negb (ends_with s pat)) WHITESPACE = true -> trim_end s = s.
Proof.
  intros Hends. unfold trim_end. rewrite forallb_forall in Hends.
  destruct (length s) as [|n]; cbn [trim_loop]; [apply rev_involutive|].
  destruct (find _ _) as [pat|] eqn:Hfind; [exfalso|apply rev_involutive].
  apply find_some in Hfind as [Hin Hpre%bool_decide_eq_true].
  apply in_map_iff in Hin as (pat' & <- & Hin). apply Hends, negb_true_iff, bool_decide_eq_false in Hin.
  destruct Hpre as [k Hk]. apply Hin. exists (rev k). apply (f_equal (@rev byte)) in Hk.
  by rewrite rev_involutive, rev_app_distr, rev_involutive in Hk.
Qed.

Lemma literal_completion_keeps out candidates :
  forallb (fun c => negb (ends_with out c.1)) candidates = true -> literal_completion out candidates = out.
Proof.
  induction candidates as [|[prefix rest] candidates IH]; simpl; [done|].
  intros [->%negb_true_iff Hrest]%andb_prop. by apply IH.
Qed.

Lemma literal_completion_shape out candidates :
  Forall (fun c => c.1 ++ c.2 ∈ LITERALS) candidates ->
  literal_completion out candidates = out \/
  exists t literal, literal ∈ LITERALS /\ literal_completion out candidates = t ++ literal.
Proof.
  induction 1 as [|[prefix rest] candidates Hlit _ IH]; [by left|]. cbn [literal_completion].
  destruct (_ && _) eqn:Hcut; [right|done].
  apply andb_prop in Hcut as [[t ->]%bool_decide_eq_true _].
  exists t, (prefix ++ rest). by rewrite <- (assoc_L (++)).
Qed.

(** A text that ends with a literal is what a round leaves of it. *)
Lemma clean_round_literal t literal : literal ∈ LITERALS -> clean_round (t ++ literal) = t ++ literal.
Proof.
  intros Hin.
  assert (Hends : forall pats, forallb (fun pat => (length pat <=? length literal)%nat) pats = true ->
    forallb (fun pat => negb (ends_with (t ++ literal) pat)) pats
    = forallb (fun pat => negb (ends_with literal pat)) pats).
  { intros pats. induction pats as [|pat pats IH]; simpl; [done|].
    intros [Hle%Nat.leb_le Hrest]%andb_prop. by rewrite ends_with_app, IH by done. }
  assert (Hlit : complete_literal (t ++ literal) = t ++ literal).
  { apply literal_completion_keeps.
    pose proof (Hends LITERAL_PREFIXES.*1) as Hpre.
    repeat (apply elem_of_cons in Hin as [->|Hin]; [exact (Hpre eq_refl)|]). by apply not_elem_of_nil in Hin. }
  assert (Hnum : strip_partial_number (t ++ literal) = t ++ literal).
  { unfold strip_partial_number. rewrite rev_app_distr.
    repeat (apply elem_of_cons in Hin as [->|Hin];
            [simpl; rewrite rev_involutive, <- !(assoc_L (++)); reflexivity|]).
    by apply not_elem_of_nil in Hin. }
  unfold clean_round. rewrite (trim_end_keeps (t ++ literal)), Hlit, Hnum.
  - rewrite !ends_with_app;
      repeat (apply elem_of_cons in Hin as [->|Hin]; [first [reflexivity | simpl; lia]|]);
      by apply not_elem_of_nil in Hin.
  - rewrite Hends; repeat (apply elem_of_cons in Hin as [->|Hin]; [reflexivity|]);
      by apply not_elem_of_nil in Hin.
Qed.

Lemma length_trim_end s : (length (trim_end s) <= length s)%nat.
Proof.
  assert (Hloop : forall fuel ws u, (length (trim_loop fuel ws u) <= length u)%nat).
  { induction fuel as [|fuel IH]; intros ws u; [done|]. cbn [trim_loop].
    destruct (find _ _); [|done]. etrans; [apply IH|]. rewrite length_drop. lia. }
  unfold trim_end. rewrite length_rev. etrans; [apply Hloop|]. by rewrite length_rev.
Qed.

Lemma length_strip_number_rev s : (length (strip_number_rev s) <= length s)%nat.
Proof.
  induction s as [|c s IH]; [done|]. cbn [strip_number_rev length].
  destruct c; try (simpl; lia); destruct (is_some_and _ _); simpl; lia.
Qed.

Lemma clean_round_shrinks out :
  (length (clean_round out) <= length out)%nat \/ clean_round (clean_round out) = clean_round out.
Proof.
  unfold clean_round at 1 3 4. pose proof (length_trim_end out) as Htrim.
  destruct (ends_with (trim_end out) [x2c]) eqn:Hcomma.
  { left. rewrite removelast_firstn_len, length_firstn. lia. }
  destruct (ends_with (trim_end out) [x3a]) eqn:Hcolon.
  { right. apply clean_round_literal. by repeat constructor. }
  destruct (literal_completion_shape (trim_end out) LITERAL_PREFIXES) as [Hkeep|(t & literal & Hin & Hto)].
  { by repeat constructor. }
  - left. unfold complete_literal. rewrite Hkeep. unfold strip_partial_number. rewrite length_rev.
    etrans; [apply length_strip_number_rev|]. by rewrite length_rev.
  - right. unfold complete_literal. rewrite Hto.
    pose proof (clean_round_literal t literal Hin) as Hround.
    assert (Hnum : strip_partial_number (t ++ literal) = t ++ literal); [|by rewrite Hnum].
    unfold strip_partial_number. rewrite rev_app_distr.
    repeat (apply elem_of_cons in Hin as [->|Hin];
            [simpl; rewrite rev_involutive, <- !(assoc_L (++)); reflexivity|]).
    by apply not_elem_of_nil in Hin.
Qed.

Lemma clean_loop_ends fuel out : (length out + 2 < fuel)%nat -> exists text, clean_loop fuel out = Some text.
Proof.
  revert out. induction fuel as [|fuel IH]; intros out Hfuel; [lia|]. cbn [clean_loop].
  destruct (Nat.eqb_spec (length (clean_round out)) (length out)) as [|Hne]; [by eexists|].
  destruct (clean_round_shrinks out) as [Hle|Hstop]; [apply IH; lia|].
  destruct fuel as [|fuel]; [lia|]. cbn [clean_loop]. rewrite Hstop, Nat.eqb_refl. by eexists.
Qed.

(** Reading the arguments of a tool call while they stream always answers, whatever has arrived:
    the loop that cleans the end of a cut-off text ends on every text. *)
Theorem parse_streaming_json_total {Number} {J : JsonCrate Number} (raw : list byte) :
  (exists text, repair raw = Some text) /\
  exists arguments, parse_streaming_json raw = Some arguments.
Proof.
  assert (Hrepair : forall input, exists text, repair input = Some text).
  { intros input. unfold repair. destruct (settle input) as [out stack]. unfold clean_fuel.
    destruct (clean_loop_ends (2 * length out + 4) out ltac:(lia)) as [text ->]. by eexists. }
  split; [done|]. unfold parse_streaming_json.
  destruct (Hrepair (trim raw)) as [text ->], (Hrepair (repair_strings (trim raw))) as [text' ->].
  destruct (trim raw); [by eexists|]. simpl.
  repeat (case_match; try by eexists).
Qed.
