(* ===== verification/AssistantStream.v ===== *)
(** * A streamed assistant response: pi-ai/src/stream.rs

    [AssistantMessageBuilder] builds a response from what a provider reports and sends its events;
    [apply_event] follows a response from the events.  A builder carries what it has sent; a dropped
    receiver changes nothing for it.  [AssistantMessageStream] is the receiving side: [poll_event] is
    one ready poll, on what the channel yields.

    Theorems: what [apply_event] makes of the events sent so far is the response the builder holds; a
    response's events are in protocol order and end once; and the message it ends with has, for every
    tool call, all the fragments sent for it, parsed strictly when the response finished. *)
From S2P Require Import Prelude Utf8 Json PiTypes PiJson.

Section Events.
Context {Number : Type}.

Inductive AssistantMessageEvent :=
| EventStart (message : AssistantMessage Number)
| TextStart (index : nat)
| TextDelta (index : nat) (delta : string)
| TextEnd (index : nat)
| ThinkingStart (index : nat)
| ThinkingDelta (index : nat) (delta : string)
| ThinkingEnd (index : nat)
| ToolCallStart (index : nat) (id name : string)
| ToolCallDelta (index : nat) (delta : string)
| ToolCallEnd (index : nat) (tool_call : ToolCall Number)
| EventDone (message : AssistantMessage Number)
| EventError (message : AssistantMessage Number).

Definition is_terminal (self : AssistantMessageEvent) : bool :=
  match self with EventDone _ | EventError _ => true | _ => false end.

Definition with_content (m : AssistantMessage Number) (content : list (AssistantContent Number))
    : AssistantMessage Number :=
  MkAssistantMessage content (as_api m) (as_provider m) (as_model m) (as_response_id m)
    (as_thinking_level m) (as_usage m) (as_stop_reason m) (as_error_message m) (as_timestamp m).

(** [content.push(block)] *)
Definition push_content (m : AssistantMessage Number) (block : AssistantContent Number) : AssistantMessage Number :=
  with_content m (as_content m ++ [block]).

(** What a mutable borrow of [content.get_mut(index)] does; nothing out of range. *)
Definition alter_content (f : AssistantContent Number -> AssistantContent Number) (index : nat)
    (m : AssistantMessage Number) : AssistantMessage Number :=
  with_content m (alter f index (as_content m)).

Definition push_text (delta : string) (block : AssistantContent Number) : AssistantContent Number :=
  match block with
  | AssistantText text => AssistantText (MkTextContent (String.append (tx_text text) delta) (tx_text_signature text))
  | block => block
  end.

Definition push_thinking (delta : string) (block : AssistantContent Number) : AssistantContent Number :=
  match block with
  | AssistantThinking t =>
      AssistantThinking
        (MkThinkingContent (String.append (tk_thinking t) delta) (tk_thinking_signature t) (tk_redacted t))
  | block => block
  end.
End Events.
Arguments AssistantMessageEvent : clear implicits.

Section Stream.
Context {Number : Type} {J : JsonCrate Number}.
(** The text of serde_json's parse errors. *)
Variable error_text : list byte -> string.

(** [parse_streaming_json] on a [&str]; it always answers. *)
Definition streaming_arguments (raw : string) : list (string * Value Number) :=
  default [] (parse_streaming_json (as_bytes raw)).

Definition push_arguments (delta : string) (block : AssistantContent Number) : AssistantContent Number :=
  match block with
  | AssistantToolCall call =>
      match tc_partial_json call with
      | Some json =>
          let json := String.append json delta in
          AssistantToolCall (MkToolCall (tc_id call) (tc_name call) (streaming_arguments json)
                               (tc_arguments_error call) (Some json))
      | None => block
      end
  | block => block
  end.

Definition apply_event (partial : AssistantMessage Number) (event : AssistantMessageEvent Number)
    : AssistantMessage Number :=
  match event with
  | EventStart message | EventDone message | EventError message => message
  | TextStart _ => push_content partial (assistant_new_text "")
  | ThinkingStart _ => push_content partial (assistant_new_thinking "")
  | ToolCallStart _ id name =>
      push_content partial (AssistantToolCall (MkToolCall id name [] None (Some "")))
  | ToolCallDelta index delta => alter_content (push_arguments delta) index partial
  | TextDelta index delta => alter_content (push_text delta) index partial
  | ThinkingDelta index delta => alter_content (push_thinking delta) index partial
  | ToolCallEnd index tool_call => alter_content (fun _ => AssistantToolCall tool_call) index partial
  | TextEnd _ | ThinkingEnd _ => partial
  end.

(** ** The receiving side *)

Record AssistantMessageStream := MkStream {
  st_started : option (AssistantMessage Number);
  st_finished : bool;
}.

Definition stream_new : AssistantMessageStream := MkStream None false.

(** A poll when the channel yields [received]; [None]: the sender is gone and the channel is empty. *)
Definition poll_event (self : AssistantMessageStream) (received : option (AssistantMessageEvent Number))
    : option (AssistantMessageEvent Number) * AssistantMessageStream :=
  if st_finished self then (None, self)
  else
    (received,
     match received with
     | Some (EventStart message) => MkStream (Some message) false
     | Some event => MkStream (st_started self) (is_terminal event)
     | None => MkStream (st_started self) true
     end).

Definition unterminated (self : AssistantMessageStream) (now : Z) : AssistantMessage Number :=
  let message :=
    default (MkAssistantMessage [] "" "" "" None None usage_default Error None now) (st_started self) in
  MkAssistantMessage (as_content message) (as_api message) (as_provider message) (as_model message)
    (as_response_id message) (as_thinking_level message) (as_usage message) Error
    (Some "Provider stream ended without a final message") (as_timestamp message).

(** [AssistantMessageStream::result], on what the channel yields before it closes. *)
Fixpoint stream_result (self : AssistantMessageStream) (channel : list (AssistantMessageEvent Number)) (now : Z)
    : AssistantMessage Number :=
  match channel with
  | [] => unterminated (poll_event self None).2 now
  | received :: channel =>
      let '(event, self) := poll_event self (Some received) in
      match event with
      | Some (EventDone message) | Some (EventError message) => message
      | Some _ => stream_result self channel now
      | None => unterminated self now
      end
  end.

(** ** The builder *)

Inductive OpenBlock := OpenText (index : nat) | OpenThinking (index : nat) | OpenToolCall (index : nat).

Record AssistantMessageBuilder := MkBuilder {
  bu_sent : list (AssistantMessageEvent Number);
  bu_partial : AssistantMessage Number;
  bu_open : option OpenBlock;
  bu_arguments : list (nat * string);
  bu_started : bool;
}.

Definition builder_new (model : Model Number) (now : Z) : AssistantMessageBuilder :=
  MkBuilder [] (assistant_empty model now) None [] false.

Definition with_partial (b : AssistantMessageBuilder) (partial : AssistantMessage Number) : AssistantMessageBuilder :=
  MkBuilder (bu_sent b) partial (bu_open b) (bu_arguments b) (bu_started b).

Definition with_open (b : AssistantMessageBuilder) (open : option OpenBlock) : AssistantMessageBuilder :=
  MkBuilder (bu_sent b) (bu_partial b) open (bu_arguments b) (bu_started b).

Definition send (b : AssistantMessageBuilder) (event : AssistantMessageEvent Number) : AssistantMessageBuilder :=
  MkBuilder (bu_sent b ++ [event]) (bu_partial b) (bu_open b) (bu_arguments b) (bu_started b).

Definition set_response_id (b : AssistantMessageBuilder) (id : string) : AssistantMessageBuilder :=
  let m := bu_partial b in
  with_partial b (MkAssistantMessage (as_content m) (as_api m) (as_provider m) (as_model m) (Some id)
                    (as_thinking_level m) (as_usage m) (as_stop_reason m) (as_error_message m) (as_timestamp m)).

Definition set_usage (b : AssistantMessageBuilder) (usage : Usage) : AssistantMessageBuilder :=
  let m := bu_partial b in
  with_partial b (MkAssistantMessage (as_content m) (as_api m) (as_provider m) (as_model m) (as_response_id m)
                    (as_thinking_level m) usage (as_stop_reason m) (as_error_message m) (as_timestamp m)).

Definition start (b : AssistantMessageBuilder) : AssistantMessageBuilder :=
  if bu_started b then b
  else send (MkBuilder (bu_sent b) (bu_partial b) (bu_open b) (bu_arguments b) true) (EventStart (bu_partial b)).

(** The fragments of the first entry at [index]. *)
Fixpoint raw_of (arguments : list (nat * string)) (index : nat) : option string :=
  match arguments with
  | [] => None
  | (at_, raw) :: arguments => if decide (at_ = index) then Some raw else raw_of arguments index
  end.

Fixpoint push_raw (arguments : list (nat * string)) (index : nat) (delta : string) : list (nat * string) :=
  match arguments with
  | [] => []
  | (at_, raw) :: arguments =>
      if decide (at_ = index) then (at_, String.append raw delta) :: arguments
      else (at_, raw) :: push_raw arguments index delta
  end.

(** What [finish_tool_call] makes of a call from its raw arguments. *)
Definition settle_call (raw : string) (complete : bool) (call : ToolCall Number) : ToolCall Number :=
  let '(arguments, arguments_error) :=
    if complete then
      match parse_tool_call_arguments error_text (as_bytes raw) with
      | Ok arguments => (arguments, None)
      | Err error => ([], Some error)
      end
    else (streaming_arguments raw, None) in
  MkToolCall (tc_id call) (tc_name call) arguments arguments_error (tc_partial_json call).

Definition finish_tool_call (b : AssistantMessageBuilder) (index : nat) (complete : bool)
    : AssistantMessageBuilder * option (ToolCall Number) :=
  match raw_of (bu_arguments b) index, as_content (bu_partial b) !! index with
  | Some raw, Some (AssistantToolCall call) =>
      let call := settle_call raw complete call in
      (with_partial b (alter_content (fun _ => AssistantToolCall call) index (bu_partial b)), Some call)
  | _, _ => (b, None)
  end.

Definition close_block (b : AssistantMessageBuilder) (complete : bool) : AssistantMessageBuilder :=
  let open := bu_open b in
  let b := with_open b None in
  match open with
  | Some (OpenText index) => send b (TextEnd index)
  | Some (OpenThinking index) => send b (ThinkingEnd index)
  | Some (OpenToolCall index) =>
      let '(b, tool_call) := finish_tool_call b index complete in
      match tool_call with
      | Some tool_call => send b (ToolCallEnd index tool_call)
      | None => b
      end
  | None => b
  end.

(** A new block: the last one closed, the response started, the block pushed and opened. *)
Definition open_block (b : AssistantMessageBuilder) (open : nat -> OpenBlock) (block : AssistantContent Number)
    (event : nat -> AssistantMessageEvent Number) : AssistantMessageBuilder * nat :=
  let b := start (close_block b false) in
  let index := length (as_content (bu_partial b)) in
  (send (with_open (with_partial b (push_content (bu_partial b) block)) (Some (open index))) (event index), index).

Definition text_delta (b : AssistantMessageBuilder) (delta : string) : AssistantMessageBuilder :=
  if String.eqb delta "" then b
  else
    let '(b, index) :=
      match bu_open b with
      | Some (OpenText index) => (b, index)
      | _ => open_block b OpenText (assistant_new_text "") TextStart
      end in
    send (with_partial b (alter_content (push_text delta) index (bu_partial b))) (TextDelta index delta).

Definition thinking_delta (b : AssistantMessageBuilder) (delta : string) : AssistantMessageBuilder :=
  if String.eqb delta "" then b
  else
    let '(b, index) :=
      match bu_open b with
      | Some (OpenThinking index) => (b, index)
      | _ => open_block b OpenThinking (assistant_new_thinking "") ThinkingStart
      end in
    send (with_partial b (alter_content (push_thinking delta) index (bu_partial b))) (ThinkingDelta index delta).

Definition tool_call_start (b : AssistantMessageBuilder) (id name : string) : AssistantMessageBuilder * nat :=
  let '(b, index) :=
    open_block b OpenToolCall (AssistantToolCall (MkToolCall id name [] None None))
      (fun index => ToolCallStart index id name) in
  (MkBuilder (bu_sent b) (bu_partial b) (bu_open b) (bu_arguments b ++ [(index, "")]) (bu_started b), index).

Definition set_identity (id name : option string) (block : AssistantContent Number) : AssistantContent Number :=
  match block with
  | AssistantToolCall call =>
      AssistantToolCall (MkToolCall (default (tc_id call) id) (default (tc_name call) name)
                           (tc_arguments call) (tc_arguments_error call) (tc_partial_json call))
  | block => block
  end.

Definition set_tool_call_identity (b : AssistantMessageBuilder) (index : nat) (id name : option string)
    : AssistantMessageBuilder :=
  with_partial b (alter_content (set_identity id name) index (bu_partial b)).

Definition tool_call_delta (b : AssistantMessageBuilder) (index : nat) (delta : string) : AssistantMessageBuilder :=
  if String.eqb delta "" then b
  else
    match raw_of (bu_arguments b) index with
    | Some _ =>
        send (MkBuilder (bu_sent b) (bu_partial b) (bu_open b) (push_raw (bu_arguments b) index delta)
                (bu_started b)) (ToolCallDelta index delta)
    | None => b
    end.

Definition settle_tool_calls (b : AssistantMessageBuilder) (complete : bool) : AssistantMessageBuilder :=
  fold_left (fun b index => (finish_tool_call b index complete).1) (bu_arguments b).*1 b.

(** On the blocks from the last. *)
Fixpoint sign_first_thinking (signature : string) (blocks : list (AssistantContent Number))
    : list (AssistantContent Number) :=
  match blocks with
  | [] => []
  | AssistantThinking t :: blocks =>
      AssistantThinking (MkThinkingContent (tk_thinking t) (Some signature) (tk_redacted t)) :: blocks
  | block :: blocks => block :: sign_first_thinking signature blocks
  end.

Definition set_thinking_signature (b : AssistantMessageBuilder) (signature : string) : AssistantMessageBuilder :=
  with_partial b (with_content (bu_partial b)
                    (rev (sign_first_thinking signature (rev (as_content (bu_partial b)))))).

Definition finish (b : AssistantMessageBuilder) (stop_reason : StopReason) (usage : Usage)
    : AssistantMessageBuilder * AssistantMessage Number :=
  let b := settle_tool_calls (start (close_block b true)) true in
  let m := bu_partial b in
  let message := MkAssistantMessage (as_content m) (as_api m) (as_provider m) (as_model m) (as_response_id m)
                   (as_thinking_level m) usage stop_reason (as_error_message m) (as_timestamp m) in
  (send (with_partial b message) (EventDone message), message).

Definition fail_with (b : AssistantMessageBuilder) (stop_reason : StopReason) (error : string)
    : AssistantMessageBuilder * AssistantMessage Number :=
  let b := settle_tool_calls (close_block b false) false in
  let m := bu_partial b in
  let message := MkAssistantMessage (as_content m) (as_api m) (as_provider m) (as_model m) (as_response_id m)
                   (as_thinking_level m) (as_usage m) stop_reason (Some error) (as_timestamp m) in
  (send (with_partial b message) (EventError message), message).

(** ** What a provider does with a builder *)

Inductive BuilderCall :=
| SetResponseId (id : string)
| SetUsage (usage : Usage)
| CallStart
| CallText (delta : string)
| CallThinking (delta : string)
| CallTool (id name : string)
| CallIdentity (index : nat) (id name : option string)
| CallArguments (index : nat) (delta : string)
| CallSignature (signature : string).

Definition builder_call (b : AssistantMessageBuilder) (call : BuilderCall) : AssistantMessageBuilder :=
  match call with
  | SetResponseId id => set_response_id b id
  | SetUsage usage => set_usage b usage
  | CallStart => start b
  | CallText delta => text_delta b delta
  | CallThinking delta => thinking_delta b delta
  | CallTool id name => (tool_call_start b id name).1
  | CallIdentity index id name => set_tool_call_identity b index id name
  | CallArguments index delta => tool_call_delta b index delta
  | CallSignature signature => set_thinking_signature b signature
  end.

(** How a response ends. *)
Inductive Ending := Finishes (stop_reason : StopReason) (usage : Usage) | Fails (stop_reason : StopReason) (error : string).

Definition end_response (b : AssistantMessageBuilder) (ending : Ending)
    : AssistantMessageBuilder * AssistantMessage Number :=
  match ending with
  | Finishes stop_reason usage => finish b stop_reason usage
  | Fails stop_reason error => fail_with b stop_reason error
  end.

(** ** The protocol *)

Inductive BlockKind := KindText | KindThinking | KindToolCall.

Definition block_kind (block : AssistantContent Number) : BlockKind :=
  match block with
  | AssistantText _ => KindText
  | AssistantThinking _ => KindThinking
  | AssistantToolCall _ => KindToolCall
  end.

Definition open_index (open : OpenBlock) : nat :=
  match open with OpenText index | OpenThinking index | OpenToolCall index => index end.

Definition open_kind (open : OpenBlock) : BlockKind :=
  match open with OpenText _ => KindText | OpenThinking _ => KindThinking | OpenToolCall _ => KindToolCall end.

#[global] Instance OpenBlock_eq_dec : EqDecision OpenBlock.
Proof. solve_decision. Defined.
#[global] Instance BlockKind_eq_dec : EqDecision BlockKind.
Proof. solve_decision. Defined.

(** What a reader of the events may rely on: the blocks so far, the open one, and the ends. *)
Record Protocol := MkProtocol {
  pr_started : bool;
  pr_open : option OpenBlock;
  pr_kinds : list BlockKind;
  pr_ended : bool;
}.

Definition protocol_init : Protocol := MkProtocol false None [] false.

Definition opens (p : Protocol) (open : OpenBlock) : option Protocol :=
  if pr_started p && bool_decide (pr_open p = None) && (open_index open =? length (pr_kinds p))%nat
  then Some (MkProtocol true (Some open) (pr_kinds p ++ [open_kind open]) false) else None.

Definition continues (p : Protocol) (open : OpenBlock) : option Protocol :=
  if bool_decide (pr_open p = Some open) then Some p else None.

Definition closes (p : Protocol) (open : OpenBlock) : option Protocol :=
  if bool_decide (pr_open p = Some open) then Some (MkProtocol (pr_started p) None (pr_kinds p) false) else None.

Definition may_end (p : Protocol) (needs_start : bool) : option Protocol :=
  if implb needs_start (pr_started p) && bool_decide (pr_open p = None)
  then Some (MkProtocol (pr_started p) None (pr_kinds p) true) else None.

(** [Start] once and before any block; one block open at a time, at the next index; its own deltas and
    end while it is open; fragments of any call that has started; nothing after the end, [Done] only
    after [Start]. *)
Definition next_event (p : Protocol) (event : AssistantMessageEvent Number) : option Protocol :=
  if pr_ended p then None
  else
    match event with
    | EventStart _ => if pr_started p then None else Some (MkProtocol true (pr_open p) (pr_kinds p) false)
    | TextStart index => opens p (OpenText index)
    | TextDelta index _ => continues p (OpenText index)
    | TextEnd index => closes p (OpenText index)
    | ThinkingStart index => opens p (OpenThinking index)
    | ThinkingDelta index _ => continues p (OpenThinking index)
    | ThinkingEnd index => closes p (OpenThinking index)
    | ToolCallStart index _ _ => opens p (OpenToolCall index)
    | ToolCallDelta index _ => if bool_decide (pr_kinds p !! index = Some KindToolCall) then Some p else None
    | ToolCallEnd index _ => closes p (OpenToolCall index)
    | EventDone _ => may_end p true
    | EventError _ => may_end p false
    end.

Definition protocol (events : list (AssistantMessageEvent Number)) : option Protocol :=
  fold_left (fun p event => p ≫= fun p => next_event p event) events (Some protocol_init).

(** The argument text sent for the call at [index]. *)
Definition fragments (index : nat) (events : list (AssistantMessageEvent Number)) : string :=
  fold_left (fun raw event =>
    match event with
    | ToolCallDelta at_ delta => if decide (at_ = index) then String.append raw delta else raw
    | _ => raw
    end) events "".

(** What a reader sees of the block at [index]: the text and the reasoning so far; of the open call the
    fragments and what they parse to; of a closed call the arguments it closed with. *)
Definition shows (open : option OpenBlock) (raw : string) (index : nat)
    (block seen : option (AssistantContent Number)) : Prop :=
  match block, seen with
  | None, None => True
  | Some (AssistantText text), Some (AssistantText text') => tx_text text' = tx_text text
  | Some (AssistantThinking t), Some (AssistantThinking t') => tk_thinking t' = tk_thinking t
  | Some (AssistantToolCall call), Some (AssistantToolCall call') =>
      tc_partial_json call = None /\
      if decide (open = Some (OpenToolCall index)) then
        tc_partial_json call' = Some raw /\ tc_arguments call' = streaming_arguments raw /\
        tc_arguments_error call' = None
      else
        tc_partial_json call' = None /\ tc_arguments call' = tc_arguments call /\
        tc_arguments_error call' = tc_arguments_error call
  | _, _ => False
  end.
End Stream.

(** ** The builder and a reader of its events *)

#[local] Arguments opens : simpl never.
#[local] Arguments continues : simpl never.
#[local] Arguments closes : simpl never.

Section Simulation.
Context {Number : Type} {J : JsonCrate Number}.
Variable error_text : list byte -> string.
Variable model : Model Number.
Variable now : Z.

Notation Builder := (AssistantMessageBuilder (Number := Number)).

(** What a reader has after [events]. *)
Definition seen_after (events : list (AssistantMessageEvent Number)) : AssistantMessage Number :=
  fold_left apply_event events (assistant_empty model now).

Definition kinds (b : Builder) : list BlockKind := block_kind <$> as_content (bu_partial b).

Definition protocol_of (b : Builder) : Protocol := MkProtocol (bu_started b) (bu_open b) (kinds b) false.

Record builder_inv (b : Builder) : Prop := {
  inv_protocol : protocol (bu_sent b) = Some (protocol_of b);
  inv_shows i :
    shows (bu_open b) (fragments i (bu_sent b)) i (as_content (bu_partial b) !! i)
      (as_content (seen_after (bu_sent b)) !! i);
  inv_calls i : is_Some (raw_of (bu_arguments b) i) <-> kinds b !! i = Some KindToolCall;
  inv_raw i : fragments i (bu_sent b) = default "" (raw_of (bu_arguments b) i);
  inv_open open : bu_open b = Some open -> kinds b !! open_index open = Some (open_kind open);
  inv_unstarted : bu_started b = false -> kinds b = [];
}.

Lemma protocol_snoc (events : list (AssistantMessageEvent Number)) event :
  protocol (events ++ [event]) = protocol events ≫= fun p => next_event p event.
Proof. unfold protocol. by rewrite fold_left_app. Qed.

(** The protocol's state after one more event. *)
Ltac protocol_step Hprotocol :=
  rewrite protocol_snoc, Hprotocol; cbn [mbind option_bind]; unfold next_event; cbn [pr_ended pr_started pr_open pr_kinds].

Lemma opens_ok p open :
  pr_started p = true -> pr_open p = None -> open_index open = length (pr_kinds p) ->
  opens p open = Some (MkProtocol true (Some open) (pr_kinds p ++ [open_kind open]) false).
Proof. intros Hs Ho Hi. unfold opens. by rewrite Hs, Ho, Hi, Nat.eqb_refl. Qed.

Lemma continues_ok p open : pr_open p = Some open -> continues p open = Some p.
Proof. intros Ho. unfold continues. by rewrite bool_decide_eq_true_2. Qed.

Lemma closes_ok p open :
  pr_open p = Some open -> closes p open = Some (MkProtocol (pr_started p) None (pr_kinds p) false).
Proof. intros Ho. unfold closes. by rewrite bool_decide_eq_true_2. Qed.

Lemma seen_snoc events event : seen_after (events ++ [event]) = apply_event (seen_after events) event.
Proof. unfold seen_after. by rewrite fold_left_app. Qed.

Lemma fragments_snoc i (events : list (AssistantMessageEvent Number)) event :
  fragments i (events ++ [event]) =
  match event with
  | ToolCallDelta at_ delta =>
      if decide (at_ = i) then String.append (fragments i events) delta else fragments i events
  | _ => fragments i events
  end.
Proof. unfold fragments. by rewrite fold_left_app. Qed.

Lemma new_inv : builder_inv (builder_new model now).
Proof.
  split; try done. intros i. split; [by intros []|done].
Qed.

(** What a change leaves as the reader sees it. *)
Definition visible (block : AssistantContent Number) : AssistantContent Number :=
  match block with
  | AssistantThinking t => AssistantThinking (MkThinkingContent (tk_thinking t) None false)
  | AssistantToolCall call =>
      AssistantToolCall (MkToolCall "" "" (tc_arguments call) (tc_arguments_error call) (tc_partial_json call))
  | block => block
  end.

Lemma visible_kind block : block_kind (visible block) = block_kind block.
Proof. by destruct block. Qed.

Lemma shows_visible open raw i block seen :
  shows open raw i (visible <$> block) seen <-> shows open raw i block seen.
Proof. by destruct block as [[]|], seen as [[]|]. Qed.

Lemma invisible_inv b partial :
  visible <$> as_content partial = visible <$> as_content (bu_partial b) ->
  builder_inv b -> builder_inv (with_partial b partial).
Proof.
  intros Hvis [Hprotocol Hshows Hcalls Hraw Hopen Hunstarted].
  assert (Hkinds : kinds (with_partial b partial) = kinds b).
  { unfold kinds. cbn [with_partial bu_partial].
    apply (f_equal (fmap (M := list) block_kind)) in Hvis. rewrite <- !list_fmap_compose in Hvis.
    by rewrite !(list_fmap_ext (block_kind ∘ visible) block_kind) in Hvis by (intros; apply visible_kind). }
  split; unfold protocol_of in *; cbn [with_partial bu_sent bu_started bu_open bu_arguments bu_partial];
    rewrite ?Hkinds; try done.
  intros i. apply shows_visible. rewrite <- list_lookup_fmap, Hvis, list_lookup_fmap.
  by apply shows_visible.
Qed.

Lemma start_inv b : builder_inv b -> builder_inv (start b).
Proof.
  intros [Hprotocol Hshows Hcalls Hraw Hopen Hunstarted]. unfold start.
  destruct (bu_started b) eqn:Hstarted; [by split; rewrite ?Hstarted|].
  specialize (Hunstarted eq_refl). unfold protocol_of, kinds in *.
  apply fmap_nil_inv in Hunstarted. rewrite Hunstarted in *.
  split; unfold protocol_of, kinds; cbn [send bu_sent bu_started bu_open bu_arguments bu_partial];
    rewrite ?Hunstarted; try done.
  - protocol_step Hprotocol. by rewrite Hstarted.
  - intros i. rewrite seen_snoc, fragments_snoc. simpl. by rewrite Hunstarted.
  - intros i. rewrite fragments_snoc. apply Hraw.
Qed.

Lemma start_started (b : Builder) : bu_started (start b) = true.
Proof. unfold start. by destruct (bu_started b) eqn:?. Qed.

Lemma start_open (b : Builder) : bu_open (start b) = bu_open b.
Proof. unfold start. by destruct (bu_started b). Qed.

Lemma shows_open open open' raw i block seen :
  (open = Some (OpenToolCall i) <-> open' = Some (OpenToolCall i)) ->
  shows open raw i block seen -> shows open' raw i block seen.
Proof.
  intros Hopen. destruct block as [[]|], seen as [[]|]; try done. simpl.
  destruct (decide _) as [H1|H1], (decide (open' = _)) as [H2|H2]; tauto.
Qed.

Lemma kinds_tool_call b i :
  kinds b !! i = Some KindToolCall ->
  exists call, as_content (bu_partial b) !! i = Some (AssistantToolCall call).
Proof.
  unfold kinds. rewrite list_lookup_fmap. destruct (_ !! i) as [[]|]; try done. by eexists.
Qed.

(** The call [finish_tool_call] settles is there, with the fragments sent for it. *)
Lemma finish_tool_call_found b i :
  builder_inv b -> kinds b !! i = Some KindToolCall ->
  exists call,
    as_content (bu_partial b) !! i = Some (AssistantToolCall call) /\
    raw_of (bu_arguments b) i = Some (fragments i (bu_sent b)).
Proof.
  intros Hinv Hkind. apply kinds_tool_call in Hkind as Hcall. destruct Hcall as [call Hcall].
  exists call. split; [done|]. apply (inv_calls b Hinv) in Hkind as [raw Hraw].
  by rewrite (inv_raw b Hinv i), Hraw.
Qed.

Lemma finish_tool_call_eq (b : Builder) i complete call raw :
  as_content (bu_partial b) !! i = Some (AssistantToolCall call) ->
  raw_of (bu_arguments b) i = Some raw ->
  finish_tool_call error_text b i complete
  = (with_partial b (alter_content (fun _ => AssistantToolCall (settle_call error_text raw complete call)) i
                       (bu_partial b)),
     Some (settle_call error_text raw complete call)).
Proof. intros Hcall Hraw. unfold finish_tool_call. by rewrite Hraw, Hcall. Qed.

Lemma settle_call_partial raw complete (call : ToolCall Number) :
  tc_partial_json (settle_call error_text raw complete call) = tc_partial_json call.
Proof. unfold settle_call. destruct complete; [destruct (parse_tool_call_arguments _ _)|]; done. Qed.

Lemma alter_kinds f i (m : AssistantMessage Number) :
  (forall block, as_content m !! i = Some block -> block_kind (f block) = block_kind block) ->
  block_kind <$> as_content (alter_content f i m) = block_kind <$> as_content m.
Proof.
  intros Hf. apply list_eq. intros j. rewrite !list_lookup_fmap. simpl.
  destruct (decide (i = j)) as [<-|Hne]; [|by rewrite list_lookup_alter_ne].
  rewrite list_lookup_alter_eq. destruct (as_content m !! i) as [block|] eqn:Hblock; [|done].
  simpl. by rewrite Hf.
Qed.

Lemma close_inv b complete :
  builder_inv b ->
  builder_inv (close_block error_text b complete) /\
  bu_open (close_block error_text b complete) = None /\
  bu_started (close_block error_text b complete) = bu_started b.
Proof.
  intros Hinv. destruct (bu_open b) as [[i|i|i]|] eqn:Hopen.
  1, 2: unfold close_block; rewrite Hopen; split; [|done];
    destruct Hinv as [Hprotocol Hshows Hcalls Hraw _ Hunstarted];
    split; unfold protocol_of in *; cbn [with_open send bu_sent bu_started bu_open bu_arguments bu_partial];
    [ protocol_step Hprotocol; by rewrite closes_ok
    | intros j; rewrite seen_snoc, fragments_snoc; eapply shows_open, Hshows; by rewrite Hopen
    | done | intros j; rewrite fragments_snoc; apply Hraw | done | done ].
  - (* a tool call *)
    pose proof (inv_open b Hinv _ Hopen) as Hkind. cbn [open_index open_kind] in Hkind.
    destruct (finish_tool_call_found b i Hinv Hkind) as (call & Hcall & Hraw_i).
    set (call' := settle_call error_text (fragments i (bu_sent b)) complete call).
    assert (Hclosed : close_block error_text b complete =
      send (with_partial (with_open b None) (alter_content (fun _ => AssistantToolCall call') i (bu_partial b)))
        (ToolCallEnd i call')).
    { unfold close_block. rewrite Hopen.
      by rewrite (finish_tool_call_eq (with_open b None) i complete call (fragments i (bu_sent b))). }
    rewrite Hclosed. split; [|done].
    assert (Hkinds : block_kind <$> as_content (alter_content (fun _ => AssistantToolCall call') i (bu_partial b))
                     = kinds b).
    { apply alter_kinds. intros block. rewrite Hcall. by intros [= <-]. }
    destruct Hinv as [Hprotocol Hshows Hcalls Hraw _ Hunstarted].
    split; unfold protocol_of, kinds in *;
      cbn [with_open with_partial send bu_sent bu_started bu_open bu_arguments bu_partial]; rewrite ?Hkinds; try done.
    + protocol_step Hprotocol. by rewrite closes_ok.
    + intros j. rewrite seen_snoc, fragments_snoc. simpl. specialize (Hshows j).
      destruct (decide (i = j)) as [<-|Hne].
      * rewrite !list_lookup_alter_eq. rewrite Hcall in *.
        destruct (_ !! i) as [[]|]; try done. simpl in *.
        destruct Hshows as [Hnone _]. unfold call'. by rewrite settle_call_partial.
      * rewrite !list_lookup_alter_ne by done. eapply shows_open, Hshows.
        rewrite Hopen. split; [intros [= ->]; done | done].
    + intros j. rewrite fragments_snoc. apply Hraw.
  - unfold close_block. rewrite Hopen. split; [|done].
    destruct b. simpl in Hopen. by subst.
Qed.

Lemma shown_length open raw (blocks seen : list (AssistantContent Number)) :
  (forall i, shows open (raw i) i (blocks !! i) (seen !! i)) -> length seen = length blocks.
Proof.
  intros Hshows.
  assert (Hsame : forall i, is_none (seen !! i) = is_none (blocks !! i)).
  { intros i. specialize (Hshows i). by destruct (blocks !! i) as [[]|], (seen !! i) as [[]|]. }
  apply Nat.le_antisymm; apply Nat.nlt_ge; intros [block Hin]%lookup_lt_is_Some_2.
  - specialize (Hsame (length blocks)). by rewrite Hin, (lookup_ge_None_2 blocks) in Hsame.
  - specialize (Hsame (length seen)). by rewrite Hin, (lookup_ge_None_2 seen) in Hsame.
Qed.

(** A new block, once no other is open. *)
Lemma opened_inv b open block block' event arguments :
  builder_inv b -> bu_open b = None -> bu_started b = true ->
  open_index open = length (as_content (bu_partial b)) -> block_kind block = open_kind open ->
  (forall p, pr_ended p = false -> next_event p event = opens p open) ->
  (forall m, apply_event m event = push_content m block') ->
  (forall i events, fragments i (events ++ [event]) = fragments i events) ->
  shows (Some open) "" (open_index open) (Some block) (Some block') ->
  (forall i, raw_of arguments i
     = if decide (i = open_index open /\ open_kind open = KindToolCall) then Some "" else raw_of (bu_arguments b) i) ->
  builder_inv (MkBuilder (bu_sent b ++ [event]) (push_content (bu_partial b) block) (Some open) arguments
                 (bu_started b)).
Proof.
  intros [Hprotocol Hshows Hcalls Hraw Hopen Hunstarted] Hnone Hstarted Hindex Hkind Hnext Happly Hfrag
    Hblock Harguments.
  assert (Hlen : length (as_content (seen_after (bu_sent b))) = length (as_content (bu_partial b))).
  { exact (shown_length (bu_open b) (fun i => fragments i (bu_sent b)) _ _ Hshows). }
  assert (Hk : length (kinds b) = open_index open) by by rewrite Hindex; apply length_fmap.
  assert (Hfresh : raw_of (bu_arguments b) (open_index open) = None).
  { destruct (raw_of _ _) eqn:Hsome; [exfalso|done]. specialize (Hcalls (open_index open)).
    rewrite Hsome, (lookup_ge_None_2 (kinds b)) in Hcalls by lia. discriminate (proj1 Hcalls (mk_is_Some _ _ eq_refl)). }
  split; unfold protocol_of, kinds in *; cbn [bu_sent bu_started bu_open bu_arguments bu_partial push_content
    with_content as_content]; rewrite ?fmap_app; cbn [fmap list_fmap]; rewrite ?Hkind.
  - rewrite protocol_snoc, Hprotocol. cbn [mbind option_bind]. rewrite Hnext by done.
    rewrite opens_ok; [by rewrite Hstarted|done..|]. cbn [pr_kinds]. by rewrite length_fmap.
  - intros i. rewrite seen_snoc, Happly, Hfrag. cbn [push_content with_content as_content].
    rewrite !lookup_snoc_if, Hlen, <- Hindex. destruct (decide _) as [->|Hne].
    + by rewrite Hraw, Hfresh.
    + eapply shows_open, Hshows. rewrite Hnone. split; [done|]. by intros [= ->].
  - intros i. rewrite Harguments, lookup_snoc_if, Hk. destruct (decide (i = open_index open)) as [->|Hne].
    + destruct (decide _) as [[_ ->]|Hno]; [by split; [|by eexists]|].
      rewrite Hfresh. split; [by intros []|]. intros [= Heq]. by destruct Hno.
    + rewrite decide_False by tauto. apply Hcalls.
  - intros i. rewrite Hfrag, Harguments, Hraw. destruct (decide _) as [[-> _]|]; [|done].
    by rewrite Hfresh.
  - intros open' [= <-]. by rewrite lookup_snoc_if, Hk, decide_True.
  - by rewrite Hstarted.
Qed.

(** A delta of the open block. *)
Lemma delta_inv b open f event :
  builder_inv b -> bu_open b = Some open ->
  (forall p, pr_ended p = false -> next_event p event = continues p open) ->
  (forall m, apply_event m event = alter_content f (open_index open) m) ->
  (forall i events, fragments i (events ++ [event]) = fragments i events) ->
  (forall block, block_kind (f block) = block_kind block) ->
  (forall raw block seen,
     shows (Some open) raw (open_index open) (Some block) (Some seen) ->
     shows (Some open) raw (open_index open) (Some (f block)) (Some (f seen))) ->
  builder_inv (send (with_partial b (alter_content f (open_index open) (bu_partial b))) event).
Proof.
  intros [Hprotocol Hshows Hcalls Hraw Hopen Hunstarted] Hsome Hnext Happly Hfrag Hkind Hblock.
  assert (Hkinds : block_kind <$> as_content (alter_content f (open_index open) (bu_partial b)) = kinds b).
  { by apply alter_kinds. }
  split; unfold protocol_of, kinds in *; cbn [with_partial send bu_sent bu_started bu_open bu_arguments bu_partial];
    rewrite ?Hkinds; try done.
  - rewrite protocol_snoc, Hprotocol. cbn [mbind option_bind]. rewrite Hnext by done. by apply continues_ok.
  - intros i. rewrite seen_snoc, Happly, Hfrag. cbn [alter_content with_content as_content]. specialize (Hshows i).
    destruct (decide (open_index open = i)) as [<-|Hne]; [|by rewrite !list_lookup_alter_ne].
    rewrite !list_lookup_alter_eq. rewrite Hsome in *.
    destruct (as_content (bu_partial b) !! open_index open), (as_content (seen_after _) !! open_index open);
      try done; [by apply Hblock|by destruct a].
  - intros i. by rewrite Hfrag.
Qed.

Lemma text_push_inv b i delta :
  builder_inv b -> bu_open b = Some (OpenText i) ->
  builder_inv (send (with_partial b (alter_content (push_text delta) i (bu_partial b))) (TextDelta i delta)).
Proof.
  intros Hinv Hopen. apply (delta_inv b (OpenText i)); try done.
  - by intros p Hp; unfold next_event; rewrite Hp.
  - intros j events. by rewrite fragments_snoc.
  - by intros [].
  - intros raw [] []; try done. simpl. by intros ->.
Qed.

Lemma thinking_push_inv b i delta :
  builder_inv b -> bu_open b = Some (OpenThinking i) ->
  builder_inv (send (with_partial b (alter_content (push_thinking delta) i (bu_partial b))) (ThinkingDelta i delta)).
Proof.
  intros Hinv Hopen. apply (delta_inv b (OpenThinking i)); try done.
  - by intros p Hp; unfold next_event; rewrite Hp.
  - intros j events. by rewrite fragments_snoc.
  - by intros [].
  - intros raw [] []; try done. simpl. by intros ->.
Qed.

Lemma ready_inv b :
  builder_inv b ->
  let b' := start (close_block error_text b false) in
  builder_inv b' /\ bu_open b' = None /\ bu_started b' = true.
Proof.
  intros Hinv. destruct (close_inv b false Hinv) as (Hclosed & Hnone & _).
  split_and!; [by apply start_inv|by rewrite start_open|apply start_started].
Qed.

Lemma open_text_inv b :
  builder_inv b ->
  let '(b', i) := open_block error_text b OpenText (assistant_new_text "") TextStart in
  builder_inv b' /\ bu_open b' = Some (OpenText i).
Proof.
  intros (Hinv & Hnone & Hstarted)%ready_inv. split; [|done].
  set (b' := start (close_block error_text b false)) in *. set (i := length (as_content (bu_partial b'))).
  apply (opened_inv b' (OpenText i) (assistant_new_text "") (assistant_new_text "") (TextStart i)
           (bu_arguments b')); try done.
  - by intros p Hp; unfold next_event; rewrite Hp.
  - intros j events. by rewrite fragments_snoc.
  - intros j. by rewrite decide_False by (intros [_ [=]]).
Qed.

Lemma open_thinking_inv b :
  builder_inv b ->
  let '(b', i) := open_block error_text b OpenThinking (assistant_new_thinking "") ThinkingStart in
  builder_inv b' /\ bu_open b' = Some (OpenThinking i).
Proof.
  intros (Hinv & Hnone & Hstarted)%ready_inv. split; [|done].
  set (b' := start (close_block error_text b false)) in *. set (i := length (as_content (bu_partial b'))).
  apply (opened_inv b' (OpenThinking i) (assistant_new_thinking "") (assistant_new_thinking "") (ThinkingStart i)
           (bu_arguments b')); try done.
  - by intros p Hp; unfold next_event; rewrite Hp.
  - intros j events. by rewrite fragments_snoc.
  - intros j. by rewrite decide_False by (intros [_ [=]]).
Qed.

Lemma raw_of_app arguments i raw j :
  raw_of arguments i = None ->
  raw_of (arguments ++ [(i, raw)]) j = if decide (j = i) then Some raw else raw_of arguments j.
Proof.
  induction arguments as [|[at_ r] arguments IH]; simpl; intros Hnone; repeat case_decide; try done; subst;
    rewrite ?IH by done; by repeat case_decide.
Qed.

Lemma raw_of_push arguments i delta j :
  raw_of (push_raw arguments i delta) j
  = if decide (i = j) then (fun raw => String.append raw delta) <$> raw_of arguments j else raw_of arguments j.
Proof.
  induction arguments as [|[at_ r] arguments IH]; simpl; [by case_decide|].
  destruct (decide (at_ = i)) as [->|]; simpl.
  - by repeat case_decide.
  - rewrite IH. repeat case_decide; congruence || done.
Qed.

Lemma tool_start_inv b id name : builder_inv b -> builder_inv (tool_call_start error_text b id name).1.
Proof.
  intros (Hinv & Hnone & Hstarted)%ready_inv. unfold tool_call_start, open_block.
  set (b' := start (close_block error_text b false)) in *. set (i := length (as_content (bu_partial b'))).
  apply (opened_inv b' (OpenToolCall i) (AssistantToolCall (MkToolCall id name [] None None))
           (AssistantToolCall (MkToolCall id name [] None (Some "")))); try done.
  - by intros p Hp; unfold next_event; rewrite Hp.
  - intros j events. by rewrite fragments_snoc.
  - simpl. rewrite decide_True by done. done.
  - intros j. cbn [with_open with_partial send bu_arguments open_index open_kind]. rewrite raw_of_app.
    + destruct (decide (j = i)), (decide (j = i /\ _)); try done; tauto.
    + destruct (raw_of _ _) eqn:Hsome; [exfalso|done].
      pose proof (proj1 (inv_calls b' Hinv i) (mk_is_Some _ _ Hsome)) as Hkind.
      unfold kinds in Hkind. by rewrite lookup_ge_None_2 in Hkind by by rewrite length_fmap.
Qed.

Lemma tool_delta_inv b i delta : builder_inv b -> builder_inv (tool_call_delta b i delta).
Proof.
  intros Hinv. unfold tool_call_delta. destruct (String.eqb_spec delta ""); [done|].
  destruct (raw_of (bu_arguments b) i) as [raw|] eqn:Hraw_i; [|done].
  destruct Hinv as [Hprotocol Hshows Hcalls Hraw Hopen Hunstarted].
  pose proof (proj1 (Hcalls i) (mk_is_Some _ _ Hraw_i)) as Hkind.
  split; unfold protocol_of, kinds in *; cbn [send bu_sent bu_started bu_open bu_arguments bu_partial]; try done.
  - protocol_step Hprotocol. by rewrite bool_decide_eq_true_2.
  - intros j. rewrite seen_snoc, fragments_snoc. simpl. specialize (Hshows j).
    destruct (decide (i = j)) as [<-|Hne]; [|by rewrite list_lookup_alter_ne].
    rewrite list_lookup_alter_eq.
    destruct (as_content (bu_partial b) !! i) as [[]|], (as_content (seen_after _) !! i) as [[]|];
      try done; try exact Hshows.
    simpl in *. destruct Hshows as [Hnone Hcall], (decide _) as [|], Hcall as (Hp & Ha & He); by rewrite Hp.
  - intros j. rewrite raw_of_push, <- Hcalls. by case_decide; [rewrite fmap_is_Some|].
  - intros j. rewrite fragments_snoc, raw_of_push, Hraw. case_decide; [subst j|done].
    by rewrite Hraw_i.
Qed.

Lemma visible_sign signature blocks :
  visible <$> sign_first_thinking signature blocks = visible <$> blocks.
Proof. induction blocks as [|[] blocks IH]; [done|..]; cbn [sign_first_thinking]; by rewrite !fmap_cons, ?IH. Qed.

Lemma builder_call_inv b call : builder_inv b -> builder_inv (builder_call error_text b call).
Proof.
  intros Hinv. destruct call as [id|usage| |delta|delta|id name|i id name|i delta|signature]; cbn [builder_call].
  - by apply invisible_inv.
  - by apply invisible_inv.
  - by apply start_inv.
  - unfold text_delta. destruct (String.eqb delta ""); [done|]. pose proof (open_text_inv b Hinv) as Hopened.
    destruct (open_block _ _ _ _ _) as [b' i']. cbv beta iota in Hopened. destruct Hopened as [Hinv' Hopen'].
    destruct (bu_open b) as [[]|] eqn:Hopen; by apply text_push_inv.
  - unfold thinking_delta. destruct (String.eqb delta ""); [done|].
    pose proof (open_thinking_inv b Hinv) as Hopened.
    destruct (open_block _ _ _ _ _) as [b' i']. cbv beta iota in Hopened. destruct Hopened as [Hinv' Hopen'].
    destruct (bu_open b) as [[]|] eqn:Hopen; by apply thinking_push_inv.
  - by apply tool_start_inv.
  - apply invisible_inv; [|done]. apply list_eq. intros j. rewrite !list_lookup_fmap. simpl.
    destruct (decide (i = j)) as [<-|]; [|by rewrite list_lookup_alter_ne].
    rewrite list_lookup_alter_eq. by destruct (_ !! i) as [[]|].
  - by apply tool_delta_inv.
  - apply invisible_inv; [|done]. cbn [with_content as_content].
    assert (Hrev : forall l : list (AssistantContent Number), visible <$> rev l = rev (visible <$> l)).
    { intros l. apply map_rev. }
    by rewrite Hrev, visible_sign, <- Hrev, rev_involutive.
Qed.

Lemma builder_calls_inv b calls :
  builder_inv b -> builder_inv (fold_left (builder_call error_text) calls b).
Proof. revert b. induction calls as [|call calls IH]; intros b Hinv; [done|]. by apply IH, builder_call_inv. Qed.

Lemma reached_inv calls : builder_inv (fold_left (builder_call error_text) calls (builder_new model now)).
Proof. apply builder_calls_inv, new_inv. Qed.

(** ** How a response ends *)

Lemma settle_call_idempotent raw complete (call : ToolCall Number) :
  settle_call error_text raw complete (settle_call error_text raw complete call)
  = settle_call error_text raw complete call.
Proof. unfold settle_call. destruct complete; [destruct (parse_tool_call_arguments _ _)|]; done. Qed.

Lemma raw_of_elem arguments i raw : raw_of arguments i = Some raw -> i ∈ arguments.*1.
Proof.
  induction arguments as [|[at_ r] arguments IH]; [done|]. cbn [raw_of]. rewrite fmap_cons.
  destruct (decide (at_ = i)) as [->|]; [by left|]. right. auto.
Qed.

(** The call at [i] is what its fragments make of it. *)
Definition settled_at (complete : bool) (i : nat) (b : Builder) : Prop :=
  forall call raw,
    as_content (bu_partial b) !! i = Some (AssistantToolCall call) -> raw_of (bu_arguments b) i = Some raw ->
    settle_call error_text raw complete call = call.

Lemma finish_tool_call_shape (b : Builder) i complete :
  exists partial, (finish_tool_call error_text b i complete).1 = with_partial b partial /\
    (forall j, i <> j -> as_content partial !! j = as_content (bu_partial b) !! j) /\
    block_kind <$> as_content partial = kinds b.
Proof.
  unfold finish_tool_call.
  destruct (raw_of (bu_arguments b) i), (as_content (bu_partial b) !! i) as [[]|] eqn:Hcall;
    try (by exists (bu_partial b); destruct b).
  eexists. split_and!; [done| |].
  - intros j Hne. by apply list_lookup_alter_ne.
  - apply alter_kinds. intros block. rewrite Hcall. by intros [= <-].
Qed.

Lemma finish_tool_call_settles (b : Builder) i complete :
  settled_at complete i (finish_tool_call error_text b i complete).1.
Proof.
  intros call raw. unfold finish_tool_call.
  destruct (raw_of (bu_arguments b) i) as [r|] eqn:Hraw, (as_content (bu_partial b) !! i) as [[]|] eqn:Hcall;
    try (intros Hc Hr; cbn [fst] in *; congruence).
  cbn [fst with_partial bu_partial bu_arguments alter_content with_content as_content].
  rewrite list_lookup_alter_eq, Hcall, Hraw. intros [= <-] [= <-]. apply settle_call_idempotent.
Qed.

Lemma finish_tool_call_keeps (b : Builder) i j complete :
  settled_at complete i b -> settled_at complete i (finish_tool_call error_text b j complete).1.
Proof.
  intros Hsettled. destruct (decide (j = i)) as [->|Hne]; [apply finish_tool_call_settles|].
  destruct (finish_tool_call_shape b j complete) as (partial & -> & Hsame & _).
  intros call raw. cbn [with_partial bu_partial bu_arguments]. rewrite Hsame by done. apply Hsettled.
Qed.

Lemma settle_tool_calls_settles (b : Builder) complete :
  exists partial, settle_tool_calls error_text b complete = with_partial b partial /\
    block_kind <$> as_content partial = kinds b /\
    forall i raw, raw_of (bu_arguments b) i = Some raw ->
      settled_at complete i (settle_tool_calls error_text b complete).
Proof.
  assert (Hfold : forall indexes b,
    let b' := fold_left (fun b index => (finish_tool_call error_text b index complete).1) indexes b in
    (exists partial, b' = with_partial b partial /\ block_kind <$> as_content partial = kinds b) /\
    forall i, i ∈ indexes \/ settled_at complete i b -> settled_at complete i b').
  { clear b. induction indexes as [|j indexes IH]; intros b.
    - split; [by exists (bu_partial b); destruct b|]. by intros i [Hin%not_elem_of_nil|].
    - specialize (IH (finish_tool_call error_text b j complete).1) as [(partial & Hpartial & Hkinds) Hsettled].
      destruct (finish_tool_call_shape b j complete) as (partial' & Hone & _ & Hkinds').
      split; [exists partial; simpl; rewrite Hpartial, Hkinds, Hone; by rewrite <- Hkinds'|].
      intros i Hi. simpl. apply Hsettled. destruct Hi as [[->|Hin]%elem_of_cons|Hi]; [|by left|];
        right; [apply finish_tool_call_settles | by apply finish_tool_call_keeps]. }
  destruct (Hfold (bu_arguments b).*1 b) as [(partial & Hpartial & Hkinds) Hsettled].
  exists partial. split_and!; [done..|]. intros i raw Hraw. apply Hsettled. left. by eapply raw_of_elem.
Qed.

Lemma protocol_not_ended (events : list (AssistantMessageEvent Number)) event p :
  protocol (events ++ [event]) = Some p ->
  exists q, protocol events = Some q /\ pr_ended q = false /\ (pr_ended p = is_terminal event).
Proof.
  rewrite protocol_snoc. destruct (protocol events) as [q|]; [|done]. intros Hnext. exists q.
  cbn [mbind option_bind] in Hnext. unfold next_event in Hnext.
  destruct (pr_ended q) eqn:Hended; [done|]. split_and!; [done..|].
  destruct event; unfold opens, continues, closes, may_end in Hnext; repeat case_match; by simplify_eq.
Qed.

Lemma stream_result_last (events : list (AssistantMessageEvent Number)) event message self later :
  st_finished self = false -> (exists p, protocol (events ++ [event]) = Some p) ->
  event = EventDone message \/ event = EventError message ->
  stream_result self (events ++ [event]) later = message.
Proof.
  intros Hself [p Hp] Hevent.
  assert (Hmid : Forall (fun e : AssistantMessageEvent Number => is_terminal e = false) events).
  { apply protocol_not_ended in Hp as (q & Hq & Hrunning & _). clear -Hq Hrunning.
    revert q Hq Hrunning. induction events as [|e events IH] using rev_ind; intros q Hq Hrunning; [done|].
    apply protocol_not_ended in Hq as (q' & Hq' & Hrunning' & Hlast).
    apply Forall_app. split; [by eapply IH|]. repeat constructor. congruence. }
  revert self Hself. clear p Hp. induction Hmid as [|e events He _ IH]; intros self Hself; simpl.
  - unfold poll_event. rewrite Hself. by destruct Hevent as [-> | ->].
  - unfold poll_event. rewrite Hself. destruct e; try done; by apply IH.
Qed.

(** What [settle_tool_calls] leaves for the last event. *)
Lemma settled_calls (b : Builder) complete event :
  builder_inv b -> is_terminal event = true ->
  exists partial, settle_tool_calls error_text b complete = with_partial b partial /\
    forall i call, as_content partial !! i = Some (AssistantToolCall call) ->
      settle_call error_text (fragments i (bu_sent b ++ [event])) complete call = call.
Proof.
  intros Hinv Hterminal. destruct (settle_tool_calls_settles b complete) as (partial & Hsettle & Hkinds & Hsettled).
  exists partial. split; [done|]. intros i call Hcall.
  assert (Hkind : kinds b !! i = Some KindToolCall).
  { rewrite <- Hkinds, list_lookup_fmap, Hcall. done. }
  apply (inv_calls b Hinv) in Hkind as [raw Hraw].
  assert (Hfrag : fragments i (bu_sent b ++ [event]) = raw).
  { rewrite fragments_snoc. assert (Heq : fragments i (bu_sent b) = raw) by by rewrite (inv_raw b Hinv), Hraw.
    by destruct event. }
  rewrite Hfrag. rewrite Hsettle in Hsettled. by eapply (Hsettled i raw).
Qed.

Lemma end_response_last (b : Builder) ending :
  builder_inv b ->
  let '(b', message) := end_response error_text b ending in
  let event := match ending with Finishes _ _ => EventDone message | Fails _ _ => EventError message end in
  exists events, bu_sent b' = events ++ [event] /\
    (exists p, protocol (events ++ [event]) = Some p /\ pr_ended p = true) /\
    forall i call, as_content message !! i = Some (AssistantToolCall call) ->
      settle_call error_text (fragments i (bu_sent b'))
        (match ending with Finishes _ _ => true | Fails _ _ => false end) call = call.
Proof.
  intros Hinv. destruct ending as [stop_reason usage|stop_reason error]; cbn [end_response].
  - destruct (close_inv b true Hinv) as (Hclosed & Hopen & _). apply start_inv in Hclosed as Hstarted.
    unfold finish. set (b0 := start (close_block error_text b true)) in *.
    set (m := bu_partial (settle_tool_calls error_text b0 true)).
    set (message := MkAssistantMessage _ _ _ _ _ _ _ _ _ _).
    destruct (settled_calls b0 true (EventDone message) Hstarted eq_refl) as (partial & Hsettle & Hcalls).
    exists (bu_sent b0). cbn [send with_partial bu_sent]. rewrite Hsettle. cbn [with_partial bu_sent].
    split_and!; [done| |].
    + eexists. protocol_step (inv_protocol b0 Hstarted). unfold may_end, protocol_of.
      cbn [pr_started pr_open]. unfold b0. by rewrite start_started, start_open, Hopen.
    + intros i call. cbn [message as_content]. unfold m. rewrite Hsettle. apply Hcalls.
  - destruct (close_inv b false Hinv) as (Hclosed & Hopen & _).
    unfold fail_with. set (b0 := close_block error_text b false) in *.
    set (m := bu_partial (settle_tool_calls error_text b0 false)).
    set (message := MkAssistantMessage _ _ _ _ _ _ _ _ _ _).
    destruct (settled_calls b0 false (EventError message) Hclosed eq_refl) as (partial & Hsettle & Hcalls).
    exists (bu_sent b0). cbn [send with_partial bu_sent]. rewrite Hsettle. cbn [with_partial bu_sent].
    split_and!; [done| |].
    + eexists. protocol_step (inv_protocol b0 Hclosed). unfold may_end, protocol_of.
      cbn [pr_started pr_open implb]. by rewrite Hopen.
    + intros i call. cbn [message as_content]. unfold m. rewrite Hsettle. apply Hcalls.
Qed.
End Simulation.

(** C17: Whatever a provider reports, the events sent so far are in protocol order (one [Start] before any
    block, one block open at a time and at the next index, its deltas and its end while it is open), and
    a reader that applies them sees the response the builder holds: the same blocks with the same text
    and reasoning, the open tool call with the fragments sent so far and what they parse to, a closed
    call with the arguments it closed with. *)
Theorem events_show_response {Number} {J : JsonCrate Number} (error_text : list byte -> string)
    (model : Model Number) (now : Z) (calls : list BuilderCall) :
  let b := fold_left (builder_call error_text) calls (builder_new model now) in
  let seen := fold_left apply_event (bu_sent b) (assistant_empty model now) in
  protocol (bu_sent b)
  = Some (MkProtocol (bu_started b) (bu_open b) (block_kind <$> as_content (bu_partial b)) false) /\
  forall i, shows (bu_open b) (fragments i (bu_sent b)) i (as_content (bu_partial b) !! i) (as_content seen !! i).
Proof. intros b. destruct (reached_inv error_text model now calls) as [Hprotocol Hshows _ _ _ _]. by split. Qed.

(** C22: A response ends once: its events are in protocol order up to one terminal event, the last, whose
    message is the answer of [AssistantMessageStream::result] and what a reader of all events holds;
    and in it every tool call has all the fragments sent for it, late ones too: parsed strictly when
    the response finished (malformed text leaves no arguments but an error), as far as they go when it
    failed. *)
Theorem response_ends_once {Number} {J : JsonCrate Number} (error_text : list byte -> string)
    (model : Model Number) (now later : Z) (calls : list BuilderCall) (ending : Ending) :
  let b := fold_left (builder_call error_text) calls (builder_new model now) in
  let '(b', message) := end_response error_text b ending in
  (exists p, protocol (bu_sent b') = Some p /\ pr_ended p = true) /\
  stream_result stream_new (bu_sent b') later = message /\
  fold_left apply_event (bu_sent b') (assistant_empty model now) = message /\
  forall i call, as_content message !! i = Some (AssistantToolCall call) ->
    settle_call error_text (fragments i (bu_sent b'))
      (match ending with Finishes _ _ => true | Fails _ _ => false end) call = call.
Proof.
  intros b. pose proof (end_response_last error_text model now b ending (reached_inv error_text model now calls)) as Hlast.
  destruct (end_response error_text b ending) as [b' message]. cbv beta iota zeta in Hlast.
  destruct Hlast as (events & -> & Hprotocol & Hcalls). split_and!; [done| | |done].
  - apply stream_result_last; [done| |].
    + destruct Hprotocol as (p & Hp & _). by exists p.
    + destruct ending; auto.
  - rewrite fold_left_app. by destruct ending.
Qed.
