(* ===== verification/Validation.v ===== *)
(** * Tool arguments: A/pi-ai/src/validation.rs

    What a model sends as arguments is freed of optional nulls, coerced to the tool's JSON Schema, and
    then validated.  The [jsonschema] crate and serde_json's numbers are parameters; the std library's
    parsing of integers and floats is modelled.  serde_json has [preserve_order] here: a [Map] is its
    entries in order, and [Map::remove] swaps the last one into the gap. *)
From Stdlib Require Import Strings.Byte Strings.Ascii Strings.String Floats.SpecFloat.
From S2P Require Import Prelude Utf8 Json PiTypes Transcript.

(** ** The crates *)

(** serde_json's [Number]: [is_i64], [is_u64], [as_f64], [Value::from] and [from_f64]; and
    [to_string_pretty] of a map. *)
Class JsonNumbers (Number : Type) := {
  number_is_i64 : Number -> bool;
  number_is_u64 : Number -> bool;
  number_as_f64 : Number -> option F64;
  number_from_int : Z -> Number;
  number_from_f64 : F64 -> option Number;
  to_string_pretty : list (string * Value Number) -> option string;
}.

(** [f64::is_finite] *)
Definition f64_is_finite (x : F64) : bool :=
  match x with S754_zero _ | S754_finite _ _ _ => true | _ => false end.

(** Integers are kept apart from floats, and [from_f64] takes every finite float. *)
Class JsonNumbersLaws (Number : Type) {JN : JsonNumbers Number} : Prop := {
  from_int_i64 z : -9223372036854775808 <= z <= 9223372036854775807 -> number_is_i64 (number_from_int z) = true;
  from_int_u64 z : 0 <= z <= 18446744073709551615 -> number_is_u64 (number_from_int z) = true;
  from_f64_finite x : f64_is_finite x = true -> exists n, number_from_f64 x = Some n /\ number_as_f64 n = Some x;
}.

(** The [jsonschema] crate: [validator_for], and of a [Validator] [is_valid] and [iter_errors], each
    error with its [instance_path] and its text. *)
Record Validator (Number : Type) := MkValidator {
  is_valid : Value Number -> bool;
  iter_errors : Value Number -> list (string * string);
}.
Arguments MkValidator {_}.
Arguments is_valid {_}.
Arguments iter_errors {_}.

Class JsonSchema (Number : Type) := validator_for : Value Number -> result string (Validator Number).

Class JsonSchemaLaws (Number : Type) {JS : JsonSchema Number} : Prop :=
  valid_iff_no_errors schema validator value :
    validator_for schema = Ok validator -> (is_valid validator value = true <-> iter_errors validator value = []).

(** ** Maps and schemas *)

(** [m.get(key).map(f)], one definition so that recursion on a schema is structural. *)
Definition map_find {V B : Type} (f : V -> B) (key : string) : list (string * V) -> option B :=
  fix go (m : list (string * V)) : option B :=
    match m with
    | [] => None
    | (k, v) :: m => if String.eqb k key then Some (f v) else go m
    end.

(** [Map::remove] with [preserve_order]: the last entry takes the place of the removed one. *)
Definition map_swap_remove {V : Type} (m : list (string * V)) (key : string) : list (string * V) :=
  match list_find (fun e => e.1 = key) m, last m with
  | Some (i, _), Some e => take (length m - 1) (<[i := e]> m)
  | _, _ => m
  end.

(** [iter_mut().zip(schemas)]: items beyond the schemas stay. *)
Definition zip_update {V : Type} (f : V -> V -> V) : list V -> list V -> list V :=
  fix go (schemas items : list V) : list V :=
    match schemas, items with
    | schema :: schemas, item :: items => f schema item :: go schemas items
    | _, items => items
    end.

(** ** Numbers in text *)

Definition is_digit (b : byte) : bool := (48 <=? byte_val b) && (byte_val b <=? 57).

Fixpoint digits_value (acc : Z) (digits : list byte) : Z :=
  match digits with
  | [] => acc
  | d :: digits => digits_value (acc * 10 + (byte_val d - 48)) digits
  end.

(** Decimal digits, at least one and nothing else. *)
Definition parse_digits (text : list byte) : option Z :=
  if negb (length text =? 0)%nat && forallb is_digit text then Some (digits_value 0 text) else None.

(** [str::parse::<i64>] *)
Definition parse_i64 (text : list byte) : option Z :=
  let '(negative, digits) :=
    match text with x2d :: text => (true, text) | x2b :: text => (false, text) | text => (false, text) end in
  n ← parse_digits digits;
  let z := if negative : bool then - n else n in
  if (-9223372036854775808 <=? z) && (z <=? 9223372036854775807) then Some z else None.

(** [str::parse::<u64>] *)
Definition parse_u64 (text : list byte) : option Z :=
  n ← parse_digits (match text with x2b :: text => text | text => text end);
  if n <=? U64_MAX then Some n else None.

(** The float nearest to [n / d], ties to even: the quotient with a sticky bit below 64 others. *)
Definition f64_ratio (n d : Z) : F64 :=
  let scale := Z.max 0 (64 + Z.log2 d - Z.log2 n) in
  let scaled := Z.shiftl n scale in
  binary_normalize 53 1024 (2 * (scaled / d) + (if scaled mod d =? 0 then 0 else 1)) (- scale - 1) false.

(** The digits at the front. *)
Fixpoint span_digits (text : list byte) : list byte * list byte :=
  match text with
  | b :: rest => if is_digit b then let '(digits, rest) := span_digits rest in (b :: digits, rest) else ([], text)
  | [] => ([], [])
  end.

(** [digits.digits e exponent] as a nonnegative float; the fraction and the exponent may be missing, and
    one side of the point. *)
Definition parse_decimal (text : list byte) : option F64 :=
  let '(whole, rest) := span_digits text in
  let '(fraction, rest) := match rest with x2e :: rest => span_digits rest | rest => ([], rest) end in
  if (length (whole ++ fraction) =? 0)%nat then None
  else
    exponent ← match rest with
      | [] => Some 0
      | x65 :: x2d :: digits | x45 :: x2d :: digits => Z.opp <$> parse_digits digits
      | x65 :: x2b :: digits | x45 :: x2b :: digits => parse_digits digits
      | x65 :: digits | x45 :: digits => parse_digits digits
      | _ => None
      end;
    let mantissa := digits_value 0 (whole ++ fraction) in
    let exponent := exponent - Z.of_nat (length fraction) in
    Some (if mantissa =? 0 then f64_zero
          else if 0 <=? exponent then f64_ratio (mantissa * 10 ^ exponent) 1
          else f64_ratio mantissa (10 ^ (- exponent))).

Definition byte_to_lower (b : byte) : byte :=
  if (65 <=? byte_val b) && (byte_val b <=? 90) then byte_of_Z (byte_val b + 32) else b.

(** [str::parse::<f64>] *)
Definition parse_f64 (text : list byte) : option F64 :=
  let '(negative, text) :=
    match text with x2d :: text => (true, text) | x2b :: text => (false, text) | text => (false, text) end in
  let lower := map byte_to_lower text in
  parsed ←
    (if bool_decide (lower = as_bytes "inf") || bool_decide (lower = as_bytes "infinity") then Some (S754_infinity false)
     else if bool_decide (lower = as_bytes "nan") then Some S754_nan
     else parse_decimal text);
  Some (if negative : bool then SFopp parsed else parsed).

(** [f64::fract() == 0.0] *)
Definition is_whole (x : F64) : bool :=
  match x with
  | S754_zero _ => true
  | S754_finite _ m e => (0 <=? e) || (Z.pos m mod 2 ^ (- e) =? 0)
  | _ => false
  end.

(** [f64 as i64]: towards zero, saturating, and 0 for NaN. *)
Definition f64_as_i64 (x : F64) : Z :=
  let clamp z := Z.max (-9223372036854775808) (Z.min 9223372036854775807 z) in
  match x with
  | S754_zero _ | S754_nan => 0
  | S754_infinity negative => if negative then -9223372036854775808 else 9223372036854775807
  | S754_finite negative m e =>
      let magnitude := if 0 <=? e then Z.pos m * 2 ^ e else Z.pos m / 2 ^ (- e) in
      clamp (if negative then - magnitude else magnitude)
  end.

(** ** Types and conversions *)

Section Validation.
Context {Number : Type} {J : JsonCrate Number} {JN : JsonNumbers Number} {JS : JsonSchema Number}.
Notation V := (Value Number).

Definition schema_types (schema : V) : list string :=
  match value_get schema "type" with
  | Some (Str kind) => [kind]
  | Some (Array kinds) => omap value_as_str kinds
  | _ => []
  end.

Definition matches_type (value : V) (kind : string) : bool :=
  if String.eqb kind "string" then is_some (value_as_str value)
  else if String.eqb kind "number" then match value with Num _ => true | _ => false end
  else if String.eqb kind "integer" then match value with Num n => number_is_i64 n || number_is_u64 n | _ => false end
  else if String.eqb kind "boolean" then is_some (value_as_bool value)
  else if String.eqb kind "null" then value_is_null value
  else if String.eqb kind "array" then is_some (value_as_array value)
  else if String.eqb kind "object" then is_some (value_as_object value)
  else false.

Definition is_valid_for (schema value : V) : bool :=
  match validator_for schema with Ok validator => is_valid validator value | Err _ => false end.

Definition accepts_null (schema : V) : bool :=
  match value_get schema "$ref" with Some (Str _) => true | _ => false end
  || match validator_for schema with Ok validator => is_valid validator Null | Err _ => true end.

Definition MAX_EXACT_FLOAT_INTEGER : F64 := f64_of_Z 9007199254740992.

(** [9.0e15], below which [number_value] makes a whole number an integer. *)
Definition INTEGER_BOUND : F64 := f64_of_Z 9000000000000000.

Definition number_value (parsed : F64) : V :=
  if is_whole parsed && SFltb (SFabs parsed) INTEGER_BOUND then Num (number_from_int (f64_as_i64 parsed))
  else match number_from_f64 parsed with Some number => Num number | None => Null end.

Definition exact_integer (text : list byte) : option V :=
  match parse_i64 text with
  | Some n => Some (Num (number_from_int n))
  | None => Num ∘ number_from_int <$> parse_u64 text
  end.

Definition is_zero (n : Number) : bool :=
  match number_as_f64 n with Some (S754_zero _) => true | _ => false end.

Definition is_one (n : Number) : bool :=
  match number_as_f64 n with Some x => SFeqb x (f64_of_Z 1) | None => false end.

Definition text_number (text : string) : option V :=
  let text := trim (as_bytes text) in
  match exact_integer text with
  | Some value => Some value
  | None => parsed ← parse_f64 text; if f64_is_finite parsed then Some (number_value parsed) else None
  end.

Definition text_integer (text : string) : option V :=
  let text := trim (as_bytes text) in
  match exact_integer text with
  | Some value => Some value
  | None =>
      parsed ← parse_f64 text;
      if is_whole parsed && SFltb (SFabs parsed) MAX_EXACT_FLOAT_INTEGER then Some (number_value parsed) else None
  end.

Definition convert (value : V) (kind : string) : option V :=
  let kind_is := String.eqb kind in
  match value with
  | Null =>
      if kind_is "number" || kind_is "integer" then Some (Num (number_from_int 0))
      else if kind_is "boolean" then Some (Bool false)
      else if kind_is "string" then Some (Str "")
      else None
  | Str text =>
      if kind_is "null" then if String.eqb text "" then Some Null else None
      else if kind_is "number" then text_number text
      else if kind_is "integer" then text_integer text
      else if kind_is "boolean" then
        if String.eqb text "true" then Some (Bool true)
        else if String.eqb text "false" then Some (Bool false)
        else None
      else None
  | Num number =>
      if kind_is "null" then if is_zero number then Some Null else None
      else if kind_is "integer" then
        parsed ← number_as_f64 number; if is_whole parsed then Some (number_value parsed) else None
      else if kind_is "boolean" then
        if is_one number then Some (Bool true) else if is_zero number then Some (Bool false) else None
      else if kind_is "string" then Some (Str (number_to_string number))
      else None
  | Bool flag =>
      if kind_is "null" then if flag then None else Some Null
      else if kind_is "number" || kind_is "integer" then Some (Num (number_from_int (if flag then 1 else 0)))
      else if kind_is "string" then Some (Str (if flag then "true" else "false"))
      else None
  | _ => None
  end.

(** ** Optional nulls *)

Definition schema_required (schema : V) : list string :=
  match value_get schema "required" ≫= value_as_array with
  | Some names => omap value_as_str names
  | None => []
  end.

(** [schema.get(key).map(f)] *)
Definition schema_get {B} (f : V -> B) (schema : V) (key : string) : option B :=
  match schema with Object m => map_find f key m | _ => None end.

(** The loop over [properties] for one property. *)
Definition normalize_property (normalize : V -> V -> V) (required : list string) (map : list (string * V))
    (property : string * V) : list (string * V) :=
  match map_get map property.1 with
  | None => map
  | Some value =>
      if value_is_null value && negb (existsb (String.eqb property.1) required) && negb (accepts_null property.2)
      then map_swap_remove map property.1
      else map_insert map property.1 (normalize property.2 value)
  end.

Definition normalize_items (normalize : V -> V -> V) (items : list V) (schema : V) : list V :=
  match schema with
  | Array schemas => zip_update normalize schemas items
  | schema => map (normalize schema) items
  end.

Definition normalize_properties (normalize : V -> V -> V) (required : list string) (map : list (string * V))
    (properties : V) : list (string * V) :=
  match properties with
  | Object properties => fold_left (normalize_property normalize required) properties map
  | _ => map
  end.

Fixpoint normalize_optional_nulls (schema value : V) {struct schema} : V :=
  match value with
  | Array items =>
      Array (default items (schema_get (normalize_items normalize_optional_nulls items) schema "items"))
  | Object map =>
      Object (default map
        (schema_get (normalize_properties normalize_optional_nulls (schema_required schema) map) schema "properties"))
  | value => value
  end.

(** ** Coercion *)

(** The first coercion a branch accepts; the value stays when it is valid for one already, or when no
    coercion is accepted. *)
Definition coerce_to_union (coerce : V -> V -> V) (value branches : V) : V :=
  match branches with
  | Array branches =>
      if existsb (fun branch => is_valid_for branch value) branches then value
      else
        default value
          ((fix first (branches : list V) : option V :=
              match branches with
              | [] => None
              | branch :: branches =>
                  let candidate := coerce branch value in
                  if is_valid_for branch candidate then Some candidate else first branches
              end) branches)
  | _ => value
  end.

Definition coerce_all (coerce : V -> V -> V) (value schemas : V) : V :=
  match schemas with
  | Array schemas => fold_left (fun value schema => coerce schema value) schemas value
  | _ => value
  end.

(** To the schema's own types, when the value has none of them. *)
Definition coerce_to_types (types : list string) (value : V) : V :=
  if existsb (matches_type value) types then value
  else default value (head (omap (convert value) types)).

Definition coerce_property (coerce : V -> V -> V) (schema : V) (entry : string * V) : string * V :=
  let '(key, value) := entry in
  (key,
    match schema_get (fun properties => schema_get (fun property => coerce property value) properties key)
            schema "properties" with
    | Some (Some value) => value
    | _ =>
        match schema_get (fun additional =>
                match additional with Object _ => coerce additional value | _ => value end)
                schema "additionalProperties" with
        | Some value => value
        | None => value
        end
    end).

Definition coerce_items (coerce : V -> V -> V) (items : list V) (schema : V) : list V :=
  match schema with
  | Array schemas => zip_update coerce schemas items
  | Object _ => map (coerce schema) items
  | _ => items
  end.

Fixpoint coerce (schema value : V) {struct schema} : V :=
  let value := default value (schema_get (coerce_all coerce value) schema "allOf") in
  let value := default value (schema_get (coerce_to_union coerce value) schema "anyOf") in
  let value := default value (schema_get (coerce_to_union coerce value) schema "oneOf") in
  let types := schema_types schema in
  let value := coerce_to_types types value in
  match value with
  | Object map =>
      if existsb (String.eqb "object") types then Object (List.map (coerce_property coerce schema) map)
      else value
  | Array items =>
      if existsb (String.eqb "array") types
      then Array (default items (schema_get (coerce_items coerce items) schema "items"))
      else value
  | value => value
  end.

(** ** Validation *)

(** [path.trim_start_matches('/')] *)
Fixpoint trim_slashes (path : string) : string :=
  match path with String "/"%char path => trim_slashes path | path => path end.

(** [path.replace('/', ".")] *)
Fixpoint slashes_to_dots (path : string) : string :=
  match path with
  | String c path => String (if Ascii.eqb c "/"%char then "."%char else c) (slashes_to_dots path)
  | EmptyString => ""
  end.

Definition error_line (error : string * string) : string :=
  let path := slashes_to_dots (trim_slashes error.1) in
  let path := if String.eqb path "" then "root" else path in
  String.concat "" ["  - "; path; ": "; error.2].

Definition validate_tool_arguments (tool : Tool Number) (call : ToolCall Number) : result string V :=
  match tc_arguments_error call with
  | Some error => Err (String.concat "" ["Invalid arguments for tool "; quote; tc_name call; quote; ": "; error])
  | None =>
      let args := normalize_optional_nulls (to_parameters tool) (Object (tc_arguments call)) in
      let args := coerce (to_parameters tool) args in
      match validator_for (to_parameters tool) with
      | Err error =>
          Err (String.concat "" ["Tool "; quote; to_name tool; quote; " has an invalid parameter schema: "; error])
      | Ok validator =>
          let errors := error_line <$> iter_errors validator args in
          if bool_decide (errors = []) then Ok args
          else
            let received := default "" (to_string_pretty (tc_arguments call)) in
            Err (String.concat "" ["Validation failed for tool "; quote; tc_name call; quote; ":"; newline;
                                   join newline errors; blank_line; "Received arguments:"; newline; received])
      end
  end.
End Validation.

(** ** Maps and schemas *)

Lemma map_find_get {V B : Type} (f : V -> B) key m : map_find f key m = f <$> map_get m key.
Proof. induction m as [|[k v] m IH]; [done|]. simpl. by destruct (String.eqb k key). Qed.

Lemma schema_get_eq {Number B : Type} (f : Value Number -> B) schema key :
  schema_get f schema key = f <$> value_get schema key.
Proof. destruct schema; try done. apply map_find_get. Qed.

Lemma map_get_elem_of {V : Type} (m : list (string * V)) key v :
  NoDup m.*1 -> map_get m key = Some v <-> (key, v) ∈ m.
Proof.
  induction m as [|[k w] m IH]; simpl; intros Hnd; [by split; [|intros ?%elem_of_nil]|].
  apply NoDup_cons in Hnd as [Hk Hnd]. rewrite elem_of_cons. destruct (String.eqb_spec k key) as [->|Hne].
  - split; [intros [= ->]; by left|]. intros [[= ->]|Hin]; [done|].
    by apply (list_elem_of_fmap_2 fst) in Hin.
  - rewrite IH by done. naive_solver.
Qed.

Lemma map_swap_remove_perm {V : Type} (m : list (string * V)) key v :
  NoDup m.*1 -> (key, v) ∈ m -> (key, v) :: map_swap_remove m key ≡ₚ m.
Proof.
  intros Hnd Hin. unfold map_swap_remove.
  destruct (list_find _ m) as [[i [k w]]|] eqn:Hfind.
  2:{ apply list_find_None in Hfind. rewrite Forall_forall in Hfind. by destruct (Hfind _ Hin). }
  apply list_find_Some in Hfind as (Hi & Hk & _). simpl in Hk. subst k.
  assert (w = v) as ->.
  { apply list_elem_of_lookup_2 in Hi. apply (map_get_elem_of _ _ _ Hnd) in Hi, Hin. congruence. }
  apply list_elem_of_split_length in Hi as (l1 & l2 & -> & ->).
  destruct l2 as [|e l2 _] using rev_ind.
  - rewrite last_snoc, insert_app_r_alt by done. rewrite length_app, Nat.sub_diag. cbn [length].
    rewrite take_app_length' by lia. by rewrite Permutation_cons_append.
  - rewrite app_comm_cons, (assoc_L (++)), last_snoc. rewrite <- (assoc_L (++)). cbn [app].
    rewrite insert_app_r_alt by done. rewrite Nat.sub_diag. cbn [list_insert].
    rewrite length_app. cbn [length]. rewrite length_app. cbn [length].
    change (<[0%nat:=e]> ((key, v) :: l2 ++ [e])) with (e :: l2 ++ [e]).
    rewrite app_comm_cons, (assoc_L (++)), take_app_length' by (rewrite length_app; cbn [length]; lia).
    solve_Permutation.
Qed.

Lemma map_get_perm {V : Type} (m m' : list (string * V)) key :
  NoDup m.*1 -> m ≡ₚ m' -> map_get m key = map_get m' key.
Proof.
  intros Hnd Hperm. assert (Hnd' : NoDup m'.*1) by by rewrite <- Hperm.
  apply option_eq. intros v. rewrite !map_get_elem_of by done. by rewrite Hperm.
Qed.

Lemma map_get_swap_remove {V : Type} (m : list (string * V)) key k v :
  NoDup m.*1 -> map_get m key = Some v ->
  map_get (map_swap_remove m key) k = if String.eqb key k then None else map_get m k.
Proof.
  intros Hnd Hget. pose proof (map_swap_remove_perm m key v Hnd) as Hperm.
  apply map_get_elem_of in Hget; [|done]. specialize (Hperm Hget).
  assert (Hnd' : NoDup ((key, v) :: map_swap_remove m key).*1) by by rewrite Hperm.
  rewrite <- (map_get_perm _ _ k Hnd' Hperm). cbn [map_get].
  destruct (String.eqb_spec key k) as [->|]; [|done].
  destruct (map_get (map_swap_remove m k) k) as [w|] eqn:Hw; [|done]. exfalso.
  apply NoDup_cons in Hnd' as [Hk Hnd']. apply Hk.
  apply map_get_elem_of in Hw; [|done]. by apply (list_elem_of_fmap_2 fst) in Hw.
Qed.

Lemma NoDup_swap_remove {V : Type} (m : list (string * V)) key v :
  NoDup m.*1 -> map_get m key = Some v -> NoDup (map_swap_remove m key).*1.
Proof.
  intros Hnd Hget%map_get_elem_of; [|done]. pose proof (map_swap_remove_perm m key v Hnd Hget) as Hperm.
  rewrite <- Hperm in Hnd. by apply NoDup_cons in Hnd as [_ Hnd].
Qed.

(** ** Optional nulls are dropped, and nothing else *)

Section Nulls.
Context {Number : Type} {JS : JsonSchema Number}.
Notation V := (Value Number).

(** What [properties] says of a key. *)
Definition property_of (schema : V) (key : string) : option V :=
  match value_get schema "properties" with Some (Object properties) => map_get properties key | _ => None end.

Definition stray_null (schema : V) (key : string) (property value : V) : bool :=
  value_is_null value && negb (existsb (String.eqb key) (schema_required schema)) && negb (accepts_null property).

(** What becomes of one entry. *)
Definition kept_value (schema : V) (key : string) (value : V) : option V :=
  match property_of schema key with
  | None => Some value
  | Some property =>
      if stray_null schema key property value then None else Some (normalize_optional_nulls property value)
  end.

(** The keys of a parsed object are distinct. *)
Definition distinct_properties (schema : V) : Prop :=
  forall properties, value_get schema "properties" = Some (Object properties) -> NoDup properties.*1.

Lemma normalize_property_get normalize required (map : list (string * V)) key property k :
  NoDup map.*1 ->
  NoDup (normalize_property normalize required map (key, property)).*1 /\
  map_get (normalize_property normalize required map (key, property)) k =
    if String.eqb key k then
      value ← map_get map key;
      if value_is_null value && negb (existsb (String.eqb key) required) && negb (accepts_null property)
      then None else Some (normalize property value)
    else map_get map k.
Proof.
  intros Hnd. unfold normalize_property. cbn [fst snd].
  destruct (map_get map key) as [value|] eqn:Hget; cbn [mbind option_bind].
  2:{ split; [done|]. by destruct (String.eqb_spec key k) as [<-|]. }
  destruct (_ && _ && _).
  - split; [by eapply NoDup_swap_remove|]. by erewrite map_get_swap_remove.
  - split; [by apply NoDup_map_insert|]. by rewrite map_get_insert.
Qed.

Lemma fold_normalize_get normalize required properties (map : list (string * V)) :
  NoDup map.*1 -> NoDup properties.*1 ->
  NoDup (fold_left (normalize_property normalize required) properties map).*1 /\
  forall k, map_get (fold_left (normalize_property normalize required) properties map) k =
    value ← map_get map k;
    match map_get properties k with
    | None => Some value
    | Some property =>
        if value_is_null value && negb (existsb (String.eqb k) required) && negb (accepts_null property)
        then None else Some (normalize property value)
    end.
Proof.
  revert map. induction properties as [|[key property] properties IH]; intros map Hnd Hprops.
  - split; [done|]. intros k. cbn. by destruct (map_get map k).
  - apply NoDup_cons in Hprops as [Hkey Hprops]. cbn [fold_left].
    assert (Hstep := fun k => normalize_property_get normalize required map key property k Hnd).
    destruct (IH _ (proj1 (Hstep key)) Hprops) as [Hnd' IHget]. split; [done|]. intros k.
    rewrite IHget, (proj2 (Hstep k)). cbn [map_get].
    destruct (String.eqb_spec key k) as [->|]; [|done].
    assert (map_get properties k = None) as ->.
    { apply eq_None_not_Some. intros [p Hp%map_get_elem_of]; [|done].
      apply Hkey. by apply (list_elem_of_fmap_2 fst) in Hp. }
    destruct (map_get map k); [cbn|done]. by destruct (_ && _ && _).
Qed.

(** C26: An object loses exactly the entries that are [null] where the schema declares the property, does
    not require it and does not accept [null] for it; the other declared entries are normalised in
    turn, and undeclared ones stay as they are. *)
Theorem optional_nulls_dropped_exactly (schema : V) (args : list (string * V))
    (Hargs : NoDup args.*1) (Hschema : distinct_properties schema) :
  exists args', normalize_optional_nulls schema (Object args) = Object args' /\ NoDup args'.*1 /\
    forall key, map_get args' key = map_get args key ≫= kept_value schema key.
Proof.
  destruct schema as [| | | | |entries];
    try (exists args; split_and!; [done|done|]; intros key; cbn; by destruct (map_get args key)).
  cbn [normalize_optional_nulls]. rewrite schema_get_eq. set (schema := Object entries) in *.
  destruct (value_get schema "properties") as [properties|] eqn:Hget; cbn [fmap option_fmap option_map default].
  2:{ exists args. split_and!; [done|done|]. intros key. unfold kept_value, property_of. rewrite Hget.
      by destruct (map_get args key). }
  destruct properties as [| | | | |properties]; cbn [normalize_properties];
    try (exists args; split_and!; [done|done|]; intros key; unfold kept_value, property_of; rewrite Hget;
         by destruct (map_get args key)).
  destruct (fold_normalize_get normalize_optional_nulls (schema_required schema) properties args Hargs) as [Hnd Hkept];
    [by apply Hschema|].
  eexists. split_and!; [done|done|]. intros key. rewrite Hkept. unfold kept_value, property_of, stray_null.
  by rewrite Hget.
Qed.
End Nulls.

(** ** Conversions give the type they are asked for *)

Section Conversions.
Context {Number : Type} {J : JsonCrate Number} {JN : JsonNumbers Number} {JL : JsonNumbersLaws Number}.
Notation V := (Value Number).

(** The value has the type, or is a whole float where an integer is asked for, which JSON Schema
    accepts. *)
Definition converted (value : V) (kind : string) : Prop :=
  matches_type value kind = true \/
  kind = "integer" /\ exists n x, value = Num n /\ number_as_f64 n = Some x /\ is_whole x = true.

Lemma digits_value_nonneg digits acc : 0 <= acc -> forallb is_digit digits = true -> 0 <= digits_value acc digits.
Proof.
  revert acc. induction digits as [|d digits IH]; intros acc Hacc; [done|]. cbn.
  unfold is_digit. rewrite !andb_true_iff, !Z.leb_le. intros [Hd Hdigits]. apply IH; [lia|done].
Qed.

Lemma parse_digits_nonneg text n : parse_digits text = Some n -> 0 <= n.
Proof.
  unfold parse_digits. destruct (_ && _) eqn:Hok; [|done]. intros [= <-].
  apply andb_prop in Hok as [_ Hdigits]. by apply digits_value_nonneg.
Qed.

Lemma parse_i64_range text n : parse_i64 text = Some n -> -9223372036854775808 <= n <= 9223372036854775807.
Proof.
  unfold parse_i64. destruct (match text with x2d :: _ => _ | _ => _ end) as [negative digits].
  destruct (parse_digits digits) as [m|]; [cbn|done]. destruct (_ && _) eqn:Hok; [|done]. intros [= <-].
  apply andb_prop in Hok. lia.
Qed.

Lemma parse_u64_range text n : parse_u64 text = Some n -> 0 <= n <= 18446744073709551615.
Proof.
  unfold parse_u64. destruct (parse_digits _) as [m|] eqn:Hm; [cbn|done].
  apply parse_digits_nonneg in Hm. destruct (m <=? U64_MAX) eqn:Hle; [|done]. intros [= <-].
  apply Z.leb_le in Hle. unfold U64_MAX in Hle. lia.
Qed.

Lemma from_int_integer z :
  -9223372036854775808 <= z <= 18446744073709551615 -> matches_type (Num (number_from_int z)) "integer" = true.
Proof.
  intros Hz. cbn. apply orb_true_iff. destruct (Z.le_gt_cases z 9223372036854775807).
  - left. apply from_int_i64. lia.
  - right. apply from_int_u64. lia.
Qed.

Lemma f64_as_i64_range x : -9223372036854775808 <= f64_as_i64 x <= 9223372036854775807.
Proof. destruct x as [|[]| |negative m e]; cbn; lia. Qed.

Lemma exact_integer_shape text value :
  exact_integer text = Some value -> exists n, value = Num n /\ matches_type (Num n) "integer" = true.
Proof.
  unfold exact_integer. destruct (parse_i64 text) as [n|] eqn:Hi.
  - intros [= <-]. apply parse_i64_range in Hi. eexists. split; [done|]. apply from_int_integer. lia.
  - destruct (parse_u64 text) as [n|] eqn:Hu; [|done]. intros [= <-]. apply parse_u64_range in Hu.
    eexists. split; [done|]. apply from_int_integer. lia.
Qed.

Lemma number_value_shape x :
  f64_is_finite x = true ->
  exists n, number_value x = Num n /\ (is_whole x = true -> converted (number_value x) "integer").
Proof.
  intros Hfinite. unfold number_value. destruct (is_whole x && _) eqn:Hint.
  - eexists. split; [done|]. intros _. left. apply from_int_integer. pose proof (f64_as_i64_range x). lia.
  - destruct (from_f64_finite x Hfinite) as (n & -> & Hn). exists n. split; [done|]. intros Hwhole. right.
    split; [done|]. by exists n, x.
Qed.

Lemma is_whole_finite x : is_whole x = true -> f64_is_finite x = true.
Proof. by destruct x. Qed.

Lemma text_number_shape text value : text_number text = Some value -> matches_type value "number" = true.
Proof.
  unfold text_number. destruct (exact_integer _) as [v|] eqn:Hexact.
  - intros [= <-]. by apply exact_integer_shape in Hexact as (n & -> & _).
  - destruct (parse_f64 _) as [x|]; [cbn|done]. destruct (f64_is_finite x) eqn:Hfinite; [|done]. intros [= <-].
    by destruct (number_value_shape x Hfinite) as (n & -> & _).
Qed.

Lemma text_integer_shape text value : text_integer text = Some value -> converted value "integer".
Proof.
  unfold text_integer. destruct (exact_integer _) as [v|] eqn:Hexact.
  - intros [= <-]. apply exact_integer_shape in Hexact as (n & -> & Hn). by left.
  - destruct (parse_f64 _) as [x|]; [cbn|done]. destruct (is_whole x && _) eqn:Hwhole; [|done]. intros [= <-].
    apply andb_prop in Hwhole as [Hwhole _].
    destruct (number_value_shape x (is_whole_finite x Hwhole)) as (number' & _ & Hconverted). by apply Hconverted.
Qed.

Lemma convert_typed (value : V) (kind : string) (w : V) : convert value kind = Some w -> converted w kind.
Proof.
  unfold convert. destruct value as [|flag|number|text| |]; try done;
    repeat match goal with
    | |- context [String.eqb ?k ?s] => destruct (String.eqb_spec k s) as [->|]; cbn [orb]
    end; try done; try (intros [= <-]; by left); try (by destruct flag; intros [= <-]; left).
  - intros [= <-]. left. apply from_int_integer. lia.
  - destruct flag; intros [= <-]; left; apply from_int_integer; lia.
  - destruct (is_zero number); [|done]. intros [= <-]. by left.
  - destruct (number_as_f64 number) as [x|] eqn:Hx; [cbn|done]. destruct (is_whole x) eqn:Hwhole; [|done].
    intros [= <-]. destruct (number_value_shape x (is_whole_finite x Hwhole)) as (number' & _ & Hconverted).
    by apply Hconverted.
  - destruct (is_one number); [|destruct (is_zero number); [|done]]; intros [= <-]; by left.
  - intros Htext. left. by eapply text_number_shape.
  - by apply text_integer_shape.
Qed.

(** A coerced primitive has one of the schema's types, when any conversion to one exists. *)
Lemma coerced_to_types (types : list string) (value : V) :
  coerce_to_types types value = value \/ exists kind, kind ∈ types /\ converted (coerce_to_types types value) kind.
Proof.
  unfold coerce_to_types. destruct (existsb _ types); [by left|].
  induction types as [|kind types IH]; [by left|]. cbn [omap list_omap].
  destruct (convert value kind) as [w|] eqn:Hw; cbn [head default].
  - right. exists kind. split; [by left|]. by eapply convert_typed.
  - destruct IH as [IH|(k & Hin & Hk)]; [by left|]. right. exists k. split; [by right|done].
Qed.
End Conversions.

(** ** Arguments that fit pass unchanged *)

Section PassThrough.
Context {Number : Type} {J : JsonCrate Number} {JN : JsonNumbers Number} {JS : JsonSchema Number}.
Notation V := (Value Number).

(** The schema of an object's entry, and of an array's item. *)
Definition entry_schema (schema : V) (key : string) : option V :=
  match property_of schema key with
  | Some property => Some property
  | None => match value_get schema "additionalProperties" with Some (Object entries) => Some (Object entries) | _ => None end
  end.

Definition item_schema (schema : V) (index : nat) : option V :=
  match value_get schema "items" with
  | Some (Array schemas) => schemas !! index
  | Some (Object entries) => Some (Object entries)
  | _ => None
  end.

(** A value has a declared type at every place the schema speaks of, fits every [allOf] and is valid for
    a branch of each union. *)
Inductive fits : V -> V -> Prop :=
| fits_intro schema value :
    (forall schemas nested, value_get schema "allOf" = Some (Array schemas) -> nested ∈ schemas -> fits nested value) ->
    (forall key branches, key ∈ ["anyOf"; "oneOf"] -> value_get schema key = Some (Array branches) ->
      exists branch, branch ∈ branches /\ is_valid_for branch value = true) ->
    (schema_types schema = [] \/ exists kind, kind ∈ schema_types schema /\ matches_type value kind = true) ->
    (forall entries key entry nested, value = Object entries -> (key, entry) ∈ entries ->
      entry_schema schema key = Some nested -> fits nested entry) ->
    (forall items index item nested, value = Array items -> items !! index = Some item ->
      item_schema schema index = Some nested -> fits nested item) ->
    fits schema value.

(** No place holds a [null] that would be dropped. *)
Inductive no_stray_nulls : V -> V -> Prop :=
| no_stray_intro schema value :
    (forall entries key entry properties property, value = Object entries -> map_get entries key = Some entry ->
      value_get schema "properties" = Some (Object properties) -> (key, property) ∈ properties ->
      stray_null schema key property entry = false) ->
    (forall entries key entry properties property, value = Object entries -> map_get entries key = Some entry ->
      value_get schema "properties" = Some (Object properties) -> (key, property) ∈ properties ->
      no_stray_nulls property entry) ->
    (forall items index item nested, value = Array items -> items !! index = Some item ->
      match value_get schema "items" with Some (Array schemas) => schemas !! index | other => other end = Some nested ->
      no_stray_nulls nested item) ->
    no_stray_nulls schema value.

Lemma zip_update_same (f : V -> V -> V) schemas items :
  (forall index item schema, items !! index = Some item -> schemas !! index = Some schema -> f schema item = item) ->
  zip_update f schemas items = items.
Proof.
  revert items. induction schemas as [|schema schemas IH]; intros [|item items] Hsame; try done. simpl.
  f_equal; [by apply (Hsame 0%nat)|]. apply IH. intros index. apply (Hsame (S index)).
Qed.

Lemma map_same {A} (f : A -> A) (l : list A) : (forall index x, l !! index = Some x -> f x = x) -> map f l = l.
Proof.
  induction l as [|x l IH]; intros Hsame; [done|]. simpl. f_equal; [by apply (Hsame 0%nat)|].
  apply IH. intros index. apply (Hsame (S index)).
Qed.

Lemma map_insert_same {A} (m : list (string * A)) key v : map_get m key = Some v -> map_insert m key v = m.
Proof.
  induction m as [|[k w] m IH]; [done|]. simpl. destruct (String.eqb_spec k key) as [->|].
  - by intros [= ->].
  - intros Hget. by rewrite IH.
Qed.

Lemma fold_normalize_same normalize required properties (m : list (string * V)) :
  (forall key property entry, (key, property) ∈ properties -> map_get m key = Some entry ->
    value_is_null entry && negb (existsb (String.eqb key) required) && negb (accepts_null property) = false /\
    normalize property entry = entry) ->
  fold_left (normalize_property normalize required) properties m = m.
Proof.
  induction properties as [|[key property] properties IH]; intros Hsame; [done|]. cbn [fold_left].
  assert (normalize_property normalize required m (key, property) = m) as ->.
  { unfold normalize_property. cbn [fst snd]. destruct (map_get m key) as [entry|] eqn:Hget; [|done].
    destruct (Hsame key property entry) as [-> ->]; [by left|done|]. by apply map_insert_same. }
  apply IH. intros k p entry Hin. apply Hsame. by right.
Qed.

Lemma normalize_same schema value : no_stray_nulls schema value -> normalize_optional_nulls schema value = value.
Proof.
  induction 1 as [schema value Hentries _ IHentries _ IHitems].
  destruct schema as [| | | | |m]; destruct value as [| | | |items|entries]; try done;
    cbn [normalize_optional_nulls]; rewrite schema_get_eq;
    set (schema := Object m) in *; f_equal.
  - destruct (value_get schema "items") as [nested|] eqn:Hget; cbn [fmap option_fmap option_map default]; [|done].
    destruct nested; cbn [normalize_items];
      try exact (map_same _ _ (fun index item Hitem => IHitems items index item _ eq_refl Hitem eq_refl)).
    apply zip_update_same. intros index item nested Hitem Hnested. by eapply IHitems.
  - destruct (value_get schema "properties") as [properties|] eqn:Hget; cbn; [|done].
    destruct properties; cbn; try done. apply fold_normalize_same. intros key property entry Hin Hentry.
    split; [by eapply Hentries | by eapply IHentries].
Qed.

Lemma fold_same {A B} (f : A -> B -> A) (l : list B) (a : A) : (forall x, x ∈ l -> f a x = a) -> fold_left f l a = a.
Proof.
  induction l as [|x l IH]; intros Hsame; [done|]. cbn. rewrite Hsame by by left. apply IH. intros y Hy.
  apply Hsame. by right.
Qed.

Lemma existsb_true {A} (f : A -> bool) (l : list A) x : x ∈ l -> f x = true -> existsb f l = true.
Proof. intros Hin Hx. apply existsb_exists. exists x. by rewrite <- list_elem_of_In. Qed.

Lemma coerce_property_same schema key entry :
  (forall nested, entry_schema schema key = Some nested -> coerce nested entry = entry) ->
  coerce_property coerce schema (key, entry) = (key, entry).
Proof.
  unfold entry_schema, property_of, coerce_property. intros Hsame. f_equal. rewrite !schema_get_eq.
  assert (Hadditional : (forall nested,
      match value_get schema "additionalProperties" with Some (Object es) => Some (Object es) | _ => None end = Some nested ->
      coerce nested entry = entry) ->
    match (fun additional => match additional with Object _ => coerce additional entry | _ => entry end)
      <$> value_get schema "additionalProperties" with Some value => value | None => entry end = entry).
  { clear Hsame. intros Hsame. destruct (value_get schema "additionalProperties") as [[]|]; try done. by apply Hsame. }
  destruct (value_get schema "properties") as [properties|]; [cbn|by apply Hadditional].
  destruct properties as [| | | | |ps]; cbn; try by apply Hadditional. rewrite map_find_get.
  destruct (map_get ps key) as [property|]; [by apply Hsame|by apply Hadditional].
Qed.

Lemma coerce_same schema value : fits schema value -> coerce schema value = value.
Proof.
  induction 1 as [schema value _ IHall Hunion Htypes _ IHentries _ IHitems].
  destruct schema as [| | | | |m]; [by destruct value..|]. set (schema := Object m) in *.
  assert (Hunions : forall key, key ∈ ["anyOf"; "oneOf"] ->
    default value (schema_get (coerce_to_union coerce value) schema key) = value).
  { intros key Hkey. rewrite schema_get_eq. destruct (value_get schema key) as [branches|] eqn:Hget; [cbn|done].
    destruct branches; try done. cbn. destruct (Hunion key vs Hkey Hget) as (branch & Hin & Hvalid).
    by rewrite (existsb_true _ _ _ Hin Hvalid). }
  assert (Hall : default value (schema_get (coerce_all coerce value) schema "allOf") = value).
  { rewrite schema_get_eq. destruct (value_get schema "allOf") as [schemas|] eqn:Hget; [cbn|done].
    destruct schemas; try done. cbn. apply fold_same. intros nested Hin. by eapply IHall. }
  assert (Htyped : coerce_to_types (schema_types schema) value = value).
  { unfold coerce_to_types. destruct Htypes as [->|(kind & Hin & Hmatch)]; [done|].
    by rewrite (existsb_true _ _ _ Hin Hmatch). }
  change (coerce schema value) with
    (let value := default value (schema_get (coerce_all coerce value) schema "allOf") in
     let value := default value (schema_get (coerce_to_union coerce value) schema "anyOf") in
     let value := default value (schema_get (coerce_to_union coerce value) schema "oneOf") in
     let types := schema_types schema in
     let value := coerce_to_types types value in
     match value with
     | Object map =>
         if existsb (String.eqb "object") types then Object (List.map (coerce_property coerce schema) map) else value
     | Array items =>
         if existsb (String.eqb "array") types
         then Array (default items (schema_get (coerce_items coerce items) schema "items")) else value
     | value => value
     end).
  cbv zeta. rewrite Hall, !Hunions, Htyped by (rewrite !elem_of_cons; auto).
  destruct value as [| | | |items|entries]; try done; destruct (existsb _ _); try done; f_equal.
  - rewrite schema_get_eq. unfold item_schema in IHitems.
    destruct (value_get schema "items") as [nested|]; cbn [fmap option_fmap option_map default]; [|done].
    destruct nested as [| | | |schemas|n]; cbn [coerce_items]; try done.
    + apply zip_update_same. intros index item s Hitem Hs. by apply (IHitems items index item s).
    + exact (map_same _ _ (fun index item Hitem => IHitems items index item _ eq_refl Hitem eq_refl)).
  - apply map_same. intros index [key entry] Hentry%list_elem_of_lookup_2. apply coerce_property_same.
    intros nested. by apply (IHentries entries).
Qed.
End PassThrough.

(** ** What validation lets through *)

Section Validated.
Context {Number : Type} {J : JsonCrate Number} {JN : JsonNumbers Number} {JS : JsonSchema Number}.
Context {JSL : JsonSchemaLaws Number}.

Lemma validated_valid (tool : Tool Number) (call : ToolCall Number) (args : Value Number) :
  validate_tool_arguments tool call = Ok args -> is_valid_for (to_parameters tool) args = true.
Proof.
  unfold validate_tool_arguments, is_valid_for. destruct (tc_arguments_error call); [done|].
  destruct (validator_for _) as [validator|error] eqn:Hcompiles; [|done].
  case_bool_decide as Herrors; [|done]. intros [= <-].
  apply (valid_iff_no_errors _ _ _ Hcompiles). by apply fmap_nil_inv in Herrors.
Qed.

(** C27: Validation answers with arguments the tool's schema accepts or with an error, never for a call whose
    text was malformed; and arguments that fit the schema as they are, with no [null] to drop, are
    executed exactly as the model sent them. *)
Theorem validation_exact (tool : Tool Number) (call : ToolCall Number) :
  (forall args, validate_tool_arguments tool call = Ok args ->
    tc_arguments_error call = None /\ is_valid_for (to_parameters tool) args = true) /\
  (tc_arguments_error call = None ->
    no_stray_nulls (to_parameters tool) (Object (tc_arguments call)) ->
    fits (to_parameters tool) (Object (tc_arguments call)) ->
    is_valid_for (to_parameters tool) (Object (tc_arguments call)) = true ->
    validate_tool_arguments tool call = Ok (Object (tc_arguments call))).
Proof.
  split.
  - intros args Hok. split; [|by apply (validated_valid tool call)].
    unfold validate_tool_arguments in Hok. by destruct (tc_arguments_error call).
  - intros Herror Hnulls Hfits Hvalid. unfold validate_tool_arguments, is_valid_for in *.
    rewrite Herror, (normalize_same _ _ Hnulls), (coerce_same _ _ Hfits).
    destruct (validator_for _) as [validator|] eqn:Hcompiles; [|done].
    apply (valid_iff_no_errors _ _ _ Hcompiles) in Hvalid. by rewrite Hvalid.
Qed.
End Validated.

(** ** A concrete crate *)

(** Numbers are integers or floats; a schema checks only types, at the top. *)
Module Toy.

Inductive JsonNumber := Int (z : Z) | Float (x : F64).

#[export] Instance JsonNumber_eq_dec : EqDecision JsonNumber.
Proof.
  assert (EqDecision F64) by (unfold F64; solve_decision). solve_decision.
Defined.

#[export] Instance toy_eq : JsonEq JsonNumber := value_eqb_with (fun n m => bool_decide (n = m)).

#[export] Instance toy_eq_laws : JsonEqLaws JsonNumber.
Proof. apply json_eq_laws_of. intros n m. apply bool_decide_eq_true. Qed.

#[export] Instance toy_crate : JsonCrate JsonNumber := {|
  number_as_i64 n := match n with Int z => number_as_i64 z | Float _ => None end;
  number_to_string n := match n with Int z => number_to_string z | Float _ => "0.5" end;
  value_to_string _ := "";
  value_from_slice _ := None;
|}.

#[export] Instance toy_numbers : JsonNumbers JsonNumber := {|
  number_is_i64 n := match n with Int z => (-9223372036854775808 <=? z) && (z <=? 9223372036854775807) | Float _ => false end;
  number_is_u64 n := match n with Int z => (0 <=? z) && (z <=? 18446744073709551615) | Float _ => false end;
  number_as_f64 n := Some (match n with Int z => f64_of_Z z | Float x => x end);
  number_from_int := Int;
  number_from_f64 x := if f64_is_finite x then Some (Float x) else None;
  to_string_pretty _ := Some "{}";
|}.

#[export] Instance toy_numbers_laws : JsonNumbersLaws JsonNumber.
Proof.
  split; cbn.
  - intros z Hz. apply andb_true_iff. lia.
  - intros z Hz. apply andb_true_iff. lia.
  - intros x ->. by exists (Float x).
Qed.

Definition type_ok (schema value : Value JsonNumber) : bool :=
  match schema_types schema with [] => true | types => existsb (matches_type value) types end.

#[export] Instance toy_schema : JsonSchema JsonNumber := fun schema =>
  Ok (MkValidator (type_ok schema) (fun value => if type_ok schema value then [] else [("", "wrong type")])).

#[export] Instance toy_schema_laws : JsonSchemaLaws JsonNumber.
Proof. intros schema validator value [= <-]. cbn. by destruct (type_ok schema value). Qed.

Definition of_type (kind : string) : Value JsonNumber := Object [("type", Str kind)].

Definition read_schema : Value JsonNumber :=
  Object [("type", Str "object");
          ("properties", Object [("path", of_type "string"); ("offset", of_type "integer"); ("all", of_type "boolean")]);
          ("required", Array [Str "path"])].

Definition read_tool : Tool JsonNumber := MkTool "read" "" read_schema None.

Definition read_call (arguments : list (string * Value JsonNumber)) : ToolCall JsonNumber :=
  MkToolCall "c1" "read" arguments None None.

(** Primitives are coerced, an optional null is dropped, a required one is not. *)
Example coerced :
  validate_tool_arguments read_tool (read_call [("path", Num (Int 7)); ("offset", Str " 1e3 "); ("all", Null)])
  = Ok (Object [("path", Str "7"); ("offset", Num (Int 1000))]).
Proof. vm_compute. reflexivity. Qed.

Example required_null :
  validate_tool_arguments read_tool (read_call [("path", Null); ("offset", Str "9007199254740993"); ("all", Str "true")])
  = Ok (Object [("path", Str ""); ("offset", Num (Int 9007199254740993)); ("all", Bool true)]).
Proof. vm_compute. reflexivity. Qed.
End Toy.
Import Toy.

Lemma optional_nulls_dropped_exactly_witness :
  exists args',
    normalize_optional_nulls read_schema (Object [("all", Null); ("path", Null); ("extra", Null)]) = Object args' /\
    map_get args' "all" = None /\ map_get args' "path" = Some Null /\ map_get args' "extra" = Some Null.
Proof.
  destruct (optional_nulls_dropped_exactly read_schema
    [("all", Null); ("path", Null); ("extra", Null)]) as (args' & Hargs & _ & Hget).
  - apply (bool_decide_unpack _). vm_compute. exact I.
  - intros properties Hproperties. vm_compute in Hproperties. injection Hproperties as <-.
    apply (bool_decide_unpack _). vm_compute. exact I.
  - exists args'. split; [exact Hargs|]. rewrite !Hget. vm_compute. auto.
Defined.

Lemma validation_exact_witness :
  is_valid_for read_schema (Object [("path", Str "7")]) = true /\
  validate_tool_arguments read_tool (read_call [("path", Str "a")]) = Ok (Object [("path", Str "a")]).
Proof.
  split.
  - apply (proj1 (validation_exact (JSL := toy_schema_laws) read_tool (read_call [("path", Num (Int 7))]))).
    vm_compute. reflexivity.
  - apply (proj2 (validation_exact (JSL := toy_schema_laws) read_tool (read_call [("path", Str "a")]))).
    + reflexivity.
    + constructor.
      * intros entries key entry properties property [= <-] Hget _ _.
        apply map_get_elem_of, list_elem_of_singleton in Hget; [by injection Hget as -> ->|apply NoDup_singleton].
      * intros entries key entry properties property [= <-] Hget _ _.
        apply map_get_elem_of, list_elem_of_singleton in Hget; [|apply NoDup_singleton].
        injection Hget as -> ->. by constructor.
      * intros items index item nested [=].
    + constructor.
      * intros schemas nested [=].
      * intros key branches Hkey. rewrite !elem_of_cons in Hkey. by destruct Hkey as [->|[->|[]%elem_of_nil]].
      * right. exists "object". split; [by left|reflexivity].
      * intros entries key entry nested [= <-] Hin%list_elem_of_singleton. injection Hin as -> ->.
        intros Hnested. vm_compute in Hnested. injection Hnested as <-. constructor; try (by intros).
        { intros k branches Hk. rewrite !elem_of_cons in Hk. by destruct Hk as [->|[->|[]%elem_of_nil]]. }
        right. exists "string". split; [by left|reflexivity].
      * intros items index item nested [=].
    + reflexivity.
Defined.
