(* ===== verification/AgentTypes.v ===== *)
(** * The agent's interfaces: pi-agent-core/src/types.rs, hooks.rs, and the traits of agent_loop.rs

    Messages, tools, hooks, queues, the event sink and the provider are traits an application
    implements.  A trait of data is a class; a trait of effects is a record of operations on the state
    of the world outside the loop, [W], so every implementation that answers is one.  The cancellation
    token is part of the world. *)
From S2P Require Import Prelude Json PiTypes AssistantStream.

(** [AgentMessage]: an entry of the transcript. *)
Class AgentMessage (Number M : Type) := {
  from_message : Message Number -> M;
  as_message : M -> option (Message Number);
}.

(** A message-facing entry is the message it was made from. *)
Class AgentMessageLaws (Number M : Type) {AM : AgentMessage Number M} : Prop :=
  as_message_from (message : Message Number) : as_message (from_message message : M) = Some message.

#[global] Instance message_agent_message (Number : Type) : AgentMessage Number (Message Number) :=
  {| from_message message := message; as_message message := Some message |}.

#[global] Instance message_agent_message_laws (Number : Type) : AgentMessageLaws Number (Message Number).
Proof. done. Qed.

Section Messages.
Context {Number M : Type} {AM : AgentMessage Number M}.

Definition as_assistant (message : M) : option (AssistantMessage Number) :=
  match as_message message with Some (Assistant assistant) => Some assistant | _ => None end.

Definition is_system (message : M) : bool :=
  match as_message message with Some (System _) => true | _ => false end.
End Messages.

Section Results.
Context {Number : Type}.

Record AgentToolResult := MkAgentToolResult {
  ar_content : list Content;
  ar_details : option (Value Number);
  ar_usage : option Usage;
  ar_is_error : bool;
  ar_terminate : bool;
}.

Definition result_text (text : string) : AgentToolResult :=
  MkAgentToolResult [content_new_text text] None None false false.

Definition result_error (text : string) : AgentToolResult :=
  MkAgentToolResult [content_new_text text] None None true false.

Definition with_details (self : AgentToolResult) (details : Value Number) : AgentToolResult :=
  MkAgentToolResult (ar_content self) (Some details) (ar_usage self) (ar_is_error self) (ar_terminate self).

Record ToolUpdate := MkToolUpdate {
  tu_call_id : string;
  tu_tool_name : string;
  tu_args : Value Number;
  tu_partial : AgentToolResult;
}.

(** What a tool sends its partial results through; [up_sender]: somewhere they go. *)
Record ToolUpdates := MkToolUpdates {
  up_sender : bool;
  up_call_id : string;
  up_tool_name : string;
  up_args : Value Number;
}.

Definition updates_none : ToolUpdates := MkToolUpdates false "" "" Null.

Definition updates_new (call_id tool_name : string) (args : Value Number) : ToolUpdates :=
  MkToolUpdates true call_id tool_name args.

Definition updates_send (self : ToolUpdates) (partial : AgentToolResult) : option ToolUpdate :=
  if up_sender self then Some (MkToolUpdate (up_call_id self) (up_tool_name self) (up_args self) partial) else None.

Record ToolInvocation := MkToolInvocation {
  ti_call_id : string;
  ti_args : Value Number;
  ti_updates : ToolUpdates;
}.

(** How [execute] can end; the texts are the errors'. *)
Inductive Execution := Executes (result : AgentToolResult) | ExecuteFails (error : string) | ExecutePanics.
End Results.
Arguments AgentToolResult : clear implicits.
Arguments ToolUpdate : clear implicits.
Arguments ToolUpdates : clear implicits.
Arguments ToolInvocation : clear implicits.
Arguments Execution : clear implicits.

Inductive ToolExecutionMode := Sequential | Parallel.

#[global] Instance ToolExecutionMode_eq_dec : EqDecision ToolExecutionMode.
Proof. solve_decision. Defined.

(** [AgentTool]: what a tool declares. *)
Class AgentTool (Number T : Type) := {
  declaration : T -> Tool Number;
  execution_mode : T -> option ToolExecutionMode;
  prepare_arguments : T -> list (string * Value Number) -> list (string * Value Number);
}.

Definition tool_name {Number T} {AT : AgentTool Number T} (tool : T) : string := to_name (declaration tool).

Record AgentContext (M T : Type) := MkAgentContext {
  ac_messages : list M;
  ac_tools : list T;
}.
Arguments MkAgentContext {_ _}.
Arguments ac_messages {_ _}.
Arguments ac_tools {_ _}.

Inductive AgentEvent (Number M : Type) :=
| AgentStart
| AgentEnd (messages : list M)
| TurnStart
| TurnEnd (message : M) (tool_results : list (ToolResultMessage Number))
| MessageStart (message : M)
| MessageUpdate (event : AssistantMessageEvent Number)
| MessageEnd (message : M)
| ToolExecutionStart (tool_call_id tool_name : string) (args : Value Number)
| ToolExecutionUpdate (tool_call_id tool_name : string) (args : Value Number) (partial_result : AgentToolResult Number)
| ToolExecutionEnd (tool_call_id tool_name : string) (result : AgentToolResult Number) (is_error : bool).
Arguments AgentStart {_ _}.
Arguments AgentEnd {_ _}.
Arguments TurnStart {_ _}.
Arguments TurnEnd {_ _}.
Arguments MessageStart {_ _}.
Arguments MessageUpdate {_ _}.
Arguments MessageEnd {_ _}.
Arguments ToolExecutionStart {_ _}.
Arguments ToolExecutionUpdate {_ _}.
Arguments ToolExecutionEnd {_ _}.

Inductive AgentError := AlreadyRunning | NoMessages | CannotContinueFromAssistant.

(** ** Hooks *)

Section Hooks.
Context {Number M T W : Type}.

Record BeforeToolCallResult := MkBeforeToolCallResult {
  bt_block : bool;
  bt_reason : option string;
  bt_terminate : bool;
  bt_args : option (Value Number);
}.

(** [BeforeToolCallResult::block] and [with_args] *)
Definition before_block (reason : string) : BeforeToolCallResult :=
  MkBeforeToolCallResult true (Some reason) false None.

Definition before_with_args (args : Value Number) : BeforeToolCallResult :=
  MkBeforeToolCallResult false None false (Some args).

Record AfterToolCallResult := MkAfterToolCallResult {
  at_content : option (list Content);
  at_details : option (Value Number);
  at_usage : option Usage;
  at_is_error : option bool;
  at_terminate : option bool;
}.

Record BeforeToolCall := MkBeforeToolCall {
  bc_assistant_message : AssistantMessage Number;
  bc_tool_call : ToolCall Number;
  bc_args : Value Number;
  bc_context : AgentContext M T;
}.

Record AfterToolCall := MkAfterToolCall {
  fc_assistant_message : AssistantMessage Number;
  fc_tool_call : ToolCall Number;
  fc_args : Value Number;
  fc_result : AgentToolResult Number;
  fc_is_error : bool;
  fc_context : AgentContext M T;
}.

Record TurnContext := MkTurnContext {
  tn_message : AssistantMessage Number;
  tn_tool_results : list (ToolResultMessage Number);
  tn_context : AgentContext M T;
  tn_new_messages : list M;
}.

Inductive TurnDecision := Continue | End.

Record RequestContext := MkRequestContext {
  rc_context : AgentContext M T;
  rc_model : Model Number;
  rc_thinking_level : ThinkingLevel;
}.

Record RequestUpdate := MkRequestUpdate {
  ru_context : option (AgentContext M T);
  ru_model : option (Model Number);
  ru_thinking_level : option ThinkingLevel;
}.

Record TurnUpdate := MkTurnUpdate {
  nu_context : option (AgentContext M T);
  nu_messages : list M;
  nu_model : option (Model Number);
  nu_thinking_level : option ThinkingLevel;
}.

Record AgentHooks := MkAgentHooks {
  convert_to_llm : list M -> W -> list (Message Number) * W;
  transform_context : list M -> W -> option (list M) * W;
  hook_api_key : string -> W -> option string * W;
  before_tool_call : BeforeToolCall -> W -> result string (option BeforeToolCallResult) * W;
  after_tool_call : AfterToolCall -> W -> result string (option AfterToolCallResult) * W;
  finish_turn : TurnContext -> W -> option TurnDecision * W;
  finalize_message : M -> W -> M * W;
  prepare_request : RequestContext -> W -> option RequestUpdate * W;
  prepare_next_turn : TurnContext -> W -> option TurnUpdate * W;
}.

(** The default methods of the trait. *)
Definition NoHooks {AM : AgentMessage Number M} : AgentHooks := {|
  convert_to_llm messages w := (omap as_message messages, w);
  transform_context _ w := (None, w);
  hook_api_key _ w := (None, w);
  before_tool_call _ w := (Ok None, w);
  after_tool_call _ w := (Ok None, w);
  finish_turn _ w := (None, w);
  finalize_message message w := (message, w);
  prepare_request _ w := (None, w);
  prepare_next_turn _ w := (None, w);
|}.

Record MessageQueues := MkMessageQueues {
  steering : W -> list M * W;
  follow_ups : W -> list M * W;
}.

Definition NoQueues : MessageQueues := {| steering w := ([], w); follow_ups w := ([], w) |}.

(** [StreamOptions]; [so_other]: the fields the loop passes on. *)
Record StreamOptions (Other : Type) := MkStreamOptions {
  so_api_key : option string;
  so_reasoning : option ThinkingLevel;
  so_other : Other;
}.

(** [StreamFn], and the stream it opens: [stream_next] is [None] when the channel has closed, and
    [stream_budget] bounds what a provider sends; a response that never ends has no budget. *)
Record StreamFn (Other : Type) := MkStreamFn {
  open_stream : Model Number -> list (Message Number) -> StreamOptions Other -> W -> W;
  stream_budget : W -> nat;
  stream_next : W -> option (AssistantMessageEvent Number) * W;
}.

(** The rest of the outside: the sink, the token, the clock, tools at work, the partial results they
    have sent, and which of the [n] running calls gets on next. *)
Class World := {
  sink_emit : AgentEvent Number M -> W -> W;
  token_cancelled : W -> bool * W;
  clock_now : W -> Z * W;
  execute_start : T -> ToolInvocation Number -> W -> W;
  execute_end : T -> ToolInvocation Number -> W -> Execution Number * W;
  sent_updates : W -> list (ToolUpdate Number) * W;
  next_ready : nat -> W -> nat * W;
}.

Record AgentLoopConfig (Other : Type) := MkAgentLoopConfig {
  cf_model : Model Number;
  cf_thinking_level : ThinkingLevel;
  cf_stream_fn : StreamFn Other;
  cf_hooks : AgentHooks;
  cf_queues : MessageQueues;
  cf_tool_execution : ToolExecutionMode;
  cf_stream_options : StreamOptions Other;
}.
End Hooks.
Arguments BeforeToolCallResult : clear implicits.
Arguments AfterToolCallResult : clear implicits.
Arguments BeforeToolCall : clear implicits.
Arguments AfterToolCall : clear implicits.
Arguments TurnContext : clear implicits.
Arguments RequestContext : clear implicits.
Arguments RequestUpdate : clear implicits.
Arguments TurnUpdate : clear implicits.
Arguments AgentHooks : clear implicits.
Arguments MessageQueues : clear implicits.
Arguments MkStreamOptions {_}.
Arguments so_api_key {_}.
Arguments so_reasoning {_}.
Arguments so_other {_}.
Arguments StreamFn : clear implicits.
Arguments MkStreamFn {_ _ _}.
Arguments open_stream {_ _ _}.
Arguments stream_budget {_ _ _}.
Arguments stream_next {_ _ _}.
Arguments World : clear implicits.
Arguments AgentLoopConfig : clear implicits.
Arguments MkAgentLoopConfig {_ _ _ _ _}.
Arguments cf_model {_ _ _ _ _}.
Arguments cf_thinking_level {_ _ _ _ _}.
Arguments cf_stream_fn {_ _ _ _ _}.
Arguments cf_hooks {_ _ _ _ _}.
Arguments cf_queues {_ _ _ _ _}.
Arguments cf_tool_execution {_ _ _ _ _}.
Arguments cf_stream_options {_ _ _ _ _}.

(** [AgentLoopConfig::new] *)
Definition config_new {Number M T W Other} {AM : AgentMessage Number M} (other : Other)
    (model : Model Number) (stream_fn : StreamFn Number W Other) : AgentLoopConfig Number M T W Other :=
  MkAgentLoopConfig model Off stream_fn NoHooks NoQueues Parallel (MkStreamOptions None None other).
