(* ===== verification/AgentLoop.v ===== *)
(** * The agent's loop: pi-agent-core/src/agent_loop.rs

    A run asks a provider for responses, runs the tools they call, and goes on while there are calls or
    queued messages.  The loop is in a state monad over the world and the run's history: what it did to
    the outside, in order.  A turn is a step; [run_loop] takes its number of steps and says when the run
    is still going.  Tool calls in parallel are tasks that advance one await at a time, the one the
    world picks.  The loop is generic in [validate_tool_arguments]; the one the code calls is
    [Validation.validate_tool_arguments], to which AgentRun applies it. *)
From S2P Require Import Prelude Json PiTypes Transcript AssistantStream AgentTypes.

Section Loop.
Context {Number M T W Other : Type}.
Context {JE : JsonEq Number} {AM : AgentMessage Number M} {AT : AgentTool Number T} {WO : World Number M T W}.
Variable validate_tool_arguments : Tool Number -> ToolCall Number -> result string (Value Number).

Notation Config := (AgentLoopConfig Number M T W Other).
Notation Ctx := (AgentContext M T).
Notation Hooks := (AgentHooks Number M T W).

(** ** Runs *)

(** What a run did: an event it emitted, messages a queue or a hook gave it, a gate's answer, a tool
    that started, what the token said. *)
Inductive Happening :=
| Emitted (event : AgentEvent Number M)
| Polled (messages : list M)
| Prepares (messages : list M)
| Gated (call : ToolCall Number) (args : Value Number) (gate : result string (option (BeforeToolCallResult Number)))
| Started (tool : T) (call : ToolCall Number) (args : Value Number)
| Cancelled (cancelled : bool).

Record St := MkSt {
  s_world : W;
  s_history : list Happening;
}.

Definition Run (A : Type) : Type := St -> A * St.

#[global] Instance run_ret : MRet Run := fun A a s => (a, s).
#[global] Instance run_bind : MBind Run := fun A B f m s => let '(a, s) := m s in f a s.

(** An operation of the world. *)
Definition ask {A} (op : W -> A * W) : Run A :=
  fun s => let '(a, w) := op (s_world s) in (a, MkSt w (s_history s)).

Definition tell (op : W -> W) : Run () := fun s => ((), MkSt (op (s_world s)) (s_history s)).

Definition note (happening : Happening) : Run () :=
  fun s => ((), MkSt (s_world s) (s_history s ++ [happening])).

Definition emit (event : AgentEvent Number M) : Run () :=
  note (Emitted event) ≫= fun _ => tell (sink_emit event).

Definition is_cancelled : Run bool :=
  cancelled ← ask token_cancelled; note (Cancelled cancelled) ≫= fun _ => mret cancelled.

(** [for] loops. *)
Fixpoint for_each {A B} (f : A -> Run B) (l : list A) : Run (list B) :=
  match l with
  | [] => mret []
  | a :: l => b ← f a; bs ← for_each f l; mret (b :: bs)
  end.

Definition wrap (message : Message Number) : M := from_message message.

Definition emit_message (message : M) (hooks : Hooks) : Run M :=
  _ ← emit (MessageStart message);
  message ← ask (finalize_message hooks message);
  _ ← emit (MessageEnd message);
  mret message.

(** ** Declaring tools *)

(** [rposition] *)
Fixpoint rposition {A} (p : A -> bool) (l : list A) : option nat :=
  match l with
  | [] => None
  | a :: l =>
      match rposition p l with
      | Some i => Some (S i)
      | None => if p a then Some 0%nat else None
      end
  end.

Definition position {A} (p : A -> bool) (l : list A) : option nat :=
  fst <$> list_find (fun a => p a = true) l.

Definition with_tool_changes (system : SystemMessage Number) (added : list (Tool Number))
    (removed : list ToolReference) : SystemMessage Number :=
  MkSystemMessage (sm_content system) (sm_sections system) added removed (sm_timestamp system).

Definition declare_tool_changes (context : Ctx) (pending : list M) : Run (list M) :=
  let system_index := rposition is_system pending in
  let without_pending_changes :=
    omap (fun '(index, message) =>
      match as_message message with
      | Some (System system) =>
          if bool_decide (Some index = system_index) then Some (System (with_tool_changes system [] []))
          else Some (System system)
      | other => other
      end) (imap pair pending) in
  let declared := current_tools (omap as_message (ac_messages context) ++ without_pending_changes) in
  let executable := declaration <$> ac_tools context in
  let changes := tool_changes declared executable in
  match system_index with
  | Some index =>
      match pending !! index ≫= as_message with
      | Some (System system) =>
          if changes_is_empty changes && bool_decide (length (sm_tools_added system) = 0%nat)
             && bool_decide (length (sm_tools_removed system) = 0%nat)
          then mret pending
          else
            mret (<[index := wrap (System (with_tool_changes system (ch_added changes) (ch_removed changes)))]> pending)
      | _ => mret pending
      end
  | None =>
      if changes_is_empty changes then mret pending
      else
        now ← ask clock_now;
        let update := MkSystemMessage "" [] (ch_added changes) (ch_removed changes) now in
        let at_ := default (length pending) (position (fun message => negb (is_system message)) pending) in
        mret (take at_ pending ++ wrap (System update) :: drop at_ pending)
  end.

(** ** One response *)

(** The loop over the stream's events: whether it started, and its result. *)
Fixpoint stream_loop (fuel : nat) (stream_fn : StreamFn Number W Other) (stream : AssistantMessageStream (Number := Number))
    (started : bool) : Run (bool * AssistantMessageStream (Number := Number) * option (AssistantMessage Number)) :=
  received ← match fuel with O => mret None | S _ => ask (stream_next stream_fn) end;
  let '(event, stream) := poll_event stream received in
  match event, fuel with
  | None, _ | _, O => mret (started, stream, None)
  | Some (EventStart message), S fuel =>
      _ ← emit (MessageStart (wrap (Assistant message)));
      stream_loop fuel stream_fn stream true
  | Some (EventDone message), _ | Some (EventError message), _ => mret (started, stream, Some message)
  | Some event, S fuel =>
      _ ← (if started : bool then emit (MessageUpdate event) else mret ());
      stream_loop fuel stream_fn stream started
  end.

Definition with_thinking_level (message : AssistantMessage Number) (level : ThinkingLevel) : AssistantMessage Number :=
  MkAssistantMessage (as_content message) (as_api message) (as_provider message) (as_model message)
    (as_response_id message) (Some level) (as_usage message) (as_stop_reason message) (as_error_message message)
    (as_timestamp message).

Definition stream_assistant_response (context : Ctx) (config : Config) : Run (Ctx * AssistantMessage Number) :=
  let hooks := cf_hooks config in
  transformed ← ask (transform_context hooks (ac_messages context));
  let messages := default (ac_messages context) transformed in
  llm_messages ← ask (convert_to_llm hooks messages);
  key ← ask (hook_api_key hooks (mo_provider (cf_model config)));
  let options :=
    MkStreamOptions (match key with Some key => Some key | None => so_api_key (cf_stream_options config) end)
      (if decide (cf_thinking_level config = Off) then None else Some (cf_thinking_level config))
      (so_other (cf_stream_options config)) in
  _ ← tell (open_stream (cf_stream_fn config) (cf_model config) llm_messages options);
  budget ← ask (fun w => (stream_budget (cf_stream_fn config) w, w));
  '(started, stream, result) ← stream_loop budget (cf_stream_fn config) stream_new false;
  now ← match result with Some _ => mret 0 | None => ask clock_now end;
  let message := with_thinking_level (default (unterminated stream now) result) (cf_thinking_level config) in
  _ ← (if started : bool then mret () else emit (MessageStart (wrap (Assistant message))));
  finalized ← ask (finalize_message hooks (wrap (Assistant message)));
  _ ← emit (MessageEnd finalized);
  let message := default message (as_assistant finalized) in
  mret (MkAgentContext (ac_messages context ++ [finalized]) (ac_tools context), message).

(** ** Tool calls *)

Record ToolCallOutcome := MkToolCallOutcome {
  oc_tool_call : ToolCall Number;
  oc_result : AgentToolResult Number;
  oc_is_error : bool;
}.

Record ToolBatch := MkToolBatch {
  ba_messages : list M;
  ba_terminate : bool;
}.

Record CallScope := MkCallScope {
  sc_context : Ctx;
  sc_tools : list T;
  sc_assistant : AssistantMessage Number;
  sc_hooks : Hooks;
}.

Record ReadyCall := MkReadyCall {
  rd_call : ToolCall Number;
  rd_tool : T;
  rd_args : Value Number;
}.

Inductive Prepared := Immediate (outcome : ToolCallOutcome) | Ready (ready : ReadyCall).

Definition failed (call : ToolCall Number) (error : string) : ToolCallOutcome :=
  MkToolCallOutcome call (result_error error) true.

Definition ABORTED : string := "Operation aborted".

Definition prepare_tool_call (scope : CallScope) (call : ToolCall Number) : Run Prepared :=
  match find (fun tool => String.eqb (tool_name tool) (tc_name call)) (sc_tools scope) with
  | None => mret (Immediate (failed call ("Tool " +:+ tc_name call +:+ " not found")))
  | Some tool =>
      let prepared :=
        MkToolCall (tc_id call) (tc_name call) (prepare_arguments tool (tc_arguments call))
          (tc_arguments_error call) (tc_partial_json call) in
      match validate_tool_arguments (declaration tool) prepared with
      | Err error => mret (Immediate (failed call error))
      | Ok args =>
          gate ← ask (before_tool_call (sc_hooks scope)
                        (MkBeforeToolCall (sc_assistant scope) call args (sc_context scope)));
          _ ← note (Gated call args gate);
          match gate with
          | Err error => mret (Immediate (failed call error))
          | Ok decision =>
              cancelled ← is_cancelled;
              if cancelled : bool then mret (Immediate (failed call ABORTED))
              else
                match decision with
                | Some decision =>
                    if bt_block decision then
                      let reason := default "Tool execution was blocked" (bt_reason decision) in
                      let outcome := failed call reason in
                      let result := oc_result outcome in
                      mret (Immediate
                              (MkToolCallOutcome call
                                 (MkAgentToolResult (ar_content result) (ar_details result) (ar_usage result)
                                    (ar_is_error result) (bt_terminate decision)) true))
                    else mret (Ready (MkReadyCall call tool (default args (bt_args decision))))
                | None => mret (Ready (MkReadyCall call tool args))
                end
          end
      end
  end.

Definition invocation (ready : ReadyCall) : ToolInvocation Number :=
  let call := rd_call ready in
  MkToolInvocation (tc_id call) (rd_args ready) (updates_new (tc_id call) (tc_name call) (rd_args ready)).

(** [run_prepared] up to the tool's first await. *)
Definition run_start (ready : ReadyCall) : Run () :=
  note (Started (rd_tool ready) (rd_call ready) (rd_args ready)) ≫= fun _ =>
  tell (execute_start (rd_tool ready) (invocation ready)).

(** [run_prepared] when the tool has ended. *)
Definition run_executed (ready : ReadyCall) : Run (AgentToolResult Number * bool) :=
  execution ← ask (execute_end (rd_tool ready) (invocation ready));
  match execution with
  | Executes result => mret (result, ar_is_error result)
  | ExecuteFails error => mret (result_error error, true)
  | ExecutePanics => mret (result_error ("Tool " +:+ tc_name (rd_call ready) +:+ " panicked"), true)
  end.

(** [run_prepared] from [after_tool_call]. *)
Definition run_rewrite (scope : CallScope) (ready : ReadyCall) (result : AgentToolResult Number) (is_error : bool)
    : Run ToolCallOutcome :=
  rewrite ← ask (after_tool_call (sc_hooks scope)
                   (MkAfterToolCall (sc_assistant scope) (rd_call ready) (rd_args ready) result is_error
                      (sc_context scope)));
  let '(result, is_error) :=
    match rewrite with
    | Ok None => (result, is_error)
    | Ok (Some rewrite) =>
        (MkAgentToolResult (default (ar_content result) (at_content rewrite))
           (match at_details rewrite with Some details => Some details | None => ar_details result end)
           (match at_usage rewrite with Some usage => Some usage | None => ar_usage result end)
           (ar_is_error result)
           (default (ar_terminate result) (at_terminate rewrite)),
         default is_error (at_is_error rewrite))
    | Err error => (result_error error, true)
    end in
  mret (MkToolCallOutcome (rd_call ready)
          (MkAgentToolResult (ar_content result) (ar_details result) (ar_usage result) is_error (ar_terminate result))
          is_error).

Definition run_prepared (scope : CallScope) (ready : ReadyCall) : Run ToolCallOutcome :=
  _ ← run_start ready;
  '(result, is_error) ← run_executed ready;
  run_rewrite scope ready result is_error.

Definition run_tool_call (scope : CallScope) (call : ToolCall Number) : Run ToolCallOutcome :=
  prepared ← prepare_tool_call scope call;
  match prepared with
  | Immediate outcome => mret outcome
  | Ready ready => run_prepared scope ready
  end.

Definition emit_start (call : ToolCall Number) : Run () :=
  emit (ToolExecutionStart (tc_id call) (tc_name call) (Object (tc_arguments call))).

Definition emit_end (outcome : ToolCallOutcome) : Run () :=
  emit (ToolExecutionEnd (tc_id (oc_tool_call outcome)) (tc_name (oc_tool_call outcome)) (oc_result outcome)
          (oc_is_error outcome)).

Definition emit_update (update : ToolUpdate Number) : Run () :=
  emit (ToolExecutionUpdate (tu_call_id update) (tu_tool_name update) (tu_args update) (tu_partial update)).

(** Report what tools have sent: [drain_updates], and the [updates.recv()] arms between two awaits. *)
Definition drain_updates : Run () :=
  updates ← ask sent_updates;
  _ ← for_each emit_update updates;
  mret ().

(** [drive] of [run_prepared]: updates are reported while the tool and the hook are at work. *)
Definition drive (scope : CallScope) (ready : ReadyCall) : Run ToolCallOutcome :=
  _ ← run_start ready;
  _ ← drain_updates;
  '(result, is_error) ← run_executed ready;
  _ ← drain_updates;
  outcome ← run_rewrite scope ready result is_error;
  _ ← drain_updates;
  mret outcome.

Definition result_message (outcome : ToolCallOutcome) (now : Z) : ToolResultMessage Number :=
  MkToolResultMessage (tc_id (oc_tool_call outcome)) (tc_name (oc_tool_call outcome))
    (ar_content (oc_result outcome)) (ar_details (oc_result outcome)) (ar_usage (oc_result outcome))
    (oc_is_error outcome) now.

(** The outcome's message, stamped and emitted. *)
Definition emit_result (outcome : ToolCallOutcome) (hooks : Hooks) : Run M :=
  now ← ask clock_now;
  emit_message (wrap (ToolResult (result_message outcome now))) hooks.

Definition should_terminate (outcomes : list ToolCallOutcome) : bool :=
  negb (bool_decide (length outcomes = 0%nat)) && forallb (fun outcome => ar_terminate (oc_result outcome)) outcomes.

Definition batch_scope (context : Ctx) (assistant : AssistantMessage Number) (config : Config) : CallScope :=
  MkCallScope context (ac_tools context) assistant (cf_hooks config).

(** The loop of [execute_sequential]: the outcomes and messages, in order. *)
Fixpoint sequential_loop (scope : CallScope) (calls : list (ToolCall Number))
    : Run (list ToolCallOutcome * list M) :=
  match calls with
  | [] => mret ([], [])
  | call :: calls =>
      _ ← emit_start call;
      prepared ← prepare_tool_call scope call;
      outcome ← match prepared with Immediate outcome => mret outcome | Ready ready => drive scope ready end;
      _ ← emit_end outcome;
      message ← emit_result outcome (sc_hooks scope);
      cancelled ← is_cancelled;
      if cancelled : bool then mret ([outcome], [message])
      else
        '(outcomes, messages) ← sequential_loop scope calls;
        mret (outcome :: outcomes, message :: messages)
  end.

Definition execute_sequential (context : Ctx) (assistant : AssistantMessage Number)
    (calls : list (ToolCall Number)) (config : Config) : Run ToolBatch :=
  '(outcomes, messages) ← sequential_loop (batch_scope context assistant config) calls;
  mret (MkToolBatch messages (should_terminate outcomes)).

(** A future of [execute_parallel], by what it waits for. *)
Inductive Task :=
| Unpolled (ready : ReadyCall)
| Executing (ready : ReadyCall)
| Rewriting (ready : ReadyCall) (result : AgentToolResult Number) (is_error : bool).

(** One call's gate, before anything executes: the slots and the futures. *)
Definition prepare_slot (scope : CallScope) (call : ToolCall Number) (slots : list (option ToolCallOutcome))
    (running : list (nat * Task)) : Run (list (option ToolCallOutcome) * list (nat * Task)) :=
  _ ← emit_start call;
  let index := length slots in
  prepared ← prepare_tool_call scope call;
  match prepared with
  | Immediate outcome => _ ← emit_end outcome; mret (slots ++ [Some outcome], running)
  | Ready ready => mret (slots ++ [None], running ++ [(index, Unpolled ready)])
  end.

(** The gates, in call order. *)
Fixpoint prepare_loop (scope : CallScope) (calls : list (ToolCall Number)) (slots : list (option ToolCallOutcome))
    (running : list (nat * Task)) : Run (list (option ToolCallOutcome) * list (nat * Task)) :=
  match calls with
  | [] => mret (slots, running)
  | call :: calls =>
      '(slots, running) ← prepare_slot scope call slots running;
      cancelled ← is_cancelled;
      if cancelled : bool then mret (slots, running) else prepare_loop scope calls slots running
  end.

(** One await of a future. *)
Definition task_step (scope : CallScope) (task : Task) : Run (Task + ToolCallOutcome) :=
  match task with
  | Unpolled ready =>
      cancelled ← is_cancelled;
      if cancelled : bool then mret (inr (failed (rd_call ready) ABORTED))
      else _ ← run_start ready; mret (inl (Executing ready))
  | Executing ready =>
      '(result, is_error) ← run_executed ready;
      mret (inl (Rewriting ready result is_error))
  | Rewriting ready result is_error =>
      outcome ← run_rewrite scope ready result is_error;
      mret (inr outcome)
  end.

(** The loop over the futures; [fuel]: the awaits left. *)
Fixpoint run_tasks (fuel : nat) (scope : CallScope) (running : list (nat * Task))
    (slots : list (option ToolCallOutcome)) : Run (list (option ToolCallOutcome)) :=
  match fuel, running with
  | O, _ | _, [] => mret slots
  | S fuel, _ =>
      _ ← drain_updates;
      pick ← ask (next_ready (length running));
      let at_ := (pick mod length running)%nat in
      match running !! at_ with
      | None => mret slots
      | Some (index, task) =>
          step ← task_step scope task;
          match step with
          | inl task => run_tasks fuel scope (<[at_ := (index, task)]> running) slots
          | inr outcome =>
              _ ← drain_updates;
              _ ← emit_end outcome;
              run_tasks fuel scope (delete at_ running) (<[index := Some outcome]> slots)
          end
      end
  end.

Definition awaits_left (task : Task) : nat :=
  match task with Unpolled _ => 3 | Executing _ => 2 | Rewriting _ _ _ => 1 end.

Definition task_fuel (running : list (nat * Task)) : nat := sum_list (awaits_left <$> running.*2).

Definition execute_parallel (context : Ctx) (assistant : AssistantMessage Number)
    (calls : list (ToolCall Number)) (config : Config) : Run ToolBatch :=
  let scope := batch_scope context assistant config in
  '(slots, running) ← prepare_loop scope calls [] [];
  slots ← run_tasks (task_fuel running) scope running slots;
  let outcomes := omap id slots in
  messages ← for_each (fun outcome => emit_result outcome (cf_hooks config)) outcomes;
  mret (MkToolBatch messages (should_terminate outcomes)).

Definition runs_sequentially (context : Ctx) (calls : list (ToolCall Number)) (config : Config) : bool :=
  bool_decide (cf_tool_execution config = Sequential)
  || existsb (fun call =>
       existsb (fun tool =>
         String.eqb (tool_name tool) (tc_name call) && bool_decide (execution_mode tool = Some Sequential))
         (ac_tools context)) calls.

Definition execute_tool_calls (context : Ctx) (assistant : AssistantMessage Number)
    (calls : list (ToolCall Number)) (config : Config) : Run ToolBatch :=
  if runs_sequentially context calls config then execute_sequential context assistant calls config
  else execute_parallel context assistant calls config.

Definition double_quote : string := String (Ascii.ascii_of_nat 34) "".

Definition truncated_outcome (call : ToolCall Number) : ToolCallOutcome :=
  failed call ("Tool call " +:+ double_quote +:+ tc_name call +:+ double_quote +:+
    " was not executed: the response hit the output token limit, so its arguments may be truncated. Re-issue the tool call with complete arguments.").

Definition fail_truncated_calls (calls : list (ToolCall Number)) (hooks : Hooks) : Run ToolBatch :=
  messages ← for_each (fun call =>
    _ ← emit_start call;
    let outcome := truncated_outcome call in
    _ ← emit_end outcome;
    emit_result outcome hooks) calls;
  mret (MkToolBatch messages false).

(** ** The run *)

Record CompletedTurn := MkCompletedTurn {
  ct_message : AssistantMessage Number;
  ct_tool_results : list (ToolResultMessage Number);
}.

(** The locals of [run_loop]. *)
Record LoopState := MkLoopState {
  ls_context : Ctx;
  ls_new_messages : list M;
  ls_config : Config;
  ls_last_turn : option CompletedTurn;
  ls_explicit_continuation : bool;
  ls_pending : list M;
  ls_has_more_tool_calls : bool;
}.

Inductive Flow := Running (state : LoopState) | Finished (new_messages : list M).

Definition with_model (config : Config) (model : option (Model Number)) (level : option ThinkingLevel) : Config :=
  MkAgentLoopConfig (default (cf_model config) model) (default (cf_thinking_level config) level)
    (cf_stream_fn config) (cf_hooks config) (cf_queues config) (cf_tool_execution config) (cf_stream_options config).

Definition poll (queue : W -> list M * W) : Run (list M) :=
  messages ← ask queue;
  _ ← note (Polled messages);
  mret messages.

Definition push_message (context : Ctx) (message : M) : Ctx :=
  MkAgentContext (ac_messages context ++ [message]) (ac_tools context).

(** Messages emitted and appended, in order. *)
Fixpoint deliver (messages : list M) (context : Ctx) (new_messages : list M) (hooks : Hooks) : Run (Ctx * list M) :=
  match messages with
  | [] => mret (context, new_messages)
  | message :: messages =>
      message ← emit_message message hooks;
      deliver messages (push_message context message) (new_messages ++ [message]) hooks
  end.

(** What a turn starts with when another one came before: the hook's update, the messages to put first and
    those pending. *)
Definition prepare_turn (state : LoopState) (turn : CompletedTurn) : Run (Ctx * Config * list M * list M) :=
  let config := ls_config state in
  update ← ask (prepare_next_turn (cf_hooks config)
                  (MkTurnContext (ct_message turn) (ct_tool_results turn) (ls_context state) (ls_new_messages state)));
  let '(context, config, prepared) :=
    match update with
    | Some update =>
        (default (ls_context state) (nu_context update),
         with_model config (nu_model update) (nu_thinking_level update), nu_messages update)
    | None => (ls_context state, config, [])
    end in
  _ ← note (Prepares prepared);
  pending ← match ls_pending state with [] => poll (steering (cf_queues config)) | pending => mret pending end;
  _ ← emit TurnStart;
  mret (context, config, prepared, pending).

Definition finish_run (new_messages : list M) : Run Flow :=
  _ ← emit (AgentEnd new_messages);
  mret (Finished new_messages).

(** The tool calls of a response: the new context and messages, the results and whether more follows. *)
Definition run_calls (context : Ctx) (config : Config) (new_messages : list M) (message : AssistantMessage Number)
    : Run (Ctx * list M * list (ToolResultMessage Number) * bool) :=
  let calls := tool_calls message in
  match calls with
  | [] => mret (context, new_messages, [], false)
  | _ =>
      batch ← (if decide (as_stop_reason message = Length) then fail_truncated_calls calls (cf_hooks config)
               else execute_tool_calls context message calls config);
      let tool_results :=
        omap (fun result => match as_message result with Some (ToolResult r) => Some r | _ => None end)
          (ba_messages batch) in
      mret (MkAgentContext (ac_messages context ++ ba_messages batch) (ac_tools context),
            new_messages ++ ba_messages batch, tool_results, negb (ba_terminate batch))
  end.

(** The body of the inner loop once the response is there. *)
Definition complete_turn (context : Ctx) (config : Config) (new_messages : list M) (message : AssistantMessage Number)
    : Run Flow :=
  let hooks := cf_hooks config in
  if is_failure message then
    _ ← ask (finish_turn hooks (MkTurnContext message [] context new_messages));
    _ ← emit (TurnEnd (wrap (Assistant message)) []);
    finish_run new_messages
  else
    '(context, new_messages, tool_results, has_more_tool_calls) ← run_calls context config new_messages message;
    decision ← ask (finish_turn hooks (MkTurnContext message tool_results context new_messages));
    _ ← emit (TurnEnd (wrap (Assistant message)) tool_results);
    let last_turn := Some (MkCompletedTurn message tool_results) in
    match decision with
    | Some End => finish_run new_messages
    | _ =>
        let explicit_continuation := match decision with Some Continue => true | _ => false end in
        pending ← poll (steering (cf_queues config));
        let explicit_continuation :=
          if has_more_tool_calls || negb (bool_decide (length pending = 0%nat)) then false
          else explicit_continuation in
        mret (Running (MkLoopState context new_messages config last_turn explicit_continuation pending
                         has_more_tool_calls))
    end.

(** The body of the inner loop. *)
Definition turn (state : LoopState) : Run Flow :=
  '(context, config, prepared, pending) ←
    match ls_last_turn state with
    | Some last_turn => prepare_turn state last_turn
    | None => mret (ls_context state, ls_config state, [], ls_pending state)
    end;
  messages ← declare_tool_changes context (prepared ++ pending);
  '(context, new_messages) ← deliver messages context (ls_new_messages state) (cf_hooks config);
  update ← ask (prepare_request (cf_hooks config)
                  (MkRequestContext context (cf_model config) (cf_thinking_level config)));
  let '(context, config) :=
    match update with
    | Some update =>
        (default context (ru_context update), with_model config (ru_model update) (ru_thinking_level update))
    | None => (context, config)
    end in
  '(context, message) ← stream_assistant_response context config;
  complete_turn context config (new_messages ++ [wrap (Assistant message)]) message.

(** What follows the inner loop. *)
Definition would_stop (state : LoopState) : Run Flow :=
  let again explicit_continuation pending :=
    Running (MkLoopState (ls_context state) (ls_new_messages state) (ls_config state) (ls_last_turn state)
               explicit_continuation pending true) in
  messages ← poll (follow_ups (cf_queues (ls_config state)));
  match messages with
  | _ :: _ => mret (again false messages)
  | [] =>
      if ls_explicit_continuation state then mret (again false (ls_pending state))
      else finish_run (ls_new_messages state)
  end.

Definition loop_step (state : LoopState) : Run Flow :=
  if ls_has_more_tool_calls state || negb (bool_decide (length (ls_pending state) = 0%nat)) then turn state
  else would_stop state.

(** [None]: the run is still going after [fuel] steps. *)
Fixpoint loop_steps (fuel : nat) (state : LoopState) : Run (option (list M)) :=
  match fuel with
  | O => mret None
  | S fuel =>
      flow ← loop_step state;
      match flow with
      | Running state => loop_steps fuel state
      | Finished new_messages => mret (Some new_messages)
      end
  end.

Definition run_loop (fuel : nat) (context : Ctx) (new_messages : list M) (config : Config) : Run (option (list M)) :=
  pending ← poll (steering (cf_queues config));
  loop_steps fuel (MkLoopState context new_messages config None false pending true).

Definition run_agent_loop (fuel : nat) (prompts : list M) (context : Ctx) (config : Config)
    : Run (option (list M)) :=
  prompts ← declare_tool_changes context prompts;
  _ ← emit AgentStart;
  _ ← emit TurnStart;
  '(context, new_messages) ← deliver prompts context [] (cf_hooks config);
  run_loop fuel context new_messages config.

Definition run_agent_loop_continue (fuel : nat) (context : Ctx) (config : Config)
    : Run (result AgentError (option (list M))) :=
  match last (ac_messages context) with
  | None => mret (Err NoMessages)
  | Some message =>
      match as_message message with
      | Some (Assistant _) => mret (Err CannotContinueFromAssistant)
      | _ =>
          _ ← emit AgentStart;
          _ ← emit TurnStart;
          new_messages ← run_loop fuel context [] config;
          mret (Ok new_messages)
      end
  end.
End Loop.
