(* ===== verification/AgentInvariant.v ===== *)
(** * Invariants of a run and its world

    A relation between the world and the history of a run that every operation of the outside keeps, and
    every happening, holds at its end: the rule for clients of AgentLoop whose world is more than an
    oracle.  AgentObject uses it for the agent's own state. *)
From S2P Require Import Prelude Json PiTypes Transcript AssistantStream AgentTypes AgentLoop.

Section Invariant.
Context {Number M T W Other : Type}.
Context {JE : JsonEq Number} {AM : AgentMessage Number M} {AT : AgentTool Number T} {WO : World Number M T W}.
Variable validate_tool_arguments : Tool Number -> ToolCall Number -> result string (Value Number).

Notation Config := (AgentLoopConfig Number M T W Other).
Notation Ctx := (AgentContext M T).
Notation Hooks := (AgentHooks Number M T W).
Notation Run := (@Run Number M T W).
Notation Happening := (@Happening Number M T).

Variable inv : W -> list Happening -> Prop.

Definition keeps {A} (m : Run A) : Prop :=
  forall s, inv (s_world s) (s_history s) -> inv (s_world (m s).2) (s_history (m s).2).

(** What an operation of the outside must do. *)
Definition steady {A} (op : W -> A * W) : Prop := forall w h, inv w h -> inv (op w).2 h.

Record steady_hooks (hooks : Hooks) : Prop := {
  sh_convert messages : steady (convert_to_llm hooks messages);
  sh_transform messages : steady (transform_context hooks messages);
  sh_key provider : steady (hook_api_key hooks provider);
  sh_before call : steady (before_tool_call hooks call);
  sh_after call : steady (after_tool_call hooks call);
  sh_finish turn : steady (finish_turn hooks turn);
  sh_finalize message : steady (finalize_message hooks message);
  sh_request context : steady (prepare_request hooks context);
  sh_next turn : steady (prepare_next_turn hooks turn);
}.

Record steady_config (config : Config) : Prop := {
  sc_steady_hooks : steady_hooks (cf_hooks config);
  sc_steady_steering : steady (steering (cf_queues config));
  sc_steady_follow_ups : steady (follow_ups (cf_queues config));
  sc_steady_open model messages options w h :
    inv w h -> inv (open_stream (cf_stream_fn config) model messages options w) h;
  sc_steady_next : steady (stream_next (cf_stream_fn config));
}.

Class SteadyWorld : Prop := {
  sw_cancelled : steady token_cancelled;
  sw_clock : steady clock_now;
  sw_execute_start tool invocation w h : inv w h -> inv (execute_start tool invocation w) h;
  sw_execute_end tool invocation : steady (execute_end tool invocation);
  sw_updates : steady sent_updates;
  sw_ready n : steady (next_ready n);
  sw_emit event w h : inv w h -> inv (sink_emit event w) (h ++ [Emitted event]);
  sw_happens x w h : (forall event, x <> Emitted event) -> inv w h -> inv w (h ++ [x]);
}.
Context {SW : SteadyWorld}.

Lemma keeps_ret {A} (a : A) : keeps (mret a).
Proof. by intros s. Qed.

Lemma keeps_bind {A B} (m : Run A) (f : A -> Run B) : keeps m -> (forall a, keeps (f a)) -> keeps (m ≫= f).
Proof.
  intros Hm Hf s Hs. specialize (Hm s Hs). unfold mbind, run_bind. destruct (m s) as [a s']. by apply Hf.
Qed.

Lemma keeps_ask {A} (op : W -> A * W) : steady op -> keeps (ask op).
Proof. intros Hop s Hs. unfold ask. specialize (Hop (s_world s) _ Hs). by destruct (op (s_world s)). Qed.

Lemma keeps_tell (op : W -> W) : (forall w h, inv w h -> inv (op w) h) -> keeps (tell op).
Proof. intros Hop s Hs. by apply Hop. Qed.

Lemma keeps_note x : (forall event, x <> Emitted event) -> keeps (note x).
Proof. intros Hx s Hs. by apply sw_happens. Qed.

Lemma keeps_emit event : keeps (emit event).
Proof. intros s Hs. unfold emit, mbind, run_bind, note, tell. cbn. by apply sw_emit. Qed.

Lemma keeps_for_each {A B} (f : A -> Run B) l : (forall a, keeps (f a)) -> keeps (for_each f l).
Proof.
  intros Hf. induction l as [|a l IH]; [apply keeps_ret|]. apply keeps_bind; [apply Hf|]. intros b.
  apply keeps_bind; [done|]. intros bs. apply keeps_ret.
Qed.

Create HintDb keeps.
Hint Resolve keeps_ret keeps_emit keeps_for_each sw_cancelled sw_clock sw_execute_end sw_updates sw_ready : keeps.
Hint Resolve sh_convert sh_transform sh_key sh_before sh_after sh_finish sh_finalize sh_request sh_next : keeps.
Hint Resolve sc_steady_hooks sc_steady_steering sc_steady_follow_ups sc_steady_next sc_steady_open sw_execute_start : keeps.

(** One step of a computation: a bind, a case, or an operation known to keep the invariant. *)
Ltac keep_step :=
  match goal with
  | |- keeps (mbind _ _) => apply keeps_bind; [|intros ?]
  | |- keeps (ask _) => apply keeps_ask
  | |- keeps (for_each _ _) => apply keeps_for_each; intros ?
  | |- keeps (tell _) => apply keeps_tell; intros ? ? ?
  | |- steady (fun _ => _) => by intros ? ?
  | |- keeps (note _) => apply keeps_note; discriminate
  | |- keeps (match (match ?x with _ => _ end) with _ => _ end) => destruct x
  | |- keeps (match ?x with _ => _ end) => destruct x
  | |- keeps (let _ := _ in _) => cbv zeta
  | |- forall _, _ => intros ?
  | |- _ => solve [eauto with keeps]
  end.
Ltac keep := repeat keep_step.

Lemma keeps_emit_message message hooks : steady_hooks hooks -> keeps (emit_message message hooks).
Proof. intros Hhooks. unfold emit_message. keep. Qed.

Lemma keeps_declare (context : Ctx) pending : keeps (declare_tool_changes context pending).
Proof. unfold declare_tool_changes. keep. Qed.

Lemma keeps_cancelled : keeps is_cancelled.
Proof. unfold is_cancelled. keep. Qed.
Hint Resolve keeps_emit_message keeps_declare keeps_cancelled : keeps.

Lemma keeps_stream_loop fuel stream_fn stream started :
  steady (stream_next stream_fn) -> keeps (stream_loop (Other := Other) fuel stream_fn stream started).
Proof.
  intros Hnext. revert stream started. induction fuel as [|fuel IH]; intros stream started; cbn [stream_loop]; keep.
Qed.
Hint Resolve keeps_stream_loop : keeps.

Lemma keeps_response (context : Ctx) (config : Config) :
  steady_config config -> keeps (stream_assistant_response context config).
Proof.
  intros Hconfig. pose proof (sc_steady_hooks _ Hconfig) as Hhooks. unfold stream_assistant_response.
  keep.
Qed.

Lemma keeps_prepare (scope : CallScope (Number := Number) (M := M) (T := T) (W := W)) call :
  steady_hooks (sc_hooks scope) -> keeps (prepare_tool_call validate_tool_arguments scope call).
Proof. intros Hhooks. unfold prepare_tool_call. keep. Qed.

Lemma keeps_run_start (ready : ReadyCall (Number := Number) (T := T)) : keeps (run_start ready).
Proof. unfold run_start. keep. Qed.

Lemma keeps_run_executed (ready : ReadyCall (Number := Number) (T := T)) : keeps (run_executed ready).
Proof. unfold run_executed. keep. Qed.

Lemma keeps_run_rewrite (scope : CallScope (Number := Number) (M := M) (T := T) (W := W)) ready result is_error :
  steady_hooks (sc_hooks scope) -> keeps (run_rewrite scope ready result is_error).
Proof. intros Hhooks. unfold run_rewrite. keep. Qed.

Lemma keeps_drain : keeps (drain_updates (WO := WO)).
Proof. unfold drain_updates, emit_update. keep. Qed.
Hint Resolve keeps_response keeps_prepare keeps_run_start keeps_run_executed keeps_run_rewrite keeps_drain : keeps.

Lemma keeps_emit_result outcome hooks : steady_hooks hooks -> keeps (emit_result outcome hooks).
Proof. intros Hhooks. unfold emit_result. keep. Qed.
Hint Resolve keeps_emit_result : keeps.

Lemma keeps_sequential (scope : CallScope (Number := Number) (M := M) (T := T) (W := W)) calls :
  steady_hooks (sc_hooks scope) -> keeps (sequential_loop validate_tool_arguments scope calls).
Proof.
  intros Hhooks. induction calls as [|call calls IH]; cbn [sequential_loop]; unfold emit_start, emit_end, drive; keep.
Qed.

Lemma keeps_prepare_loop (scope : CallScope (Number := Number) (M := M) (T := T) (W := W)) calls slots running :
  steady_hooks (sc_hooks scope) -> keeps (prepare_loop validate_tool_arguments scope calls slots running).
Proof.
  intros Hhooks. revert slots running. induction calls as [|call calls IH]; intros slots running; cbn [prepare_loop];
    unfold prepare_slot, emit_start, emit_end; keep.
Qed.

Lemma keeps_run_tasks fuel (scope : CallScope (Number := Number) (M := M) (T := T) (W := W)) running slots :
  steady_hooks (sc_hooks scope) -> keeps (run_tasks fuel scope running slots).
Proof.
  intros Hhooks. revert running slots. induction fuel as [|fuel IH]; intros running slots; cbn [run_tasks];
    unfold task_step, emit_end; keep.
Qed.
Hint Resolve keeps_sequential keeps_prepare_loop keeps_run_tasks : keeps.

Lemma keeps_run_calls (context : Ctx) (config : Config) new_messages message :
  steady_config config -> keeps (run_calls validate_tool_arguments context config new_messages message).
Proof.
  intros Hconfig. pose proof (sc_steady_hooks _ Hconfig) as Hhooks.
  unfold run_calls, fail_truncated_calls, execute_tool_calls, execute_sequential, execute_parallel, emit_start, emit_end.
  keep.
Qed.

Lemma keeps_deliver messages (context : Ctx) new_messages hooks :
  steady_hooks hooks -> keeps (deliver messages context new_messages hooks).
Proof.
  intros Hhooks. revert context new_messages. induction messages as [|message messages IH];
    intros context new_messages; cbn [deliver]; keep.
Qed.

Lemma keeps_poll queue : steady queue -> keeps (poll (Number := Number) (T := T) queue).
Proof. intros Hqueue. unfold poll. keep. Qed.
Hint Resolve keeps_run_calls keeps_deliver keeps_poll : keeps.

(** Settings change from turn to turn, hooks, queues and provider do not. *)
Lemma steady_with_model (config : Config) model level : steady_config config -> steady_config (with_model config model level).
Proof. by intros []. Qed.

Notation LoopState := (@LoopState Number M T W Other).

(** Keeps the invariant, and its answer satisfies [Q]. *)
Definition keeps_to {A} (m : Run A) (Q : A -> Prop) : Prop :=
  keeps m /\ forall s, inv (s_world s) (s_history s) -> Q (m s).1.

Lemma keeps_to_ret {A} (a : A) (Q : A -> Prop) : Q a -> keeps_to (mret a) Q.
Proof. intros Ha. split; [apply keeps_ret|done]. Qed.

Lemma keeps_to_bind {A B} (m : Run A) (f : A -> Run B) R Q :
  keeps_to m R -> (forall a, R a -> keeps_to (f a) Q) -> keeps_to (m ≫= f) Q.
Proof.
  intros [Hm HR] Hf. split; intros s Hs; specialize (Hm s Hs); specialize (HR s Hs); unfold mbind, run_bind;
    destruct (m s) as [a s']; by apply (Hf a HR).
Qed.

Lemma keeps_to_any {A} (m : Run A) : keeps m -> keeps_to m (fun _ => True).
Proof. by split. Qed.

Lemma keeps_to_then {A B} (m : Run A) (f : A -> Run B) Q :
  keeps m -> (forall a, keeps_to (f a) Q) -> keeps_to (m ≫= f) Q.
Proof. intros Hm Hf. eapply keeps_to_bind; [by apply keeps_to_any|]. intros a _. apply Hf. Qed.

(** The flow of a step goes on with a steady configuration. *)
Definition steady_flow (flow : Flow (Number := Number) (M := M) (T := T) (W := W) (Other := Other)) : Prop :=
  match flow with Running state => steady_config (ls_config state) | Finished _ => True end.

Lemma keeps_finish_run new_messages : keeps_to (finish_run new_messages) steady_flow.
Proof. unfold finish_run. apply keeps_to_then; [keep|]. intros ?. by apply keeps_to_ret. Qed.

Lemma keeps_prepare_turn (state : LoopState) turn :
  steady_config (ls_config state) ->
  keeps_to (prepare_turn state turn) (fun '(_, config, _, _) => steady_config config).
Proof.
  intros Hconfig. pose proof (sc_steady_hooks _ Hconfig) as Hhooks. unfold prepare_turn.
  apply keeps_to_then; [keep|]. intros update.
  assert (Hnext : forall level model, steady_config (with_model (ls_config state) level model)).
  { intros level model. by apply steady_with_model. }
  destruct update as [update|]; (apply keeps_to_then; [keep|]; intros ?; apply keeps_to_then; [|intros pending];
    [keep; eauto with keeps | apply keeps_to_then; [keep|]; intros ?; apply keeps_to_ret; done]).
Qed.

Lemma keeps_complete_turn (context : Ctx) (config : Config) new_messages message :
  steady_config config -> keeps_to (complete_turn validate_tool_arguments context config new_messages message) steady_flow.
Proof.
  intros Hconfig. pose proof (sc_steady_hooks _ Hconfig) as Hhooks. unfold complete_turn.
  destruct (is_failure message).
  - apply keeps_to_then; [keep|]. intros ?. apply keeps_to_then; [keep|]. intros ?. apply keeps_finish_run.
  - apply keeps_to_then; [keep|]. intros [[[context' messages] results] more].
    apply keeps_to_then; [keep|]. intros decision. apply keeps_to_then; [keep|]. intros ?.
    destruct decision as [[]|]; try apply keeps_finish_run;
      (apply keeps_to_then; [keep|]; intros pending; by apply keeps_to_ret).
Qed.

Lemma keeps_turn (state : LoopState) :
  steady_config (ls_config state) -> keeps_to (turn validate_tool_arguments state) steady_flow.
Proof.
  intros Hconfig. unfold turn.
  eapply keeps_to_bind with (R := fun '(_, config, _, _) => steady_config config).
  { destruct (ls_last_turn state); [by apply keeps_prepare_turn|by apply keeps_to_ret]. }
  intros [[[context config] prepared] pending] Hnext. pose proof (sc_steady_hooks _ Hnext) as Hhooks.
  apply keeps_to_then; [keep|]. intros messages. apply keeps_to_then; [keep|]. intros [context' new_messages].
  apply keeps_to_then; [keep|]. intros update.
  destruct update as [update|]; (apply keeps_to_then; [|intros [context'' message]; apply keeps_complete_turn]);
    try apply keeps_response; try apply steady_with_model; done.
Qed.

Lemma keeps_loop_step (state : LoopState) :
  steady_config (ls_config state) -> keeps_to (loop_step validate_tool_arguments state) steady_flow.
Proof.
  intros Hconfig. unfold loop_step. destruct (_ || _); [by apply keeps_turn|]. unfold would_stop.
  apply keeps_to_then; [keep|]. intros [|message messages]; [|by apply keeps_to_ret].
  destruct (ls_explicit_continuation state); [by apply keeps_to_ret|apply keeps_finish_run].
Qed.

Lemma keeps_loop_steps fuel (state : LoopState) :
  steady_config (ls_config state) -> keeps (loop_steps validate_tool_arguments fuel state).
Proof.
  revert state. induction fuel as [|fuel IH]; intros state Hconfig; cbn [loop_steps]; [apply keeps_ret|].
  apply (keeps_to_bind _ _ steady_flow (fun _ => True)); [by apply keeps_loop_step|].
  intros [state'|new_messages] Hflow; apply keeps_to_any; [by apply IH|apply keeps_ret].
Qed.
Hint Resolve keeps_loop_steps : keeps.

(** The rule for whole runs. *)
Lemma keeps_run fuel prompts (context : Ctx) (config : Config) :
  steady_config config -> keeps (run_agent_loop validate_tool_arguments fuel prompts context config).
Proof.
  intros Hconfig. pose proof (sc_steady_hooks _ Hconfig) as Hhooks. unfold run_agent_loop, run_loop. keep.
Qed.

Lemma keeps_continue fuel (context : Ctx) (config : Config) :
  steady_config config -> keeps (run_agent_loop_continue validate_tool_arguments fuel context config).
Proof.
  intros Hconfig. pose proof (sc_steady_hooks _ Hconfig) as Hhooks. unfold run_agent_loop_continue, run_loop. keep.
Qed.
End Invariant.
