(* ===== verification/AgentRun.v ===== *)
(** * What a run of the agent guarantees

    A Hoare logic for the runs of AgentLoop: a triple says what a run appends to its history.  From it:
    the tools declared to the model are the ones that can run; a run's events are bracketed and end with
    [AgentEnd]; no tool starts but behind its gate, with the arguments the gate let through; tool
    results answer their calls in order; every message a run was given is started, in order; and the
    messages a run reports are those whose end it reported. *)
From stdpp Require Import gmultiset.
From S2P Require Import Prelude Json PiTypes Transcript AssistantStream AgentTypes AgentLoop Validation.

Section Hoare.
Context {Number M T W : Type}.
Notation Run := (@Run Number M T W).
Notation History := (list (@Happening Number M T)).

(** From a history where [P] holds, the run appends to it and leaves [Q] of its answer. *)
Definition hoare {A} (P : History -> Prop) (m : Run A) (Q : A -> History -> Prop) : Prop :=
  forall s, P (s_history s) ->
    exists t, s_history (m s).2 = s_history s ++ t /\ Q (m s).1 (s_history s ++ t).

Lemma hoare_ret {A} (a : A) (P : History -> Prop) (Q : A -> History -> Prop) :
  (forall h, P h -> Q a h) -> hoare P (mret a) Q.
Proof. intros H s HP. exists []. rewrite app_nil_r. by split; [|apply H]. Qed.

Lemma hoare_bind {A B} (m : Run A) (f : A -> Run B) P R Q :
  hoare P m R -> (forall a, hoare (R a) (f a) Q) -> hoare P (m ≫= f) Q.
Proof.
  intros Hm Hf s HP. destruct (Hm s HP) as (t & Ht & HR). unfold mbind, run_bind.
  destruct (m s) as [a s']. cbn in *. rewrite <- Ht in HR.
  destruct (Hf a s' HR) as (t' & Ht' & HQ). exists (t ++ t').
  rewrite Ht', Ht, (assoc_L (++)) in *. done.
Qed.

Lemma hoare_assoc {A B C} (m : Run A) (f : A -> Run B) (g : B -> Run C) P Q :
  hoare P ((m ≫= f) ≫= g) Q -> hoare P (m ≫= fun a => f a ≫= g) Q.
Proof.
  intros H s HP. specialize (H s HP). unfold mbind, run_bind in *. destruct (m s) as [a s']. done.
Qed.

Lemma hoare_weaken {A} (m : Run A) P P' (Q Q' : A -> History -> Prop) :
  hoare P' m Q' -> (forall h, P h -> P' h) -> (forall a h, Q' a h -> Q a h) -> hoare P m Q.
Proof. intros Hm HP HQ s H. destruct (Hm s (HP _ H)) as (t & Ht & HR). exists t. auto. Qed.

Lemma hoare_ask {A} (op : W -> A * W) P (Q : A -> History -> Prop) :
  (forall a h, P h -> Q a h) -> hoare P (ask op) Q.
Proof.
  intros H s HP. unfold ask. destruct (op (s_world s)) as [a w]. exists []. cbn. rewrite app_nil_r. auto.
Qed.

Lemma hoare_ask_from {A} (op : W -> A * W) P (Q : A -> History -> Prop) :
  (forall w h, P h -> Q (op w).1 h) -> hoare P (ask op) Q.
Proof.
  intros H s HP. specialize (H (s_world s) _ HP). unfold ask.
  destruct (op (s_world s)) as [a w]. exists []. cbn. by rewrite app_nil_r.
Qed.

Lemma hoare_tell (op : W -> W) P (Q : () -> History -> Prop) :
  (forall h, P h -> Q () h) -> hoare P (tell op) Q.
Proof. intros H s HP. exists []. cbn. rewrite app_nil_r. auto. Qed.

Lemma hoare_note happening P (Q : () -> History -> Prop) :
  (forall h, P h -> Q () (h ++ [happening])) -> hoare P (note happening) Q.
Proof. intros H s HP. exists [happening]. cbn. auto. Qed.

(** What stays true of longer histories stays true. *)
Definition stable (F : History -> Prop) : Prop := forall h t, F h -> F (h ++ t).

Lemma hoare_frame {A} (F : History -> Prop) (m : Run A) P (Q : A -> History -> Prop) :
  stable F -> hoare P m Q -> hoare (fun h => P h /\ F h) m (fun a h => Q a h /\ F h).
Proof. intros HF Hm s [HP Hs]. destruct (Hm s HP) as (t & Ht & HQ). exists t. auto. Qed.

(** Facts that do not mention the history. *)
Lemma hoare_pure {A} (F : Prop) (m : Run A) P (Q : A -> History -> Prop) :
  (F -> hoare P m Q) -> hoare (fun h => F /\ P h) m Q.
Proof. intros Hm s [HF HP]. by apply Hm. Qed.

Lemma hoare_pure_r {A} (F : Prop) (m : Run A) P (Q : A -> History -> Prop) :
  (F -> hoare P m Q) -> hoare (fun h => P h /\ F) m Q.
Proof. intros Hm s [HP HF]. by apply Hm. Qed.

Lemma hoare_exists {A X} (m : Run A) (P : X -> History -> Prop) (Q : A -> History -> Prop) :
  (forall x, hoare (P x) m Q) -> hoare (fun h => exists x, P x h) m Q.
Proof. intros Hm s [x HP]. by apply (Hm x). Qed.
End Hoare.

(** ** What an observer of a run sees *)

(** Before the run; between two turns; in one, with a message open or with calls at work; after the
    run. *)
Inductive RunState := Before | Between | InTurn (message_open : bool) (working : gmultiset string) | After.

Section Views.
Context {Number M T : Type}.
Notation Happening := (@Happening Number M T).

Record View := MkView {
  vw_state : RunState;
  vw_started : list M;
  vw_ended : list M;
  vw_polled : list M;
  vw_prepared : list M;
}.

Definition with_state (v : View) (state : RunState) : View :=
  MkView state (vw_started v) (vw_ended v) (vw_polled v) (vw_prepared v).

(** [AgentStart] first; turns one after another, each closed; in a turn messages one at a time, with no
    call at work, and calls that end; [AgentEnd] last.  A provider that starts its response again starts
    the open message again. *)
Definition next_state (state : RunState) (event : AgentEvent Number M) : option RunState :=
  match event, state with
  | AgentStart, Before => Some Between
  | AgentEnd _, Between => Some After
  | TurnStart, Between => Some (InTurn false ∅)
  | TurnEnd _ _, InTurn false working => if decide (working = ∅) then Some Between else None
  | MessageStart _, InTurn false working => if decide (working = ∅) then Some (InTurn true ∅) else None
  | MessageStart _, InTurn true working | MessageUpdate _, InTurn true working => Some (InTurn true working)
  | MessageEnd _, InTurn true working => Some (InTurn false working)
  | ToolExecutionStart id _ _, InTurn false working => Some (InTurn false ({[+ id +]} ⊎ working))
  | ToolExecutionUpdate _ _ _ _, InTurn false working => Some (InTurn false working)
  | ToolExecutionEnd id _ _ _, InTurn false working =>
      if decide (id ∈ working) then Some (InTurn false (working ∖ {[+ id +]})) else None
  | _, _ => None
  end.

(** The messages started and ended, those the queues gave and those a hook did. *)
Definition next_view (v : View) (happening : Happening) : option View :=
  match happening with
  | Emitted event =>
      state ← next_state (vw_state v) event;
      let v := with_state v state in
      Some match event with
           | MessageStart message => MkView (vw_state v) (vw_started v ++ [message]) (vw_ended v) (vw_polled v) (vw_prepared v)
           | MessageEnd message => MkView (vw_state v) (vw_started v) (vw_ended v ++ [message]) (vw_polled v) (vw_prepared v)
           | _ => v
           end
  | Polled messages =>
      Some (MkView (vw_state v) (vw_started v) (vw_ended v) (vw_polled v ++ messages) (vw_prepared v))
  | Prepares messages =>
      Some (MkView (vw_state v) (vw_started v) (vw_ended v) (vw_polled v) (vw_prepared v ++ messages))
  | _ => Some v
  end.

Definition view_from (v : View) (history : list Happening) : option View :=
  fold_left (fun v happening => v ≫= fun v => next_view v happening) history (Some v).

Lemma view_from_app v h t : view_from v (h ++ t) = view_from v h ≫= fun v => view_from v t.
Proof.
  unfold view_from. rewrite fold_left_app. destruct (fold_left _ h _) as [v'|]; [done|].
  simpl. induction t; done.
Qed.
End Views.
Arguments View : clear implicits.

Section RunFacts.
Context {Number M T W Other : Type}.
Context {JE : JsonEq Number} {AM : AgentMessage Number M} {AML : AgentMessageLaws Number M}.
Context {AT : AgentTool Number T} {WO : World Number M T W}.
Variable validate_tool_arguments : Tool Number -> ToolCall Number -> result string (Value Number).
(** What the observer had seen before. *)
Variable v0 : View M.

Notation Config := (AgentLoopConfig Number M T W Other).
Notation Ctx := (AgentContext M T).
Notation Hooks := (AgentHooks Number M T W).
Notation Run := (@Run Number M T W).
Notation History := (list (@Happening Number M T)).
Notation ReadyCall := (@ReadyCall Number T).
Notation CallScope := (@CallScope Number M T W).
Notation Task := (@Task Number T).
Notation Outcome := (@ToolCallOutcome Number).

(** The gate saw the call with validated arguments, did not block it, and let it run with these. *)
Definition passed (tool : T) (call : ToolCall Number) (args : Value Number) (h : History) : Prop :=
  exists validated decision,
    Gated call validated (Ok decision) ∈ h /\
    tool_name tool = tc_name call /\
    validate_tool_arguments (declaration tool)
      (MkToolCall (tc_id call) (tc_name call) (prepare_arguments tool (tc_arguments call))
         (tc_arguments_error call) (tc_partial_json call)) = Ok validated /\
    match decision with
    | None => args = validated
    | Some decision => bt_block decision = false /\ args = default validated (bt_args decision)
    end.

(** No tool has started but behind its gate. *)
Definition guarded (h : History) : Prop :=
  forall before after tool call args,
    h = before ++ Started tool call args :: after -> passed tool call args before.

Definition sees (v : View M) (h : History) : Prop := view_from v0 h = Some v /\ guarded h.

Definition ready_passed (ready : ReadyCall) : History -> Prop :=
  passed (rd_tool ready) (rd_call ready) (rd_args ready).

Lemma passed_stable tool call args : stable (passed tool call args).
Proof.
  intros h t (a & d & Hin & Hrest). exists a, d. split; [|done]. apply elem_of_app. by left.
Qed.

Lemma guarded_snoc h x :
  guarded h -> (forall tool call args, x = Started tool call args -> passed tool call args h) -> guarded (h ++ [x]).
Proof.
  intros Hh Hx before after tool call args Heq.
  destruct after as [|y after _] using rev_ind.
  - apply app_inj_tail in Heq as [-> ->]. by apply Hx.
  - rewrite app_comm_cons, (assoc_L (++)) in Heq. apply app_inj_tail in Heq as [-> _]. by eapply Hh.
Qed.

Definition starts (x : @Happening Number M T) : bool := match x with Started _ _ _ => true | _ => false end.

Lemma sees_snoc v v' x h :
  sees v h -> next_view v x = Some v' -> starts x = false -> sees v' (h ++ [x]).
Proof.
  intros [Hview Hguard] Hnext Hx. split.
  - rewrite view_from_app, Hview. cbn. done.
  - apply guarded_snoc; [done|]. by intros tool call args ->.
Qed.

Lemma sees_note v v' x :
  next_view v x = Some v' -> starts x = false -> hoare (W := W) (sees v) (note x) (fun _ => sees v').
Proof. intros Hnext Hx. apply hoare_note. intros h Hh. by eapply sees_snoc. Qed.

Lemma sees_ask {A} v (op : W -> A * W) : hoare (sees v) (ask op) (fun _ => sees v).
Proof. by apply hoare_ask. Qed.

Lemma sees_tell v (op : W -> W) : hoare (sees v) (tell op) (fun _ => sees v).
Proof. by apply hoare_tell. Qed.

Lemma sees_emit v v' event :
  next_view (T := T) v (Emitted event) = Some v' -> hoare (sees v) (emit event) (fun _ => sees v').
Proof. intros Hnext. eapply hoare_bind; [by apply sees_note|]. intros ?. apply sees_tell. Qed.

Lemma sees_cancelled v :
  hoare (sees v) is_cancelled (fun cancelled h => sees v h /\ (cancelled = true -> Cancelled true ∈ h)).
Proof.
  eapply hoare_bind; [apply sees_ask|]. intros cancelled.
  eapply hoare_bind with (R := fun _ h => sees v h /\ (cancelled = true -> Cancelled true ∈ h)).
  - apply hoare_note. intros h Hh. split; [by eapply sees_snoc|]. intros ->. apply elem_of_app. right. by left.
  - intros ?. by apply hoare_ret.
Qed.

(** A step that the observer does not see, kept whole: the frame of [sees]. *)
Lemma sees_run_start v ready :
  hoare (fun h => sees v h /\ ready_passed ready h) (run_start ready) (fun _ h => sees v h).
Proof.
  eapply hoare_bind with (R := fun _ => sees v); [|intros ?; apply sees_tell]. apply hoare_note. intros h [[Hview Hguard] Hpassed]. split.
  - by rewrite view_from_app, Hview.
  - apply guarded_snoc; [done|]. by intros tool call args [= <- <- <-].
Qed.

Lemma sees_run_executed v ready : hoare (sees v) (run_executed ready) (fun _ => sees v).
Proof. eapply hoare_bind; [apply sees_ask|]. intros []; by apply hoare_ret. Qed.

Lemma sees_run_rewrite v (scope : CallScope) ready result is_error :
  hoare (sees v) (run_rewrite scope ready result is_error)
    (fun outcome h => sees v h /\ oc_tool_call outcome = rd_call ready).
Proof.
  eapply hoare_bind; [apply sees_ask|]. intros rewritten.
  destruct (match rewritten with Ok None => _ | Ok (Some _) => _ | Err _ => _ end) as [result' is_error'].
  by apply hoare_ret.
Qed.

(** ** Messages *)

Definition idle (v : View M) : Prop := vw_state v = InTurn false ∅.

Definition said (v : View M) (started ended : list M) : View M :=
  MkView (vw_state v) (vw_started v ++ started) (vw_ended v ++ ended) (vw_polled v) (vw_prepared v).

Lemma said_nil v : said v [] [] = v.
Proof. destruct v. unfold said. simpl. by rewrite !app_nil_r. Qed.

Lemma said_said v s1 e1 s2 e2 : said (said v s1 e1) s2 e2 = said v (s1 ++ s2) (e1 ++ e2).
Proof. unfold said. simpl. by rewrite <- !(assoc_L (++)). Qed.

Lemma sees_start_message v message :
  idle v -> hoare (sees v) (emit (MessageStart message)) (fun _ => sees (with_state (said v [message] []) (InTurn true ∅))).
Proof.
  intros Hidle. apply sees_emit. cbn. rewrite Hidle. cbn. rewrite decide_True by done.
  unfold with_state, said. simpl. by rewrite app_nil_r.
Qed.

Lemma sees_end_message v message :
  idle v ->
  hoare (sees (with_state v (InTurn true ∅))) (emit (MessageEnd message)) (fun _ => sees (said v [] [message])).
Proof.
  intros Hidle. apply sees_emit. cbn. unfold with_state, said. simpl. rewrite Hidle. by rewrite app_nil_r.
Qed.

Lemma sees_emit_message v message (hooks : Hooks) :
  idle v -> hoare (sees v) (emit_message message hooks) (fun message' => sees (said v [message] [message'])).
Proof.
  intros Hidle. eapply hoare_bind; [by apply sees_start_message|]. intros ?.
  eapply hoare_bind; [apply sees_ask|]. intros message'.
  eapply hoare_bind; [by apply sees_end_message|]. intros ?. apply hoare_ret. intros h.
  by rewrite said_said.
Qed.

Lemma sees_deliver messages v context new_messages (hooks : Hooks) :
  idle v ->
  hoare (sees v) (deliver messages context new_messages hooks)
    (fun '(context', new_messages') h =>
       exists ended, sees (said v messages ended) h /\ new_messages' = new_messages ++ ended /\
         ac_messages (M := M) (T := T) context' = ac_messages context ++ ended /\ ac_tools context' = ac_tools context).
Proof.
  intros Hidle. revert v context new_messages Hidle.
  induction messages as [|message messages IH]; intros v context new_messages Hidle.
  - apply hoare_ret. intros h Hh. exists []. by rewrite said_nil, !app_nil_r.
  - eapply hoare_bind; [by apply sees_emit_message|]. intros message'.
    eapply hoare_weaken; [exact (IH (said v [message] [message']) _ _ Hidle)|done|]. intros [context' new_messages'] h (ended & Hh & -> & Hm & Ht).
    exists (message' :: ended). rewrite said_said in Hh. rewrite Hm, <- !(assoc_L (++)).
    split_and!; [exact Hh|done|simpl; by rewrite <- (assoc_L (++))|done].
Qed.

(** ** One response *)

(** A response in progress. *)
Definition streaming (v : View M) (first : list M) : View M := with_state (said v first []) (InTurn true ∅).

Definition stream_seen (v : View M) (started : bool) (h : History) : Prop :=
  if started then exists first, first <> [] /\ sees (streaming v first) h else sees v h.

Lemma sees_stream_start v started message :
  idle v -> hoare (stream_seen v started) (emit (MessageStart message)) (fun _ => stream_seen v true).
Proof.
  intros Hidle. destruct started; cbn [stream_seen].
  - apply hoare_exists. intros first. apply hoare_pure. intros _.
    eapply hoare_weaken with (Q' := fun _ => sees (streaming v (first ++ [message]))).
    + apply (sees_emit (streaming v first)). unfold streaming, with_state, said. cbn. by rewrite <- (assoc_L (++)).
    + done.
    + intros ? h Hh. exists (first ++ [message]). split; [by destruct first|done].
  - eapply hoare_weaken; [by apply sees_start_message|done|]. intros ? h Hh. by exists [message].
Qed.

Lemma sees_stream_loop fuel stream_fn stream v started :
  idle v ->
  hoare (stream_seen v started) (stream_loop (Other := Other) fuel stream_fn stream started)
    (fun '(started', _, _) h => stream_seen v started' h).
Proof.
  intros Hidle. revert stream started. induction fuel as [|fuel IH]; intros stream started.
  - eapply hoare_bind; [by apply (hoare_ret _ _ (fun received => stream_seen v started))|]. intros received.
    destruct (poll_event stream received) as [[[]|] stream']; by apply hoare_ret.
  - eapply hoare_bind; [by apply (hoare_ask _ _ (fun received => stream_seen v started))|]. intros received.
    destruct (poll_event stream received) as [[event|] stream']; [|by apply hoare_ret].
    assert (Hupdate : hoare (stream_seen v started) (if started then emit (MessageUpdate event) else mret ())
                        (fun _ => stream_seen v started)).
    { destruct started; [|by apply hoare_ret]. apply hoare_exists. intros first. apply hoare_pure. intros Hne.
      eapply hoare_weaken; [by apply (sees_emit (streaming v first) (streaming v first))|done|]. intros ? h Hh. by exists first. }
    destruct event; try (by apply hoare_ret);
      (eapply hoare_bind; [first [exact Hupdate | by apply sees_stream_start]|]; intros ?; apply IH).
Qed.

Lemma sees_response v (context : Ctx) (config : Config) :
  idle v ->
  hoare (sees v) (stream_assistant_response context config)
    (fun '(context', message) h =>
       exists first finalized, first <> [] /\ sees (said v first [finalized]) h /\
         ac_messages context' = ac_messages context ++ [finalized] /\ ac_tools context' = ac_tools context /\
         exists w answered,
           finalized = (finalize_message (cf_hooks config) (wrap (Assistant answered)) w).1 /\
           message = default answered (as_assistant finalized)).
Proof.
  intros Hidle. unfold stream_assistant_response.
  do 3 (eapply hoare_bind; [apply sees_ask|]; intros ?).
  eapply hoare_bind; [apply sees_tell|]; intros ?.
  eapply hoare_bind; [apply sees_ask|]; intros budget.
  eapply hoare_bind; [by apply (sees_stream_loop budget _ _ v false)|]. intros [[started stream] result].
  eapply hoare_bind with (R := fun _ => stream_seen v started).
  { destruct result; [by apply hoare_ret|by apply hoare_ask]. }
  intros now. set (answered := with_thinking_level _ _).
  eapply hoare_bind with (R := fun _ => stream_seen v true).
  { destruct started; [by apply hoare_ret|by apply sees_stream_start]. }
  intros ?. apply hoare_exists. intros first. apply hoare_pure. intros Hne.
  eapply hoare_bind with (R := fun finalized h => sees (streaming v first) h /\
    exists w, finalized = (finalize_message (cf_hooks config) (wrap (Assistant answered)) w).1).
  { apply hoare_ask_from. intros w h Hh. split; [done|]. by exists w. }
  intros finalized.
  eapply hoare_bind with (R := fun _ h => sees (said v first [finalized]) h /\
    exists w, finalized = (finalize_message (cf_hooks config) (wrap (Assistant answered)) w).1).
  { apply (hoare_frame (fun _ => exists w, _)); [by intros h t|].
    eapply hoare_weaken; [exact (sees_end_message (said v first []) finalized Hidle)|done|]. intros ? h. by rewrite said_said, app_nil_r. }
  intros ?. apply hoare_ret. intros h [Hh [w Hw]]. exists first, finalized. split_and!; try done.
  by exists w, answered.
Qed.

(** ** Tool calls *)

Definition prepared_for (call : ToolCall Number) (prepared : @Prepared Number T) (h : History) : Prop :=
  match prepared with
  | Immediate outcome => oc_tool_call outcome = call
  | Ready ready => rd_call ready = call /\ ready_passed ready h
  end.

Lemma sees_prepare v (scope : CallScope) call :
  hoare (sees v) (prepare_tool_call validate_tool_arguments scope call)
    (fun prepared h => sees v h /\ prepared_for call prepared h).
Proof.
  unfold prepare_tool_call. destruct (find _ _) as [tool|] eqn:Hfind; [|by apply hoare_ret].
  apply find_some in Hfind as [_ Hname%String.eqb_eq].
  destruct (validate_tool_arguments _ _) as [validated|error] eqn:Hvalid; [|by apply hoare_ret].
  eapply hoare_bind; [apply sees_ask|]. intros gate.
  eapply hoare_bind with (R := fun _ h => sees v h /\ Gated call validated gate ∈ h).
  { apply hoare_note. intros h Hh. split; [by eapply sees_snoc|]. apply elem_of_app. right. by left. }
  intros ?. destruct gate as [decision|error]; [|apply hoare_ret; by intros h [Hh _]].
  eapply hoare_bind with (R := fun _ h => sees v h /\ Gated call validated (Ok decision) ∈ h).
  { apply (hoare_frame (fun h => Gated call validated (Ok decision) ∈ h)).
    - intros h t Hin. apply elem_of_app. by left.
    - eapply hoare_weaken; [apply sees_cancelled|done|]. by intros ? h [Hh _]. }
  intros [|]; [apply hoare_ret; by intros h [Hh _]|].
  assert (Hpassed : forall args, match decision with
      | None => args = validated
      | Some decision => bt_block decision = false /\ args = default validated (bt_args decision)
      end -> forall h, sees v h /\ Gated call validated (Ok decision) ∈ h ->
      sees v h /\ prepared_for call (Ready (MkReadyCall call tool args)) h).
  { intros args Hargs h [Hh Hin]. split; [done|]. split; [done|]. by exists validated, decision. }
  destruct decision as [decision|]; [|apply hoare_ret; by apply Hpassed].
  destruct (bt_block decision) eqn:Hblock; [apply hoare_ret; by intros h [Hh _]|].
  apply hoare_ret; by apply Hpassed.
Qed.

Definition in_turn (v : View M) (working : gmultiset string) : Prop := vw_state v = InTurn false working.

Lemma sees_emit_start v working call :
  in_turn v working ->
  hoare (sees v) (emit_start call) (fun _ => sees (with_state v (InTurn false ({[+ tc_id call +]} ⊎ working)))).
Proof. intros Hstate. apply sees_emit. cbn. by rewrite Hstate. Qed.

Lemma working_done (id : string) (working : gmultiset string) :
  id ∈ {[+ id +]} ⊎ working /\ ({[+ id +]} ⊎ working) ∖ {[+ id +]} = working.
Proof. split; multiset_solver. Qed.

Lemma sees_emit_end v working outcome :
  in_turn v ({[+ tc_id (oc_tool_call outcome) +]} ⊎ working) ->
  hoare (sees v) (emit_end outcome) (fun _ => sees (with_state v (InTurn false working))).
Proof.
  intros Hstate. destruct (working_done (tc_id (oc_tool_call outcome)) working) as [Hin Hrest].
  apply sees_emit. cbn [next_view next_state]. rewrite Hstate, decide_True, Hrest by done. done.
Qed.

Lemma sees_drain v working : in_turn v working -> hoare (sees v) drain_updates (fun _ => sees v).
Proof.
  intros Hstate. eapply hoare_bind; [apply sees_ask|]. intros updates.
  eapply hoare_bind with (R := fun _ => sees v); [|intros ?; by apply hoare_ret].
  induction updates as [|update updates IH]; [by apply hoare_ret|].
  eapply hoare_bind with (R := fun _ => sees v).
  { apply sees_emit. cbn. rewrite Hstate. cbn. destruct v. cbn in *. by rewrite <- Hstate. }
  intros ?. eapply hoare_bind; [exact IH|]. intros ?. by apply hoare_ret.
Qed.

Lemma sees_drive v working (scope : CallScope) ready :
  in_turn v working ->
  hoare (fun h => sees v h /\ ready_passed ready h) (drive scope ready)
    (fun outcome h => sees v h /\ oc_tool_call outcome = rd_call ready).
Proof.
  intros Hstate. eapply hoare_bind; [apply sees_run_start|]. intros ?.
  eapply hoare_bind; [by eapply sees_drain|]. intros ?.
  eapply hoare_bind; [apply sees_run_executed|]. intros [result is_error].
  eapply hoare_bind; [by eapply sees_drain|]. intros ?.
  eapply hoare_bind; [apply sees_run_rewrite|]. intros outcome.
  eapply hoare_bind with (R := fun _ h => sees v h /\ oc_tool_call outcome = rd_call ready).
  - apply (hoare_frame (fun _ => _)); [by intros h t|]. by eapply sees_drain.
  - intros ?. by apply hoare_ret.
Qed.

(** A result message answers a call. *)
Definition answers_call (call : ToolCall Number) (message : M) : Prop :=
  exists result, message = wrap (ToolResult result) /\
    rm_tool_call_id result = tc_id call /\ rm_tool_name result = tc_name call.

Lemma sees_emit_result v outcome (hooks : Hooks) :
  idle v ->
  hoare (sees v) (emit_result outcome hooks)
    (fun message' h => exists message, sees (said v [message] [message']) h /\
       answers_call (oc_tool_call outcome) message).
Proof.
  intros Hidle. eapply hoare_bind; [apply sees_ask|]. intros now.
  eapply hoare_weaken; [by apply sees_emit_message|done|]. intros message' h Hh.
  eexists. split; [exact Hh|]. by eexists.
Qed.

(** A result message says that the call failed. *)
Definition fails_call (call : ToolCall Number) (message : M) : Prop :=
  exists result, message = wrap (ToolResult result) /\
    rm_tool_call_id result = tc_id call /\ rm_tool_name result = tc_name call /\ rm_is_error result = true.

Lemma sees_emit_failure v outcome (hooks : Hooks) :
  idle v -> oc_is_error outcome = true ->
  hoare (sees v) (emit_result outcome hooks)
    (fun message' h => exists message, sees (said v [message] [message']) h /\
       fails_call (oc_tool_call outcome) message).
Proof.
  intros Hidle Herror. eapply hoare_bind; [apply sees_ask|]. intros now.
  eapply hoare_weaken; [by apply sees_emit_message|done|]. intros message' h Hh.
  eexists. split; [exact Hh|]. by eexists.
Qed.

(** What a batch leaves: results for the first calls, in order, for all of them unless the run was
    cancelled. *)
Definition answered (v : View M) (calls : list (ToolCall Number)) (outcomes : list Outcome) (messages : list M)
    (h : History) : Prop :=
  exists n started,
    sees (said v started messages) h /\ oc_tool_call <$> outcomes = take n calls /\
    Forall2 answers_call (take n calls) started /\ length messages = length started /\
    (length calls <= n \/ Cancelled true ∈ h)%nat.

Lemma sees_sequential v (scope : CallScope) calls :
  idle v ->
  hoare (sees v) (sequential_loop validate_tool_arguments scope calls)
    (fun '(outcomes, messages) h => answered v calls outcomes messages h).
Proof.
  revert v. induction calls as [|call calls IH]; intros v Hidle.
  - apply hoare_ret. intros h Hh. exists 0%nat, []. rewrite said_nil. split_and!; try done. by left.
  - eapply hoare_bind; [by apply sees_emit_start|]. intros ?.
    set (v' := with_state v _).
    eapply hoare_bind; [apply sees_prepare|]. intros prepared.
    eapply hoare_bind with (R := fun outcome h => sees v' h /\ oc_tool_call outcome = call).
    { destruct prepared as [outcome|ready]; [by apply hoare_ret|]. cbn [prepared_for].
      eapply hoare_weaken with (P' := fun h => rd_call ready = call /\ (sees v' h /\ ready_passed ready h))
        (Q' := fun outcome h => sees v' h /\ oc_tool_call outcome = call);
        [apply hoare_pure; intros <-; by eapply sees_drive|naive_solver|done]. }
    intros outcome. apply hoare_pure_r. intros Hcall.
    eapply hoare_bind with (R := fun _ => sees v).
    { eapply hoare_weaken; [apply (sees_emit_end v' ∅); by rewrite Hcall|done|].
      intros ? h. unfold with_state, v'. cbn. destruct v. cbn in *. unfold idle in Hidle. cbn in Hidle. by rewrite Hidle. }
    intros ?. eapply hoare_bind; [by apply sees_emit_result|]. intros message'.
    apply hoare_exists. intros message. rewrite Hcall. apply hoare_pure_r. intros Hanswer.
    eapply hoare_bind; [apply sees_cancelled|]. intros [|].
    + apply hoare_ret. intros h [Hh Hcancelled]. exists 1%nat, [message]. cbn. rewrite take_0, Hcall.
      split_and!; try done; [by repeat constructor|]. right. by apply Hcancelled.
    + eapply hoare_bind; [eapply hoare_weaken; [apply (IH (said v [message] [message'])); exact Hidle|by intros h [Hh _]|done]|].
      intros [outcomes messages]. apply hoare_ret. intros h (n & started & Hh & Hcalls & Hans & Hlen & Hall).
      exists (S n), (message :: started). rewrite said_said in Hh. cbn. rewrite Hcall, Hcalls.
      split_and!; [done|done|by constructor|by rewrite Hlen|]. destruct Hall; [left; lia|by right].
Qed.

(** ** Calls in parallel *)

Definition task_ready (task : Task) : ReadyCall :=
  match task with Unpolled ready | Executing ready | Rewriting ready _ _ => ready end.

(** The ids of the calls at work. *)
Definition working_ids (running : list (nat * Task)) : gmultiset string :=
  list_to_set_disj ((fun e => tc_id (rd_call (task_ready e.2))) <$> running).

Definition all_passed (running : list (nat * Task)) (h : History) : Prop :=
  forall e, e ∈ running -> ready_passed (task_ready e.2) h.

Lemma all_passed_stable running : stable (all_passed running).
Proof. intros h t Hall e He. by apply passed_stable, Hall. Qed.

(** A slot is empty while its call is at work, and then has its outcome. *)
Record slots_ok (calls : list (ToolCall Number)) (slots : list (option Outcome)) (running : list (nat * Task)) : Prop := {
  slots_length : (length slots <= length calls)%nat;
  slots_distinct : NoDup running.*1;
  slots_open i : slots !! i = Some None <-> i ∈ running.*1;
  slots_done i outcome : slots !! i = Some (Some outcome) -> calls !! i = Some (oc_tool_call outcome);
  slots_running e : e ∈ running -> calls !! e.1 = Some (rd_call (task_ready e.2));
}.

Lemma slots_push_done calls slots running outcome :
  slots_ok calls slots running -> calls !! length slots = Some (oc_tool_call outcome) ->
  slots_ok calls (slots ++ [Some outcome]) running.
Proof.
  intros [Hlen Hnd Hopen Hdone Hrun] Hcall. split; try done.
  - rewrite length_app. simpl. apply lookup_lt_Some in Hcall. lia.
  - intros i. rewrite lookup_snoc_if, <- Hopen. case_decide as Hi; [|done].
    rewrite Hi, lookup_ge_None_2 by lia. done.
  - intros i o. rewrite lookup_snoc_if. case_decide as Hi; [|by apply Hdone]. rewrite Hi. by intros [= <-].
Qed.

Lemma slots_push_running calls slots running task :
  slots_ok calls slots running -> calls !! length slots = Some (rd_call (task_ready task)) ->
  slots_ok calls (slots ++ [None]) (running ++ [(length slots, task)]).
Proof.
  intros [Hlen Hnd Hopen Hdone Hrun] Hcall.
  assert (Hfresh : length slots ∉ running.*1) by (rewrite <- Hopen, lookup_ge_None_2 by lia; done).
  split.
  - rewrite length_app. simpl. apply lookup_lt_Some in Hcall. lia.
  - rewrite fmap_app. apply NoDup_app. split_and!; [done| |apply NoDup_singleton].
    intros i Hi ->%list_elem_of_singleton. done.
  - intros i. rewrite lookup_snoc_if, fmap_app, elem_of_app, <- Hopen. change ([_].*1) with [length slots].
    rewrite list_elem_of_singleton. case_decide as Hi; [|naive_solver].
    rewrite Hi, lookup_ge_None_2 by lia. naive_solver.
  - intros i o. rewrite lookup_snoc_if. case_decide as Hi; [done|by apply Hdone].
  - intros e [He| ->%list_elem_of_singleton]%elem_of_app; [by apply Hrun|done].
Qed.

Lemma slots_advance calls slots running k index task task' :
  slots_ok calls slots running -> running !! k = Some (index, task) -> task_ready task' = task_ready task ->
  slots_ok calls slots (<[k := (index, task')]> running).
Proof.
  intros [Hlen Hnd Hopen Hdone Hrun] Hk Hready.
  assert (Hkeys : (<[k := (index, task')]> running).*1 = running.*1).
  { rewrite list_fmap_insert. apply list_insert_id. by rewrite list_lookup_fmap, Hk. }
  split; rewrite ?Hkeys; try done.
  intros e [j Hj]%list_elem_of_lookup. destruct (decide (k = j)) as [<-|Hne].
  - rewrite list_lookup_insert_eq in Hj by by eapply lookup_lt_Some. injection Hj as <-. cbn. rewrite Hready.
    apply (Hrun (index, task)). by eapply list_elem_of_lookup_2.
  - rewrite list_lookup_insert_ne in Hj by done. apply Hrun. by eapply list_elem_of_lookup_2.
Qed.

Lemma slots_finish calls slots running k index task outcome :
  slots_ok calls slots running -> running !! k = Some (index, task) ->
  oc_tool_call outcome = rd_call (task_ready task) ->
  slots_ok calls (<[index := Some outcome]> slots) (delete k running).
Proof.
  intros [Hlen Hnd Hopen Hdone Hrun] Hk Hcall.
  pose proof (delete_Permutation running k _ Hk) as Hperm.
  assert (Hkeys : running.*1 ≡ₚ index :: (delete k running).*1) by exact (fmap_Permutation fst _ _ Hperm).
  rewrite Hkeys in Hnd. apply NoDup_cons in Hnd as [Hfresh Hnd].
  assert (Hin : index ∈ running.*1) by (rewrite Hkeys; by left).
  assert (Hlt : (index < length slots)%nat) by by eapply lookup_lt_Some, Hopen.
  split; [by rewrite length_insert|done|..].
  - intros i. destruct (decide (index = i)) as [<-|Hne].
    + rewrite list_lookup_insert_eq by done. by split; [|intros ?; destruct Hfresh].
    + rewrite list_lookup_insert_ne, Hopen, Hkeys, elem_of_cons by done. naive_solver.
  - intros i o. destruct (decide (index = i)) as [<-|Hne].
    + rewrite list_lookup_insert_eq by done. intros [= <-]. rewrite Hcall.
      apply (Hrun (index, task)). by eapply list_elem_of_lookup_2.
    + rewrite list_lookup_insert_ne by done. apply Hdone.
  - intros e He. apply Hrun. rewrite Hperm. by right.
Qed.

Lemma slots_outcomes (slots : list (option Outcome)) (calls : list (ToolCall Number)) :
  (length slots <= length calls)%nat -> (forall i, slots !! i <> Some None) ->
  (forall i outcome, slots !! i = Some (Some outcome) -> calls !! i = Some (oc_tool_call outcome)) ->
  oc_tool_call <$> omap id slots = take (length slots) calls.
Proof.
  revert calls. induction slots as [|slot slots IH]; intros [|call calls]; cbn; intros Hlen Hnone Hdone;
    [done|done|lia|].
  destruct slot as [outcome|]; [|by destruct (Hnone 0%nat)].
  pose proof (Hdone 0%nat outcome eq_refl) as Hcall. injection Hcall as ->. cbn. f_equal. apply IH.
  - lia.
  - intros i. apply (Hnone (S i)).
  - intros i o. apply (Hdone (S i)).
Qed.

(** The observer while these calls are at work, each behind its gate. *)
Definition at_work (v : View M) (running : list (nat * Task)) (h : History) : Prop :=
  sees (with_state v (InTurn false (working_ids running))) h /\ all_passed running h.

Lemma working_ids_cons e running :
  working_ids (e :: running) = {[+ tc_id (rd_call (task_ready e.2)) +]} ⊎ working_ids running.
Proof. done. Qed.

Lemma working_ids_perm running running' : running ≡ₚ running' -> working_ids running = working_ids running'.
Proof. intros Hperm. apply list_to_set_disj_perm. by rewrite Hperm. Qed.

Lemma with_state_same (v : View M) state : vw_state v = state -> with_state v state = v.
Proof. destruct v. cbn. by intros ->. Qed.

Lemma idle_at_work v h : idle v -> sees v h <-> at_work v [] h.
Proof.
  intros Hidle. unfold at_work. rewrite with_state_same by exact Hidle.
  split; [|by intros [? _]]. intros Hh. split; [done|]. by intros e ?%not_elem_of_nil.
Qed.

Lemma prepare_one v (scope : CallScope) calls slots running call :
  idle v -> slots_ok calls slots running -> calls !! length slots = Some call ->
  hoare (at_work v running)
    (prepare_slot validate_tool_arguments scope call slots running)
    (fun '(slots', running') h =>
       at_work v running' h /\ slots_ok calls slots' running' /\ length slots' = S (length slots)).
Proof.
  intros Hidle Hslots Hcall. set (state := fun X => with_state v (InTurn false X)).
  eapply hoare_bind; [apply (hoare_frame (all_passed running)); [apply all_passed_stable|];
    by apply (sees_emit_start (state (working_ids running)))|]. intros ?.
  eapply hoare_bind; [apply (hoare_frame (all_passed running)); [apply all_passed_stable|]; apply sees_prepare|].
  intros [outcome|ready]; cbn [prepared_for].
  - eapply hoare_bind with (R := fun _ h => at_work v running h /\ oc_tool_call outcome = call).
    + eapply hoare_weaken with (P' := fun h =>
        (sees (state ({[+ tc_id call +]} ⊎ working_ids running)) h /\ all_passed running h) /\ oc_tool_call outcome = call)
        (Q' := fun _ h => at_work v running h /\ oc_tool_call outcome = call);
        [apply hoare_pure_r; intros <-|naive_solver|done].
      eapply hoare_weaken; [apply (hoare_frame (all_passed running)); [apply all_passed_stable|];
        exact (sees_emit_end (state ({[+ tc_id (oc_tool_call outcome) +]} ⊎ working_ids running))
                     (working_ids running) outcome eq_refl)|done|]. intros ? h [Hh Hall]. by split.
    + intros ?. apply hoare_pure_r. intros <-. apply hoare_ret. intros h Hh. split_and!; [done| |].
      * by apply slots_push_done.
      * rewrite length_app. simpl. lia.
  - apply hoare_ret. intros h [[Hh [<- Hpassed]] Hall]. split_and!.
    + unfold at_work. rewrite (working_ids_perm _ ((length slots, Unpolled ready) :: running)) by by rewrite Permutation_app_comm.
      rewrite working_ids_cons. split; [exact Hh|]. intros e [He| ->%list_elem_of_singleton]%elem_of_app; [by apply Hall|done].
    + by apply slots_push_running.
    + rewrite length_app. simpl. lia.
Qed.

Lemma sees_prepare_loop v (scope : CallScope) calls all slots running :
  idle v -> slots_ok all slots running -> drop (length slots) all = calls ->
  hoare (at_work v running) (prepare_loop validate_tool_arguments scope calls slots running)
    (fun '(slots', running') h => at_work v running' h /\ slots_ok all slots' running' /\
       (length all <= length slots' \/ Cancelled true ∈ h)%nat).
Proof.
  intros Hidle. revert slots running. induction calls as [|call calls IH]; intros slots running Hslots Hdrop.
  - apply hoare_ret. intros h Hh. split_and!; [done..|]. left. apply (f_equal length) in Hdrop.
    rewrite length_drop in Hdrop. simpl in Hdrop. lia.
  - assert (Hcall : all !! length slots = Some call).
    { rewrite <- (Nat.add_0_r (length slots)), <- lookup_drop, Hdrop. done. }
    assert (Hrest : drop (S (length slots)) all = calls).
    { rewrite <- Nat.add_1_r, <- drop_drop, Hdrop. done. }
    eapply hoare_bind; [by apply (prepare_one v scope all)|]. intros [slots' running'].
    eapply hoare_bind with (R := fun cancelled h => (at_work v running' h /\ (cancelled = true -> Cancelled true ∈ h)) /\
      (slots_ok all slots' running' /\ length slots' = S (length slots))).
    { apply hoare_pure_r. intros Hpure.
      eapply hoare_weaken; [apply (hoare_frame (all_passed running')); [apply all_passed_stable|apply sees_cancelled]|done|].
      by intros ? h [[Hh Hc] Hall]. }
    intros cancelled. apply hoare_pure_r. intros [Hslots' Hlen]. destruct cancelled.
    + apply hoare_ret. intros h [Hh Hc]. split_and!; [done..|]. right. by apply Hc.
    + eapply hoare_weaken; [apply IH; [done|by rewrite Hlen]|by intros h [Hh _]|done].
Qed.

Lemma sees_task_step v working (scope : CallScope) task :
  in_turn v working ->
  hoare (fun h => sees v h /\ ready_passed (task_ready task) h) (task_step scope task)
    (fun step h => sees v h /\
       match step with
       | inl task' => task_ready task' = task_ready task /\ (awaits_left task' < awaits_left task)%nat
       | inr outcome => oc_tool_call outcome = rd_call (task_ready task)
       end).
Proof.
  intros Hstate. destruct task as [ready|ready|ready result is_error]; cbn [task_step task_ready].
  - eapply hoare_bind with (R := fun _ h => sees v h /\ ready_passed ready h).
    { apply (hoare_frame (ready_passed ready)); [apply passed_stable|].
      eapply hoare_weaken; [apply sees_cancelled|done|]. by intros ? h [Hh _]. }
    intros [|]; [by apply hoare_ret; intros h [Hh _]|].
    eapply hoare_bind; [apply sees_run_start|]. intros ?. apply hoare_ret. intros h Hh. split_and!; [done..|]. cbn. lia.
  - eapply hoare_bind; [eapply hoare_weaken; [apply sees_run_executed|by intros h [Hh _]|done]|].
    intros [result is_error]. apply hoare_ret. intros h Hh. split_and!; [done..|]. cbn. lia.
  - eapply hoare_bind; [eapply hoare_weaken; [apply sees_run_rewrite|by intros h [Hh _]|done]|].
    intros outcome. by apply hoare_ret.
Qed.

Lemma task_fuel_cons (e : nat * Task) running : task_fuel (e :: running) = (awaits_left e.2 + task_fuel running)%nat.
Proof. done. Qed.

Lemma task_fuel_perm (running running' : list (nat * Task)) :
  running ≡ₚ running' -> task_fuel running = task_fuel running'.
Proof. intros Hperm. unfold task_fuel. by rewrite Hperm. Qed.

Lemma awaits_left_pos (task : Task) : (0 < awaits_left task)%nat.
Proof. destruct task; cbn; lia. Qed.

Lemma insert_split {A} (l : list A) k a b :
  l !! k = Some a -> l ≡ₚ a :: delete k l /\ <[k := b]> l ≡ₚ b :: delete k l.
Proof.
  intros Hk. split; [by apply delete_Permutation|].
  rewrite insert_take_drop, delete_take_drop by by eapply lookup_lt_Some.
  symmetry. apply Permutation_middle.
Qed.

Lemma at_work_advance v running k index task task' h :
  running !! k = Some (index, task) -> task_ready task' = task_ready task ->
  at_work v running h -> at_work v (<[k := (index, task')]> running) h.
Proof.
  intros Hk Hready [Hh Hpassed]. destruct (insert_split running k (index, task) (index, task') Hk) as [Hall Hins].
  split.
  - rewrite (working_ids_perm _ _ Hall), working_ids_cons in Hh.
    rewrite (working_ids_perm _ _ Hins), working_ids_cons. cbn in *. by rewrite Hready.
  - intros e He. rewrite Hins in He. apply elem_of_cons in He as [->|He].
    + cbn. rewrite Hready. apply (Hpassed (index, task)). by eapply list_elem_of_lookup_2.
    + apply Hpassed. rewrite Hall. by right.
Qed.

Lemma sees_task_end v running k index task outcome :
  running !! k = Some (index, task) -> oc_tool_call outcome = rd_call (task_ready task) ->
  hoare (at_work v running) (_ ← drain_updates; emit_end outcome) (fun _ => at_work v (delete k running)).
Proof.
  intros Hk Hcall. pose proof (delete_Permutation running k _ Hk) as Hall.
  set (v' := with_state v (InTurn false (working_ids running))).
  eapply hoare_bind; [apply (hoare_frame (all_passed running)); [apply all_passed_stable|];
    by apply (sees_drain v' (working_ids running))|]. intros ?.
  eapply hoare_weaken; [apply (hoare_frame (all_passed running)); [apply all_passed_stable|];
    apply (sees_emit_end v' (working_ids (delete k running)))|done|].
  - unfold in_turn, v', with_state. cbn [vw_state]. by rewrite (working_ids_perm _ _ Hall), working_ids_cons, Hcall.
  - intros ? h [Hh Hpassed]. split; [exact Hh|]. intros e He. apply Hpassed. rewrite Hall. by right.
Qed.

Lemma sees_run_tasks v fuel (scope : CallScope) calls slots running :
  idle v -> slots_ok calls slots running -> (task_fuel running <= fuel)%nat ->
  hoare (at_work v running) (run_tasks fuel scope running slots)
    (fun slots' h => sees v h /\ slots_ok calls slots' [] /\ length slots' = length slots).
Proof.
  intros Hidle. revert slots running. induction fuel as [|fuel IH]; intros slots running Hslots Hfuel.
  { destruct running as [|e running]; [|rewrite task_fuel_cons in Hfuel; pose proof (awaits_left_pos e.2); lia].
    apply hoare_ret. intros h Hh%idle_at_work; [by split_and!|done]. }
  destruct running as [|e running].
  { apply hoare_ret. intros h Hh%idle_at_work; [by split_and!|done]. }
  cbn [run_tasks]. set (all := e :: running) in *. set (v' := with_state v (InTurn false (working_ids all))).
  eapply hoare_bind; [apply (hoare_frame (all_passed all)); [apply all_passed_stable|]; by apply (sees_drain v' (working_ids all))|].
  intros ?. eapply hoare_bind; [by apply (hoare_ask _ _ (fun _ => at_work v all))|]. intros pick.
  destruct (lookup_lt_is_Some_2 all (pick mod length all)%nat) as [[index task] Hpick].
  { apply Nat.mod_upper_bound. done. }
  rewrite Hpick. set (k := (pick mod length all)%nat) in *.
  assert (Hin : (index, task) ∈ all) by by eapply list_elem_of_lookup_2.
  eapply hoare_bind.
  { eapply hoare_weaken with (P' := fun h => (sees v' h /\ ready_passed (task_ready task) h) /\ all_passed all h);
      [apply (hoare_frame (all_passed all)); [apply all_passed_stable|by apply (sees_task_step v' (working_ids all))]| |done].
    intros h [Hh Hall]. split_and!; [done|exact (Hall _ Hin)|done]. }
  intros [task'|outcome].
  - destruct (insert_split all k (index, task) (index, task') Hpick) as [Hall Hins].
    eapply hoare_weaken with (P' := fun h => at_work v all h /\
      (task_ready task' = task_ready task /\ (awaits_left task' < awaits_left task)%nat));
      [apply hoare_pure_r; intros [Hready Hless]|unfold at_work; naive_solver|intros ? ? HQ; exact HQ].
    eapply hoare_weaken; [apply IH; [by eapply slots_advance|]|intros h; by eapply at_work_advance|done].
    rewrite (task_fuel_perm _ _ Hins), task_fuel_cons. rewrite (task_fuel_perm _ _ Hall), task_fuel_cons in Hfuel.
    cbn in *. lia.
  - pose proof (delete_Permutation all k _ Hpick) as Hall.
    eapply hoare_weaken with (P' := fun h => at_work v all h /\ oc_tool_call outcome = rd_call (task_ready task));
      [apply hoare_pure_r; intros Hcall|unfold at_work; naive_solver|intros ? ? HQ; exact HQ].
    apply hoare_assoc. eapply hoare_bind; [by eapply sees_task_end|]. intros ?.
    eapply hoare_weaken; [apply (IH (<[index := Some outcome]> slots) (delete k all))|done|].
    + by eapply slots_finish.
    + rewrite (task_fuel_perm _ _ Hall), task_fuel_cons in Hfuel. pose proof (awaits_left_pos task). cbn in *. lia.
    + intros slots' h. by rewrite length_insert.
Qed.

(** ** Batches *)

Lemma sees_results v (hooks : Hooks) (outcomes : list Outcome) :
  idle v ->
  hoare (sees v) (for_each (fun outcome => emit_result outcome hooks) outcomes)
    (fun messages h => exists started, sees (said v started messages) h /\
       Forall2 answers_call (oc_tool_call <$> outcomes) started /\ length messages = length started).
Proof.
  revert v. induction outcomes as [|outcome outcomes IH]; intros v Hidle.
  - apply hoare_ret. intros h Hh. exists []. by rewrite said_nil.
  - eapply hoare_bind; [by apply sees_emit_result|]. intros message'.
    apply hoare_exists. intros message. apply hoare_pure_r. intros Hanswer.
    eapply hoare_bind; [exact (IH (said v [message] [message']) Hidle)|]. intros messages.
    apply hoare_ret. intros h (started & Hh & Hanswers & Hlen). exists (message :: started).
    rewrite said_said in Hh. split_and!; [done|by constructor|by cbn; rewrite Hlen].
Qed.

(** What the calls of a response leave in the batch. *)
Definition batch_answers (v : View M) (calls : list (ToolCall Number)) (messages : list M) (h : History) : Prop :=
  exists n started,
    sees (said v started messages) h /\ Forall2 answers_call (take n calls) started /\
    length messages = length started /\ (length calls <= n \/ Cancelled true ∈ h)%nat.

Lemma sees_execute_parallel v (context : Ctx) assistant calls (config : Config) :
  idle v ->
  hoare (sees v) (execute_parallel validate_tool_arguments context assistant calls config)
    (fun batch => batch_answers v calls (ba_messages batch)).
Proof.
  intros Hidle. unfold execute_parallel. set (scope := batch_scope _ _ _).
  assert (Hempty : slots_ok calls [] []) by (split; cbn; [lia|constructor|set_solver|done|by intros e ?%not_elem_of_nil]).
  eapply hoare_weaken with (P' := at_work v []); [|intros h Hh; by apply idle_at_work|intros ? ? HQ; exact HQ].
  eapply hoare_bind; [by apply (sees_prepare_loop v scope calls calls)|]. intros [slots running].
  eapply hoare_weaken with (P' := fun h => (at_work v running h /\
      (length calls <= length slots \/ Cancelled true ∈ h)%nat) /\ slots_ok calls slots running);
    [apply hoare_pure_r; intros Hslots|naive_solver|intros ? ? HQ; exact HQ].
  set (all := fun h : History => (length calls <= length slots \/ Cancelled true ∈ h)%nat).
  assert (Hstable : stable all).
  { intros h t [|Hin]; [by left|]. right. apply elem_of_app. by left. }
  eapply hoare_bind; [apply (hoare_frame all); [done|]; by apply (sees_run_tasks v _ scope calls)|]. intros slots'.
  eapply hoare_weaken with (P' := fun h => (sees v h /\ all h) /\ (slots_ok calls slots' [] /\ length slots' = length slots));
    [apply hoare_pure_r; intros [Hdone Hlen]|naive_solver|intros ? ? HQ; exact HQ].
  assert (Houtcomes : oc_tool_call <$> omap id slots' = take (length slots') calls).
  { destruct Hdone as [Hle _ Hopen Hdone _]. apply slots_outcomes; [done| |done].
    intros i Hi. apply Hopen in Hi. by apply not_elem_of_nil in Hi. }
  eapply hoare_bind; [apply (hoare_frame all); [done|]; by apply sees_results|]. intros messages.
  apply hoare_ret. intros h [(started & Hh & Hanswers & Hsizes) Hall]. exists (length slots'), started.
  rewrite <- Houtcomes. split_and!; try done. by rewrite Hlen.
Qed.

Lemma sees_execute_tool_calls v (context : Ctx) assistant calls (config : Config) :
  idle v ->
  hoare (sees v) (execute_tool_calls validate_tool_arguments context assistant calls config)
    (fun batch => batch_answers v calls (ba_messages batch)).
Proof.
  intros Hidle. unfold execute_tool_calls. destruct (runs_sequentially _ _ _); [|by apply sees_execute_parallel].
  eapply hoare_bind; [by apply sees_sequential|]. intros [outcomes messages].
  apply hoare_ret. intros h (n & started & Hh & _ & Hanswers & Hlen & Hall). by exists n, started.
Qed.

Lemma sees_fail_truncated v calls (hooks : Hooks) :
  idle v ->
  hoare (sees v) (fail_truncated_calls calls hooks) (fun batch h => exists started, sees (said v started (ba_messages batch)) h /\
       Forall2 fails_call calls started /\ length (ba_messages batch) = length started).
Proof.
  intros Hidle. unfold fail_truncated_calls.
  eapply hoare_bind with (R := fun messages h => exists started, sees (said v started messages) h /\
       Forall2 fails_call calls started /\ length messages = length started).
  - revert v Hidle. induction calls as [|call calls IH]; intros v Hidle.
    + apply hoare_ret. intros h Hh. exists []. by rewrite said_nil.
    + eapply hoare_bind with (R := fun message' h => exists message, sees (said v [message] [message']) h /\
        fails_call call message).
      * eapply hoare_bind; [by apply sees_emit_start|]. intros ?.
        eapply hoare_bind; [by apply (sees_emit_end _ ∅)|]. intros ?.
        eapply hoare_weaken; [by apply (sees_emit_failure v)| |done].
        intros h. unfold with_state. cbn. by rewrite <- Hidle; destruct v.
      * intros message'. apply hoare_exists. intros message. apply hoare_pure_r. intros Hfails.
        eapply hoare_bind; [exact (IH (said v [message] [message']) Hidle)|]. intros messages.
        apply hoare_ret. intros h (started & Hh & Hfailed & Hlen). exists (message :: started).
        rewrite said_said in Hh. split_and!; [done|by constructor|by cbn; rewrite Hlen].
  - intros messages. by apply hoare_ret.
Qed.

Lemma truncated_answers v calls messages h :
  (exists started, sees (said v started messages) h /\ Forall2 fails_call calls started /\
     length messages = length started) ->
  batch_answers v calls messages h.
Proof.
  intros (started & Hh & Hfailed & Hlen). exists (length calls), started. rewrite take_ge by done.
  split_and!; [done| |done|by left]. eapply Forall2_impl; [exact Hfailed|].
  intros call message (result & ? & ? & ? & _). by exists result.
Qed.

(** ** Turns *)

(** The messages that are no system messages: those [declare_tool_changes] leaves as they are. *)
Definition others (messages : list M) : list M := List.filter (fun message => negb (is_system message)) messages.

Lemma others_app l k : others (l ++ k) = others l ++ others k.
Proof. apply List.filter_app. Qed.

Lemma is_system_wrap (system : SystemMessage Number) : is_system (wrap (System system)) = true.
Proof. unfold is_system, wrap. by rewrite as_message_from. Qed.

Lemma others_insert l i message system :
  l !! i = Some message -> is_system message = true -> others (<[i := wrap (System system)]> l) = others l.
Proof.
  intros Hi Hsys. rewrite <- (take_drop_middle l i message Hi) at 2.
  rewrite insert_take_drop by by eapply lookup_lt_Some.
  rewrite !others_app. f_equal. unfold others. simpl. by rewrite is_system_wrap, Hsys.
Qed.

(** What a message is besides the tools it declares: [declare_tool_changes] writes those into the last pending system
    message, and nothing else. *)
Definition undeclared (message : M) : M :=
  match as_message message with
  | Some (System system) => wrap (System (with_tool_changes system [] []))
  | _ => message
  end.

Lemma undeclared_system (system system' : SystemMessage Number) message :
  as_message message = Some (System system) -> with_tool_changes system' [] [] = with_tool_changes system [] [] ->
  undeclared (wrap (System system')) = undeclared message.
Proof. intros Hm Hsame. unfold undeclared, wrap. by rewrite as_message_from, Hm, Hsame. Qed.

Lemma sees_declare v (context : Ctx) pending :
  hoare (sees v) (declare_tool_changes context pending)
    (fun messages h => sees v h /\ others messages = others pending /\
       sublist (undeclared <$> pending) (undeclared <$> messages)).
Proof.
  unfold declare_tool_changes. destruct (rposition is_system pending) as [index|].
  - destruct (pending !! index) as [message|] eqn:Hindex; cbn [mbind option_bind]; [|by apply hoare_ret].
    destruct (as_message message) as [[system| | |]|] eqn:Hmessage; try by apply hoare_ret.
    destruct (_ && _); apply hoare_ret; intros h Hh; [done|]. split; [done|].
    split; [eapply others_insert; [done|]; unfold is_system; by rewrite Hmessage|].
    rewrite list_fmap_insert, list_insert_id; [done|]. rewrite list_lookup_fmap, Hindex. cbn. f_equal.
    symmetry. by eapply undeclared_system.
  - destruct (changes_is_empty _); [by apply hoare_ret|].
    eapply hoare_bind; [apply sees_ask|]. intros now. apply hoare_ret. intros h Hh. split; [done|].
    set (at_ := default _ _). split.
    + trans (others (take at_ pending ++ drop at_ pending)); [|by rewrite take_drop].
      rewrite !others_app. f_equal. unfold others. simpl. by rewrite is_system_wrap.
    + rewrite <- (take_drop at_ pending) at 1. rewrite !fmap_app. apply sublist_app; [done|]. cbn. by constructor.
Qed.

(** An assistant message stays one. *)
Definition keeps_assistant (hooks : Hooks) : Prop :=
  forall message w, exists message', (finalize_message hooks (wrap (Assistant message)) w).1 = wrap (Assistant message').

(** What the locals of the loop say of what was seen; [prompts]: the messages the run started with. *)
Record loop_inv (hooks : Hooks) (prompts : list M) (state : LoopState (Other := Other)) (v : View M) : Prop := {
  li_state : vw_state v = match ls_last_turn state with None => InTurn false ∅ | Some _ => Between end;
  li_turn : ls_last_turn state = None -> ls_has_more_tool_calls state = true;
  li_hooks : cf_hooks (ls_config state) = hooks;
  li_new : keeps_assistant hooks -> ls_new_messages state = vw_ended v;
  li_polled : exists delivered, prompts ++ vw_polled v = delivered ++ ls_pending state /\
    sublist (undeclared <$> delivered) (undeclared <$> vw_started v);
  li_prepared : sublist (undeclared <$> vw_prepared v) (undeclared <$> vw_started v);
}.

(** What a run leaves. *)
Definition finished (hooks : Hooks) (prompts new_messages : list M) (h : History) : Prop :=
  exists v, sees v h /\ vw_state v = After /\
    (keeps_assistant hooks -> new_messages = vw_ended v) /\
    sublist (undeclared <$> (prompts ++ vw_polled v)) (undeclared <$> vw_started v) /\
    sublist (undeclared <$> vw_prepared v) (undeclared <$> vw_started v).

Definition flow_ok (hooks : Hooks) (prompts : list M) (flow : Flow (Other := Other)) (h : History) : Prop :=
  match flow with
  | Running state => exists v, sees v h /\ loop_inv hooks prompts state v
  | Finished new_messages => finished hooks prompts new_messages h
  end.

Definition polled_more (v : View M) (messages : list M) : View M :=
  MkView (vw_state v) (vw_started v) (vw_ended v) (vw_polled v ++ messages) (vw_prepared v).

Lemma sees_poll v (queue : W -> list M * W) : hoare (sees v) (poll queue) (fun messages => sees (polled_more v messages)).
Proof.
  eapply hoare_bind; [apply sees_ask|]. intros messages.
  eapply hoare_bind; [by apply sees_note|]. intros ?. by apply hoare_ret.
Qed.

Lemma sees_finish_run v hooks prompts new_messages :
  vw_state v = Between -> (keeps_assistant hooks -> new_messages = vw_ended v) ->
  sublist (undeclared <$> (prompts ++ vw_polled v)) (undeclared <$> vw_started v) ->
  sublist (undeclared <$> vw_prepared v) (undeclared <$> vw_started v) ->
  hoare (sees v) (finish_run new_messages) (flow_ok hooks prompts).
Proof.
  intros Hstate Hnew Hpolled Hprepared.
  eapply hoare_bind with (R := fun _ => sees (with_state v After)).
  { apply sees_emit. cbn. by rewrite Hstate. }
  intros ?. apply hoare_ret. intros h Hh. by exists (with_state v After).
Qed.

(** The messages to deliver before a request, and what was seen by then. *)
Definition turn_ready (hooks : Hooks) (prompts new_messages : list M) (config : Config) (prepared pending : list M)
    (v : View M) : Prop :=
  idle v /\ cf_hooks config = hooks /\ (keeps_assistant hooks -> new_messages = vw_ended v) /\
  (exists delivered, prompts ++ vw_polled v = delivered ++ pending /\ sublist (undeclared <$> delivered) (undeclared <$> vw_started v)) /\
  (exists given, vw_prepared v = given ++ prepared /\ sublist (undeclared <$> given) (undeclared <$> vw_started v)).

Lemma sees_prepare_turn v hooks prompts state last_turn :
  loop_inv hooks prompts state v -> ls_last_turn state = Some last_turn ->
  hoare (sees v) (prepare_turn state last_turn)
    (fun '(context, config, prepared, pending) h =>
       exists v', sees v' h /\ turn_ready hooks prompts (ls_new_messages state) config prepared pending v').
Proof.
  intros [Hstate Hfirst Hhooks Hnew (delivered & Hpolled & Hdelivered) Hprepared] Hlast. rewrite Hlast in Hstate.
  eapply hoare_bind; [apply sees_ask|]. intros update.
  assert (Hupdate : exists context config prepared,
    match update with
    | Some update =>
        (default (ls_context state) (nu_context update),
         with_model (ls_config state) (nu_model update) (nu_thinking_level update), nu_messages update)
    | None => (ls_context state, ls_config state, [])
    end = (context, config, prepared) /\ cf_hooks config = hooks).
  { destruct update; by eexists _, _, _. }
  destruct Hupdate as (context & config & prepared & -> & Hconfig).
  eapply hoare_bind; [by apply sees_note|]. intros ?. set (v1 := MkView _ _ _ _ _).
  eapply hoare_bind with (R := fun pending h => exists polled, sees (polled_more v1 polled) h /\
    ls_pending state ++ polled = pending).
  { destruct (ls_pending state) as [|message messages].
    - eapply hoare_weaken; [apply sees_poll|done|]. intros polled h Hh. by exists polled.
    - apply hoare_ret. intros h Hh. exists []. rewrite app_nil_r. split; [|done].
      unfold polled_more, v1. cbn. by rewrite app_nil_r. }
  intros pending. apply hoare_exists. intros polled. apply hoare_pure_r. intros <-.
  eapply hoare_bind with (R := fun _ => sees (with_state (polled_more v1 polled) (InTurn false ∅))).
  { apply sees_emit. cbn. by rewrite Hstate. }
  intros ?. apply hoare_ret. intros h Hh. eexists. split; [exact Hh|]. split_and!; [done..| |].
  - exists delivered. split; [|done]. cbn. by rewrite !(assoc_L (++)), Hpolled.
  - by exists (vw_prepared v).
Qed.

(** After the messages are delivered, before the request. *)
Definition request_ready (hooks : Hooks) (prompts new_messages : list M) (v : View M) : Prop :=
  idle v /\ (keeps_assistant hooks -> new_messages = vw_ended v) /\
  sublist (undeclared <$> (prompts ++ vw_polled v)) (undeclared <$> vw_started v) /\
  sublist (undeclared <$> vw_prepared v) (undeclared <$> vw_started v).

Lemma sees_deliver_pending v hooks prompts (context : Ctx) new_messages (config : Config) prepared pending :
  turn_ready hooks prompts new_messages config prepared pending v ->
  hoare (sees v)
    (messages ← declare_tool_changes context (prepared ++ pending);
     deliver messages context new_messages (cf_hooks config))
    (fun '(context', new_messages') h => exists v', sees v' h /\ request_ready hooks prompts new_messages' v').
Proof.
  intros (Hidle & <- & Hnew & (delivered & Hpolled & Hdelivered) & given & Hgiven & Hprepared).
  eapply hoare_bind; [apply sees_declare|]. intros messages. apply hoare_pure_r. intros Hothers.
  eapply hoare_weaken; [by apply sees_deliver|done|]. intros [context' new_messages'] h (ended & Hh & -> & _ & _).
  exists (said v messages ended). split; [done|]. destruct Hothers as [_ Hkept]. rewrite fmap_app in Hkept. split_and!; [done| | |]; cbn.
  - intros Hkeeps. by rewrite Hnew.
  - rewrite Hpolled, !fmap_app. apply sublist_app; [done|]. etransitivity; [|exact Hkept]. by apply sublist_inserts_l.
  - rewrite Hgiven, !fmap_app. apply sublist_app; [done|]. etransitivity; [|exact Hkept]. by apply sublist_inserts_r.
Qed.

(** More that was started and ended. *)
Lemma request_ready_said hooks prompts new_messages v started ended added :
  request_ready hooks prompts new_messages v -> (keeps_assistant hooks -> added = ended) ->
  request_ready hooks prompts (new_messages ++ added) (said v started ended).
Proof.
  intros (Hidle & Hnew & Hpolled & Hprepared) Hadded. split_and!; [done| | |]; cbn; rewrite ?(fmap_app undeclared (vw_started v)).
  - intros Hkeeps. by rewrite Hnew, Hadded.
  - by apply sublist_inserts_r.
  - by apply sublist_inserts_r.
Qed.

Lemma sees_turn_end v message results :
  idle v -> hoare (W := W) (sees v) (emit (TurnEnd message results)) (fun _ => sees (with_state v Between)).
Proof. intros Hidle. apply sees_emit. cbn. rewrite Hidle. cbn. by rewrite decide_True. Qed.

Lemma sees_run_calls v hooks prompts (context : Ctx) (config : Config) new_messages message :
  request_ready hooks prompts new_messages v ->
  hoare (sees v) (run_calls validate_tool_arguments context config new_messages message)
    (fun '(_, new_messages', _, _) h => exists v', sees v' h /\ request_ready hooks prompts new_messages' v').
Proof.
  intros Hready. assert (Hidle : idle v) by apply Hready. unfold run_calls.
  destruct (tool_calls message) as [|call calls] eqn:Hcalls; [apply hoare_ret; intros h Hh; by exists v|].
  eapply hoare_bind with (R := fun batch => batch_answers v (call :: calls) (ba_messages batch)).
  { destruct (decide _); [|by apply sees_execute_tool_calls].
    eapply hoare_weaken; [by apply sees_fail_truncated|done|]. intros batch h. apply truncated_answers. }
  intros batch. apply hoare_ret. intros h (n & started & Hh & _). exists (said v started (ba_messages batch)).
  split; [done|]. by apply request_ready_said.
Qed.

Lemma sees_complete_turn v hooks prompts (context : Ctx) (config : Config) new_messages message :
  cf_hooks config = hooks -> request_ready hooks prompts new_messages v ->
  hoare (sees v) (complete_turn validate_tool_arguments context config new_messages message) (flow_ok hooks prompts).
Proof.
  intros Hhooks Hready. unfold complete_turn. destruct (is_failure message).
  - eapply hoare_bind; [apply sees_ask|]. intros ?.
    destruct Hready as (Hidle & Hnew & Hpolled & Hprepared).
    eapply hoare_bind; [by apply sees_turn_end|]. intros ?. by apply sees_finish_run.
  - eapply hoare_bind; [by apply sees_run_calls|]. clear v Hready new_messages.
    intros [[[context' new_messages] results] more]. apply hoare_exists. intros v. apply hoare_pure_r.
    intros (Hidle & Hnew & Hpolled & Hprepared).
    eapply hoare_bind; [apply sees_ask|]. intros decision.
    eapply hoare_bind; [by apply sees_turn_end|]. intros ?.
    assert (Hgoes_on : forall explicit,
      hoare (sees (with_state v Between))
        (pending ← poll (steering (cf_queues config));
         mret (Running (MkLoopState context' new_messages config (Some (MkCompletedTurn message results))
                          (if more || negb (bool_decide (length pending = 0%nat)) then false else explicit)
                          pending more))) (flow_ok hooks prompts)).
    { intros explicit. eapply hoare_bind; [apply sees_poll|]. intros pending. apply hoare_ret. intros h Hh.
      eexists. split; [exact Hh|]. split; try done.
      exists (prompts ++ vw_polled v). split; [|done]. cbn. by rewrite (assoc_L (++)). }
    destruct decision as [[]|]; [apply Hgoes_on|by apply sees_finish_run|apply Hgoes_on].
Qed.

Lemma sees_turn v hooks prompts state :
  loop_inv hooks prompts state v ->
  hoare (sees v) (turn validate_tool_arguments state) (flow_ok hooks prompts).
Proof.
  intros Hinv. unfold turn.
  eapply hoare_bind with (R := fun '(context, config, prepared, pending) h =>
    exists v', sees v' h /\ turn_ready hooks prompts (ls_new_messages state) config prepared pending v').
  { destruct (ls_last_turn state) as [last_turn|] eqn:Hlast; [by eapply sees_prepare_turn|].
    destruct Hinv as [Hstate Hfirst Hhooks Hnew Hpolled Hprepared]. rewrite Hlast in Hstate.
    apply hoare_ret. intros h Hh. exists v. split; [done|]. split_and!; try done.
    exists (vw_prepared v). by rewrite app_nil_r. }
  intros [[[context config] prepared] pending]. apply hoare_exists. clear Hinv v. intros v.
  apply hoare_pure_r. intros Hready. assert (Hhooks : cf_hooks config = hooks) by apply Hready.
  apply hoare_assoc. eapply hoare_bind; [by apply (sees_deliver_pending v hooks prompts)|].
  intros [context1 new1]. apply hoare_exists. clear Hready v. intros v. apply hoare_pure_r. intros Hready.
  eapply hoare_bind; [apply sees_ask|]. intros update.
  assert (Hupdate : exists context2 config2,
    match update with
    | Some update => (default context1 (ru_context update), with_model config (ru_model update) (ru_thinking_level update))
    | None => (context1, config)
    end = (context2, config2) /\ cf_hooks config2 = hooks) by (destruct update; by eexists _, _).
  destruct Hupdate as (context2 & config2 & -> & Hhooks2).
  eapply hoare_bind; [apply sees_response; apply Hready|]. intros [context3 message].
  eapply hoare_weaken with (P' := fun h => exists v', sees v' h /\
    request_ready hooks prompts (new1 ++ [wrap (Assistant message)]) v'); [apply hoare_exists; clear Hready v; intros v| |done].
  - apply hoare_pure_r. by apply sees_complete_turn.
  - intros h (first & finalized & _ & Hh & _ & _ & w & answer & Hfinal & Hmessage).
    exists (said v first [finalized]). split; [done|]. apply request_ready_said; [done|].
    intros Hkeeps. destruct (Hkeeps answer w) as [kept Hkept]. rewrite Hhooks2, Hkept in Hfinal. subst finalized message.
    unfold as_assistant, wrap. by rewrite as_message_from.
Qed.

Lemma sees_would_stop v hooks prompts state :
  loop_inv hooks prompts state v -> ls_pending state = [] -> vw_state v = Between ->
  hoare (sees v) (would_stop state) (flow_ok hooks prompts).
Proof.
  intros [Hstate Hfirst Hhooks Hnew (delivered & Hpolled & Hdelivered) Hprepared] Hpending Hbetween.
  rewrite Hpending, app_nil_r in Hpolled. subst delivered.
  eapply hoare_bind; [apply sees_poll|]. intros messages.
  assert (Hagain : forall explicit h, sees (polled_more v messages) h ->
    flow_ok hooks prompts (Running (MkLoopState (ls_context state) (ls_new_messages state) (ls_config state)
      (ls_last_turn state) explicit messages true)) h).
  { intros explicit h Hh. eexists. split; [exact Hh|]. split; try done.
    exists (prompts ++ vw_polled v). split; [|done]. cbn. by rewrite (assoc_L (++)). }
  destruct messages as [|message messages]; [|by apply hoare_ret, Hagain].
  destruct (ls_explicit_continuation state); [rewrite Hpending; by apply hoare_ret, Hagain|].
  apply sees_finish_run; try done. cbn. by rewrite app_nil_r.
Qed.

Lemma sees_loop_step v hooks prompts state :
  loop_inv hooks prompts state v ->
  hoare (sees v) (loop_step validate_tool_arguments state) (flow_ok hooks prompts).
Proof.
  intros Hinv. unfold loop_step.
  destruct (ls_has_more_tool_calls state) eqn:Hmore; [by apply sees_turn|]. cbn [orb].
  case_bool_decide as Hpending; [cbn [negb]|by apply sees_turn].
  apply nil_length_inv in Hpending. apply sees_would_stop; try done.
  rewrite (li_state _ _ _ _ Hinv). destruct (ls_last_turn state) eqn:Hlast; [done|].
  apply (li_turn _ _ _ _ Hinv) in Hlast. congruence.
Qed.

Definition ended_well (hooks : Hooks) (prompts : list M) (ended : option (list M)) (h : History) : Prop :=
  match ended with
  | Some new_messages => finished hooks prompts new_messages h
  | None => exists v, sees v h /\ vw_state v <> After
  end.

Lemma sees_loop_steps fuel v hooks prompts state :
  loop_inv hooks prompts state v ->
  hoare (sees v) (loop_steps validate_tool_arguments fuel state) (ended_well hooks prompts).
Proof.
  revert v state. induction fuel as [|fuel IH]; intros v state Hinv.
  { apply hoare_ret. intros h Hh. exists v. rewrite (li_state _ _ _ _ Hinv). by destruct (ls_last_turn state). }
  eapply hoare_bind; [by apply sees_loop_step|]. intros [state'|new_messages]; cbn [flow_ok].
  - apply hoare_exists. intros v'. apply hoare_pure_r. apply IH.
  - by apply hoare_ret.
Qed.

(** [run_loop] in the first turn, with nothing polled yet. *)
Lemma sees_run_loop fuel v prompts (context : Ctx) new_messages (config : Config) :
  idle v -> (keeps_assistant (cf_hooks config) -> new_messages = vw_ended v) ->
  vw_polled v = [] -> vw_prepared v = [] -> sublist (undeclared <$> prompts) (undeclared <$> vw_started v) ->
  hoare (sees v) (run_loop validate_tool_arguments fuel context new_messages config)
    (ended_well (cf_hooks config) prompts).
Proof.
  intros Hidle Hnew Hpolled Hprepared Hprompts. eapply hoare_bind; [apply sees_poll|]. intros pending.
  apply sees_loop_steps. split; try done; cbn.
  - exists prompts. by rewrite Hpolled.
  - rewrite Hprepared. apply sublist_nil_l.
Qed.
End RunFacts.

(** ** The whole run *)

Definition view_init {M : Type} : View M := MkView Before [] [] [] [].

Section WholeRun.
Context {Number M T W Other : Type}.
Context {JE : JsonEq Number} {AM : AgentMessage Number M} {AML : AgentMessageLaws Number M}.
Context {AT : AgentTool Number T} {WO : World Number M T W}.
Variable validate_tool_arguments : Tool Number -> ToolCall Number -> result string (Value Number).

Lemma fresh_sees : sees (Number := Number) validate_tool_arguments (@view_init M) view_init [].
Proof. split; [done|]. intros before after tool call args Heq. by destruct before. Qed.

(** The first two events. *)
Lemma sees_run_start_events v0 :
  hoare (W := W) (sees validate_tool_arguments v0 (@view_init M))
    (_ ← emit AgentStart; emit TurnStart)
    (fun _ => sees validate_tool_arguments v0 (MkView (InTurn false ∅) [] [] [] [])).
Proof.
  eapply hoare_bind; [by apply (sees_emit _ _ _ (MkView Between [] [] [] []))|].
  intros ?. by apply sees_emit.
Qed.

Lemma sees_run fuel prompts (context : AgentContext M T) (config : AgentLoopConfig Number M T W Other) :
  hoare (sees validate_tool_arguments view_init view_init)
    (run_agent_loop validate_tool_arguments fuel prompts context config)
    (ended_well validate_tool_arguments view_init (cf_hooks config) prompts).
Proof.
  unfold run_agent_loop. eapply hoare_bind; [apply sees_declare|]. intros prompts'. apply hoare_pure_r.
  intros Hprompts. apply hoare_assoc. eapply hoare_bind; [apply sees_run_start_events|]. intros ?.
  eapply hoare_bind; [by apply sees_deliver|]. intros [context' new_messages].
  apply hoare_exists. intros ended.
  eapply hoare_weaken with (P' := fun h => (sees validate_tool_arguments view_init
    (said (MkView (InTurn false ∅) [] [] [] []) prompts' ended) h) /\ new_messages = ended);
    [apply hoare_pure_r; intros Hnew|naive_solver|intros ? ? HQ; exact HQ].
  apply sees_run_loop; try done. by destruct Hprompts.
Qed.

Lemma sees_continue fuel (context : AgentContext M T) (config : AgentLoopConfig Number M T W Other) :
  hoare (sees validate_tool_arguments view_init view_init)
    (run_agent_loop_continue validate_tool_arguments fuel context config)
    (fun answer h => match answer with
                     | Ok ended => ended_well validate_tool_arguments view_init (cf_hooks config) [] ended h
                     | Err _ => sees validate_tool_arguments view_init view_init h
                     end).
Proof.
  unfold run_agent_loop_continue.
  assert (Hruns : hoare (sees validate_tool_arguments view_init view_init)
    (_ ← emit AgentStart; _ ← emit TurnStart;
     new_messages ← run_loop validate_tool_arguments fuel context [] config; mret (@Ok AgentError _ new_messages))
    (fun answer h => match answer with
                     | Ok ended => ended_well validate_tool_arguments view_init (cf_hooks config) [] ended h
                     | Err _ => sees validate_tool_arguments view_init view_init h
                     end)).
  { apply hoare_assoc. eapply hoare_bind; [apply sees_run_start_events|]. intros ?.
    eapply hoare_bind; [by apply (sees_run_loop _ _ _ _ [])|]. intros ended. by apply hoare_ret. }
  destruct (last _) as [message|]; [|by apply hoare_ret].
  destruct (as_message message) as [[]|]; try exact Hruns. by apply hoare_ret.
Qed.

(** From the start of a run. *)
Lemma from_start {A} (m : Run (Number := Number) (M := M) (T := T) (W := W) A) v (Q : A -> list Happening -> Prop) w :
  hoare (sees validate_tool_arguments v v) m Q -> Q (m (MkSt w [])).1 (s_history (m (MkSt w [])).2).
Proof.
  intros Hm. destruct (Hm (MkSt w [])) as (t & -> & HQ); [|done].
  split; [done|]. intros before after tool call args Heq. by destruct before.
Qed.

(** No tool starts. *)
Definition quiet (h : list (@Happening Number M T)) : Prop := Forall (fun x => starts x = false) h.

Lemma quiet_emit event : hoare (W := W) quiet (emit event) (fun _ => quiet).
Proof.
  eapply hoare_bind with (R := fun _ => quiet); [|intros ?; by apply hoare_tell].
  apply hoare_note. intros h Hh. apply Forall_app. by repeat constructor.
Qed.

Lemma quiet_emit_result outcome (hooks : AgentHooks Number M T W) :
  hoare quiet (emit_result outcome hooks) (fun _ => quiet).
Proof.
  eapply hoare_bind; [by apply (hoare_ask _ _ (fun _ => quiet))|]. intros now.
  eapply hoare_bind; [apply quiet_emit|]. intros ?.
  eapply hoare_bind; [by apply (hoare_ask _ _ (fun _ => quiet))|]. intros message.
  eapply hoare_bind; [apply quiet_emit|]. intros ?. by apply hoare_ret.
Qed.

Lemma quiet_fail_truncated calls (hooks : AgentHooks Number M T W) :
  hoare quiet (fail_truncated_calls calls hooks) (fun batch h => quiet h /\ ba_terminate batch = false).
Proof.
  eapply hoare_bind with (R := fun _ => quiet); [|intros messages; by apply hoare_ret].
  induction calls as [|call calls IH]; [by apply hoare_ret|].
  eapply hoare_bind with (R := fun _ => quiet); [|intros message; eapply hoare_bind; [exact IH|]; intros ?; by apply hoare_ret].
  eapply hoare_bind; [apply quiet_emit|]. intros ?. eapply hoare_bind; [apply quiet_emit|]. intros ?.
  apply quiet_emit_result.
Qed.
End WholeRun.

(** ** The properties *)

(** The observer of a batch: in a turn, nothing open. *)
Definition view_idle {M : Type} : View M := MkView (InTurn false ∅) [] [] [] [].

Section Properties.
Context {Number M T W Other : Type}.
Context {JE : JsonEq Number} {AM : AgentMessage Number M} {AML : AgentMessageLaws Number M}.
Context {AT : AgentTool Number T} {WO : World Number M T W}.
Variable validate_tool_arguments : Tool Number -> ToolCall Number -> result string (Value Number).

(** C11: A run's events are bracketed, whatever hooks, queues, tools and the provider do: [AgentStart]
    first, turns one after another and each closed, messages one at a time and with no call at work,
    every call that starts ends in its turn, and [AgentEnd] once, last, exactly when the run has
    ended. *)
Theorem run_is_bracketed (fuel : nat) (prompts : list M) (context : AgentContext M T)
    (config : AgentLoopConfig Number M T W Other) (w : W) :
  let '(ended, s) := run_agent_loop validate_tool_arguments fuel prompts context config (MkSt w []) in
  exists v, view_from view_init (s_history s) = Some v /\ (vw_state v = After <-> is_some ended = true).
Proof.
  pose proof (from_start _ _ _ _ w (sees_run validate_tool_arguments fuel prompts context config)) as Hrun.
  destruct (run_agent_loop _ _ _ _ _ _) as [[new_messages|] s]; cbn in Hrun.
  - destruct Hrun as (v & [Hview _] & Hafter & _). by exists v.
  - destruct Hrun as (v & [Hview _] & Hbefore). by exists v.
Qed.

(** C5: Gates fail closed.  In any run, a tool starts only after [before_tool_call] was asked about that
    very call, with arguments that validated against the tool's own declaration, and answered without
    an error and without blocking it; and it starts with those arguments or with the gate's
    replacement. *)
Theorem tools_run_behind_gates (fuel : nat) (prompts : list M) (context : AgentContext M T)
    (config : AgentLoopConfig Number M T W Other) (w : W) :
  guarded validate_tool_arguments
    (s_history (run_agent_loop validate_tool_arguments fuel prompts context config (MkSt w [])).2).
Proof.
  pose proof (from_start _ _ _ _ w (sees_run validate_tool_arguments fuel prompts context config)) as Hrun.
  destruct (run_agent_loop _ _ _ _ _ _) as [[new_messages|] s]; cbn in Hrun |- *.
  - by destruct Hrun as (v & [_ Hguard] & _).
  - by destruct Hrun as (v & [_ Hguard] & _).
Qed.

(** C15: No message is lost.  When a run ends, every prompt and every message that the queues gave it was
    started, in the order given, and so was every message a hook prepared for a turn: system messages too, each with
    its text, sections and time, but with the tools declared anew in the last one of a turn ([undeclared] reads a
    message without the tools it declares).  And provided that
    [finalize_message] leaves assistant messages assistant messages, the messages the run reports as
    its own are those whose end it reported, in order. *)
Theorem run_accounts_for_messages (fuel : nat) (prompts : list M) (context : AgentContext M T)
    (config : AgentLoopConfig Number M T W Other) (w : W) :
  let '(ended, s) := run_agent_loop validate_tool_arguments fuel prompts context config (MkSt w []) in
  match ended with
  | None => True
  | Some new_messages =>
      exists v, view_from view_init (s_history s) = Some v /\
        sublist (undeclared <$> (prompts ++ vw_polled v)) (undeclared <$> vw_started v) /\
        sublist (undeclared <$> vw_prepared v) (undeclared <$> vw_started v) /\
        (keeps_assistant (cf_hooks config) -> new_messages = vw_ended v)
  end.
Proof.
  pose proof (from_start _ _ _ _ w (sees_run validate_tool_arguments fuel prompts context config)) as Hrun.
  destruct (run_agent_loop _ _ _ _ _ _) as [[new_messages|] s]; [|done]. cbn in Hrun.
  destruct Hrun as (v & [Hview _] & _ & Hnew & Hpolled & Hprepared). by exists v.
Qed.

(** C12: Tool results answer the calls of a response in call order, one for each, however the calls were
    scheduled and in whatever order they ended; only a cancelled run leaves calls out, the last
    ones. *)
Theorem results_answer_calls (context : AgentContext M T) (assistant : AssistantMessage Number)
    (calls : list (ToolCall Number)) (config : AgentLoopConfig Number M T W Other) (w : W) :
  let '(batch, s) := execute_tool_calls validate_tool_arguments context assistant calls config (MkSt w []) in
  exists n started,
    view_from view_idle (s_history s) = Some (MkView (InTurn false ∅) started (ba_messages batch) [] []) /\
    Forall2 answers_call (take n calls) started /\ length (ba_messages batch) = length started /\
    (length calls <= n \/ Cancelled true ∈ s_history s)%nat.
Proof.
  pose proof (from_start _ _ _ _ w (sees_execute_tool_calls validate_tool_arguments view_idle view_idle
    context assistant calls config eq_refl)) as Hbatch.
  destruct (execute_tool_calls _ _ _ _ _ _) as [batch s]. cbn in Hbatch.
  destruct Hbatch as (n & started & [Hview _] & Hrest). by exists n, started.
Qed.

(** C23: The calls of a response cut off at the output limit are never run: no tool starts, each call
    gets a result that says it failed, in order, and the run goes on. *)
Theorem truncated_calls_never_run (context : AgentContext M T) (config : AgentLoopConfig Number M T W Other)
    (new_messages : list M) (message : AssistantMessage Number) (w : W)
    (Hlength : as_stop_reason message = Length) :
  let '((_, new_messages', _, more), s) :=
    run_calls validate_tool_arguments context config new_messages message (MkSt w []) in
  quiet (s_history s) /\ more = negb (bool_decide (length (tool_calls message) = 0%nat)) /\
  exists started ended,
    view_from view_idle (s_history s) = Some (MkView (InTurn false ∅) started ended [] []) /\
    Forall2 fails_call (tool_calls message) started /\ new_messages' = new_messages ++ ended.
Proof.
  unfold run_calls. destruct (tool_calls message) as [|call calls] eqn:Hcalls.
  - cbn. split_and!; [constructor|done|]. exists [], []. by rewrite app_nil_r.
  - rewrite decide_True by done. set (all := call :: calls).
    pose proof (from_start _ _ _ _ w (sees_fail_truncated validate_tool_arguments view_idle view_idle
      all (cf_hooks config) eq_refl)) as Hbatch.
    destruct (quiet_fail_truncated all (cf_hooks config) (MkSt w [])) as (t & Ht & Hquiet & Hmore); [constructor|].
    unfold mbind, run_bind. destruct (fail_truncated_calls all (cf_hooks config) (MkSt w [])) as [batch s].
    cbn in *. rewrite Ht in *. destruct Hbatch as (started & [Hview _] & Hfailed & Hlen).
    split_and!; [done|by rewrite Hmore|]. by exists started, (ba_messages batch).
Qed.
End Properties.

(** ** With the agent's own validation *)

Section OwnValidation.
Context {Number M T W Other : Type}.
Context {JE : JsonEq Number} {AM : AgentMessage Number M} {AML : AgentMessageLaws Number M}.
Context {AT : AgentTool Number T} {WO : World Number M T W}.
Context {J : JsonCrate Number} {JN : JsonNumbers Number} {JS : JsonSchema Number} {JSL : JsonSchemaLaws Number}.

(** C8: In a run of the agent as it is linked, with the validation of pi-ai, a tool starts only with
    arguments its JSON Schema accepts, or with what [before_tool_call] put in their place after it was
    asked about such arguments; a call whose text was malformed never starts. *)
Theorem started_arguments_valid (fuel : nat) (prompts : list M) (context : AgentContext M T)
    (config : AgentLoopConfig Number M T W Other) (w : W) before tool call args after
    (Hstarted : s_history (run_agent_loop Validation.validate_tool_arguments fuel prompts context config (MkSt w [])).2
                = before ++ Started tool call args :: after) :
  exists validated decision,
    Gated call validated (Ok decision) ∈ before /\ tc_arguments_error call = None /\
    is_valid_for (to_parameters (declaration tool)) validated = true /\
    args = default validated (decision ≫= bt_args).
Proof.
  pose proof (from_start _ _ _ _ w (sees_run Validation.validate_tool_arguments fuel prompts context config)) as Hrun.
  assert (Hguard : guarded Validation.validate_tool_arguments (s_history
    (run_agent_loop Validation.validate_tool_arguments fuel prompts context config (MkSt w [])).2)).
  { destruct (run_agent_loop _ _ _ _ _ _) as [[new_messages|] s]; cbn in Hrun |- *;
      by destruct Hrun as (v & [_ Hguard] & _). }
  destruct (Hguard _ _ _ _ _ Hstarted) as (validated & decision & Hgated & _ & Hvalid & Hargs).
  exists validated, decision. split; [done|]. split.
  - unfold validate_tool_arguments in Hvalid. by destruct (tc_arguments_error call).
  - split; [by eapply validated_valid|]. destruct decision as [decision|]; [by destruct Hargs|done].
Qed.
End OwnValidation.

(** ** A run in a concrete world *)

(** A provider that first calls a tool and then answers; a tool that says it is done; a world that only
    counts the requests. *)
Import Validation.Toy.

Module Demo.

#[export] Instance demo_tool : AgentTool JsonNumber (Tool JsonNumber) :=
  {| declaration tool := tool; execution_mode _ := None; prepare_arguments _ arguments := arguments |}.

#[export] Instance demo_world : World JsonNumber (Message JsonNumber) (Tool JsonNumber) nat := {|
  sink_emit _ w := w;
  token_cancelled w := (false, w);
  clock_now w := (0, w);
  execute_start _ _ w := w;
  execute_end _ _ w := (Executes (result_text "done"), w);
  sent_updates w := ([], w);
  next_ready _ w := (0%nat, w);
|}.

Definition demo_call (id : string) : ToolCall JsonNumber := MkToolCall id "read" [("path", Str "a.txt")] None None.

Definition demo_message (content : list (AssistantContent JsonNumber)) (stop_reason : StopReason) : AssistantMessage JsonNumber :=
  MkAssistantMessage content "" "" "" None None usage_default stop_reason None 0.

Definition demo_calls : AssistantMessage JsonNumber :=
  demo_message [AssistantToolCall (demo_call "a"); AssistantToolCall (demo_call "b")] ToolUse.

Definition demo_stream : StreamFn JsonNumber nat () := {|
  open_stream _ _ _ w := S w;
  stream_budget _ := 1%nat;
  stream_next w := (Some (EventDone (if (w =? 1)%nat then demo_calls else demo_message [assistant_new_text "ok"] Stop)), w);
|}.

Definition demo_model : Model JsonNumber :=
  MkModel "m" "m" "" "" "" false [] (MkModelCost f64_zero f64_zero f64_zero f64_zero) 0 0 ∅ ∅ [] ∅ compat_default.

Definition demo_read : Tool JsonNumber := read_tool.

Definition demo_validate : Tool JsonNumber -> ToolCall JsonNumber -> result string (Value JsonNumber) :=
  Validation.validate_tool_arguments.

Definition demo_config : AgentLoopConfig JsonNumber (Message JsonNumber) (Tool JsonNumber) nat () := config_new () demo_model demo_stream.

(** The same calls in a response that was cut off. *)
Definition demo_truncated : AssistantMessage JsonNumber := demo_message (as_content demo_calls) Length.

Definition demo_prompt : Message JsonNumber := User (MkUserMessage [content_new_text "hi"] 0).

(** A whole run of the demonstration. *)
Notation demo_outcome :=
  (run_agent_loop (AT := demo_tool) (WO := demo_world) demo_validate 3 [demo_prompt]
    (MkAgentContext [] [demo_read]) demo_config (MkSt 0%nat [])).

(** The prompt, the declared tool before it, two calls, their results and the answer. *)
Example demo_run :
  match demo_outcome.1 with
  | Some messages => role <$> messages = ["system"; "user"; "assistant"; "toolResult"; "toolResult"; "assistant"]
  | None => False
  end.
Proof. vm_compute. reflexivity. Qed.

Lemma demo_ends : is_some demo_outcome.1 = true.
Proof. vm_compute. reflexivity. Qed.

(** Both calls start. *)
Lemma demo_starts :
  omap (fun x => match x with Started _ call _ => Some (tc_id call) | _ => None end) (s_history demo_outcome.2)
  = ["a"; "b"].
Proof. vm_compute. reflexivity. Qed.
End Demo.

Lemma truncated_calls_never_run_witness :
  as_stop_reason Demo.demo_truncated = Length /\
  let '((_, new_messages, _, more), s) :=
    run_calls (AT := Demo.demo_tool) (WO := Demo.demo_world) Demo.demo_validate (MkAgentContext [] [Demo.demo_read])
      Demo.demo_config [] Demo.demo_truncated (MkSt 0%nat []) in
  quiet (s_history s) /\ more = true /\ length new_messages = 2%nat.
Proof.
  split; [reflexivity|].
  pose proof (truncated_calls_never_run (AT := Demo.demo_tool) (WO := Demo.demo_world) Demo.demo_validate
    (MkAgentContext [] [Demo.demo_read]) Demo.demo_config [] Demo.demo_truncated 0%nat eq_refl) as H.
  revert H. vm_compute (negb _). intros H.
  destruct (run_calls _ _ _ _ _ _) as [[[[c new_messages] r] more] s] eqn:E. destruct H as (Hq & Hm & _).
  split; [exact Hq|]. split; [exact Hm|]. vm_compute in E. by injection E as <- <- <- <- <-.
Defined.

Lemma run_is_bracketed_witness :
  exists v, view_from view_init (s_history Demo.demo_outcome.2) = Some v /\ vw_state v = After.
Proof.
  pose proof (run_is_bracketed (AT := Demo.demo_tool) (WO := Demo.demo_world) Demo.demo_validate 3
    [Demo.demo_prompt] (MkAgentContext [] [Demo.demo_read])
    Demo.demo_config 0%nat) as H.
  pose proof Demo.demo_ends as Hends.
  destruct (run_agent_loop _ _ _ _ _ _) as [ended s]. destruct H as (v & Hview & Hafter). exists v. tauto.
Defined.

Lemma omap_cons_inv {A B} (f : A -> option B) (l : list A) (y : B) (k : list B) :
  omap f l = y :: k -> exists before x after, l = before ++ x :: after /\ f x = Some y.
Proof.
  induction l as [|x l IH]; [done|]. cbn. destruct (f x) as [y'|] eqn:Hf.
  - intros [= -> _]. by exists [], x, l.
  - intros (before & x' & after & -> & Hx')%IH. by exists (x :: before), x', after.
Qed.

Lemma tools_run_behind_gates_witness :
  exists before after tool call args,
    s_history Demo.demo_outcome.2 = before ++ Started tool call args :: after /\ tc_id call = "a" /\
    passed (AT := Demo.demo_tool) Demo.demo_validate tool call args before.
Proof.
  pose proof (tools_run_behind_gates (AT := Demo.demo_tool) (WO := Demo.demo_world) Demo.demo_validate 3
    [Demo.demo_prompt] (MkAgentContext [] [Demo.demo_read])
    Demo.demo_config 0%nat) as H.
  pose proof Demo.demo_starts as Hstarts.
  apply omap_cons_inv in Hstarts as (before & x & after & Heq & Hx).
  destruct x as [| | |tool call args| |]; try discriminate Hx. injection Hx as Hid.
  exists before, after, tool, call, args. split; [exact Heq|]. split; [exact Hid|]. exact (H _ _ _ _ _ Heq).
Defined.

Lemma run_accounts_for_messages_witness :
  exists new_messages v,
    Demo.demo_outcome.1 = Some new_messages /\ view_from view_init (s_history Demo.demo_outcome.2) = Some v /\
    sublist [Demo.demo_prompt] (undeclared <$> vw_started v) /\ new_messages = vw_ended v.
Proof.
  pose proof (run_accounts_for_messages (AT := Demo.demo_tool) (WO := Demo.demo_world) Demo.demo_validate 3
    [Demo.demo_prompt] (MkAgentContext [] [Demo.demo_read])
    Demo.demo_config 0%nat) as H.
  pose proof Demo.demo_ends as Hends.
  destruct (run_agent_loop _ _ _ _ _ _) as [[new_messages|] s]; [|discriminate Hends].
  destruct H as (v & Hview & Hpolled & _ & Hnew). exists new_messages, v.
  split; [reflexivity|]. split; [exact Hview|]. split; [|apply Hnew; intros m w; by exists m].
  etransitivity; [|exact Hpolled]. rewrite fmap_app. apply sublist_inserts_r. reflexivity.
Defined.

Lemma results_answer_calls_witness :
  let '(batch, s) :=
    execute_tool_calls (AT := Demo.demo_tool) (WO := Demo.demo_world) Demo.demo_validate
      (MkAgentContext [] [Demo.demo_read]) Demo.demo_calls (tool_calls Demo.demo_calls) Demo.demo_config
      (MkSt 0%nat []) in
  exists n started,
    view_from view_idle (s_history s) = Some (MkView (InTurn false ∅) started (ba_messages batch) [] []) /\
    Forall2 answers_call (take n (tool_calls Demo.demo_calls)) started /\ length started = 2%nat.
Proof.
  pose proof (results_answer_calls (AT := Demo.demo_tool) (WO := Demo.demo_world) Demo.demo_validate
    (MkAgentContext [] [Demo.demo_read]) Demo.demo_calls (tool_calls Demo.demo_calls) Demo.demo_config 0%nat) as H.
  destruct (execute_tool_calls _ _ _ _ _ _) as [batch s] eqn:E.
  destruct H as (n & started & Hview & Hanswers & Hlength & _). exists n, started.
  split; [exact Hview|]. split; [exact Hanswers|]. rewrite <- Hlength. vm_compute in E. by injection E as <- <-.
Defined.

Lemma started_arguments_valid_witness :
  exists before tool call args after validated decision,
    s_history Demo.demo_outcome.2 = before ++ Started tool call args :: after /\ tc_id call = "a" /\
    Gated call validated (Ok decision) ∈ before /\
    is_valid_for (to_parameters (AgentTypes.declaration (AgentTool := Demo.demo_tool) tool)) validated = true /\
    args = default validated (decision ≫= bt_args).
Proof.
  pose proof Demo.demo_starts as Hstarts.
  apply omap_cons_inv in Hstarts as (before & x & after & Heq & Hx).
  destruct x as [| | | |tool call args|]; try discriminate Hx. injection Hx as Hid.
  destruct (started_arguments_valid (AT := Demo.demo_tool) (WO := Demo.demo_world) 3 [Demo.demo_prompt]
    (MkAgentContext [] [Demo.demo_read]) Demo.demo_config 0%nat before tool call args after Heq)
    as (validated & decision & Hgated & _ & Hvalid & Hargs).
  exists before, tool, call, args, after, validated, decision.
  split; [exact Heq|]. split; [exact Hid|]. split; [exact Hgated|]. split; [exact Hvalid|exact Hargs].
Defined.
