(* ===== verification/AgentDeclare.v ===== *)
(** * The tools a transcript declares

    [declare_tool_changes] (pi-agent-core/src/agent_loop.rs) against the replay of Transcript: what is
    appended before a request makes the transcript declare exactly the tools that can run. *)
From S2P Require Import Prelude Json PiTypes Transcript AgentTypes AgentLoop Validation AgentRun.

Section Declare.
Context {Number M T W : Type}.
Context {JE : JsonEq Number} {JEL : JsonEqLaws Number} {AM : AgentMessage Number M} {AML : AgentMessageLaws Number M}.
Context {AT : AgentTool Number T} {WO : World Number M T W}.

(** What replaying a transcript declares. *)
Definition declared_tools (messages : list M) : list (Tool Number) := current_tools (omap as_message messages).

Definition systems_of (messages : list M) : list (SystemMessage Number) := system_messages (omap as_message messages).

Lemma systems_of_app l k : systems_of (l ++ k) = systems_of l ++ systems_of k.
Proof. unfold systems_of. by rewrite omap_app, system_messages_app. Qed.

Lemma systems_of_none (l : list M) : Forall (fun message => is_system message = false) l -> systems_of l = [].
Proof.
  induction 1 as [|message l Hm _ IH]; [done|]. unfold systems_of, is_system in *. cbn.
  destruct (as_message message) as [[]|]; done.
Qed.

Lemma systems_of_system (message : M) system l :
  as_message message = Some (System system) -> systems_of (message :: l) = system :: systems_of l.
Proof. intros Hm. unfold systems_of. cbn. by rewrite Hm. Qed.

Lemma current_tools_systems (l k : list (Message Number)) :
  system_messages l = system_messages k -> current_tools l = current_tools k.
Proof. unfold current_tools. by intros ->. Qed.

(** A system message without tools does not change them. *)
Lemma current_tools_without (l : list (Message Number)) system :
  sm_tools_added system = [] -> sm_tools_removed system = [] ->
  current_tools (l ++ [System system]) = current_tools l.
Proof.
  intros Hadded Hremoved. unfold current_tools. rewrite system_messages_app, fold_left_app. cbn.
  unfold replay_tools. by rewrite Hadded, Hremoved.
Qed.

Lemma rposition_None {A} (p : A -> bool) (l : list A) :
  rposition p l = None -> Forall (fun b => p b = false) l.
Proof.
  induction l as [|b l IH]; [done|]. cbn. destruct (rposition p l); [done|].
  destruct (p b) eqn:Hb; [done|]. constructor; auto.
Qed.

Lemma rposition_Some {A} (p : A -> bool) (l : list A) i :
  rposition p l = Some i ->
  exists pre a post, l = pre ++ a :: post /\ length pre = i /\ p a = true /\ Forall (fun b => p b = false) post.
Proof.
  revert i. induction l as [|a l IH]; intros i; [done|]. cbn.
  destruct (rposition p l) as [j|] eqn:Hj.
  - intros [= <-]. destruct (IH j eq_refl) as (pre & b & post & -> & <- & Hb & Hpost). by exists (a :: pre), b, post.
  - destruct (p a) eqn:Ha; [|done]. intros [= <-]. exists [], a, l. by split_and!; [..|apply rposition_None].
Qed.

Lemma omap_indexed {A B} (g : nat * A -> option B) (f : A -> option B) (l : list A) k :
  (forall i a, l !! i = Some a -> g ((k + i)%nat, a) = f a) ->
  omap g (imap (fun i a => ((k + i)%nat, a)) l) = omap f l.
Proof.
  revert k. induction l as [|a l IH]; intros k Hg; [done|]. cbn.
  rewrite (Hg 0%nat a eq_refl). specialize (IH (S k)).
  assert (Hrest : omap g (imap (fun i a => (S (k + i), a)) l) = omap f l).
  { apply IH. intros i b Hi. specialize (Hg (S i) b Hi). by rewrite Nat.add_succ_r in Hg. }
  rewrite <- Hrest. erewrite imap_ext; [done|]. intros i b _. cbn. by rewrite Nat.add_succ_r.
Qed.

(** The transcript that [declare_tool_changes] compares with: the pending messages with the last system
    message's changes left out. *)
Lemma systems_without (pending : list M) pre message system post :
  pending = pre ++ message :: post -> as_message message = Some (System system) ->
  Forall (fun message => is_system message = false) post ->
  system_messages (omap (fun '(index, message) =>
      match as_message message with
      | Some (System system) =>
          if bool_decide (Some index = Some (length pre)) then Some (System (with_tool_changes system [] []))
          else Some (System system)
      | other => other
      end) (imap pair pending))
  = systems_of pre ++ [with_tool_changes system [] []].
Proof.
  intros -> Hmessage Hpost. set (g := fun _ => _ : option (Message Number)).
  rewrite imap_app, omap_app, system_messages_app. f_equal.
  - unfold systems_of. f_equal. apply (omap_indexed g as_message pre 0). intros i a Hi.
    unfold g. apply lookup_lt_Some in Hi. destruct (as_message a) as [[]|]; try done.
    rewrite bool_decide_eq_false_2; [done|]. intros [= Heq]. cbn in *. lia.
  - cbn [imap]. cbn [omap list_omap]. rewrite Nat.add_0_r. unfold g at 1. rewrite Hmessage, bool_decide_eq_true_2 by done.
    cbn [system_messages omap list_omap]. f_equal.
    trans (systems_of post); [|by apply systems_of_none]. unfold systems_of. f_equal.
    trans (omap g (imap (fun i a => ((S (length pre) + i)%nat, a)) post)).
    { f_equal. apply imap_ext. intros i a _. cbn. by rewrite Nat.add_succ_r. }
    apply omap_indexed. intros i a Hi. unfold g. rewrite Forall_forall in Hpost.
    assert (Ha : is_system a = false) by (apply Hpost; by eapply list_elem_of_lookup_2).
    unfold is_system in Ha. by destruct (as_message a) as [[]|].
Qed.

(** What the replay of a declared difference gives, from the transcripts' system messages. *)
Lemma declared_after (context : AgentContext M T) (before : list (Message Number)) (after : list (SystemMessage Number)) message
    (tools : list (Tool Number)) :
  NoDup (to_name <$> tools) ->
  let changes := tool_changes (current_tools before) tools in
  sm_tools_added message = ch_added changes -> sm_tools_removed message = ch_removed changes ->
  after = system_messages before ++ [message] ->
  same_tools (fold_left replay_tools after []).*2 tools.
Proof.
  intros Hnd changes Hadded Hremoved ->.
  pose proof (replay_changes before tools (sm_content message) (sm_sections message) (sm_timestamp message) Hnd) as Hreplay.
  cbv zeta in Hreplay. fold changes in Hreplay. rewrite <- Hadded, <- Hremoved in Hreplay.
  unfold current_tools at 1 in Hreplay. rewrite system_messages_app in Hreplay. by destruct message.
Qed.

Lemma changes_is_empty_lists (changes : ToolChanges Number) :
  changes_is_empty changes = true -> ch_added changes = [] /\ ch_removed changes = [].
Proof.
  unfold changes_is_empty. intros [Ha%bool_decide_eq_true Hr%bool_decide_eq_true]%andb_prop.
  by apply nil_length_inv in Ha, Hr.
Qed.

(** The last pending system message carries the difference. *)
Lemma declare_in_last (context : AgentContext M T) pre message post system (s : St) :
  NoDup (to_name <$> (declaration <$> ac_tools context)) ->
  as_message message = Some (System system) -> Forall (fun message => is_system message = false) post ->
  rposition is_system (pre ++ message :: post) = Some (length pre) ->
  let messages := (declare_tool_changes (W := W) context (pre ++ message :: post) s).1 in
  same_tools (fold_left replay_tools (systems_of (ac_messages context) ++ systems_of messages) []).*2
    (declaration <$> ac_tools context).
Proof.
  intros Hnames Hmessage Hpost Hposition. unfold declare_tool_changes. rewrite Hposition, list_lookup_middle by done.
  cbn [mbind option_bind]. rewrite Hmessage.
  pose proof (systems_without (pre ++ message :: post) pre message system post eq_refl Hmessage Hpost) as Hwithout.
  set (without := omap _ (imap pair _)) in *.
  set (before := omap as_message (ac_messages context ++ pre)).
  assert (Hbefore : system_messages before = systems_of (ac_messages context) ++ systems_of pre).
  { unfold before. by rewrite <- systems_of_app. }
  assert (Hcurrent : current_tools (omap as_message (ac_messages context) ++ without) = current_tools before).
  { rewrite <- (current_tools_without before (with_tool_changes system [] [])) by done. apply current_tools_systems.
    rewrite !system_messages_app, Hwithout, Hbefore, <- (assoc_L (++)). done. }
  rewrite Hcurrent. set (changes := tool_changes _ _).
  assert (Hinsert : forall x, <[length pre := x]> (pre ++ message :: post) = pre ++ x :: post).
  { intros x. rewrite insert_app_r_alt by done. by rewrite Nat.sub_diag. }
  destruct (_ && _) eqn:Hnothing.
  - apply andb_prop in Hnothing as [[Hempty Ha%bool_decide_eq_true]%andb_prop Hr%bool_decide_eq_true].
    apply nil_length_inv in Ha, Hr. apply changes_is_empty_lists in Hempty as [Hca Hcr].
    apply (declared_after context before _ system); [done|by fold changes; rewrite Ha, Hca|by fold changes; rewrite Hr, Hcr|].
    unfold mret, run_ret. cbn [fst].
    rewrite systems_of_app, (systems_of_system _ system), (systems_of_none post), Hbefore by done.
    by rewrite (assoc_L (++)).
  - rewrite Hinsert. unfold mret, run_ret. cbn [fst].
    apply (declared_after context before _ (with_tool_changes system (ch_added changes) (ch_removed changes))); try done.
    rewrite systems_of_app, (systems_of_system _ (with_tool_changes system (ch_added changes) (ch_removed changes)) post),
      (systems_of_none post), Hbefore by (done || apply as_message_from).
    by rewrite (assoc_L (++)).
Qed.

(** A new system message carries it, before the first other message. *)
Lemma declare_new (context : AgentContext M T) pending (s : St) :
  NoDup (to_name <$> (declaration <$> ac_tools context)) ->
  rposition is_system pending = None ->
  let messages := (declare_tool_changes (W := W) context pending s).1 in
  same_tools (fold_left replay_tools (systems_of (ac_messages context) ++ systems_of messages) []).*2
    (declaration <$> ac_tools context).
Proof.
  intros Hnames Hposition. unfold declare_tool_changes. rewrite Hposition. apply rposition_None in Hposition.
  set (without := omap _ (imap pair _)). set (before := omap as_message (ac_messages context)).
  assert (Hwithout : without = omap as_message pending).
  { apply (omap_indexed _ _ pending 0). intros i a Hi. cbn. by destruct (as_message a) as [[]|]. }
  assert (Hcurrent : current_tools (before ++ without) = current_tools before).
  { apply current_tools_systems. rewrite system_messages_app, Hwithout.
    change (system_messages (omap as_message pending)) with (systems_of pending).
    rewrite systems_of_none by done. by rewrite app_nil_r. }
  rewrite Hcurrent. set (changes := tool_changes _ _).
  destruct (changes_is_empty changes) eqn:Hempty.
  - unfold mret, run_ret. cbn [fst]. apply changes_is_empty_lists in Hempty as [Hca Hcr].
    rewrite (systems_of_none pending), app_nil_r by done.
    pose proof (declared_after context before (system_messages before ++ [system_default]) system_default
      _ Hnames) as Hafter. cbv zeta in Hafter. fold changes in Hafter.
    specialize (Hafter (eq_sym Hca) (eq_sym Hcr) eq_refl). by rewrite fold_left_app in Hafter.
  - unfold ask, mbind, run_bind, mret, run_ret. destruct (clock_now (s_world s)) as [now w]. cbn [fst].
    set (at_ := default _ _). set (update := MkSystemMessage _ _ _ _ _).
    apply (declared_after context before _ update); try done. rewrite <- (take_drop at_ pending) in Hposition.
    apply Forall_app in Hposition as [Hbefore Hafter].
    rewrite systems_of_app, (systems_of_system _ update), (systems_of_none (take at_ pending)),
      (systems_of_none (drop at_ pending)) by (done || apply as_message_from). done.
Qed.

(** C16: Before each request the model is told which tools can run: whatever the transcript declared and
    whatever system messages are pending, once the messages that [declare_tool_changes] makes of the
    pending ones are appended, replaying the transcript yields exactly the tools that can run.  The
    other pending messages stay as they are. *)
Theorem declare_tool_changes_exact (context : AgentContext M T) (pending : list M) (w : W)
    (Hnames : NoDup (to_name <$> (declaration <$> ac_tools context))) :
  let '(messages, _) := declare_tool_changes context pending (MkSt w []) in
  same_tools (declared_tools (ac_messages context ++ messages)) (declaration <$> ac_tools context) /\
  others messages = others pending.
Proof.
  assert (Hothers : others (declare_tool_changes context pending (MkSt w [])).1 = others pending).
  { pose proof (sees_declare (fun _ _ => Err "") view_init (view_init : View M) context pending (MkSt w [])) as Hsees.
    destruct Hsees as (t & _ & _ & Hothers & _); [by apply fresh_sees|done]. }
  assert (Htools : same_tools (fold_left replay_tools
      (systems_of (ac_messages context) ++ systems_of (declare_tool_changes context pending (MkSt w [])).1) []).*2
      (declaration <$> ac_tools context)).
  { destruct (rposition is_system pending) as [index|] eqn:Hindex; [|by apply declare_new].
    apply rposition_Some in Hindex as Hsplit. destruct Hsplit as (pre & message & post & -> & <- & Hsystem & Hpost).
    unfold is_system in Hsystem. destruct (as_message message) as [[system| | |]|] eqn:Hmessage; try done.
    by eapply declare_in_last. }
  destruct (declare_tool_changes context pending (MkSt w [])) as [messages s']. cbn in Htools, Hothers.
  split; [|done]. unfold declared_tools, current_tools.
  change (system_messages (omap as_message ?l)) with (systems_of l). by rewrite systems_of_app.
Qed.
End Declare.

(** A transcript that declared another tool, and one that can run. *)
Import Validation.Toy.

Lemma declare_tool_changes_exact_witness :
  let old := MkTool "old" "" Null None in
  let context := MkAgentContext [System (MkSystemMessage "" [] [old] [] 0)] [Demo.demo_read] in
  NoDup (to_name <$> (declaration (AgentTool := Demo.demo_tool) <$> ac_tools context)) /\
  let '(messages, _) :=
    declare_tool_changes (AT := Demo.demo_tool) (WO := Demo.demo_world) context [Demo.demo_prompt] (MkSt 0%nat []) in
  same_tools (declared_tools (ac_messages context ++ messages)) [Demo.demo_read].
Proof.
  assert (H : NoDup ["read"]) by (constructor; [by intros ?%not_elem_of_nil|constructor]).
  split; [exact H|].
  exact (proj1 (declare_tool_changes_exact (AT := Demo.demo_tool) (WO := Demo.demo_world)
    (MkAgentContext [System (MkSystemMessage "" [] [MkTool "old" "" Null None] [] 0)] [Demo.demo_read])
    [Demo.demo_prompt] 0%nat H)).
Defined.
