(* ===== verification/AgentObject.v ===== *)
(** * The agent: pi-agent-core/src/agent.rs

    The object around the loop: the transcript and settings, the queues, the listeners and the slot of
    the active run.  A run of it is [AgentLoop]'s, in a world that pairs the agent with the outside: its
    sink updates the agent and tells the listeners, its queues are the agent's.  Hooks, providers and
    listeners are handles; what they do to the world is the application's ([Outside]), and it reaches
    the agent by calling its methods, as any other task may.

    Theorems: there is one run at a time, and however it ends its slot is freed; queues give their messages once
    and in order; and a run appends to the transcript exactly the messages whose end it reported, with the edits the
    outside makes in between.  [reset] is a step under the lock of the slot and a step under the lock of the state,
    for a run may begin between them. *)
From stdpp Require Import gmultiset strings.
From S2P Require Import Prelude Json PiTypes Transcript AssistantStream AgentTypes AgentLoop AgentInvariant Validation AgentRun.

(** ** Queues *)

Inductive QueueMode := All | OneAtATime.

#[global] Instance QueueMode_eq_dec : EqDecision QueueMode.
Proof. solve_decision. Defined.

Record PendingQueue (M : Type) := MkPendingQueue {
  pq_messages : list M;
  pq_mode : QueueMode;
}.
Arguments MkPendingQueue {_}.
Arguments pq_messages {_}.
Arguments pq_mode {_}.

Section Queue.
Context {M : Type}.

Definition queue_new (mode : QueueMode) : PendingQueue M := MkPendingQueue [] mode.

Definition peek (self : PendingQueue M) : list M :=
  match pq_mode self with All => pq_messages self | OneAtATime => take 1 (pq_messages self) end.

Definition drain (self : PendingQueue M) : list M * PendingQueue M :=
  match pq_mode self with
  | All => (pq_messages self, MkPendingQueue [] All)
  | OneAtATime => (take 1 (pq_messages self), MkPendingQueue (drop 1 (pq_messages self)) OneAtATime)
  end.

Definition push_back (message : M) (self : PendingQueue M) : PendingQueue M :=
  MkPendingQueue (pq_messages self ++ [message]) (pq_mode self).

Definition with_mode (mode : QueueMode) (self : PendingQueue M) : PendingQueue M :=
  MkPendingQueue (pq_messages self) mode.

Definition clear (self : PendingQueue M) : list M * PendingQueue M :=
  (pq_messages self, MkPendingQueue [] (pq_mode self)).
End Queue.

(** ** The agent *)

Section Agent.
(** [H], [F] and [L]: handles of hooks, providers and listeners; [E]: the outside. *)
Context {Number M T Other H F L E : Type}.
Context {J : JsonCrate Number} {JE : JsonEq Number} {AM : AgentMessage Number M} {AT : AgentTool Number T}.

Notation Token := nat.

Record AgentOptions := MkAgentOptions {
  ao_model : Model Number;
  ao_thinking_level : ThinkingLevel;
  ao_system_prompt : string;
  ao_tools : list T;
  ao_messages : list M;
  ao_stream_fn : F;
  ao_hooks : H;
  ao_tool_execution : ToolExecutionMode;
  ao_steering_mode : QueueMode;
  ao_follow_up_mode : QueueMode;
  ao_stream_options : StreamOptions Other;
}.

(** [AgentOptions::new]; [no_hooks] and [options]: the handle of [NoHooks], [StreamOptions::default]. *)
Definition options_new (model : Model Number) (stream_fn : F) (no_hooks : H) (options : StreamOptions Other)
    : AgentOptions :=
  MkAgentOptions model Off "" [] [] stream_fn no_hooks Parallel OneAtATime OneAtATime options.

Record State := MkState {
  sa_model : Model Number;
  sa_thinking_level : ThinkingLevel;
  sa_messages : list M;
  sa_tools : list T;
  sa_streaming_message : option (AssistantMessage Number);
  sa_pending_tool_calls : gset string;
  sa_error_message : option string;
  sa_stream_fn : F;
  sa_hooks : H;
  sa_tool_execution : ToolExecutionMode;
  sa_stream_options : StreamOptions Other;
}.

(** [in_run]: the active run's token; tokens are numbered as they are made, and [in_cancelled] are the
    cancelled ones. *)
Record Inner := MkInner {
  in_state : State;
  in_steering : PendingQueue M;
  in_follow_up : PendingQueue M;
  in_listeners : list (Z * L);
  in_next_listener : Z;
  in_run : option Token;
  in_running : bool;
  in_next_token : Token;
  in_cancelled : gset Token;
}.

Definition with_transcript (messages : list M) (s : State) : State :=
  MkState (sa_model s) (sa_thinking_level s) messages (sa_tools s) (sa_streaming_message s)
    (sa_pending_tool_calls s) (sa_error_message s) (sa_stream_fn s) (sa_hooks s) (sa_tool_execution s)
    (sa_stream_options s).

Definition with_streaming (streaming : option (AssistantMessage Number)) (s : State) : State :=
  MkState (sa_model s) (sa_thinking_level s) (sa_messages s) (sa_tools s) streaming
    (sa_pending_tool_calls s) (sa_error_message s) (sa_stream_fn s) (sa_hooks s) (sa_tool_execution s)
    (sa_stream_options s).

Definition with_pending (pending : gset string) (s : State) : State :=
  MkState (sa_model s) (sa_thinking_level s) (sa_messages s) (sa_tools s) (sa_streaming_message s)
    pending (sa_error_message s) (sa_stream_fn s) (sa_hooks s) (sa_tool_execution s)
    (sa_stream_options s).

Definition with_error (error : option string) (s : State) : State :=
  MkState (sa_model s) (sa_thinking_level s) (sa_messages s) (sa_tools s) (sa_streaming_message s)
    (sa_pending_tool_calls s) error (sa_stream_fn s) (sa_hooks s) (sa_tool_execution s)
    (sa_stream_options s).

Definition on_state (f : State -> State) (a : Inner) : Inner :=
  MkInner (f (in_state a)) (in_steering a) (in_follow_up a) (in_listeners a) (in_next_listener a)
    (in_run a) (in_running a) (in_next_token a) (in_cancelled a).

Definition with_queues (steering follow_up : PendingQueue M) (a : Inner) : Inner :=
  MkInner (in_state a) steering follow_up (in_listeners a) (in_next_listener a)
    (in_run a) (in_running a) (in_next_token a) (in_cancelled a).

Definition with_listeners (listeners : list (Z * L)) (next : Z) (a : Inner) : Inner :=
  MkInner (in_state a) (in_steering a) (in_follow_up a) listeners next
    (in_run a) (in_running a) (in_next_token a) (in_cancelled a).

Definition with_run (run : option Token) (running : bool) (next : Token) (cancelled : gset Token) (a : Inner) : Inner :=
  MkInner (in_state a) (in_steering a) (in_follow_up a) (in_listeners a) (in_next_listener a)
    run running next cancelled.

Definition agent_new (options : AgentOptions) : Inner :=
  let messages := ao_messages options in
  let messages :=
    if is_some_and is_system (head messages) then messages
    else
      match initial_system_message (ao_system_prompt options) (declaration <$> ao_tools options) with
      | Some system => from_message (System system) :: messages
      | None => messages
      end in
  MkInner
    (MkState (ao_model options) (ao_thinking_level options) messages (ao_tools options) None ∅ None
       (ao_stream_fn options) (ao_hooks options) (ao_tool_execution options) (ao_stream_options options))
    (queue_new (ao_steering_mode options)) (queue_new (ao_follow_up_mode options)) [] 1 None false 0%nat ∅.

Definition subscribe (listener : L) (a : Inner) : Z * Inner :=
  let id := in_next_listener a in
  (id, with_listeners (in_listeners a ++ [(id, listener)]) (wrapping_add_u64 id 1) a).

Definition unsubscribe (id : Z) (a : Inner) : Inner :=
  with_listeners (List.filter (fun entry => negb (entry.1 =? id)) (in_listeners a)) (in_next_listener a) a.

Definition set_model (model : Model Number) : Inner -> Inner := on_state (fun s =>
  MkState model (sa_thinking_level s) (sa_messages s) (sa_tools s) (sa_streaming_message s)
    (sa_pending_tool_calls s) (sa_error_message s) (sa_stream_fn s) (sa_hooks s) (sa_tool_execution s) (sa_stream_options s)).

Definition set_thinking_level (level : ThinkingLevel) : Inner -> Inner := on_state (fun s =>
  MkState (sa_model s) level (sa_messages s) (sa_tools s) (sa_streaming_message s)
    (sa_pending_tool_calls s) (sa_error_message s) (sa_stream_fn s) (sa_hooks s) (sa_tool_execution s) (sa_stream_options s)).

Definition replace_messages (messages : list M) : Inner -> Inner := on_state (with_transcript messages).

Definition append_message (message : M) : Inner -> Inner :=
  on_state (fun s => with_transcript (sa_messages s ++ [message]) s).

Definition set_tools (tools : list T) : Inner -> Inner := on_state (fun s =>
  MkState (sa_model s) (sa_thinking_level s) (sa_messages s) tools (sa_streaming_message s)
    (sa_pending_tool_calls s) (sa_error_message s) (sa_stream_fn s) (sa_hooks s) (sa_tool_execution s) (sa_stream_options s)).

Definition set_hooks (hooks : H) : Inner -> Inner := on_state (fun s =>
  MkState (sa_model s) (sa_thinking_level s) (sa_messages s) (sa_tools s) (sa_streaming_message s)
    (sa_pending_tool_calls s) (sa_error_message s) (sa_stream_fn s) hooks (sa_tool_execution s) (sa_stream_options s)).

Definition set_stream_fn (stream_fn : F) : Inner -> Inner := on_state (fun s =>
  MkState (sa_model s) (sa_thinking_level s) (sa_messages s) (sa_tools s) (sa_streaming_message s)
    (sa_pending_tool_calls s) (sa_error_message s) stream_fn (sa_hooks s) (sa_tool_execution s) (sa_stream_options s)).

Definition set_tool_execution (mode : ToolExecutionMode) : Inner -> Inner := on_state (fun s =>
  MkState (sa_model s) (sa_thinking_level s) (sa_messages s) (sa_tools s) (sa_streaming_message s)
    (sa_pending_tool_calls s) (sa_error_message s) (sa_stream_fn s) (sa_hooks s) mode (sa_stream_options s)).

Definition set_stream_options (options : StreamOptions Other) : Inner -> Inner := on_state (fun s =>
  MkState (sa_model s) (sa_thinking_level s) (sa_messages s) (sa_tools s) (sa_streaming_message s)
    (sa_pending_tool_calls s) (sa_error_message s) (sa_stream_fn s) (sa_hooks s) (sa_tool_execution s) options).

Definition system_prompt (a : Inner) : string :=
  current_system_prompt (omap as_message (sa_messages (in_state a))).

Definition steer (message : M) (a : Inner) : Inner :=
  with_queues (push_back message (in_steering a)) (in_follow_up a) a.

Definition follow_up (message : M) (a : Inner) : Inner :=
  with_queues (in_steering a) (push_back message (in_follow_up a)) a.

Definition set_steering_mode (mode : QueueMode) (a : Inner) : Inner :=
  with_queues (with_mode mode (in_steering a)) (in_follow_up a) a.

Definition set_follow_up_mode (mode : QueueMode) (a : Inner) : Inner :=
  with_queues (in_steering a) (with_mode mode (in_follow_up a)) a.

Definition has_queued_messages (a : Inner) : bool :=
  negb (length (pq_messages (in_steering a)) =? 0)%nat || negb (length (pq_messages (in_follow_up a)) =? 0)%nat.

Definition peek_queued_messages (a : Inner) : list M :=
  match peek (in_steering a) with [] => peek (in_follow_up a) | steering => steering end.

Definition clear_steering_queue (a : Inner) : list M * Inner :=
  let '(messages, queue) := clear (in_steering a) in (messages, with_queues queue (in_follow_up a) a).

Definition clear_follow_up_queue (a : Inner) : list M * Inner :=
  let '(messages, queue) := clear (in_follow_up a) in (messages, with_queues (in_steering a) queue a).

Definition clear_queues (a : Inner) : (list M * list M) * Inner :=
  let '(steering, a) := clear_steering_queue a in
  let '(follow_ups, a) := clear_follow_up_queue a in
  ((steering, follow_ups), a).

Definition cancel (token : Token) (a : Inner) : Inner :=
  with_run (in_run a) (in_running a) (in_next_token a) ({[token]} ∪ in_cancelled a) a.

Definition abort (a : Inner) : Inner := match in_run a with Some token => cancel token a | None => a end.

(** [reset], up to the moment the lock of the slot is released: a run may begin before the rest. *)
Definition reset_check (a : Inner) : result AgentError () := if is_some (in_run a) then Err AlreadyRunning else Ok ().

(** [reset], under the lock of the state. *)
Definition reset_state (a : Inner) : Inner :=
  let s := in_state a in
  let baseline := current_system_message (omap as_message (sa_messages s)) in
  let s := with_transcript (from_option (fun system => [from_message (System system)]) [] baseline) s in
  let s := with_pending ∅ (with_streaming None (with_error None s)) in
  on_state (fun _ => s) a.

(** [reset], when nothing happens between its locks. *)
Definition reset (a : Inner) : result AgentError () * Inner :=
  match reset_check a with
  | Err error => (Err error, a)
  | Ok _ => let '(_, a) := clear_queues (reset_state a) in (Ok (), a)
  end.

(** ** The slot of the run *)

Definition begin_run (a : Inner) : result AgentError Token * Inner :=
  if is_some (in_run a) then (Err AlreadyRunning, a)
  else
    let token := in_next_token a in
    (Ok token, with_run (Some token) true (S token) (in_cancelled a) a).

(** [RunGuard]'s [Drop] *)
Definition drop_guard (finished : bool) (a : Inner) : Inner :=
  let a := on_state (fun s => with_pending ∅ (with_streaming None s)) a in
  let cancelled :=
    match in_run a with
    | Some token => if finished then in_cancelled a else {[token]} ∪ in_cancelled a
    | None => in_cancelled a
    end in
  with_run None false (in_next_token a) cancelled a.

(** ** The world of a run *)

(** The agent, [skip_initial_steering] of the run's queues, and the outside. *)
Record RunWorld := MkRunWorld {
  rw_agent : Inner;
  rw_skip : bool;
  rw_outside : E;
}.

Definition on_agent (f : Inner -> Inner) (w : RunWorld) : RunWorld :=
  MkRunWorld (f (rw_agent w)) (rw_skip w) (rw_outside w).

(** What the application's hooks, providers, listeners and tools do, and the clock. *)
Class Outside := {
  hooks_of : H -> AgentHooks Number M T RunWorld;
  provider_of : F -> StreamFn Number RunWorld Other;
  on_event : L -> AgentEvent Number M -> Token -> RunWorld -> RunWorld;
  outside_clock : RunWorld -> Z * RunWorld;
  tool_start : T -> ToolInvocation Number -> RunWorld -> RunWorld;
  tool_end : T -> ToolInvocation Number -> RunWorld -> Execution Number * RunWorld;
  tool_updates : RunWorld -> list (ToolUpdate Number) * RunWorld;
  tool_ready : nat -> RunWorld -> nat * RunWorld;
}.
Context {OU : Outside}.

(** [AgentSink::emit], under the lock. *)
Definition sink_state (event : AgentEvent Number M) (s : State) : State :=
  match event with
  | MessageStart message => with_streaming (as_assistant message) s
  | MessageUpdate event => with_streaming ((fun partial => apply_event partial event) <$> sa_streaming_message s) s
  | MessageEnd message => with_transcript (sa_messages s ++ [message]) (with_streaming None s)
  | ToolExecutionStart id _ _ => with_pending ({[id]} ∪ sa_pending_tool_calls s) s
  | ToolExecutionEnd id _ _ _ => with_pending (sa_pending_tool_calls s ∖ {[id]}) s
  | TurnEnd message _ =>
      match as_assistant message ≫= as_error_message with Some error => with_error (Some error) s | None => s end
  | AgentEnd _ => with_streaming None s
  | _ => s
  end.

Definition agent_emit (token : Token) (event : AgentEvent Number M) (w : RunWorld) : RunWorld :=
  let w := on_agent (on_state (sink_state event)) w in
  fold_left (fun w listener => on_event listener event token w) (in_listeners (rw_agent w)).*2 w.

Definition agent_world (token : Token) : World Number M T RunWorld := {|
  sink_emit := agent_emit token;
  token_cancelled w := (bool_decide (token ∈ in_cancelled (rw_agent w)), w);
  clock_now := outside_clock;
  execute_start := tool_start;
  execute_end := tool_end;
  sent_updates := tool_updates;
  next_ready := tool_ready;
|}.

Definition queue_steering (w : RunWorld) : list M * RunWorld :=
  if rw_skip w then ([], MkRunWorld (rw_agent w) false (rw_outside w))
  else
    let '(messages, queue) := drain (in_steering (rw_agent w)) in
    (messages, on_agent (fun a => with_queues queue (in_follow_up a) a) w).

Definition queue_follow_ups (w : RunWorld) : list M * RunWorld :=
  let '(messages, queue) := drain (in_follow_up (rw_agent w)) in
  (messages, on_agent (fun a => with_queues (in_steering a) queue a) w).

Definition AgentQueues : MessageQueues M RunWorld := {| steering := queue_steering; follow_ups := queue_follow_ups |}.

(** ** Runs *)

Notation St := (@St Number M T RunWorld).
Variable validate_tool_arguments : Tool Number -> ToolCall Number -> result string (Value Number).

Inductive RunKind := Prompt (messages : list M) | ContinueRun.

(** A run that is still going after the steps it was given, or its answer, the agent and the outside,
    and what happened. *)
Inductive RunOutcome :=
| StillGoing (s : St)
| RunEnds (answer : result AgentError ()) (agent : Inner) (outside : E) (history : list (@Happening Number M T)).

Definition run_config (s : State) : AgentLoopConfig Number M T RunWorld Other :=
  MkAgentLoopConfig (sa_model s) (sa_thinking_level s) (provider_of (sa_stream_fn s)) (hooks_of (sa_hooks s))
    AgentQueues (sa_tool_execution s) (sa_stream_options s).

Definition run_context (s : State) : AgentContext M T := MkAgentContext (sa_messages s) (sa_tools s).

(** The loop of a run, from the state when its slot was taken. *)
Definition run_loop_of (fuel : nat) (token : Token) (kind : RunKind) (skip : bool) (a : Inner) (e : E)
    : result AgentError (option (list M)) * St :=
  let a := on_state (fun s => with_error None (with_streaming None s)) a in
  let s := MkSt (MkRunWorld a skip e) [] in
  let context := run_context (in_state a) in
  let config := run_config (in_state a) in
  match kind with
  | Prompt messages =>
      let '(new_messages, s) :=
        run_agent_loop (WO := agent_world token) validate_tool_arguments fuel messages context config s in
      (Ok new_messages, s)
  | ContinueRun => run_agent_loop_continue (WO := agent_world token) validate_tool_arguments fuel context config s
  end.

Definition run_ends (answer : result AgentError ()) (finished : bool) (s : St) : RunOutcome :=
  RunEnds answer (drop_guard finished (rw_agent (s_world s))) (rw_outside (s_world s)) (s_history s).

Definition run_started (fuel : nat) (token : Token) (kind : RunKind) (skip : bool) (a : Inner) (e : E) : RunOutcome :=
  match run_loop_of fuel token kind skip a e with
  | (Ok None, s) => StillGoing s
  | (Ok (Some _), s) => run_ends (Ok ()) true s
  | (Err error, s) => run_ends (Err error) true s
  end.

(** [end_failed_run]: the events of a run whose loop panicked. *)
Definition end_failed_run (token : Token) (error : string) : @Run Number M T RunWorld () :=
  aborted ← ask (fun w => (bool_decide (token ∈ in_cancelled (rw_agent w)), w));
  model ← ask (fun w => (sa_model (in_state (rw_agent w)), w));
  now ← ask outside_clock;
  let failed := assistant_failed model (if aborted : bool then Aborted else Error) error now in
  let reply :=
    MkAssistantMessage [assistant_new_text ""] (as_api failed) (as_provider failed) (as_model failed)
      (as_response_id failed) (as_thinking_level failed) (as_usage failed) (as_stop_reason failed)
      (as_error_message failed) (as_timestamp failed) in
  let message : M := from_message (Assistant reply) in
  _ ← emit (WO := agent_world token) (MessageStart message);
  _ ← emit (WO := agent_world token) (MessageEnd message);
  _ ← emit (WO := agent_world token) (TurnEnd message []);
  emit (WO := agent_world token) (AgentEnd [message]).

(** What [run_started] does when the loop panicked with [error], wherever it was. *)
Definition run_panicked (token : Token) (error : string) (s : St) : RunOutcome :=
  let '(_, s) := end_failed_run token error s in run_ends (Ok ()) false s.

(** A run whose future is dropped, wherever it was. *)
Definition run_dropped (s : St) : Inner * E := (drop_guard false (rw_agent (s_world s)), rw_outside (s_world s)).

Definition run (fuel : nat) (kind : RunKind) (skip : bool) (a : Inner) (e : E) : RunOutcome :=
  match begin_run a with
  | (Err error, a) => RunEnds (Err error) a e []
  | (Ok token, a) => run_started fuel token kind skip a e
  end.

Definition prompt (fuel : nat) (messages : list M) (a : Inner) (e : E) : RunOutcome := run fuel (Prompt messages) false a e.

(** [now]: the clock when the message is made. *)
Definition prompt_with_images (fuel : nat) (text : string) (images : list ImageContent) (now : Z) (a : Inner) (e : E)
    : RunOutcome :=
  prompt fuel [from_message (User (MkUserMessage (content_new_text text :: (ContentImage <$> images)) now))] a e.

Definition prompt_text (fuel : nat) (text : string) (now : Z) (a : Inner) (e : E) : RunOutcome :=
  prompt_with_images fuel text [] now a e.

Definition continue_run (fuel : nat) (a : Inner) (e : E) : RunOutcome :=
  let messages := sa_messages (in_state a) in
  if forallb is_system messages then RunEnds (Err NoMessages) a e []
  else if negb (is_some_and (fun message => is_some (as_assistant message)) (last messages))
  then run fuel ContinueRun false a e
  else
    match begin_run a with
    | (Err error, a) => RunEnds (Err error) a e []
    | (Ok token, a) =>
        let '(steering, queue) := drain (in_steering a) in
        let a := with_queues queue (in_follow_up a) a in
        match steering with
        | _ :: _ => run_started fuel token (Prompt steering) true a e
        | [] =>
            let '(follow_ups, queue) := drain (in_follow_up a) in
            let a := with_queues (in_steering a) queue a in
            match follow_ups with
            | _ :: _ => run_started fuel token (Prompt follow_ups) false a e
            | [] => RunEnds (Err CannotContinueFromAssistant) (drop_guard false a) e []
            end
        end
    end.
End Agent.

(** ** What others may call *)

Section Calls.
Context {Number M T Other H F L E : Type}.
Context {J : JsonCrate Number} {JE : JsonEq Number} {AM : AgentMessage Number M} {AML : AgentMessageLaws Number M}.
Context {AT : AgentTool Number T}.
Notation Inner := (@Inner Number M T Other H F L).
Notation State := (@State Number M T Other H F).
Notation RunWorld := (@RunWorld Number M T Other H F L E).

(** A method of the agent that changes it; [CallBegin]: the attempt of another task to start a run. *)
Inductive Call :=
| CallSubscribe (listener : L) | CallUnsubscribe (id : Z)
| CallSetModel (model : Model Number) | CallSetThinkingLevel (level : ThinkingLevel)
| CallReplace (messages : list M) | CallAppend (message : M)
| CallSetTools (tools : list T) | CallSetHooks (hooks : H) | CallSetStreamFn (stream_fn : F)
| CallSetToolExecution (mode : ToolExecutionMode) | CallSetStreamOptions (options : StreamOptions Other)
| CallSteer (message : M) | CallFollowUp (message : M)
| CallSteeringMode (mode : QueueMode) | CallFollowUpMode (mode : QueueMode)
| CallClearSteering | CallClearFollowUp | CallClearQueues
| CallAbort | CallCancel (token : nat) | CallReset.

Definition call (c : Call) (a : Inner) : Inner :=
  match c with
  | CallSubscribe listener => (subscribe listener a).2
  | CallUnsubscribe id => unsubscribe id a
  | CallSetModel model => set_model model a
  | CallSetThinkingLevel level => set_thinking_level level a
  | CallReplace messages => replace_messages messages a
  | CallAppend message => append_message message a
  | CallSetTools tools => set_tools tools a
  | CallSetHooks hooks => set_hooks hooks a
  | CallSetStreamFn stream_fn => set_stream_fn stream_fn a
  | CallSetToolExecution mode => set_tool_execution mode a
  | CallSetStreamOptions options => set_stream_options options a
  | CallSteer message => steer message a
  | CallFollowUp message => follow_up message a
  | CallSteeringMode mode => set_steering_mode mode a
  | CallFollowUpMode mode => set_follow_up_mode mode a
  | CallClearSteering => (clear_steering_queue a).2
  | CallClearFollowUp => (clear_follow_up_queue a).2
  | CallClearQueues => (clear_queues a).2
  | CallAbort => abort a
  | CallCancel token => cancel token a
  | CallReset => (reset a).2
  end.

(** Not a replacement of the transcript or an addition to it. *)
Definition is_quiet (c : Call) : bool := match c with CallReplace _ | CallAppend _ => false | _ => true end.

(** What the outside does to the agent at one operation of a run: it calls any methods.  When it replaces the transcript
    or adds to it, as compaction does before a turn, the old and the new transcript are related by [edit]; and when
    [late], a reset that was admitted before the run began may change the state now. *)
Definition allowed (edit : relation (list M)) (late : Prop) (a a' : Inner) : Prop :=
  (exists c, a' = call c a /\ (is_quiet c = true \/ edit (sa_messages (in_state a)) (sa_messages (in_state a'))))
  \/ (late /\ a' = reset_state a /\ edit (sa_messages (in_state a)) (sa_messages (in_state a'))).

Definition called (edit : relation (list M)) (late : Prop) (w w' : RunWorld) : Prop :=
  rtc (allowed edit late) (rw_agent w) (rw_agent w').

(** ** One run at a time *)

(** The agent, the guards alive and the resets admitted but not done: the methods at any moment, runs that take the slot,
    their events, guards dropped when a run finished, panicked or was dropped, and resets in their steps, whose last,
    the clearing of the queues, is the methods'. *)
Inductive agent_step : Inner * list nat * nat -> Inner * list nat * nat -> Prop :=
| step_call c a guards resets : agent_step (a, guards, resets) (call c a, guards, resets)
| step_event event a token guards resets :
    agent_step (a, token :: guards, resets) (on_state (sink_state event) a, token :: guards, resets)
| step_begin a token a' guards resets :
    begin_run a = (Ok token, a') -> agent_step (a, guards, resets) (a', token :: guards, resets)
| step_drop finished a before token after resets :
    agent_step (a, before ++ token :: after, resets) (drop_guard finished a, before ++ after, resets)
| step_reset_check a guards resets : reset_check a = Ok () -> agent_step (a, guards, resets) (a, guards, S resets)
| step_reset_state a guards resets : agent_step (a, guards, S resets) (reset_state a, guards, resets).

Definition agent_reachable (options : AgentOptions) (system : Inner * list nat) : Prop :=
  exists resets, rtc agent_step (agent_new options, [], 0%nat) (system, resets).

Definition slot_inv (state : Inner * list nat * nat) : Prop :=
  let system := state.1 in
  system.2 = option_list (in_run system.1) /\
  in_running system.1 = is_some (in_run system.1) /\
  Forall (fun token => token < in_next_token system.1)%nat system.2 /\
  (in_run system.1 = None ->
    sa_streaming_message (in_state system.1) = None /\ sa_pending_tool_calls (in_state system.1) = ∅).

(** Methods leave the slot alone. *)
Lemma call_slot c (a : Inner) :
  in_run (call c a) = in_run a /\ in_running (call c a) = in_running a /\ in_next_token (call c a) = in_next_token a.
Proof.
  destruct c; try (by cbn); cbn [call].
  - unfold abort. by destruct (in_run a) eqn:Hrun.
  - unfold reset, reset_check. by destruct (is_some (in_run a)).
Qed.

Lemma call_progress c (a : Inner) :
  sa_streaming_message (in_state a) = None /\ sa_pending_tool_calls (in_state a) = ∅ ->
  sa_streaming_message (in_state (call c a)) = None /\ sa_pending_tool_calls (in_state (call c a)) = ∅.
Proof.
  intros Hidle. destruct c; try done; cbn [call].
  - unfold abort. by destruct (in_run a).
  - unfold reset, reset_check. by destruct (is_some (in_run a)).
Qed.

Lemma agent_step_inv system system' : agent_step system system' -> slot_inv system -> slot_inv system'.
Proof.
  intros [c a guards resets|event a token guards resets|a token a' guards resets Hbegin
    |finished a before token after resets|a guards resets _|a guards resets]
    (Hguards & Hrunning & Hfresh & Hidle); unfold slot_inv in *; cbn [fst snd] in *; try by split_and!.
  - destruct (call_slot c a) as (-> & -> & ->). split_and!; try done. intros Hrun. by apply call_progress, Hidle.
  - split_and!; try done. cbn. intros Hrun. by rewrite Hrun in Hguards.
  - unfold begin_run in Hbegin. destruct (in_run a) eqn:Hrun; [done|]. injection Hbegin as <- <-. cbn in *.
    subst guards. split; [done|]. split; [done|]. split; [by repeat constructor|done].
  - cbn. destruct (in_run a) as [token'|]; cbn in Hguards.
    + destruct before as [|? [|]]; cbn in Hguards; [|done..]. injection Hguards as -> ->. auto.
    + by destruct before.
Qed.

Lemma agent_reachable_inv options a guards : agent_reachable options (a, guards) -> slot_inv (a, guards, 0%nat).
Proof.
  intros [resets Hreach]. enough (slot_inv (a, guards, resets)) by done.
  eapply (rtc_invariant agent_step slot_inv); [|exact Hreach|].
  - intros x y Hx Hstep. by eapply agent_step_inv.
  - repeat constructor.
Qed.

(** C10: There is one run at a time, along every interleaving of the methods, the events of runs and the
    ways a run can end: its guard is alive exactly while the slot holds its token, the agent says that
    it is streaming exactly then, a second run is refused without effect, and the guard, however its
    run ended, frees the slot it took and forgets what was being streamed. *)
Theorem one_run_at_a_time (options : AgentOptions) (a : Inner) (guards : list nat)
    (Hreach : agent_reachable options (a, guards)) :
  guards = option_list (in_run a) /\ in_running a = is_some (in_run a) /\
  (guards <> [] -> begin_run a = (Err AlreadyRunning, a)) /\
  (forall token finished, in_run a = Some token ->
    let a' := drop_guard finished a in
    in_run a' = None /\ in_running a' = false /\ sa_streaming_message (in_state a') = None /\
    sa_pending_tool_calls (in_state a') = ∅ /\ (finished = false -> token ∈ in_cancelled a') /\
    exists a'', begin_run a' = (Ok (in_next_token a), a'') /\ in_next_token a <> token).
Proof.
  destruct (agent_reachable_inv _ _ _ Hreach) as (Hguards & Hrunning & Hfresh & _). cbn [fst snd] in *.
  split; [done|]. split; [done|]. split.
  - intros Hsome. unfold begin_run. subst guards. by destruct (in_run a).
  - intros token finished Hrun. unfold drop_guard. cbn. rewrite Hrun. split_and!; try done.
    + intros ->. set_solver.
    + eexists. split; [done|]. rewrite Hguards, Hrun in Hfresh. apply Forall_cons in Hfresh as [Hlt _]. lia.
Qed.

(** ** Queues *)

(** A queue gives each message once, in the order they came: what is drained was what [peek] showed
    and was at the front, the rest stays in order, and a queue with messages gives at least one. *)
Theorem drain_in_order (queue : PendingQueue M) :
  let '(messages, queue') := drain queue in
  messages = peek queue /\ pq_messages queue = messages ++ pq_messages queue' /\ pq_mode queue' = pq_mode queue /\
  (pq_messages queue <> [] -> messages <> []).
Proof.
  destruct queue as [messages []]; cbn; [by rewrite app_nil_r|]. rewrite take_drop. split_and!; try done.
  by destruct messages.
Qed.
End Calls.

(** ** A run of the agent *)

Section AgentRuns.
Context {Number M T Other H F L E : Type}.
Context {J : JsonCrate Number} {JE : JsonEq Number} {AM : AgentMessage Number M} {AML : AgentMessageLaws Number M}.
Context {AT : AgentTool Number T} {OU : @Outside Number M T Other H F L E}.
Notation Inner := (@Inner Number M T Other H F L).
Notation State := (@State Number M T Other H F).
Notation RunWorld := (@RunWorld Number M T Other H F L E).
Notation Happening := (@Happening Number M T).
(** How the outside edits the transcript, and whether a reset from before a run may end in it. *)
Variable edit : relation (list M).
Variable late : Prop.
Notation called := (@called Number M T Other H F L E AM edit late).

(** An operation of the outside reaches the agent only through its methods. *)
Definition calls_only {A} (op : RunWorld -> A * RunWorld) : Prop := forall w, called w (op w).2.

Record hooks_call (hooks : AgentHooks Number M T RunWorld) : Prop := {
  hc_convert messages : calls_only (convert_to_llm hooks messages);
  hc_transform messages : calls_only (transform_context hooks messages);
  hc_key provider : calls_only (hook_api_key hooks provider);
  hc_before call : calls_only (before_tool_call hooks call);
  hc_after call : calls_only (after_tool_call hooks call);
  hc_finish turn : calls_only (finish_turn hooks turn);
  hc_finalize message : calls_only (finalize_message hooks message);
  hc_request context : calls_only (prepare_request hooks context);
  hc_next turn : calls_only (prepare_next_turn hooks turn);
}.

Class OutsideLaws : Prop := {
  ol_hooks hooks : hooks_call (hooks_of hooks);
  ol_open provider model messages options w : called w (open_stream (provider_of provider) model messages options w);
  ol_next provider : calls_only (stream_next (provider_of provider));
  ol_event listener event token w : called w (on_event listener event token w);
  ol_clock : calls_only outside_clock;
  ol_start tool invocation w : called w (tool_start tool invocation w);
  ol_end tool invocation : calls_only (tool_end tool invocation);
  ol_updates : calls_only tool_updates;
  ol_ready n : calls_only (tool_ready n);
}.
Context {OL : OutsideLaws}.

Variable token : nat.
(** The agent's state when the loop started. *)
Variable s0 : State.

Definition events (history : list Happening) : list (AgentEvent Number M) :=
  omap (fun x => match x with Emitted event => Some event | _ => None end) history.

(** What the events make of the agent's state. *)
Definition state_after (history : list Happening) : State :=
  fold_left (fun s event => sink_state event s) (events history) s0.

(** The messages whose end the events report. *)
Definition ended_in (history : list Happening) : list M :=
  omap (fun event => match event with MessageEnd message => Some message | _ => None end) (events history).

(** A transcript in the course of a run: messages are appended as they end, and in between the outside edits it. *)
Inductive course (start : list M) : list M -> list M -> Prop :=
| course_start : course start [] start
| course_ended ended messages message :
    course start ended messages -> course start (ended ++ [message]) (messages ++ [message])
| course_edited ended messages messages' :
    course start ended messages -> edit messages messages' -> course start ended messages'.

(** Without edits it only grows. *)
Lemma course_exact start ended messages :
  course start ended messages -> (forall before after, edit before after -> after = before) ->
  messages = start ++ ended.
Proof.
  induction 1 as [|ended messages message _ IH|ended messages messages' _ IH Hedit]; intros Hnone.
  - by rewrite app_nil_r.
  - by rewrite (IH Hnone), (assoc_L (++)).
  - by rewrite (Hnone _ _ Hedit), (IH Hnone).
Qed.

(** The messages that ended since the last edit are at the end. *)
Lemma course_tail start ended messages :
  course start ended messages ->
  exists before after base, ended = before ++ after /\ messages = base ++ after
    /\ (before = [] /\ base = start \/ exists edited, course start before edited /\ edit edited base).
Proof.
  induction 1 as [|ended messages message _ (before & after & base & -> & -> & Hbase)|ended messages messages' Hc IH Hedit].
  - exists [], [], start. rewrite !app_nil_r. split; [done|]. split; [done|]. by left.
  - exists before, (after ++ [message]), base. by rewrite !(assoc_L (++)).
  - exists ended, [], messages'. rewrite !app_nil_r. split; [done|]. split; [done|]. right. by exists messages.
Qed.

(** What is streaming, what is pending and the error are those of another state, or were cleared by a late reset. *)
Definition at_most (s s' : State) : Prop :=
  (sa_streaming_message s = sa_streaming_message s' \/ late /\ sa_streaming_message s = None) /\
  (sa_pending_tool_calls s = sa_pending_tool_calls s' \/ late /\ sa_pending_tool_calls s ⊆ sa_pending_tool_calls s') /\
  (sa_error_message s = sa_error_message s' \/ late /\ sa_error_message s = None).

(** While the run holds the slot, the agent is what the events and the outside made of it. *)
Definition follows (w : RunWorld) (history : list Happening) : Prop :=
  in_run (rw_agent w) = Some token /\ in_running (rw_agent w) = true /\
  course (sa_messages s0) (ended_in history) (sa_messages (in_state (rw_agent w))) /\
  at_most (in_state (rw_agent w)) (state_after history).

Lemma follows_start (w : RunWorld) :
  in_run (rw_agent w) = Some token -> in_running (rw_agent w) = true -> in_state (rw_agent w) = s0 -> follows w [].
Proof. intros Hrun Hrunning Hs. unfold follows. rewrite Hs. repeat split; try done; first [apply course_start|by left]. Qed.

Lemma sink_messages event (s : State) :
  sa_messages (sink_state event s) = sa_messages s ++ match event with MessageEnd message => [message] | _ => [] end.
Proof.
  destruct event; cbn; rewrite ?app_nil_r; try done. by destruct (as_assistant message ≫= as_error_message).
Qed.

Lemma at_most_sink event s s' : at_most s s' -> at_most (sink_state event s) (sink_state event s').
Proof.
  intros (Hs & Hp & He). unfold at_most.
  destruct event; cbn; try (destruct (as_assistant message ≫= as_error_message); cbn); repeat split;
    first [exact Hs|exact Hp|exact He|by left
      |destruct Hs as [->|[? ->]]; [by left|by right]
      |destruct Hp as [->|[? Hp]]; [by left|right; split; [done|set_solver]]].
Qed.

(** A method called during a run leaves the rest alone. *)
Lemma call_in_run c (a : Inner) t :
  in_run a = Some t ->
  sa_streaming_message (in_state (call c a)) = sa_streaming_message (in_state a) /\
  sa_pending_tool_calls (in_state (call c a)) = sa_pending_tool_calls (in_state a) /\
  sa_error_message (in_state (call c a)) = sa_error_message (in_state a) /\
  (is_quiet c = true -> sa_messages (in_state (call c a)) = sa_messages (in_state a)).
Proof.
  intros Hrun. destruct c; try done; cbn [call].
  - unfold abort. by rewrite Hrun.
  - unfold reset, reset_check. by rewrite Hrun.
Qed.

Lemma follows_allowed (a a' : Inner) k e k' e' history :
  follows (MkRunWorld a k e) history -> allowed edit late a a' -> follows (MkRunWorld a' k' e') history.
Proof.
  intros (Hrun & Hrunning & Hc & Hs & Hp & He) [(c & -> & Hc')|(Hlate & -> & Hedit)]; cbn in *.
  - destruct (call_slot c a) as (Hrun' & Hrunning' & _). destruct (call_in_run c a token Hrun) as (Es & Ep & Ee & Em).
    unfold follows, at_most. cbn. rewrite Hrun', Hrunning', Es, Ep, Ee. split_and!; try done.
    destruct Hc' as [Hq|Hedit]; [by rewrite Em|by eapply course_edited].
  - unfold follows, at_most. cbn. split_and!; try done; [by eapply course_edited|by right|right|by right].
    split; [done|apply empty_subseteq].
Qed.

Lemma follows_called w w' history : follows w history -> called w w' -> follows w' history.
Proof.
  destruct w as [a k e], w' as [a' k' e']. intros Hfollows Hcalls. change (rtc (allowed edit late) a a') in Hcalls.
  revert k e Hfollows. induction Hcalls as [a|a b c Hstep _ IH]; intros k e Hfollows; [done|].
  eapply (IH k e), follows_allowed; [exact Hfollows|done].
Qed.

Lemma steady_calls {A} (op : RunWorld -> A * RunWorld) : calls_only op -> steady follows op.
Proof. intros Hop w history Hw. eapply follows_called; [done|apply Hop]. Qed.

Lemma follows_listeners listeners event w history :
  follows w history -> follows (fold_left (fun w listener => on_event listener event token w) listeners w) history.
Proof.
  revert w. induction listeners as [|l listeners IH]; intros w Hw; [done|]. apply IH.
  eapply follows_called; [done|apply ol_event].
Qed.

Lemma follows_emit event w history : follows w history -> follows (agent_emit token event w) (history ++ [Emitted event]).
Proof.
  intros (Hrun & Hrunning & Hc & Hmost). unfold agent_emit. apply follows_listeners.
  split; [done|]. split; [done|]. cbn [rw_agent on_agent on_state in_state]. rewrite sink_messages. split.
  - unfold ended_in, events. rewrite !omap_app. cbn. destruct event; cbn; rewrite ?app_nil_r; try done. by constructor.
  - unfold state_after, events. rewrite omap_app, fold_left_app. cbn [omap list_omap fold_left]. by apply at_most_sink.
Qed.

Lemma follows_happens x w history :
  (forall event, x <> Emitted event) -> follows w history -> follows w (history ++ [x]).
Proof.
  intros Hx Hw. unfold follows, ended_in, state_after, events. rewrite !omap_app, fold_left_app.
  destruct x; cbn; rewrite ?app_nil_r; try done. by destruct (Hx event).
Qed.

#[local] Instance follows_steady : SteadyWorld (WO := agent_world token) follows.
Proof.
  constructor.
  - by intros w history Hw.
  - apply steady_calls, ol_clock.
  - intros tool invocation w history Hw. eapply follows_called; [done|apply ol_start].
  - intros tool invocation. apply steady_calls, ol_end.
  - apply steady_calls, ol_updates.
  - intros n. apply steady_calls, ol_ready.
  - apply follows_emit.
  - apply follows_happens.
Qed.

Lemma follows_queues : steady follows queue_steering /\ steady follows queue_follow_ups.
Proof.
  split; intros w history (Hrun & Hrunning & Hsame); [unfold queue_steering|unfold queue_follow_ups].
  - destruct (rw_skip w); [done|]. by destruct (drain _).
  - by destruct (drain _).
Qed.

Lemma follows_config (s : State) : steady_config follows (run_config s).
Proof.
  constructor; cbn.
  - destruct (ol_hooks (sa_hooks s)); constructor; intros; apply steady_calls; auto.
  - apply follows_queues.
  - apply follows_queues.
  - intros model messages options w history Hw. eapply follows_called; [done|apply ol_open].
  - apply steady_calls, ol_next.
Qed.

(** The errors of failed turns, in order. *)
Definition turn_errors (history : list Happening) : list string :=
  omap (fun event => match event with TurnEnd message _ => as_assistant message ≫= as_error_message | _ => None end)
    (events history).

(** The agent's fields are what an observer of the run sees. *)
Record progress_ok (s : State) (v : View M) (history : list Happening) : Prop := {
  po_streaming : sa_streaming_message s <> None -> exists working, vw_state v = InTurn true working;
  po_pending : forall id, id ∈ sa_pending_tool_calls s ->
    exists message_open working, vw_state v = InTurn message_open working /\ id ∈ working;
  po_error : sa_error_message s = last (turn_errors history);
}.

Lemma events_snoc history x :
  events (history ++ [x]) = events history ++ match x with Emitted event => [event] | _ => [] end.
Proof. unfold events. rewrite omap_app. by destruct x. Qed.

Lemma turn_errors_snoc history event :
  turn_errors (history ++ [Emitted event])
  = turn_errors history
    ++ match event with TurnEnd message _ => option_list (as_assistant message ≫= as_error_message) | _ => [] end.
Proof.
  unfold turn_errors. rewrite events_snoc, omap_app. f_equal. by destruct event.
Qed.

Lemma in_difference (id id' : string) (working : gmultiset string) :
  id' ∈ working -> id' <> id -> id' ∈ working ∖ {[+ id +]}.
Proof. multiset_solver. Qed.

Lemma progress_streaming event (s : State) (v : View M) :
  (sa_streaming_message s <> None -> exists working, vw_state v = InTurn true working) ->
  forall state, next_state (vw_state v) event = Some state ->
  sa_streaming_message (sink_state event s) <> None -> exists working, state = InTurn true working.
Proof.
  intros Hs state Hstate Hne.
  destruct event, (vw_state v) as [| |[] working|]; cbn in Hstate, Hne |- *; try done;
    try (case_decide; [|done]); try injection Hstate as <-; try (by eexists); try (by destruct (Hs Hne) as [? [=]]).
  destruct (as_assistant message ≫= as_error_message); by destruct (Hs Hne) as [? [=]].
Qed.

Lemma progress_pending event (s : State) (v : View M) :
  (forall id, id ∈ sa_pending_tool_calls s ->
    exists message_open working, vw_state v = InTurn message_open working /\ id ∈ working) ->
  forall state, next_state (vw_state v) event = Some state ->
  forall id, id ∈ sa_pending_tool_calls (sink_state event s) ->
    exists message_open working, state = InTurn message_open working /\ id ∈ working.
Proof.
  intros Hp state Hstate id Hid.
  destruct event, (vw_state v) as [| |[] working|]; cbn [next_state] in Hstate; cbn in Hid; try done;
    try (destruct (as_assistant message ≫= as_error_message); cbn in Hid);
    try (case_decide as Hdec; [|done]); try injection Hstate as <-;
    try (apply elem_of_union in Hid as [->%elem_of_singleton|Hid]; [eexists _, _; split; [done|multiset_solver]|]);
    try (apply elem_of_difference in Hid as [Hid Hother%not_elem_of_singleton]);
    destruct (Hp id Hid) as (m & w & Heq & Hin); simplify_eq;
    try (by apply gmultiset_elem_of_empty in Hin); eexists _, _; (split; [done|]).
  all: multiset_solver.
Qed.

Lemma progress_emitted event s v v' history :
  progress_ok s v history -> next_view (T := T) v (Emitted event) = Some v' ->
  progress_ok (sink_state event s) v' (history ++ [Emitted event]).
Proof.
  intros [Hs Hp He] Hnext. cbn [next_view] in Hnext.
  destruct (next_state (vw_state v) event) as [state|] eqn:Hstate; [|done]. cbn in Hnext. injection Hnext as <-.
  constructor.
  - intros Hne. destruct (progress_streaming event s v Hs state Hstate Hne) as [working ->].
    exists working. by destruct event.
  - intros id Hid. destruct (progress_pending event s v Hp state Hstate id Hid) as (m & working & -> & Hin).
    exists m, working. by destruct event.
  - rewrite turn_errors_snoc. destruct event; cbn; rewrite ?app_nil_r; try done.
    destruct (as_assistant message ≫= as_error_message) as [error|]; cbn; [by rewrite last_snoc|by rewrite app_nil_r].
Qed.


Lemma progress_happened x s v v' history :
  (forall event, x <> Emitted event) -> progress_ok s v history -> next_view v x = Some v' ->
  progress_ok s v' (history ++ [x]).
Proof.
  intros Hx [Hs Hp He] Hnext.
  assert (turn_errors (history ++ [x]) = turn_errors history) as Herrors.
  { unfold turn_errors. rewrite events_snoc. destruct x; [by destruct (Hx event)|by rewrite app_nil_r..]. }
  destruct x; cbn in Hnext; try injection Hnext as <-; [by destruct (Hx event)|..];
    constructor; cbn; rewrite ?Herrors; done.
Qed.

(** The messages an observer saw end are those of the events. *)
Lemma ended_view history v : view_from view_init history = Some v -> vw_ended v = ended_in history.
Proof.
  revert v. induction history as [|x history IH] using rev_ind; intros v Hview; [by injection Hview as <-|].
  rewrite view_from_app in Hview. destruct (view_from view_init history) as [v'|]; [|done]. specialize (IH v' eq_refl).
  unfold view_from in Hview. unfold ended_in. rewrite events_snoc, omap_app. fold (ended_in history). rewrite <- IH.
  destruct x as [event| | | | |]; cbn in Hview; [|by injection Hview as <-; cbn; rewrite ?app_nil_r..].
  destruct (next_state (vw_state v') event) as [state|]; [|done]. injection Hview as <-. by destruct event; cbn; rewrite ?app_nil_r.
Qed.

Lemma progress_view history v :
  sa_streaming_message s0 = None -> sa_pending_tool_calls s0 = ∅ -> sa_error_message s0 = None ->
  view_from view_init history = Some v -> progress_ok (state_after history) v history.
Proof.
  intros Hstreaming Hpending Herror. revert v. induction history as [|x history IH] using rev_ind; intros v Hview.
  - injection Hview as <-. constructor; cbn; rewrite ?app_nil_r, ?Hpending; done.
  - rewrite view_from_app in Hview. destruct (view_from view_init history) as [v'|]; [|done]. specialize (IH v' eq_refl).
    unfold view_from in Hview. cbn in Hview.
    assert (Hother : (forall event, x <> Emitted event) -> state_after (history ++ [x]) = state_after history).
    { intros Hx. unfold state_after. rewrite events_snoc. destruct x; [by destruct (Hx event)|by rewrite app_nil_r..]. }
    destruct x as [event| | | | |]; [|by rewrite Hother; [by eapply progress_happened|]..].
    unfold state_after. rewrite events_snoc, fold_left_app. cbn [fold_left]. by eapply progress_emitted.
Qed.
End AgentRuns.

Section AgentProperty.
Context {Number M T Other H F L E : Type}.
Context {J : JsonCrate Number} {JE : JsonEq Number} {AM : AgentMessage Number M} {AML : AgentMessageLaws Number M}.
Context {AT : AgentTool Number T} {OU : @Outside Number M T Other H F L E}.
Variable edit : relation (list M).
Variable late : Prop.
Context {OL : OutsideLaws edit late}.
Variable validate_tool_arguments : Tool Number -> ToolCall Number -> result string (Value Number).
Notation Inner := (@Inner Number M T Other H F L).

Definition prompts_of (kind : @RunKind M) : list M := match kind with Prompt messages => messages | ContinueRun => [] end.

(** The loop of a run follows the agent's state. *)
Lemma run_loop_follows fuel token kind skip (a : Inner) (e : E) :
  in_run a = Some token -> in_running a = true ->
  let s0 := with_error None (with_streaming None (in_state a)) in
  let '(_, s) := run_loop_of validate_tool_arguments fuel token kind skip a e in
  follows edit late token s0 (s_world s) (s_history s).
Proof.
  intros Hrun Hrunning s0. unfold run_loop_of.
  set (w0 := MkRunWorld (on_state (fun s => with_error None (with_streaming None s)) a) skip e).
  assert (Hstart : follows edit late token s0 w0 []) by by apply follows_start.
  pose proof (follows_steady edit late token s0) as Hsteady.
  destruct kind as [messages|].
  - pose proof (keeps_run (WO := agent_world token) validate_tool_arguments _ fuel messages
      (run_context (in_state (rw_agent w0))) _ (follows_config edit late token s0 (in_state (rw_agent w0)))
      (MkSt w0 []) Hstart) as Hkeeps.
    destruct (run_agent_loop _ _ _ _ _ _) as [new_messages s]. exact Hkeeps.
  - pose proof (keeps_continue (WO := agent_world token) validate_tool_arguments _ fuel
      (run_context (in_state (rw_agent w0))) _ (follows_config edit late token s0 (in_state (rw_agent w0)))
      (MkSt w0 []) Hstart) as Hkeeps.
    destruct (run_agent_loop_continue _ _ _ _ _) as [answer s]. exact Hkeeps.
Qed.

(** What an observer sees of the loop. *)
Lemma run_loop_seen fuel token kind skip (a : Inner) (e : E) :
  let '(answer, s) := run_loop_of validate_tool_arguments fuel token kind skip a e in
  exists v, view_from view_init (s_history s) = Some v /\
    (forall new_messages, answer = Ok (Some new_messages) ->
      vw_state v = After /\ sublist (undeclared <$> (prompts_of kind ++ vw_polled v)) (undeclared <$> vw_started v)).
Proof.
  unfold run_loop_of. destruct kind as [messages|].
  - pose proof (from_start (AT := AT) validate_tool_arguments _ _ _
      (MkRunWorld (on_state (fun s => with_error None (with_streaming None s)) a) skip e)
      (sees_run (WO := agent_world token) validate_tool_arguments fuel messages
        (run_context (in_state (on_state (fun s => with_error None (with_streaming None s)) a)))
        (run_config (in_state (on_state (fun s => with_error None (with_streaming None s)) a))))) as Hrun.
    destruct (run_agent_loop _ _ _ _ _ _) as [[new_messages|] s]; cbn in Hrun |- *.
    + destruct Hrun as (v & [Hview _] & Hafter & _ & Hpolled & _). exists v. split; [done|]. by intros ? _.
    + destruct Hrun as (v & [Hview _] & _). by exists v.
  - pose proof (from_start (AT := AT) validate_tool_arguments _ _ _
      (MkRunWorld (on_state (fun s => with_error None (with_streaming None s)) a) skip e)
      (sees_continue (WO := agent_world token) validate_tool_arguments fuel
        (run_context (in_state (on_state (fun s => with_error None (with_streaming None s)) a)))
        (run_config (in_state (on_state (fun s => with_error None (with_streaming None s)) a))))) as Hrun.
    destruct (run_agent_loop_continue _ _ _ _ _) as [[[new_messages|]|error] s]; cbn in Hrun |- *.
    + destruct Hrun as (v & [Hview _] & Hafter & _ & Hpolled & _). exists v. split; [done|]. by intros ? _.
    + destruct Hrun as (v & [Hview _] & _). by exists v.
    + destruct Hrun as [Hview _]. by exists view_init.
Qed.

(** What can be read off the agent while a run is on. *)
Definition run_shows (s0 : list M) (s : @State Number M T Other H F) (v : View M)
    (history : list (@Happening Number M T)) : Prop :=
  course edit s0 (vw_ended v) (sa_messages s) /\
  ((forall before after, edit before after -> after = before) -> sa_messages s = s0 ++ vw_ended v) /\
  (exists before after base, vw_ended v = before ++ after /\ sa_messages s = base ++ after /\
    (before = [] /\ base = s0 \/ exists edited, course edit s0 before edited /\ edit edited base)) /\
  (sa_streaming_message s <> None -> exists working, vw_state v = InTurn true working) /\
  (forall id, id ∈ sa_pending_tool_calls s ->
    exists message_open working, vw_state v = InTurn message_open working /\ id ∈ working) /\
  (sa_error_message s = last (turn_errors history) \/ late /\ sa_error_message s = None).

Lemma follows_shows token s0 (w : @RunWorld Number M T Other H F L E) history v :
  sa_streaming_message s0 = None -> sa_pending_tool_calls s0 = ∅ -> sa_error_message s0 = None ->
  follows edit late token s0 w history -> view_from view_init history = Some v ->
  run_shows (sa_messages s0) (in_state (rw_agent w)) v history.
Proof.
  intros H1 H2 H3 (_ & _ & Hc & Hs & Hp & He) Hview. rewrite <- (ended_view history v Hview) in Hc.
  destruct (progress_view edit late s0 history v H1 H2 H3 Hview) as [Ps Pp Pe]. split; [done|].
  split; [by apply course_exact|]. split; [by apply course_tail|]. split; [|split].
  - destruct Hs as [->|[_ ->]]; [done|done].
  - intros id Hid. apply Pp. destruct Hp as [<-|[_ Hp]]; [done|by apply Hp].
  - destruct He as [->|He]; [by left|by right].
Qed.

(** C9: A run of the agent extends its transcript by exactly the messages whose end it reported, whatever methods the
    hooks, tools, listeners and other tasks call meanwhile.  At any moment of the run, the transcript is what it was
    with the messages that ended appended as they ended, and with the edits the outside made in between, the
    compaction of a hook among them: those that ended since the last edit are at its end, and without edits it is
    exactly what it was followed by all of them.  A response is being streamed only while its message is open,
    a tool call is pending only while it is at work, and the error is that of the last failed turn, or cleared by a
    reset that was admitted before the run.  When the run has ended, every prompt and every queued message it took was
    started, in order, the slot is free, and nothing is streaming or pending. *)
Theorem run_extends_transcript (options : AgentOptions) fuel kind skip (a : Inner) (e : E)
    (Hreach : agent_reachable options (a, [])) :
  match run validate_tool_arguments fuel kind skip a e with
  | StillGoing s =>
      exists v, view_from view_init (s_history s) = Some v /\
        run_shows (sa_messages (in_state a)) (in_state (rw_agent (s_world s))) v (s_history s)
  | RunEnds answer a' _ history =>
      exists v, view_from view_init history = Some v /\
        run_shows (sa_messages (in_state a)) (in_state a') v history /\
        (answer = Ok () -> vw_state v = After /\
          sublist (undeclared <$> (prompts_of kind ++ vw_polled v)) (undeclared <$> vw_started v)) /\
        in_run a' = None /\ in_running a' = false /\
        sa_streaming_message (in_state a') = None /\ sa_pending_tool_calls (in_state a') = ∅
  end.
Proof.
  destruct (agent_reachable_inv _ _ _ Hreach) as (Hguards & _ & _ & Hidle). cbn [fst snd] in *.
  assert (Hrun : in_run a = None) by by destruct (in_run a). destruct (Hidle Hrun) as [_ Hpending].
  unfold run, begin_run. rewrite Hrun. cbn [is_some]. unfold run_started.
  set (a1 := with_run _ _ _ _ a).
  pose proof (run_loop_follows fuel (in_next_token a) kind skip a1 e eq_refl eq_refl) as Hfollows.
  pose proof (run_loop_seen fuel (in_next_token a) kind skip a1 e) as Hseen.
  destruct (run_loop_of _ _ _ _ _ _ _) as [answer s]. cbv zeta in Hfollows.
  destruct Hseen as (v & Hview & Hended).
  pose proof (follows_shows _ (with_error None (with_streaming None (in_state a1))) _ _ v eq_refl Hpending eq_refl Hfollows Hview) as Hshows.
  assert (run_shows (sa_messages (in_state a)) (in_state (drop_guard true (rw_agent (s_world s)))) v (s_history s)) as Hdropped.
  { destruct Hshows as (Hc & Hexact & Htail & _ & _ & He). by split_and!. }
  destruct answer as [[new_messages|]|error].
  - exists v. split; [done|]. split; [done|]. split; [|done]. intros _. by apply (Hended new_messages).
  - by exists v.
  - exists v. split; [done|]. split; [done|]. by split.
Qed.

(** A run whose loop panicked ends like one that failed: its transcript gets a reply carrying the
    panic's message, which becomes the agent's error; the work it left behind is cancelled; and the
    slot is free. *)
Theorem panicked_run_reports (token : nat) (error : string) (s : @St Number M T (@RunWorld Number M T Other H F L E))
    (Hrun : in_run (rw_agent (s_world s)) = Some token) (Hrunning : in_running (rw_agent (s_world s)) = true) :
  match run_panicked (OU := OU) token error s with
  | StillGoing _ => False
  | RunEnds answer a' _ history =>
      answer = Ok () /\ token ∈ in_cancelled a' /\ in_run a' = None /\ in_running a' = false /\
      (sa_error_message (in_state a') = Some error \/ late /\ sa_error_message (in_state a') = None) /\
      exists reply : AssistantMessage Number,
        course edit (sa_messages (in_state (rw_agent (s_world s)))) [from_message (Assistant reply)]
          (sa_messages (in_state a')) /\
        as_error_message reply = Some error /\ last history = Some (Emitted (AgentEnd [from_message (Assistant reply)]))
  end.
Proof.
  unfold run_panicked, end_failed_run, ask, emit, note, tell, mbind, run_bind. cbn -[agent_emit].
  set (aborted := bool_decide _). set (w := s_world s) in *. set (s0 := in_state (rw_agent w)).
  assert (Hstart : follows edit late token s0 w []) by by apply follows_start.
  assert (Hclock : follows edit late token s0 (outside_clock w).2 []).
  { apply (follows_called edit late token s0 w); [exact Hstart|]. exact (ol_clock edit late w). }
  destruct (outside_clock w) as [now w1]. cbn -[agent_emit] in *.
  set (reply := MkAssistantMessage _ _ _ _ _ _ _ _ _ _). set (message := from_message (Assistant reply)).
  pose proof (follows_emit edit late token s0 (MessageStart message) _ _ Hclock) as H1.
  pose proof (follows_emit edit late token s0 (MessageEnd message) _ _ H1) as H2.
  pose proof (follows_emit edit late token s0 (TurnEnd message []) _ _ H2) as H3.
  pose proof (follows_emit edit late token s0 (AgentEnd [message]) _ _ H3) as (Hrun' & _ & Hc & _ & _ & He).
  rewrite Hrun'. split_and!; try done.
  - by apply elem_of_union_l, elem_of_singleton.
  - destruct He as [->|He]; [left|by right]. unfold state_after. rewrite !events_snoc, !fold_left_app. cbn.
    unfold as_assistant, message. by rewrite as_message_from.
  - exists reply. split; [exact Hc|split; [done|by rewrite last_snoc]].
Qed.
End AgentProperty.

(** ** A concrete agent *)

(** The provider, tool and world of [AgentRun.Demo]; a listener that steers once, when the first tool
    ends, and compacts the transcript when a turn with tool results ends. *)
Module AgentDemo.
Import Validation.Toy AgentRun.Demo.

Notation DemoWorld := (@RunWorld JsonNumber (Message JsonNumber) (Tool JsonNumber) () () () () nat).

Definition steered : Message JsonNumber := User (MkUserMessage [content_new_text "and then?"] 0).

(** The first message and the last. *)
Definition compacted (messages : list (Message JsonNumber)) : list (Message JsonNumber) :=
  option_list (head messages) ++ option_list (last messages).

#[export] Instance demo_outside : @Outside JsonNumber (Message JsonNumber) (Tool JsonNumber) () () () () nat := {|
  hooks_of _ := NoHooks;
  provider_of _ := {|
    open_stream _ _ _ w := MkRunWorld (rw_agent w) (rw_skip w) (S (rw_outside w));
    stream_budget _ := 1%nat;
    stream_next w :=
      (Some (EventDone (if (rw_outside w =? 1)%nat then demo_calls else demo_message [assistant_new_text "ok"] Stop)), w);
  |};
  on_event _ event _ w :=
    match event with
    | ToolExecutionEnd id _ _ _ => if String.eqb id "a" then on_agent (steer steered) w else w
    | TurnEnd _ (_ :: _) => on_agent (fun a => replace_messages (compacted (sa_messages (in_state a))) a) w
    | _ => w
    end;
  outside_clock w := (0, w);
  tool_start _ _ w := w;
  tool_end _ _ w := (Executes (result_text "done"), w);
  tool_updates w := ([], w);
  tool_ready _ w := (0%nat, w);
|}.

Definition demo_edit (before after : list (Message JsonNumber)) : Prop := after = compacted before.

Lemma called_refl (w : DemoWorld) : called demo_edit False w w.
Proof. constructor. Qed.

#[export] Instance demo_outside_laws : OutsideLaws (OU := demo_outside) demo_edit False.
Proof.
  constructor; try (repeat intro; apply called_refl).
  - intros hooks. constructor; repeat intro; apply called_refl.
  - intros provider model messages options w. constructor.
  - intros listener event token w. destruct event as [| | |message [|result results]| | | | | |]; try apply called_refl.
    + apply rtc_once. left. exists (CallReplace (compacted (sa_messages (in_state (rw_agent w))))). split; [done|by right].
    + cbn. destruct (String.eqb _ _); [|apply called_refl]. apply rtc_once. left. exists (CallSteer steered). split; [done|by left].
Qed.

Definition demo_options : @AgentOptions JsonNumber (Message JsonNumber) (Tool JsonNumber) () () () :=
  MkAgentOptions demo_model Off "Be brief." [demo_read] [] () () Parallel OneAtATime OneAtATime (MkStreamOptions None None ()).

Definition demo_agent : @Inner JsonNumber (Message JsonNumber) (Tool JsonNumber) () () () () :=
  (subscribe () (agent_new demo_options)).2.

Lemma demo_reachable : agent_reachable demo_options (demo_agent, []).
Proof. exists 0%nat. apply rtc_once. exact (step_call (CallSubscribe ()) _ _ _). Qed.

Notation demo_run_of :=
  (run (OU := demo_outside) demo_validate 4 (Prompt [demo_prompt]) false demo_agent 0%nat).

(** The turn of the tools is compacted, and the steered message is answered before the run ends. *)
Example demo_agent_run :
  match demo_run_of with
  | RunEnds (Ok ()) agent _ _ =>
      role <$> sa_messages (in_state agent)
      = ["system"; "toolResult"; "user"; "assistant"]
  | _ => False
  end.
Proof. vm_compute. reflexivity. Qed.
End AgentDemo.
Import Validation.Toy AgentRun.Demo AgentDemo.

Lemma one_run_at_a_time_witness :
  exists agent : @Inner JsonNumber (Message JsonNumber) (Tool JsonNumber) () () () (),
    agent_reachable demo_options (agent, [0%nat]) /\
    in_running agent = true /\ begin_run agent = (Err AlreadyRunning, agent) /\ in_running (drop_guard true agent) = false.
Proof.
  assert (Hreach : agent_reachable demo_options ((begin_run demo_agent).2, [0%nat])).
  { exists 0%nat. eapply rtc_l; [exact (step_call (CallSubscribe ()) _ _ _)|]. apply rtc_once, step_begin. reflexivity. }
  eexists. split; [exact Hreach|].
  destruct (one_run_at_a_time _ _ _ Hreach) as (_ & Hrunning & Hrefused & Hfrees).
  split; [exact Hrunning|]. split; [apply Hrefused; discriminate|].
  destruct (Hfrees 0%nat true eq_refl) as (_ & Hfree & _). exact Hfree.
Defined.

Lemma run_extends_transcript_witness :
  match demo_run_of with
  | StillGoing _ => False
  | RunEnds answer agent _ history =>
      exists v, answer = Ok () /\ view_from view_init history = Some v /\
        course demo_edit (sa_messages (in_state demo_agent)) (vw_ended v) (sa_messages (in_state agent)) /\
        vw_state v = After /\ in_run agent = None
  end.
Proof.
  pose proof (run_extends_transcript (OU := demo_outside) demo_edit False (OL := demo_outside_laws) demo_validate
    demo_options 4 (Prompt [demo_prompt]) false demo_agent 0%nat demo_reachable) as H.
  pose proof demo_agent_run as Hends.
  destruct (run _ _ _ _ _ _) as [s|[[]|error] agent e history]; [destruct Hends| |destruct Hends].
  destruct H as (v & Hview & (Hcourse & _) & Hafter & Hrun & _). exists v.
  split; [reflexivity|]. split; [exact Hview|]. split; [exact Hcourse|]. split; [apply Hafter; reflexivity|exact Hrun].
Defined.

Lemma panicked_run_reports_witness :
  let s := MkSt (MkRunWorld (begin_run demo_agent).2 false 0%nat) [] in
  match run_panicked (OU := demo_outside) 0%nat "boom" s with
  | StillGoing _ => False
  | RunEnds _ agent _ _ => sa_error_message (in_state agent) = Some "boom" /\ in_run agent = None
  end.
Proof.
  intros s.
  pose proof (panicked_run_reports (OU := demo_outside) demo_edit False (OL := demo_outside_laws)
    0%nat "boom" s eq_refl eq_refl) as H.
  destruct (run_panicked _ _ _) as [s'|answer agent e history]; [exact H|].
  destruct H as (_ & _ & Hrun & _ & [Herror|[[] _]] & _). split; [exact Herror|exact Hrun].
Defined.
